(** * Repo Inspector: card generator codec, trend chart and score dial

    A shallow embedding of the client script of Repo Inspector (the
    report/generator page script) together with the properties its
    specification states about it.

    Conventions of the embedding.
    - JavaScript strings are [string]s read as ASCII text: the case
      mappings, [trim] and the class [\s] are those of ASCII, so a
      statement that depends on them for arbitrary text says so by
      taking the text to be ASCII.
    - JavaScript numbers are exact rationals ([Q]) extended, where the
      script can meet them, with [NaN] and the two infinities; a decimal
      text beyond the range of the doubles reads as an infinity, as
      [Number] has it, but the rounding of a number within the range to
      the nearest double is not modelled.
    - The DOM of the generator page is an explicit record of the values
      of its controls; every control the script looks up by id is taken
      to be present on the page.
    - Builtins whose result the script only passes on (number to string
      conversion of fractions, [new URL]) are section variables, so the
      theorems hold whatever the host does there. *)

From Stdlib Require Import String Ascii List Bool Arith ZArith QArith Lia.
From Stdlib Require Import Qround Lqa.
From Stdlib Require Decimal DecimalString DecimalPos.
Import ListNotations.

Local Close Scope Q_scope.
Local Open Scope list_scope.
Local Open Scope string_scope.

(* ===================================================================== *)
(** ** String builtins used by the script                                *)
(* ===================================================================== *)

Module JsString.

(** The characters [String.prototype.trim] strips and the class [\s]
    matches, within ASCII: tab, line feed, vertical tab, form feed,
    carriage return and space. *)
Definition is_space (c : ascii) : bool :=
  let n := nat_of_ascii c in
  ((9 <=? n)%nat && (n <=? 13)%nat) || (n =? 32)%nat.

Definition is_upper (c : ascii) : bool :=
  let n := nat_of_ascii c in (65 <=? n)%nat && (n <=? 90)%nat.

Definition is_lower (c : ascii) : bool :=
  let n := nat_of_ascii c in (97 <=? n)%nat && (n <=? 122)%nat.

Definition is_digit (c : ascii) : bool :=
  let n := nat_of_ascii c in (48 <=? n)%nat && (n <=? 57)%nat.

Definition lower_char (c : ascii) : ascii :=
  if is_upper c then ascii_of_nat (nat_of_ascii c + 32) else c.

Definition upper_char (c : ascii) : ascii :=
  if is_lower c then ascii_of_nat (nat_of_ascii c - 32) else c.

Fixpoint map_chars (f : ascii -> ascii) (s : string) : string :=
  match s with
  | EmptyString => EmptyString
  | String c r => String (f c) (map_chars f r)
  end.

Definition toLowerCase : string -> string := map_chars lower_char.
Definition toUpperCase : string -> string := map_chars upper_char.

Fixpoint all_chars (p : ascii -> bool) (s : string) : bool :=
  match s with
  | EmptyString => true
  | String c r => p c && all_chars p r
  end.

Fixpoint trim_start (s : string) : string :=
  match s with
  | EmptyString => EmptyString
  | String c r => if is_space c then trim_start r else s
  end.

Fixpoint trim_end (s : string) : string :=
  match s with
  | EmptyString => EmptyString
  | String c r =>
      match trim_end r with
      | EmptyString => if is_space c then EmptyString else String c EmptyString
      | r' => String c r'
      end
  end.

Definition trim (s : string) : string := trim_end (trim_start s).

(** [s.split(sep)] for a one-character separator. *)
Fixpoint split (sep : ascii) (s : string) : list string :=
  match s with
  | EmptyString => [EmptyString]
  | String c r =>
      if Ascii.eqb c sep then EmptyString :: split sep r
      else match split sep r with
           | [] => [String c EmptyString]
           | h :: t => String c h :: t
           end
  end.

(** [xs.join(sep)] *)
Definition join (sep : string) (xs : list string) : string := String.concat sep xs.

(** Truthiness of a string: only the empty string is falsy. *)
Definition truthy (s : string) : bool := negb (s =? "").

(** [s || d] *)
Definition or_else (s d : string) : string := if truthy s then s else d.

(** [.filter(Boolean)] on a list of strings. *)
Definition filter_truthy (xs : list string) : list string := filter truthy xs.

(** [xs.includes(x)], also [set.has(x)]. *)
Definition includes (xs : list string) (x : string) : bool :=
  existsb (String.eqb x) xs.

(** Equality of two strings up to ASCII case (the [i] flag of a regular
    expression on a literal). *)
Definition eqb_ci (a b : string) : bool := toLowerCase a =? toLowerCase b.

(** [s.replace(/\.git$/i, "")]: the only place a match can start is four
    characters before the end. *)
Fixpoint strip_git (s : string) : string :=
  match s with
  | EmptyString => EmptyString
  | String c r => if eqb_ci s ".git" then EmptyString else String c (strip_git r)
  end.

(** [s.replace(/^<|>$/g, "")]: one leading [<] and one trailing [>]. *)
Fixpoint strip_trailing_gt (s : string) : string :=
  match s with
  | EmptyString => EmptyString
  | String c r =>
      match r with
      | EmptyString => if Ascii.eqb c ">" then EmptyString else s
      | _ => String c (strip_trailing_gt r)
      end
  end.

Definition strip_angle (s : string) : string :=
  match s with
  | String c r => if Ascii.eqb c "<" then strip_trailing_gt r else strip_trailing_gt s
  | EmptyString => EmptyString
  end.

(** The longest prefix of [s] whose characters satisfy [p], and the rest. *)
Fixpoint span (p : ascii -> bool) (s : string) : string * string :=
  match s with
  | EmptyString => (EmptyString, EmptyString)
  | String c r =>
      if p c then let (a, b) := span p r in (String c a, b)
      else (EmptyString, s)
  end.

(** [s] without its longest prefix of characters satisfying [p]. *)
Fixpoint drop_while (p : ascii -> bool) (s : string) : string :=
  match s with
  | EmptyString => EmptyString
  | String c r => if p c then drop_while p r else s
  end.

(** [s] cut at the first character satisfying [p]: what is before it and,
    when there is one, what is after it. *)
Fixpoint break_at (p : ascii -> bool) (s : string) : string * option string :=
  match s with
  | EmptyString => (EmptyString, None)
  | String c r =>
      if p c then (EmptyString, Some r)
      else let (a, b) := break_at p r in (String c a, b)
  end.

(** [s] without the prefix [pre], compared up to case when [ci]. *)
Fixpoint drop_prefix (ci : bool) (pre s : string) : option string :=
  match pre, s with
  | EmptyString, _ => Some s
  | String a pre', String c r =>
      if (if ci then Ascii.eqb (lower_char a) (lower_char c) else Ascii.eqb a c)
      then drop_prefix ci pre' r else None
  | String _ _, EmptyString => None
  end.

End JsString.

(* ===================================================================== *)
(** ** Numbers                                                           *)
(* ===================================================================== *)

Module JsNumber.
Import JsString.

Local Open Scope Q_scope.
Local Open Scope string_scope.

Inductive number :=
| NaN
| PosInf
| NegInf
| Fin (q : Q).

Definition isFinite (n : number) : bool :=
  match n with Fin _ => true | _ => false end.

Definition math_min (a b : number) : number :=
  match a, b with
  | NaN, _ | _, NaN => NaN
  | NegInf, _ | _, NegInf => NegInf
  | PosInf, x => x
  | x, PosInf => x
  | Fin p, Fin q => if Qle_bool p q then a else b
  end.

Definition math_max (a b : number) : number :=
  match a, b with
  | NaN, _ | _, NaN => NaN
  | PosInf, _ | _, PosInf => PosInf
  | NegInf, x => x
  | x, NegInf => x
  | Fin p, Fin q => if Qle_bool q p then a else b
  end.

(** [Math.round] of a finite number: the nearest integer, ties upwards. *)
Definition math_round (q : Q) : Z := Qfloor (q + (1 # 2)).

(** *** [Number(string)] *)

(** The doubles end at [2^1024 - 2^971].  A literal whose value is at or
    beyond [2^1024 - 2^970], half way to [2^1024], reads as an infinity;
    below that it reads as a finite number, whose rounding to the
    nearest double (to zero, for a value too small) is not modelled. *)
Definition overflow : Z := 2 ^ 1024 - 2 ^ 970.

Definition to_double (q : Q) : number :=
  if Qle_bool (inject_Z overflow) q then PosInf
  else if Qle_bool q (inject_Z (- overflow)) then NegInf
  else Fin q.

(** The value of a possibly empty run of decimal digits. *)
Definition digits_value (s : string) : option Z :=
  option_map Z.of_uint (DecimalString.NilEmpty.uint_of_string s).

Definition is_e (c : ascii) : bool := Ascii.eqb c "e" || Ascii.eqb c "E".
Definition is_dot (c : ascii) : bool := Ascii.eqb c ".".

(** [m * 10^e] *)
Definition scale10 (m e : Z) : Q :=
  if (0 <=? e)%Z then inject_Z (m * 10 ^ e)
  else Qred (Qmake m (Z.to_pos (10 ^ (- e)))).

(** The exponent part after the [e], when there is one. *)
Definition exponent_value (ex : option string) : option Z :=
  match ex with
  | None => Some 0%Z
  | Some t =>
      let '(neg, ds) :=
        match t with
        | String "-" r => (true, r)
        | String "+" r => (false, r)
        | _ => (false, t)
        end in
      if truthy ds
      then option_map (fun v => if neg then (- v)%Z else v) (digits_value ds)
      else None
  end.

(** An unsigned decimal literal: digits, an optional fraction, an
    optional exponent; at least one digit before the exponent. *)
Definition unsigned_decimal (s : string) : option Q :=
  let (mant, ex) := break_at is_e s in
  let (ip, fpo) := break_at is_dot mant in
  let fp := match fpo with Some f => f | None => "" end in
  if truthy ip || truthy fp then
    match digits_value ip, digits_value fp, exponent_value ex with
    | Some i, Some f, Some e =>
        let k := Z.of_nat (String.length fp) in
        Some (scale10 (i * 10 ^ k + f) (e - k))
    | _, _, _ => None
    end
  else None.

Definition signed_decimal (s : string) : number :=
  let '(neg, body) :=
    match s with
    | String c r =>
        if Ascii.eqb c "-" then (true, r)
        else if Ascii.eqb c "+" then (false, r)
        else (false, s)
    | EmptyString => (false, s)
    end in
  if body =? "Infinity" then (if neg then NegInf else PosInf)
  else match unsigned_decimal body with
       | Some q => to_double (if neg then Qred (- q) else q)
       | None => NaN
       end.

(** Digits of a literal in radix 16, 8 or 2. *)
Definition radix_digit (radix : Z) (c : ascii) : option Z :=
  let n := Z.of_nat (nat_of_ascii (lower_char c)) in
  let v := if is_digit c then (n - 48)%Z
           else if is_lower (lower_char c) then (n - 87)%Z else radix in
  if (v <? radix)%Z then Some v else None.

Fixpoint radix_value (radix : Z) (acc : Z) (s : string) : option Z :=
  match s with
  | EmptyString => Some acc
  | String c r =>
      match radix_digit radix c with
      | Some v => radix_value radix (acc * radix + v)%Z r
      | None => None
      end
  end.

Definition radix_literal (radix : Z) (ds : string) : number :=
  if truthy ds then
    match radix_value radix 0 ds with
    | Some v => to_double (inject_Z v)
    | None => NaN
    end
  else NaN.

(** [Number(s)] for a string [s]. *)
Definition of_string (s : string) : number :=
  let t := trim s in
  match t with
  | EmptyString => Fin 0
  | String z (String x ds) =>
      if Ascii.eqb z "0" && Ascii.eqb (lower_char x) "x" then radix_literal 16 ds
      else if Ascii.eqb z "0" && Ascii.eqb (lower_char x) "o" then radix_literal 8 ds
      else if Ascii.eqb z "0" && Ascii.eqb (lower_char x) "b" then radix_literal 2 ds
      else signed_decimal t
  | _ => signed_decimal t
  end.

(** *** [String(number)] *)

Definition string_of_Z (z : Z) : string := DecimalString.NilZero.string_of_int (Z.to_int z).

Section ToString.

(** The host's printing of the numbers that are not integers below
    [10^21] in magnitude. *)
Variable show : Q -> string.

Definition to_string (n : number) : string :=
  match n with
  | NaN => "NaN"
  | PosInf => "Infinity"
  | NegInf => "-Infinity"
  | Fin q =>
      let r := Qred q in
      if (Qden r =? 1)%positive && (Z.abs (Qnum r) <? 10 ^ 21)%Z
      then string_of_Z (Qnum r)
      else show q
  end.

End ToString.

(** [clampNumber(value, min, max, fallback)] on a string [value]. *)
Definition clampNumber (value : string) (min max fallback : number) : number :=
  let number := of_string value in
  if negb (isFinite number) then fallback
  else math_max min (math_min max number).

End JsNumber.

(* ===================================================================== *)
(** ** URL builtins                                                      *)
(* ===================================================================== *)

Module Url.
Import JsString.

Local Open Scope string_scope.

(** The two parts of a parsed URL the script reads. *)
Record URL := mkURL {
  pathname : string;
  searchParams : list (string * string)
}.

(** [params.get(name)]: the first value under [name], or null. *)
Fixpoint get (name : string) (params : list (string * string)) : option string :=
  match params with
  | [] => None
  | (k, v) :: tl => if k =? name then Some v else get name tl
  end.

Definition remove_all (name : string) (params : list (string * string)) :=
  filter (fun kv => negb (fst kv =? name)) params.

(** [params.set(name, value)]: the first entry under [name] takes the
    value and the others go; with none, the pair is appended. *)
Fixpoint set (name value : string) (params : list (string * string)) :=
  match params with
  | [] => [(name, value)]
  | (k, v) :: tl =>
      if k =? name then (k, value) :: remove_all name tl
      else (k, v) :: set name value tl
  end.

(** *** Percent-encoding *)

Definition hex_char (n : nat) : ascii :=
  match String.get n "0123456789ABCDEF" with
  | Some c => c
  | None => "0"%char
  end.

Definition percent_byte (c : ascii) : string :=
  let n := nat_of_ascii c in
  String "%" (String (hex_char (n / 16)) (String (hex_char (n mod 16)) EmptyString)).

Definition is_alnum (c : ascii) : bool := is_digit c || is_upper c || is_lower c.

Definition in_chars (set : string) (c : ascii) : bool :=
  existsb (Ascii.eqb c) (list_ascii_of_string set).

(** [encodeURIComponent] leaves letters, digits and [-_.!~*'()] alone. *)
Definition uri_unreserved (c : ascii) : bool := is_alnum c || in_chars "-_.!~*'()" c.

Fixpoint encode_with (keep : ascii -> bool) (s : string) : string :=
  match s with
  | EmptyString => EmptyString
  | String c r =>
      (if keep c then String c EmptyString else percent_byte c)
      ++ encode_with keep r
  end.

Definition encodeURIComponent : string -> string := encode_with uri_unreserved.

Definition hex_value (c : ascii) : option nat :=
  let n := nat_of_ascii c in
  if is_digit c then Some (n - 48)
  else if (65 <=? n)%nat && (n <=? 70)%nat then Some (n - 55)
  else if (97 <=? n)%nat && (n <=? 102)%nat then Some (n - 87)
  else None.

Definition hex_pair (h l : ascii) : option nat :=
  match hex_value h, hex_value l with
  | Some a, Some b => Some (16 * a + b)
  | _, _ => None
  end.

(** What [decodeURIComponent] still expects after the bytes read so far
    of an escaped UTF-8 sequence: how many continuation bytes, and the
    range the next one has to lie in. *)
Record expect := mkExpect { more : nat; lo : nat; hi : nat }.

Definition lead_byte (b : nat) : option expect :=
  if (b <? 194)%nat then None
  else if (b <? 224)%nat then Some (mkExpect 1 128 191)
  else if (b =? 224)%nat then Some (mkExpect 2 160 191)
  else if (b =? 237)%nat then Some (mkExpect 2 128 159)
  else if (b <? 240)%nat then Some (mkExpect 2 128 191)
  else if (b =? 240)%nat then Some (mkExpect 3 144 191)
  else if (b <? 244)%nat then Some (mkExpect 3 128 191)
  else if (b =? 244)%nat then Some (mkExpect 3 128 143)
  else None.

(** [decodeURIComponent]; [None] is the URIError it throws on a
    malformed escape or an escaped sequence that is not UTF-8. *)
Fixpoint decode_from (st : option expect) (s : string) : option string :=
  match s with
  | EmptyString => match st with None => Some EmptyString | Some _ => None end
  | String c r =>
      if Ascii.eqb c "%" then
        match r with
        | String h (String l r2) =>
            match hex_pair h l with
            | None => None
            | Some b =>
                match st with
                | None =>
                    if (b <? 128)%nat
                    then option_map (String (ascii_of_nat b)) (decode_from None r2)
                    else match lead_byte b with
                         | Some e =>
                             option_map (String (ascii_of_nat b))
                                        (decode_from (Some e) r2)
                         | None => None
                         end
                | Some e =>
                    if (lo e <=? b)%nat && (b <=? hi e)%nat
                    then option_map (String (ascii_of_nat b))
                           (decode_from (match more e with
                                         | S (S k) => Some (mkExpect (S k) 128 191)
                                         | _ => None
                                         end) r2)
                    else None
                end
            end
        | _ => None
        end
      else
        match st with
        | None => option_map (String c) (decode_from None r)
        | Some _ => None
        end
  end.

Definition decodeURIComponent (s : string) : option string := decode_from None s.

(** *** [application/x-www-form-urlencoded] *)

Definition form_keep (c : ascii) : bool := is_alnum c || in_chars "*-._" c.

Fixpoint form_encode (s : string) : string :=
  match s with
  | EmptyString => EmptyString
  | String c r =>
      (if Ascii.eqb c " " then "+"
       else if form_keep c then String c EmptyString
       else percent_byte c)
      ++ form_encode r
  end.

(** [params.toString()] *)
Definition serialize (params : list (string * string)) : string :=
  join "&" (map (fun kv => form_encode (fst kv) ++ "=" ++ form_encode (snd kv)) params).

(** Percent-decoding of a query component: [+] is a space and an escape
    that is not two hexadecimal digits stays as it is. *)
Fixpoint form_decode (s : string) : string :=
  match s with
  | EmptyString => EmptyString
  | String c r =>
      if Ascii.eqb c "+" then String " " (form_decode r)
      else if Ascii.eqb c "%" then
        match r with
        | String h (String l r2) =>
            match hex_pair h l with
            | Some b => String (ascii_of_nat b) (form_decode r2)
            | None => String c (form_decode r)
            end
        | _ => String c (form_decode r)
        end
      else String c (form_decode r)
  end.

Definition parse_pair (piece : string) : string * string :=
  match break_at (Ascii.eqb "=") piece with
  | (name, Some value) => (form_decode name, form_decode value)
  | (name, None) => (form_decode name, EmptyString)
  end.

(** The entries of [url.searchParams] for the query string [q]. *)
Definition parse_query (q : string) : list (string * string) :=
  map parse_pair (filter_truthy (split "&" q)).

(** *** A reference parser for [new URL(input, window.location.origin)]

    The properties below hold for any parser; this one follows the URL
    standard on the inputs the examples use: [http(s)] URLs, scheme-
    relative, path-absolute and path-relative references against an
    origin (whose own path is [/]).  The authority is only required to
    be non-empty, and a scheme that is not [http(s)], [ws(s)] or [ftp]
    gets the rest of the input up to the query as its path. *)

Definition is_tab_or_newline (c : ascii) : bool :=
  let n := nat_of_ascii c in (n =? 9)%nat || (n =? 10)%nat || (n =? 13)%nat.

Definition is_c0_or_space (c : ascii) : bool := (nat_of_ascii c <=? 32)%nat.

Fixpoint filter_chars (p : ascii -> bool) (s : string) : string :=
  match s with
  | EmptyString => EmptyString
  | String c r => if p c then String c (filter_chars p r) else filter_chars p r
  end.

Fixpoint drop_while_end (p : ascii -> bool) (s : string) : string :=
  match s with
  | EmptyString => EmptyString
  | String c r =>
      match drop_while_end p r with
      | EmptyString => if p c then EmptyString else String c EmptyString
      | r' => String c r'
      end
  end.

Definition is_slash (c : ascii) : bool := Ascii.eqb c "/" || Ascii.eqb c "\".

Definition is_scheme_char (c : ascii) : bool := is_alnum c || in_chars "+-." c.

(** The scheme of an absolute URL, in lower case, and what follows its
    colon. *)
Definition scheme_of (s : string) : option (string * string) :=
  match s with
  | String c _ =>
      if is_upper c || is_lower c then
        match span is_scheme_char s with
        | (scheme, String ":" rest) => Some (toLowerCase scheme, rest)
        | _ => None
        end
      else None
  | EmptyString => None
  end.

Definition is_special (scheme : string) : bool :=
  includes ["http"; "https"; "ws"; "wss"; "ftp"] scheme.

Definition path_keep (c : ascii) : bool :=
  let n := nat_of_ascii c in
  (32 <? n)%nat && (n <? 127)%nat && negb (n =? 34)%nat
  && negb (in_chars "#<>?^`{}" c).

Definition is_single_dot (seg : string) : bool :=
  includes ["."; "%2e"] (toLowerCase seg).

Definition is_double_dot (seg : string) : bool :=
  includes [".."; ".%2e"; "%2e."; "%2e%2e"] (toLowerCase seg).

Definition pop (stack : list string) : list string :=
  match stack with
  | [] => []
  | _ :: below => below
  end.

Fixpoint walk (stack : list string) (segs : list string) : list string :=
  match segs with
  | [] => rev stack
  | seg :: tl =>
      let last := match tl with [] => true | _ => false end in
      if is_double_dot seg then
        if last then walk (EmptyString :: pop stack) tl else walk (pop stack) tl
      else if is_single_dot seg then
        if last then walk (EmptyString :: stack) tl else walk stack tl
      else walk (encode_with path_keep seg :: stack) tl
  end.

(** The path of a hierarchical URL: back slashes count as slashes, dot
    segments are resolved and the characters a path cannot hold are
    escaped. *)
Definition normalize_path (path : string) : string :=
  let p := map_chars (fun c => if Ascii.eqb c "\" then "/"%char else c) path in
  let body := match p with String "/" r => r | _ => p end in
  String "/" (join "/" (walk [] (split "/" body))).

Definition after_authority (s : string) : option string :=
  match span (fun c => negb (is_slash c)) (drop_while is_slash s) with
  | (EmptyString, _) => None
  | (_, path) => Some (normalize_path path)
  end.

Definition parse (input : string) : option URL :=
  let s := drop_while_end is_c0_or_space (drop_while is_c0_or_space input) in
  let s := filter_chars (fun c => negb (is_tab_or_newline c)) s in
  let (nofrag, _) := break_at (Ascii.eqb "#") s in
  let (before, query) := break_at (Ascii.eqb "?") nofrag in
  let params := match query with Some q => parse_query q | None => [] end in
  let path :=
    match scheme_of before with
    | Some (scheme, rest) =>
        if is_special scheme then after_authority rest else Some rest
    | None =>
        match before with
        | String a (String b _) =>
            if is_slash a && is_slash b then after_authority before
            else if is_slash a then Some (normalize_path before)
            else Some (normalize_path (String "/" before))
        | String a EmptyString =>
            if is_slash a then Some "/" else Some (normalize_path (String "/" before))
        | EmptyString => Some "/"
        end
    end in
  option_map (fun p => mkURL p params) path.

End Url.

(* ===================================================================== *)
(** ** Trend chart geometry ([buildSmoothPath], [renderTrendChart])      *)
(* ===================================================================== *)

Module Chart.

Local Open Scope Q_scope.
Local Open Scope string_scope.

(** A history sample as the report page receives it.  [Number(x || 0)]
    of a finite number is the number itself, so the fields are held as
    numbers. *)
Record HistorySample := mkSample {
  score_total : Q;
  commit_short : option string;
  delta : Q
}.

Record Point := mkPoint {
  px : Q;
  py : Q;
  item : HistorySample
}.

Definition width : Q := 1020.
Definition height : Q := 300.
Definition padX : Q := 42.
Definition padY : Q := 32.
Definition min : Q := 0.
Definition max : Q := 100.
Definition yLines : list Q := [0; 25; 50; 75; 100].

(** [Math.max(history.length - 1, 1)] *)
Definition x_divisor (n : nat) : Q := inject_Z (Z.max (Z.of_nat n - 1) 1).

(** The body of the [history.map] callback. *)
Definition point_x (n index : nat) : Q :=
  padX + (inject_Z (Z.of_nat index) * (width - padX * 2)) / x_divisor n.

Definition point_y (score : Q) : Q :=
  height - padY - ((score - min) * (height - padY * 2)) / (max - min).

Fixpoint map_points (n index : nat) (history : list HistorySample) : list Point :=
  match history with
  | [] => []
  | it :: tl =>
      mkPoint (point_x n index) (point_y (score_total it)) it
      :: map_points n (S index) tl
  end.

Definition chart_points (history : list HistorySample) : list Point :=
  map_points (length history) 0 history.

Section Paths.

(** Template-literal interpolation of a number. *)
Variable show : Q -> string.

(** The [for] loop of [buildSmoothPath]: one cubic segment per pair of
    consecutive points. *)
Fixpoint smooth_segments (prev : Point) (rest : list Point) : string :=
  match rest with
  | [] => ""
  | current :: tl =>
      let cx := (px prev + px current) / 2 in
      " C " ++ show cx ++ " " ++ show (py prev) ++ ", "
        ++ show cx ++ " " ++ show (py current) ++ ", "
        ++ show (px current) ++ " " ++ show (py current)
        ++ smooth_segments current tl
  end.

Definition buildSmoothPath (points : list Point) : string :=
  match points with
  | [] => ""
  | p0 :: rest => "M " ++ show (px p0) ++ " " ++ show (py p0) ++ smooth_segments p0 rest
  end.

(** What [renderTrendChart] draws: either the fallback state or the
    geometry of the chart (the markup around it is presentation). *)
Record Drawing := mkDrawing {
  points : list Point;
  linePath : string;
  areaPath : string;
  step : nat
}.

Inductive Rendered :=
| Fallback
| Drawn (d : Drawing).

(** [Math.max(1, Math.ceil(points.length / 9))] *)
Definition label_step (n : nat) : nat := Nat.max 1 ((n + 8) / 9).

Definition renderTrendChart (history : list HistorySample) : Rendered :=
  if (length history <? 2)%nat then Fallback
  else
    let pts := chart_points history in
    let line := buildSmoothPath pts in
    let baselineY := height - padY in
    let area :=
      line ++ " L " ++ show (px (last pts (mkPoint 0 0 (mkSample 0 None 0))))
           ++ " " ++ show baselineY
           ++ " L " ++ show (px (hd (mkPoint 0 0 (mkSample 0 None 0)) pts))
           ++ " " ++ show baselineY ++ " Z" in
    Drawn (mkDrawing pts line area (label_step (length pts))).

(** Which x-axis labels are shown. *)
Definition label_shown (n index : nat) : bool :=
  negb (negb (index mod label_step n =? 0)%nat && negb (index =? n - 1)%nat).

End Paths.

End Chart.

(* ===================================================================== *)
(** ** Score dial ([animateScoreDial])                                   *)
(* ===================================================================== *)

Module Dial.
Import JsNumber.

Local Open Scope Q_scope.

(** The value written to the [--score] custom property: either a number
    interpolated as it is, or its two-decimal rendering [toFixed(2)]. *)
Inductive css_value :=
| Plain (q : Q)
| Fixed2 (q : Q).

(** The number a property value denotes; [toFixed(2)] rounds to the
    nearest hundredth, ties upwards. *)
Definition css_number (v : css_value) : Q :=
  match v with
  | Plain q => q
  | Fixed2 q => inject_Z (Qfloor (q * 100 + (1 # 2))) / 100
  end.

(** The dial as the page shows it, and whether a frame callback is
    waiting to be run. *)
Record dial := mkDial {
  score : css_value;         (* --score *)
  scoreNumber : Z;           (* text of .score-number *)
  start : Q;
  target : Q;
  pending : bool
}.

(** [Number(dial.dataset.scoreTarget || 0)]; [None] is a dial without
    the attribute. *)
Definition rawTarget (scoreTarget : option string) : number :=
  match scoreTarget with
  | Some s => if JsString.truthy s then of_string s else Fin 0
  | None => Fin 0
  end.

(** [Number.isFinite(rawTarget) ? Math.max(0, Math.min(100, rawTarget)) : 0] *)
Definition target_of (scoreTarget : option string) : Q :=
  let rawTarget := rawTarget scoreTarget in
  if isFinite rawTarget then
    match math_max (Fin 0) (math_min (Fin 100) rawTarget) with
    | Fin q => q
    | _ => 0
    end
  else 0.

Definition durationMs : Q := 1200.

Definition easing (value : Q) : Q := 1 - (1 - value) ^ 3.

Definition progress_at (start now : Q) : Q :=
  let p := (now - start) / durationMs in
  if Qle_bool p 1 then p else 1.

(** [progress < 1] *)
Definition unfinished (progress : Q) : bool := negb (Qle_bool 1 progress).

(** [animateScoreDial()], called at time [now0]. *)
Definition animateScoreDial (scoreTarget : option string) (reducedMotion : bool)
    (now0 : Q) : dial :=
  let target := target_of scoreTarget in
  if reducedMotion then mkDial (Plain target) (math_round target) now0 target false
  else mkDial (Plain 0) 0 now0 target true.

(** One run of the [frame] callback at the timestamp [now]. *)
Definition frame (d : dial) (now : Q) : dial :=
  let progress := progress_at (start d) now in
  let value := target d * easing progress in
  if unfinished progress
  then mkDial (Fixed2 value) (math_round value) (start d) (target d) true
  else mkDial (Plain (target d)) (math_round (target d)) (start d) (target d) false.

(** The variant of the report viewer ([web/app.js]): the last frame
    requests no further frame and writes nothing more. *)
Definition frame_web (d : dial) (now : Q) : dial :=
  let progress := progress_at (start d) now in
  let value := target d * easing progress in
  mkDial (Fixed2 value) (math_round value) (start d) (target d)
         (unfinished progress).

(** The host runs the waiting callback once per rendering frame; a dial
    with no callback waiting is left alone. *)
Definition on_frame (step : dial -> Q -> dial) (d : dial) (now : Q) : dial :=
  if pending d then step d now else d.

Definition run (step : dial -> Q -> dial) (d : dial) (timestamps : list Q) : dial :=
  fold_left (on_frame step) timestamps d.

(** How many callbacks the host has run by the end of [timestamps]. *)
Fixpoint frames_run (step : dial -> Q -> dial) (d : dial) (timestamps : list Q) : nat :=
  match timestamps with
  | [] => 0
  | now :: tl =>
      if pending d then S (frames_run step (step d now) tl)
      else frames_run step d tl
  end.

End Dial.

(* ===================================================================== *)
(** ** Custom palette (presets, randomizing, default capture and reset)  *)
(* ===================================================================== *)

Module Palette.
Import JsString.

Local Open Scope string_scope.

Definition GENERATOR_THEME_KEYS : list string :=
  [ "bg_start"; "bg_end"; "border"; "panel"; "overlay"; "chip_bg"; "chip_text";
    "text"; "muted"; "accent"; "accent_2"; "accent_soft"; "track"; "pass";
    "warn"; "fail" ].

(** A palette object: property names with their values, in insertion
    order. *)
Definition palette := list (string * string).

(** The colour inputs of the page, [gen-color-<key>], with their current
    values.  A key with no entry is an input missing from the page. *)
Definition color_inputs := list (string * string).

Fixpoint lookup (key : string) (p : list (string * string)) : option string :=
  match p with
  | [] => None
  | (k, v) :: tl => if k =? key then Some v else lookup key tl
  end.

(** [node.value = v] for the input of [key], when the page has it. *)
Fixpoint set_input (key v : string) (inputs : color_inputs) : color_inputs :=
  match inputs with
  | [] => []
  | (k, old) :: tl =>
      if k =? key then (k, v) :: tl else (k, old) :: set_input key v tl
  end.

(** [node?.value || ""] *)
Definition input_value (key : string) (inputs : color_inputs) : string :=
  match lookup key inputs with Some v => v | None => "" end.

Definition ocean : palette :=
  [ ("bg_start", "#F8FBFF"); ("bg_end", "#EEF5FF"); ("border", "#A8CBFF");
    ("panel", "#FFFFFF"); ("overlay", "#EDF4FF"); ("chip_bg", "#E7F0FF");
    ("chip_text", "#2D4E83"); ("text", "#14284B"); ("muted", "#3F6191");
    ("accent", "#16A4E0"); ("accent_2", "#1AB9A2"); ("accent_soft", "#B8DBFF");
    ("track", "#D3E3FB"); ("pass", "#0F7F39"); ("warn", "#B55A0C");
    ("fail", "#BE1D2D") ].

Definition ember : palette :=
  [ ("bg_start", "#2E120C"); ("bg_end", "#431A12"); ("border", "#8C3E2A");
    ("panel", "#35160F"); ("overlay", "#2C130D"); ("chip_bg", "#4C2117");
    ("chip_text", "#FFD6B7"); ("text", "#FFEDE1"); ("muted", "#E5B79A");
    ("accent", "#FF6A3D"); ("accent_2", "#FFB347"); ("accent_soft", "#6B2A1D");
    ("track", "#6A2F22"); ("pass", "#58D68D"); ("warn", "#FFC14A");
    ("fail", "#FF6E6E") ].

Definition neon : palette :=
  [ ("bg_start", "#090B1B"); ("bg_end", "#140F2B"); ("border", "#3D2E73");
    ("panel", "#130F28"); ("overlay", "#1B1537"); ("chip_bg", "#231B47");
    ("chip_text", "#CFFBFF"); ("text", "#F4F6FF"); ("muted", "#B5B9E0");
    ("accent", "#28F0E2"); ("accent_2", "#FF4FD8"); ("accent_soft", "#2E2A60");
    ("track", "#37346B"); ("pass", "#55F08A"); ("warn", "#FFD65A");
    ("fail", "#FF6B9A") ].

Definition paper : palette :=
  [ ("bg_start", "#FFFDF8"); ("bg_end", "#F4EFE2"); ("border", "#D8CCB1");
    ("panel", "#FFF9EE"); ("overlay", "#F2EBDC"); ("chip_bg", "#EADFC8");
    ("chip_text", "#5A4631"); ("text", "#2F2518"); ("muted", "#6F5D49");
    ("accent", "#8B5E34"); ("accent_2", "#B08952"); ("accent_soft", "#D8C3A3");
    ("track", "#D9CFBC"); ("pass", "#2E7D32"); ("warn", "#B26A00");
    ("fail", "#B64033") ].

Definition forest : palette :=
  [ ("bg_start", "#0F2018"); ("bg_end", "#183129"); ("border", "#2D5E4F");
    ("panel", "#153027"); ("overlay", "#11251D"); ("chip_bg", "#1E4236");
    ("chip_text", "#CFEFDF"); ("text", "#EDFDF4"); ("muted", "#A4C7B8");
    ("accent", "#3ECF8E"); ("accent_2", "#80E3C1"); ("accent_soft", "#255145");
    ("track", "#2C5044"); ("pass", "#54D98C"); ("warn", "#E3B84F");
    ("fail", "#F07F7F") ].

Definition GENERATOR_THEME_PRESETS : list (string * palette) :=
  [ ("ocean", ocean); ("ember", ember); ("neon", neon); ("paper", paper);
    ("forest", forest) ].

Fixpoint preset (name : string) (table : list (string * palette)) : option palette :=
  match table with
  | [] => None
  | (k, p) :: tl => if k =? name then Some p else preset name tl
  end.

Definition is_hex (c : ascii) : bool :=
  is_digit c
  || (let n := nat_of_ascii (lower_char c) in (97 <=? n)%nat && (n <=? 102)%nat).

(** [HEX_COLOR_RE.test(raw)] for [/^#(?:[0-9a-fA-F]{3}|[0-9a-fA-F]{6})$/] *)
Definition HEX_COLOR_RE (raw : string) : bool :=
  match raw with
  | String "#" ds =>
      all_chars is_hex ds
      && ((String.length ds =? 3)%nat || (String.length ds =? 6)%nat)
  | _ => false
  end.

Definition normalizeHexColor (value : string) : option string :=
  let raw := trim value in
  if negb (HEX_COLOR_RE raw) then None
  else match raw with
       | String h (String r (String g (String b EmptyString))) =>
           Some (toUpperCase (String h (String r (String r (String g (String g
                   (String b (String b EmptyString))))))))
       | _ => Some (toUpperCase raw)
       end.

(** [palette?.[key] || ""] *)
Definition palette_entry (key : string) (p : palette) : string :=
  match lookup key p with Some v => v | None => "" end.

Definition generatorPaletteFromInputs (inputs : color_inputs) : palette :=
  flat_map
    (fun key =>
       match normalizeHexColor (input_value key inputs) with
       | Some value => [(key, value)]
       | None => []
       end)
    GENERATOR_THEME_KEYS.

(** The same loop under its other name, used by the export. *)
Definition generatorCustomThemeParams (inputs : color_inputs) : palette :=
  generatorPaletteFromInputs inputs.

Definition applyGeneratorPalette (p : palette) (inputs : color_inputs) : color_inputs :=
  fold_left
    (fun ins key =>
       match normalizeHexColor (palette_entry key p) with
       | Some value => set_input key value ins
       | None => ins
       end)
    GENERATOR_THEME_KEYS inputs.

(** *** Random colours *)

Definition hex_digit (n : N) : ascii :=
  match String.get (N.to_nat n) "0123456789abcdef" with
  | Some c => c
  | None => "0"%char
  end.

Fixpoint hex_digits (fuel : nat) (n : N) (acc : string) : string :=
  match fuel with
  | O => acc
  | S f =>
      let acc' := String (hex_digit (n mod 16)) acc in
      if (n / 16 =? 0)%N then acc' else hex_digits f (n / 16) acc'
  end.

(** [value.toString(16)] *)
Definition toString16 (value : N) : string :=
  hex_digits (S (N.to_nat (N.log2 value))) value "".

Fixpoint repeat_char (c : ascii) (n : nat) : string :=
  match n with
  | O => EmptyString
  | S k => String c (repeat_char c k)
  end.

(** [s.padStart(n, "0")] *)
Definition padStart0 (n : nat) (s : string) : string :=
  repeat_char "0" (n - String.length s) ++ s.

(** [randomHexColor()], given [value = Math.floor(Math.random() * 0xffffff)]. *)
Definition randomHexColor (value : N) : string :=
  String "#" (toUpperCase (padStart0 6 (toString16 value))).

(** [randomGeneratorPalette()]: the i-th key gets the i-th draw. *)
Definition randomGeneratorPalette (draw : nat -> N) : palette :=
  map (fun '(i, key) => (key, randomHexColor (draw i)))
      (combine (seq 0 (length GENERATOR_THEME_KEYS)) GENERATOR_THEME_KEYS).

(** *** The palette state of a session *)

Record session := mkSession {
  inputs : color_inputs;
  generatorDefaultPalette : option palette;   (* null until captured *)
  theme_preset : string                       (* value of gen-theme-preset *)
}.

Definition captureGeneratorDefaultPalette (s : session) : session :=
  match generatorDefaultPalette s with
  | Some _ => s
  | None =>
      mkSession (inputs s) (Some (generatorPaletteFromInputs (inputs s)))
                (theme_preset s)
  end.

(** The names an object literal inherits from [Object.prototype]; the
    [in] operator finds them as it finds the keys of the literal. *)
Definition inherited_names : list string :=
  [ "constructor"; "__defineGetter__"; "__defineSetter__"; "hasOwnProperty";
    "__lookupGetter__"; "__lookupSetter__"; "isPrototypeOf";
    "propertyIsEnumerable"; "toString"; "valueOf"; "__proto__";
    "toLocaleString" ].

(** [name in GENERATOR_THEME_PRESETS] *)
Definition in_presets (name : string) : bool :=
  match preset name GENERATOR_THEME_PRESETS with
  | Some _ => true
  | None => includes inherited_names name
  end.

Definition selectedGeneratorPresetId (s : session) : string :=
  let value := toLowerCase (trim (theme_preset s)) in
  if in_presets value then value else "ocean".

(** [applyGeneratorPalette(GENERATOR_THEME_PRESETS[presetId])]: under an
    inherited name the table holds a function or the prototype object,
    which has none of the theme keys, so that [palette?.[key]] is
    undefined for every key as it is for an empty palette. *)
Definition applyGeneratorPresetPalette (s : session) : session :=
  let presetId := selectedGeneratorPresetId s in
  let p := match preset presetId GENERATOR_THEME_PRESETS with
           | Some p => p
           | None => []
           end in
  mkSession (applyGeneratorPalette p (inputs s)) (generatorDefaultPalette s)
            (theme_preset s).

Definition resetGeneratorPalette (s : session) : session :=
  let s := captureGeneratorDefaultPalette s in
  let p := match generatorDefaultPalette s with
           | Some p => p
           | None => ocean
           end in
  mkSession (applyGeneratorPalette p (inputs s)) (generatorDefaultPalette s)
            (theme_preset s).

Definition randomizeGeneratorPalette (draw : nat -> N) (s : session) : session :=
  mkSession (applyGeneratorPalette (randomGeneratorPalette draw) (inputs s))
            (generatorDefaultPalette s) (theme_preset s).

(** What the user can do to the palette between a capture and a reset. *)
Inductive action :=
| Randomize (draw : nat -> N)
| ApplyPreset (choice : string).

Definition perform (s : session) (a : action) : session :=
  match a with
  | Randomize draw => randomizeGeneratorPalette draw s
  | ApplyPreset choice =>
      applyGeneratorPresetPalette
        (mkSession (inputs s) (generatorDefaultPalette s) choice)
  end.

Definition perform_all (s : session) (acts : list action) : session :=
  fold_left perform acts s.

(** The inputs as the page template fills them: the ocean preset. *)
Definition initial_inputs : color_inputs := ocean.

End Palette.

(* ===================================================================== *)
(** ** Card generator: import codec, form state, export codec            *)
(* ===================================================================== *)

Module Generator.
Import JsString JsNumber Url Palette.

Local Open Scope string_scope.

(** *** The regular expressions of the import codec

    Each is written out as the deterministic matcher it amounts to: in
    every one of them a repeated class is followed by a character outside
    the class, so the greedy match is the only one. *)

Definition is_char (x : ascii) (c : ascii) : bool := Ascii.eqb c x.
Definition not_char (x : ascii) (c : ascii) : bool := negb (Ascii.eqb c x).

(** An unanchored expression is tried at every position, leftmost first. *)
Fixpoint search {A : Type} (m : string -> option A) (s : string) : option A :=
  match m s with
  | Some g => Some g
  | None =>
      match s with
      | EmptyString => None
      | String _ r => search m r
      end
  end.

(** [\s*\)] *)
Definition closes (t : string) : bool :=
  match drop_prefix false ")" (drop_while is_space t) with
  | Some _ => true
  | None => false
  end.

(** [/!\[[^\]]*]\(\s*<([^>]+)>\s*\)/] at the start of [s]; the result is
    group 1. *)
Definition mdAngle_here (s : string) : option string :=
  match drop_prefix false "![" s with
  | None => None
  | Some r1 =>
      match drop_prefix false "](" (snd (span (not_char "]") r1)) with
      | None => None
      | Some r2 =>
          match drop_prefix false "<" (drop_while is_space r2) with
          | None => None
          | Some r3 =>
              let (g, r4) := span (not_char ">") r3 in
              match drop_prefix false ">" r4 with
              | Some r5 => if truthy g && closes r5 then Some g else None
              | None => None
              end
          end
      end
  end.

(** A single or a double quote. *)
Definition is_quote (c : ascii) : bool :=
  let n := nat_of_ascii c in (n =? 34)%nat || (n =? 39)%nat.

(** The optional title of a Markdown image, [\s+] then a quoted text
    with no quote inside, at the start of [t]: what follows it. *)
Definition md_title (t : string) : option string :=
  let (sp, r) := span is_space t in
  if truthy sp then
    match r with
    | String q r1 =>
        if is_quote q then
          match snd (span (fun c => negb (is_quote c)) r1) with
          | String _ r2 => Some r2
          | EmptyString => None
          end
        else None
    | EmptyString => None
    end
  else None.

(** The plain Markdown image [![alt](ref title)] at the start of [s],
    with [ref] a run of [[^\s)]]: the result is [ref]. *)
Definition mdPlain_here (s : string) : option string :=
  match drop_prefix false "![" s with
  | None => None
  | Some r1 =>
      match drop_prefix false "](" (snd (span (not_char "]") r1)) with
      | None => None
      | Some r2 =>
          let (g, r3) :=
            span (fun c => negb (is_space c) && not_char ")" c) (drop_while is_space r2) in
          let titled := match md_title r3 with Some r4 => closes r4 | None => false end in
          if truthy g && (titled || closes r3) then Some g else None
      end
  end.

Definition is_line_terminator (c : ascii) : bool :=
  let n := nat_of_ascii c in (n =? 10)%nat || (n =? 13)%nat.

(** [/^https?:\/\/github\.com\/([^/\s]+)\/([^/\s?#]+)TAIL$/i], where
    TAIL is an optional [[/?#]] followed by anything on the same line:
    groups 1 and 2. *)
Definition github_match (input : string) : option (string * string) :=
  match drop_prefix true "http" input with
  | None => None
  | Some r0 =>
      let r1 := match drop_prefix true "s" r0 with Some r => r | None => r0 end in
      match drop_prefix true "://github.com/" r1 with
      | None => None
      | Some r2 =>
          let (owner, r3) := span (fun c => not_char "/" c && negb (is_space c)) r2 in
          match drop_prefix false "/" r3 with
          | None => None
          | Some r4 =>
              let (repo, r5) :=
                span (fun c => negb (in_chars "/?#" c) && negb (is_space c)) r4 in
              let tail_ok :=
                match r5 with
                | EmptyString => true
                | String c rest =>
                    in_chars "/?#" c
                    && all_chars (fun x => negb (is_line_terminator x)) rest
                end in
              if truthy owner && truthy repo && tail_ok then Some (owner, repo)
              else None
          end
      end
  end.

(** [/^([^/\s]+)\/([^/\s]+)$/] *)
Definition short_match (input : string) : option (string * string) :=
  let (owner, r1) := span (fun c => not_char "/" c && negb (is_space c)) input in
  match drop_prefix false "/" r1 with
  | None => None
  | Some r2 =>
      let (repo, r3) := span (fun c => not_char "/" c && negb (is_space c)) r2 in
      if truthy owner && truthy repo && negb (truthy r3) then Some (owner, repo)
      else None
  end.

(** [/^\/api\/stats\/(repo|quality)\/([^/]+)\/([^/.]+)\.(svg|json)$/i]:
    groups 1 to 4. *)
Definition stats_match (pathname : string)
  : option (string * string * string * string) :=
  match drop_prefix true "/api/stats/" pathname with
  | None => None
  | Some r0 =>
      let (kind, r1) := span (not_char "/") r0 in
      if eqb_ci kind "repo" || eqb_ci kind "quality" then
        match drop_prefix false "/" r1 with
        | None => None
        | Some r2 =>
            let (owner, r3) := span (not_char "/") r2 in
            match drop_prefix false "/" r3 with
            | None => None
            | Some r4 =>
                let (repo, r5) := span (fun c => not_char "/" c && not_char "." c) r4 in
                match drop_prefix false "." r5 with
                | None => None
                | Some ext =>
                    if truthy owner && truthy repo
                       && (eqb_ci ext "svg" || eqb_ci ext "json")
                    then Some (kind, owner, repo, ext)
                    else None
                end
            end
        end
      else None
  end.

(** *** Import *)

Definition extractGeneratorImportUrl (value : string) : string :=
  let input := trim value in
  if negb (truthy input) then ""
  else
    match search mdAngle_here input with
    | Some g => trim g
    | None =>
        match search mdPlain_here input with
        | Some g => trim g
        | None => trim (strip_angle input)
        end
    end.

(** What [parseGeneratorImport] returns: a request- or path-shaped
    reference fills every field ([None] is null); a GitHub URL or a
    shorthand gives [owner] and [repo] only. *)
Record Parsed := mkParsed {
  owner : string;
  repo : string;
  kind : option string;
  format : option string;
  theme : option string;
  locale : option string;
  title : option string;
  hide : option string;
  width : option string;
  langs : option string;
  animate : option string;
  animation : option string;
  duration : option string;
  cacheSeconds : option string;
  includeReport : option string;
  fields : option string;
  colors : option palette
}.

Definition owner_repo_only (owner repo : string) : Parsed :=
  mkParsed owner repo None None None None None None None None None None None
           None None None None.

(** A call either returns or throws. *)
Inductive outcome (A : Type) :=
| Returned (a : A)
| Thrown.
Arguments Returned {A} a.
Arguments Thrown {A}.

(** [x || d] for [x] a string or null. *)
Definition opt_or (x : option string) (d : string) : string :=
  match x with
  | Some s => or_else s d
  | None => d
  end.

Definition opt_truthy (x : option string) : bool :=
  match x with
  | Some s => truthy s
  | None => false
  end.

(** The colours among the query parameters, invalid ones dropped. *)
Definition colors_of_params (params : list (string * string)) : palette :=
  flat_map
    (fun key =>
       match normalizeHexColor (opt_or (get key params) "") with
       | Some color => [(key, color)]
       | None => []
       end)
    GENERATOR_THEME_KEYS.

Section ImportCodec.

(** [new URL(input, window.location.origin)]; [None] when it throws. *)
Variable newURL : string -> option URL.

Definition parseGeneratorApiImport (value : string) : outcome (option Parsed) :=
  let input := extractGeneratorImportUrl value in
  if negb (truthy input) then Returned None
  else
    match newURL input with
    | None => Returned None
    | Some url =>
        let params := searchParams url in
        let ownerRaw := get "owner" params in
        let repoRaw := get "repo" params in
        let finish (owner repo kind format : string) : outcome (option Parsed) :=
          if negb (truthy owner) || negb (truthy repo) then Returned None
          else
            let kind := if kind =? "quality" then "quality" else "repo" in
            let format := if format =? "json" then "json" else "svg" in
            Returned (Some (mkParsed owner repo (Some kind) (Some format)
              (get "theme" params) (get "locale" params) (get "title" params)
              (get "hide" params) (get "card_width" params)
              (get "langs_count" params) (get "animate" params)
              (get "animation" params) (get "duration" params)
              (get "cache_seconds" params) (get "include_report" params)
              (get "fields" params) (Some (colors_of_params params)))) in
        if opt_truthy ownerRaw && opt_truthy repoRaw then
          finish (trim (opt_or ownerRaw "")) (strip_git (trim (opt_or repoRaw "")))
                 (toLowerCase (trim (opt_or (get "kind" params) "repo")))
                 (toLowerCase (trim (opt_or (get "format" params) "svg")))
        else
          match stats_match (pathname url) with
          | None => Returned None
          | Some (k, o, r, e) =>
              match decodeURIComponent o with
              | None => Thrown
              | Some owner =>
                  match decodeURIComponent r with
                  | None => Thrown
                  | Some repo =>
                      finish owner (strip_git repo) (toLowerCase k) (toLowerCase e)
                  end
              end
          end
    end.

Definition parseGeneratorImport (value : string) : outcome (option Parsed) :=
  match parseGeneratorApiImport value with
  | Thrown => Thrown
  | Returned (Some apiImport) => Returned (Some apiImport)
  | Returned None =>
      let input := extractGeneratorImportUrl value in
      if negb (truthy input) then Returned None
      else
        match github_match input with
        | Some (owner, repo) =>
            let repo := strip_git repo in
            Returned (if truthy owner && truthy repo
                      then Some (owner_repo_only owner repo) else None)
        | None =>
            match short_match input with
            | Some (owner, repo) =>
                let repo := strip_git repo in
                Returned (if truthy owner && truthy repo
                          then Some (owner_repo_only owner repo) else None)
            | None => Returned None
            end
        end
  end.

End ImportCodec.

(** *** The form *)

(** A check box of one of the two multi-selects. *)
Record option_box := mkOption {
  opt_value : string;            (* input.value *)
  opt_kinds : option string;     (* input.dataset.kinds *)
  opt_checked : bool;
  opt_disabled : bool
}.

Record Disabled := mkDisabled {
  d_svg_only : bool;        (* the controls of GENERATOR_SVG_ONLY_IDS *)
  d_theme_random : bool;
  d_include_report : bool;
  d_langs : bool;
  d_fields : bool;
  d_custom_palette : bool   (* colour inputs and palette buttons *)
}.

Record Form := mkForm {
  gen_owner : string;
  gen_repo : string;
  gen_kind : string;
  gen_format : string;
  gen_theme : string;
  gen_locale : string;
  gen_title : string;
  gen_hide : string;
  gen_width : string;
  gen_langs : string;
  gen_animate : bool;
  gen_animation : string;
  gen_duration : string;
  gen_cache_seconds : string;
  gen_include_report : bool;
  gen_fields : string;
  hide_options : list option_box;
  field_options : list option_box;
  gen_colors : color_inputs;
  theme_options : list string;
  disabled : Disabled
}.

Definition set_gen_owner (v : string) (f : Form) : Form :=
  mkForm v (gen_repo f) (gen_kind f) (gen_format f) (gen_theme f) (gen_locale f) (gen_title f) (gen_hide f) (gen_width f) (gen_langs f) (gen_animate f) (gen_animation f) (gen_duration f) (gen_cache_seconds f) (gen_include_report f) (gen_fields f) (hide_options f) (field_options f) (gen_colors f) (theme_options f) (disabled f).

Definition set_gen_repo (v : string) (f : Form) : Form :=
  mkForm (gen_owner f) v (gen_kind f) (gen_format f) (gen_theme f) (gen_locale f) (gen_title f) (gen_hide f) (gen_width f) (gen_langs f) (gen_animate f) (gen_animation f) (gen_duration f) (gen_cache_seconds f) (gen_include_report f) (gen_fields f) (hide_options f) (field_options f) (gen_colors f) (theme_options f) (disabled f).

Definition set_gen_kind (v : string) (f : Form) : Form :=
  mkForm (gen_owner f) (gen_repo f) v (gen_format f) (gen_theme f) (gen_locale f) (gen_title f) (gen_hide f) (gen_width f) (gen_langs f) (gen_animate f) (gen_animation f) (gen_duration f) (gen_cache_seconds f) (gen_include_report f) (gen_fields f) (hide_options f) (field_options f) (gen_colors f) (theme_options f) (disabled f).

Definition set_gen_format (v : string) (f : Form) : Form :=
  mkForm (gen_owner f) (gen_repo f) (gen_kind f) v (gen_theme f) (gen_locale f) (gen_title f) (gen_hide f) (gen_width f) (gen_langs f) (gen_animate f) (gen_animation f) (gen_duration f) (gen_cache_seconds f) (gen_include_report f) (gen_fields f) (hide_options f) (field_options f) (gen_colors f) (theme_options f) (disabled f).

Definition set_gen_theme (v : string) (f : Form) : Form :=
  mkForm (gen_owner f) (gen_repo f) (gen_kind f) (gen_format f) v (gen_locale f) (gen_title f) (gen_hide f) (gen_width f) (gen_langs f) (gen_animate f) (gen_animation f) (gen_duration f) (gen_cache_seconds f) (gen_include_report f) (gen_fields f) (hide_options f) (field_options f) (gen_colors f) (theme_options f) (disabled f).

Definition set_gen_locale (v : string) (f : Form) : Form :=
  mkForm (gen_owner f) (gen_repo f) (gen_kind f) (gen_format f) (gen_theme f) v (gen_title f) (gen_hide f) (gen_width f) (gen_langs f) (gen_animate f) (gen_animation f) (gen_duration f) (gen_cache_seconds f) (gen_include_report f) (gen_fields f) (hide_options f) (field_options f) (gen_colors f) (theme_options f) (disabled f).

Definition set_gen_title (v : string) (f : Form) : Form :=
  mkForm (gen_owner f) (gen_repo f) (gen_kind f) (gen_format f) (gen_theme f) (gen_locale f) v (gen_hide f) (gen_width f) (gen_langs f) (gen_animate f) (gen_animation f) (gen_duration f) (gen_cache_seconds f) (gen_include_report f) (gen_fields f) (hide_options f) (field_options f) (gen_colors f) (theme_options f) (disabled f).

Definition set_gen_hide (v : string) (f : Form) : Form :=
  mkForm (gen_owner f) (gen_repo f) (gen_kind f) (gen_format f) (gen_theme f) (gen_locale f) (gen_title f) v (gen_width f) (gen_langs f) (gen_animate f) (gen_animation f) (gen_duration f) (gen_cache_seconds f) (gen_include_report f) (gen_fields f) (hide_options f) (field_options f) (gen_colors f) (theme_options f) (disabled f).

Definition set_gen_width (v : string) (f : Form) : Form :=
  mkForm (gen_owner f) (gen_repo f) (gen_kind f) (gen_format f) (gen_theme f) (gen_locale f) (gen_title f) (gen_hide f) v (gen_langs f) (gen_animate f) (gen_animation f) (gen_duration f) (gen_cache_seconds f) (gen_include_report f) (gen_fields f) (hide_options f) (field_options f) (gen_colors f) (theme_options f) (disabled f).

Definition set_gen_langs (v : string) (f : Form) : Form :=
  mkForm (gen_owner f) (gen_repo f) (gen_kind f) (gen_format f) (gen_theme f) (gen_locale f) (gen_title f) (gen_hide f) (gen_width f) v (gen_animate f) (gen_animation f) (gen_duration f) (gen_cache_seconds f) (gen_include_report f) (gen_fields f) (hide_options f) (field_options f) (gen_colors f) (theme_options f) (disabled f).

Definition set_gen_animate (v : bool) (f : Form) : Form :=
  mkForm (gen_owner f) (gen_repo f) (gen_kind f) (gen_format f) (gen_theme f) (gen_locale f) (gen_title f) (gen_hide f) (gen_width f) (gen_langs f) v (gen_animation f) (gen_duration f) (gen_cache_seconds f) (gen_include_report f) (gen_fields f) (hide_options f) (field_options f) (gen_colors f) (theme_options f) (disabled f).

Definition set_gen_animation (v : string) (f : Form) : Form :=
  mkForm (gen_owner f) (gen_repo f) (gen_kind f) (gen_format f) (gen_theme f) (gen_locale f) (gen_title f) (gen_hide f) (gen_width f) (gen_langs f) (gen_animate f) v (gen_duration f) (gen_cache_seconds f) (gen_include_report f) (gen_fields f) (hide_options f) (field_options f) (gen_colors f) (theme_options f) (disabled f).

Definition set_gen_duration (v : string) (f : Form) : Form :=
  mkForm (gen_owner f) (gen_repo f) (gen_kind f) (gen_format f) (gen_theme f) (gen_locale f) (gen_title f) (gen_hide f) (gen_width f) (gen_langs f) (gen_animate f) (gen_animation f) v (gen_cache_seconds f) (gen_include_report f) (gen_fields f) (hide_options f) (field_options f) (gen_colors f) (theme_options f) (disabled f).

Definition set_gen_cache_seconds (v : string) (f : Form) : Form :=
  mkForm (gen_owner f) (gen_repo f) (gen_kind f) (gen_format f) (gen_theme f) (gen_locale f) (gen_title f) (gen_hide f) (gen_width f) (gen_langs f) (gen_animate f) (gen_animation f) (gen_duration f) v (gen_include_report f) (gen_fields f) (hide_options f) (field_options f) (gen_colors f) (theme_options f) (disabled f).

Definition set_gen_include_report (v : bool) (f : Form) : Form :=
  mkForm (gen_owner f) (gen_repo f) (gen_kind f) (gen_format f) (gen_theme f) (gen_locale f) (gen_title f) (gen_hide f) (gen_width f) (gen_langs f) (gen_animate f) (gen_animation f) (gen_duration f) (gen_cache_seconds f) v (gen_fields f) (hide_options f) (field_options f) (gen_colors f) (theme_options f) (disabled f).

Definition set_gen_fields (v : string) (f : Form) : Form :=
  mkForm (gen_owner f) (gen_repo f) (gen_kind f) (gen_format f) (gen_theme f) (gen_locale f) (gen_title f) (gen_hide f) (gen_width f) (gen_langs f) (gen_animate f) (gen_animation f) (gen_duration f) (gen_cache_seconds f) (gen_include_report f) v (hide_options f) (field_options f) (gen_colors f) (theme_options f) (disabled f).

Definition set_hide_options (v : list option_box) (f : Form) : Form :=
  mkForm (gen_owner f) (gen_repo f) (gen_kind f) (gen_format f) (gen_theme f) (gen_locale f) (gen_title f) (gen_hide f) (gen_width f) (gen_langs f) (gen_animate f) (gen_animation f) (gen_duration f) (gen_cache_seconds f) (gen_include_report f) (gen_fields f) v (field_options f) (gen_colors f) (theme_options f) (disabled f).

Definition set_field_options (v : list option_box) (f : Form) : Form :=
  mkForm (gen_owner f) (gen_repo f) (gen_kind f) (gen_format f) (gen_theme f) (gen_locale f) (gen_title f) (gen_hide f) (gen_width f) (gen_langs f) (gen_animate f) (gen_animation f) (gen_duration f) (gen_cache_seconds f) (gen_include_report f) (gen_fields f) (hide_options f) v (gen_colors f) (theme_options f) (disabled f).

Definition set_gen_colors (v : color_inputs) (f : Form) : Form :=
  mkForm (gen_owner f) (gen_repo f) (gen_kind f) (gen_format f) (gen_theme f) (gen_locale f) (gen_title f) (gen_hide f) (gen_width f) (gen_langs f) (gen_animate f) (gen_animation f) (gen_duration f) (gen_cache_seconds f) (gen_include_report f) (gen_fields f) (hide_options f) (field_options f) v (theme_options f) (disabled f).

Definition set_theme_options (v : list string) (f : Form) : Form :=
  mkForm (gen_owner f) (gen_repo f) (gen_kind f) (gen_format f) (gen_theme f) (gen_locale f) (gen_title f) (gen_hide f) (gen_width f) (gen_langs f) (gen_animate f) (gen_animation f) (gen_duration f) (gen_cache_seconds f) (gen_include_report f) (gen_fields f) (hide_options f) (field_options f) (gen_colors f) v (disabled f).

Definition set_disabled (v : Disabled) (f : Form) : Form :=
  mkForm (gen_owner f) (gen_repo f) (gen_kind f) (gen_format f) (gen_theme f) (gen_locale f) (gen_title f) (gen_hide f) (gen_width f) (gen_langs f) (gen_animate f) (gen_animation f) (gen_duration f) (gen_cache_seconds f) (gen_include_report f) (gen_fields f) (hide_options f) (field_options f) (gen_colors f) (theme_options f) v.


Definition GENERATOR_JSON_FIELDS_repo : list string :=
  [ "owner"; "name"; "full_name"; "html_url"; "description"; "stars"; "forks";
    "open_issues"; "watchers"; "default_branch"; "primary_language";
    "license_name"; "topics"; "archived"; "is_fork"; "size_kb"; "created_at";
    "updated_at"; "pushed_at"; "homepage"; "has_releases"; "has_tags";
    "languages"; "language_total_bytes" ].

Definition GENERATOR_JSON_FIELDS_quality : list string :=
  [ "job_id"; "commit_sha"; "finished_at"; "score_total"; "report_url";
    "total_code_lines"; "total_code_files"; "scanned_code_files";
    "status_counts"; "category_scores"; "detected_stacks"; "source"; "report" ].

Definition current_kind (f : Form) : string := or_else (gen_kind f) "repo".
Definition current_format (f : Form) : string := or_else (gen_format f) "svg".
Definition current_theme (f : Form) : string := or_else (gen_theme f) "ocean".

(** [String(input.dataset.kinds || "repo,quality").split(",")
      .map((item) => item.trim()).filter(Boolean)] *)
Definition allowed_kinds (input : option_box) : list string :=
  filter_truthy (map trim (split "," (opt_or (opt_kinds input) "repo,quality"))).

(** The values of the boxes matched by [:checked:not(:disabled)]. *)
Definition selected_values (options : list option_box) : list string :=
  filter_truthy
    (map (fun node => trim (opt_value node))
         (filter (fun node => opt_checked node && negb (opt_disabled node)) options)).

Definition selectedGeneratorHideFlags (f : Form) : list string :=
  selected_values (hide_options f).

Definition syncGeneratorHideField (f : Form) : Form :=
  set_gen_hide (join "," (selectedGeneratorHideFlags f)) f.

Definition syncGeneratorHideOptionsByKind (f : Form) : Form :=
  let kind := current_kind f in
  let isSvg := current_format f =? "svg" in
  let options :=
    map (fun input =>
           let isSupported := isSvg && includes (allowed_kinds input) kind in
           mkOption (opt_value input) (opt_kinds input)
                    (if negb isSupported then false else opt_checked input)
                    (negb isSupported))
        (hide_options f) in
  syncGeneratorHideField (set_hide_options options f).

Definition syncGeneratorControlVisibility (f : Form) : Form :=
  let kind := current_kind f in
  let isSvg := current_format f =? "svg" in
  let isJson := negb isSvg in
  let isRepo := kind =? "repo" in
  let isQualityJson := negb isSvg && (kind =? "quality") in
  set_disabled
    (mkDisabled (negb isSvg) (negb isSvg) (negb isQualityJson) (negb isRepo)
                (negb isJson) (d_custom_palette (disabled f)))
    f.

Definition syncGeneratorCustomThemeVisibility (f : Form) : Form :=
  let show := (current_theme f =? "custom") && (current_format f =? "svg") in
  let d := disabled f in
  set_disabled
    (mkDisabled (d_svg_only d) (d_theme_random d) (d_include_report d) (d_langs d)
                (d_fields d) (negb show))
    f.

Definition selectedGeneratorFieldFlags (f : Form) : list string :=
  selected_values (field_options f).

Definition syncGeneratorFieldsField (f : Form) : Form :=
  let total :=
    if current_kind f =? "quality" then length GENERATOR_JSON_FIELDS_quality
    else length GENERATOR_JSON_FIELDS_repo in
  let selected := selectedGeneratorFieldFlags f in
  set_gen_fields
    (match selected with
     | [] => "__none__"
     | _ => if (total <=? length selected)%nat then "" else join "," selected
     end)
    f.

Definition syncGeneratorFieldOptionsByKind (f : Form) : Form :=
  let kind := current_kind f in
  let isJson := current_format f =? "json" in
  let options :=
    map (fun input =>
           let isSupported := isJson && includes (allowed_kinds input) kind in
           mkOption (opt_value input) (opt_kinds input) (opt_checked input)
                    (negb isSupported))
        (field_options f) in
  syncGeneratorFieldsField (set_field_options options f).

(** [new Set(String(rawValue || "").split(",")
      .map((item) => item.trim().toLowerCase()).filter(Boolean))] *)
Definition flag_tokens (rawValue : string) : list string :=
  filter_truthy (map (fun item => toLowerCase (trim item)) (split "," rawValue)).

Definition applyGeneratorHideFlags (rawValue : string) (f : Form) : Form :=
  let tokens := flag_tokens rawValue in
  let options :=
    map (fun node =>
           mkOption (opt_value node) (opt_kinds node)
                    (if opt_disabled node then false
                     else includes tokens (toLowerCase (trim (opt_value node))))
                    (opt_disabled node))
        (hide_options f) in
  syncGeneratorHideField (set_hide_options options f).

Definition applyGeneratorFieldFlags (rawValue : string) (f : Form) : Form :=
  let tokens := flag_tokens rawValue in
  let explicitNone := includes tokens "__none__" || includes tokens "none" in
  let hasExplicitSelection := match tokens with [] => false | _ => true end in
  let options :=
    map (fun node =>
           mkOption (opt_value node) (opt_kinds node)
                    (if opt_disabled node then opt_checked node
                     else if negb hasExplicitSelection then true
                     else negb explicitNone
                          && includes tokens (toLowerCase (trim (opt_value node))))
                    (opt_disabled node))
        (field_options f) in
  syncGeneratorFieldsField (set_field_options options f).

Definition parseBooleanValue (value : option string) (fallback : bool) : bool :=
  match value with
  | None => fallback
  | Some v =>
      let normalized := toLowerCase (trim v) in
      if includes ["1"; "true"; "yes"; "on"] normalized then true
      else if includes ["0"; "false"; "no"; "off"] normalized then false
      else fallback
  end.

Section Codec.

(** The host's printing of numbers that are not plain integers. *)
Variable show : Q -> string.

Definition clamped (value : string) (lo hi fallback : Q) : string :=
  to_string show (clampNumber value (Fin lo) (Fin hi) (Fin fallback)).

(** The statements of [applyGeneratorImportToForm], one definition for
    each control they write, in the order of the source. *)

(** [x ?? ""] *)
Definition or_empty (x : option string) : string :=
  match x with Some s => s | None => "" end.

(** [if (parsed.owner) ownerNode.value = parsed.owner] *)
Definition import_owner (parsed : Parsed) (f : Form) : Form :=
  if truthy (owner parsed) then set_gen_owner (owner parsed) f else f.

Definition import_repo (parsed : Parsed) (f : Form) : Form :=
  if truthy (repo parsed) then set_gen_repo (repo parsed) f else f.

(** [if (parsed.kind) kindNode.value =
      parsed.kind === "quality" ? "quality" : "repo"] *)
Definition import_kind (parsed : Parsed) (f : Form) : Form :=
  match kind parsed with
  | Some k => if truthy k
              then set_gen_kind (if k =? "quality" then "quality" else "repo") f
              else f
  | None => f
  end.

Definition import_format (parsed : Parsed) (f : Form) : Form :=
  match format parsed with
  | Some k => if truthy k
              then set_gen_format (if k =? "json" then "json" else "svg") f
              else f
  | None => f
  end.

(** The theme is taken when the select has an option of that value. *)
Definition import_theme (parsed : Parsed) (f : Form) : Form :=
  if opt_truthy (theme parsed) then
    let theme := toLowerCase (trim (opt_or (theme parsed) "")) in
    if includes (theme_options f) theme then set_gen_theme theme f else f
  else f.

Definition import_locale (parsed : Parsed) (f : Form) : Form :=
  if opt_truthy (locale parsed) then
    let locale := toLowerCase (trim (opt_or (locale parsed) "")) in
    if (locale =? "en") || (locale =? "ru") then set_gen_locale locale f else f
  else f.

(** [titleNode.value = parsed.title ?? ""] *)
Definition import_title (parsed : Parsed) (f : Form) : Form :=
  set_gen_title (or_empty (title parsed)) f.

(** [if (parsed.width != null) widthNode.value =
      String(clampNumber(parsed.width, 640, 1400, 760))] *)
Definition import_width (parsed : Parsed) (f : Form) : Form :=
  match width parsed with
  | Some w => set_gen_width (clamped w 640 1400 760) f
  | None => f
  end.

Definition import_langs (parsed : Parsed) (f : Form) : Form :=
  match langs parsed with
  | Some l => set_gen_langs (clamped l 1 30 4) f
  | None => f
  end.

Definition import_animate (parsed : Parsed) (f : Form) : Form :=
  match animate parsed with
  | Some a => set_gen_animate (parseBooleanValue (Some a) true) f
  | None => f
  end.

Definition import_animation (parsed : Parsed) (f : Form) : Form :=
  if opt_truthy (animation parsed) then
    let mode := toLowerCase (trim (opt_or (animation parsed) "")) in
    if includes ["all"; "soft"; "bars"; "ring"; "none"] mode
    then set_gen_animation mode f else f
  else f.

Definition import_duration (parsed : Parsed) (f : Form) : Form :=
  match duration parsed with
  | Some d => set_gen_duration (clamped d 350 7000 1400) f
  | None => f
  end.

Definition import_cache_seconds (parsed : Parsed) (f : Form) : Form :=
  match cacheSeconds parsed with
  | Some c => set_gen_cache_seconds (clamped c 0 86400 21600) f
  | None => f
  end.

(** [includeReportNode.checked =
      parseBooleanValue(parsed.includeReport, false)] *)
Definition import_include_report (parsed : Parsed) (f : Form) : Form :=
  set_gen_include_report (parseBooleanValue (includeReport parsed) false) f.

(** [if (parsed.colors && typeof parsed.colors === "object")
      applyGeneratorPalette(parsed.colors)] *)
Definition import_colors (parsed : Parsed) (f : Form) : Form :=
  match colors parsed with
  | Some p => set_gen_colors (applyGeneratorPalette p (gen_colors f)) f
  | None => f
  end.

Definition applyGeneratorImportToForm (parsed : Parsed) (f : Form) : Form :=
  let f := import_owner parsed f in
  let f := import_repo parsed f in
  let f := import_kind parsed f in
  let f := import_format parsed f in
  let f := syncGeneratorControlVisibility f in
  let f := syncGeneratorHideOptionsByKind f in
  let f := syncGeneratorFieldOptionsByKind f in
  let f := import_theme parsed f in
  let f := import_locale parsed f in
  let f := import_title parsed f in
  let f := import_width parsed f in
  let f := import_langs parsed f in
  let f := import_animate parsed f in
  let f := import_animation parsed f in
  let f := import_duration parsed f in
  let f := import_cache_seconds parsed f in
  let f := import_include_report parsed f in
  let f := applyGeneratorHideFlags (or_empty (hide parsed)) f in
  let f := applyGeneratorFieldFlags (or_empty (fields parsed)) f in
  let f := import_colors parsed f in
  syncGeneratorCustomThemeVisibility f.

(** [Number(value || d)] *)
Definition number_or (value : string) (d : Q) : number :=
  if truthy value then of_string value else Fin d.

(** [String(Math.max(lo, Math.min(hi, n)))] *)
Definition bounded (lo hi : Q) (n : number) : string :=
  to_string show (math_max (Fin lo) (math_min (Fin hi) n)).

Definition set_if (cond : bool) (name value : string) (params : list (string * string)) :=
  if cond then set name value params else params.

(** The query parameters [buildGeneratorPath] sets, in order. *)
Definition generatorParams (f : Form) : list (string * string) :=
  let kind := current_kind f in
  let format := current_format f in
  let theme := current_theme f in
  let locale := or_else (gen_locale f) "en" in
  let title := trim (gen_title f) in
  let hide := trim (gen_hide f) in
  let width := number_or (gen_width f) 760 in
  let langs := number_or (gen_langs f) 4 in
  let animate := gen_animate f in
  let animation := or_else (gen_animation f) "all" in
  let duration := number_or (gen_duration f) 1400 in
  let cacheSeconds := number_or (gen_cache_seconds f) 21600 in
  let includeReport := gen_include_report f in
  let fields := trim (gen_fields f) in
  let params : list (string * string) := [] in
  if format =? "svg" then
    let params := set "theme" theme params in
    let params := set "locale" locale params in
    let params := set "card_width" (bounded 640 1400 width) params in
    let params := set_if (truthy title) "title" title params in
    let params := set_if (truthy hide) "hide" hide params in
    let params := set "animate" (if animate then "true" else "false") params in
    let params := set "animation" animation params in
    let params := set "duration" (bounded 350 7000 duration) params in
    let params := set "cache_seconds" (bounded 0 86400 cacheSeconds) params in
    let params := set_if (kind =? "repo") "langs_count" (bounded 1 10 langs) params in
    if theme =? "custom" then
      fold_left (fun ps kv => set (fst kv) (snd kv) ps)
                (generatorCustomThemeParams (gen_colors f)) params
    else params
  else if kind =? "repo" then
    let params := set "langs_count" (bounded 1 30 langs) params in
    set_if (truthy fields) "fields" fields params
  else
    let params := set "locale" locale params in
    let params := set_if includeReport "include_report" "true" params in
    set_if (truthy fields) "fields" fields params.

Definition generatorPathname (f : Form) : string :=
  "/api/stats/" ++ current_kind f ++ "/" ++ encodeURIComponent (trim (gen_owner f))
    ++ "/" ++ encodeURIComponent (trim (gen_repo f)) ++ "." ++ current_format f.

Definition buildGeneratorPath (f : Form) : string :=
  if negb (truthy (trim (gen_owner f))) || negb (truthy (trim (gen_repo f))) then ""
  else
    let qs := serialize (generatorParams f) in
    if truthy qs then generatorPathname f ++ "?" ++ qs else generatorPathname f.

(** *** The import button *)

Record Page := mkPage {
  form : Form;
  gen_repo_url : string;        (* the import input *)
  gen_import_error : string;    (* text of the error line *)
  preview_requested : bool      (* delayedPreview() was called *)
}.

(** [t(lang, "invalidGeneratorRepoUrl")] *)
Definition invalidGeneratorRepoUrl : string :=
  "Enter a valid GitHub URL, stats API URL, or Markdown embed like ![...](https://.../api?...).".

Variable newURL : string -> option URL.

Definition applyRepoImport (page : Page) : outcome Page :=
  match parseGeneratorImport newURL (gen_repo_url page) with
  | Thrown => Thrown
  | Returned None =>
      Returned (mkPage (form page) (gen_repo_url page) invalidGeneratorRepoUrl
                       (preview_requested page))
  | Returned (Some parsed) =>
      let f := applyGeneratorImportToForm parsed (form page) in
      let f := if negb (truthy (gen_owner f)) && truthy (owner parsed)
               then set_gen_owner (owner parsed) f else f in
      let f := if negb (truthy (gen_repo f)) && truthy (repo parsed)
               then set_gen_repo (repo parsed) f else f in
      Returned (mkPage f (gen_repo_url page) "" true)
  end.

(** The handlers of the [change] event of [gen-kind] and [gen-format],
    after the control took its new value. *)
Definition on_kind_change (value : string) (f : Form) : Form :=
  syncGeneratorFieldOptionsByKind
    (syncGeneratorHideOptionsByKind
       (syncGeneratorControlVisibility (set_gen_kind value f))).

Definition on_format_change (value : string) (f : Form) : Form :=
  syncGeneratorCustomThemeVisibility
    (syncGeneratorFieldOptionsByKind
       (syncGeneratorHideOptionsByKind
          (syncGeneratorControlVisibility (set_gen_format value f)))).

End Codec.

End Generator.

(* ===================================================================== *)
(** ** Text written into markup ([escapeHtml])                           *)
(* ===================================================================== *)

Module Html.
Import JsString.

Local Open Scope string_scope.

(** [s.replaceAll(c, text)] for a pattern of one character: every
    occurrence is replaced, left to right, and what was written is not
    looked at again. *)
Fixpoint replaceAll (c : ascii) (text : string) (s : string) : string :=
  match s with
  | EmptyString => EmptyString
  | String x r =>
      if Ascii.eqb x c then text ++ replaceAll c text r
      else String x (replaceAll c text r)
  end.

(** The double quote. *)
Definition double_quote : ascii := ascii_of_nat 34.

(** The five passes of [escapeHtml], in the order of the source. *)
Definition escapeHtml (value : string) : string :=
  replaceAll "'" "&#039;"
    (replaceAll double_quote "&quot;"
       (replaceAll ">" "&gt;"
          (replaceAll "<" "&lt;"
             (replaceAll "&" "&amp;" value)))).

End Html.

(* ===================================================================== *)
(** ** Card generator: buttons, handlers and the preview panel           *)
(* ===================================================================== *)

Module Controls.
Import JsString JsNumber Url Palette Generator.

Local Open Scope string_scope.

(** *** The buttons of the two multi-selects *)

(** What the loop over [:not(:disabled)] makes of one box. *)
Definition select_box (checked : bool) (node : option_box) : option_box :=
  mkOption (opt_value node) (opt_kinds node)
           (if opt_disabled node then opt_checked node else checked)
           (opt_disabled node).

Definition setGeneratorHideSelection (checked : bool) (f : Form) : Form :=
  syncGeneratorHideField
    (set_hide_options (map (select_box checked) (hide_options f)) f).

Definition setGeneratorFieldSelection (checked : bool) (f : Form) : Form :=
  syncGeneratorFieldsField
    (set_field_options (map (select_box checked) (field_options f)) f).

(** The user clicks the [index]-th box of a multi-select.  Only an
    enabled box reacts: it changes state and its [change] handler
    runs. *)
Fixpoint toggle_box (index : nat) (options : list option_box) : list option_box :=
  match options, index with
  | [], _ => []
  | node :: rest, O =>
      mkOption (opt_value node) (opt_kinds node) (negb (opt_checked node))
               (opt_disabled node) :: rest
  | node :: rest, S k => node :: toggle_box k rest
  end.

Definition clickable (index : nat) (options : list option_box) : bool :=
  match nth_error options index with
  | Some node => negb (opt_disabled node)
  | None => false
  end.

(** The [change] handlers of the boxes. *)
Definition on_hide_option_change (index : nat) (f : Form) : Form :=
  if clickable index (hide_options f) then
    syncGeneratorHideField (set_hide_options (toggle_box index (hide_options f)) f)
  else f.

Definition on_field_option_change (index : nat) (f : Form) : Form :=
  if clickable index (field_options f) then
    syncGeneratorFieldsField
      (set_field_options (toggle_box index (field_options f)) f)
  else f.

(** *** The theme *)

(** [pickRandomGeneratorTheme()], given [random = Math.random()].  An
    index outside the list reads [undefined], which no option of the
    select has as its value: the select is left with no value. *)
Definition pickRandomGeneratorTheme (random : Q) (f : Form) : Form :=
  let options :=
    filter (fun item => truthy item && negb (item =? "custom")) (theme_options f) in
  match options with
  | [] => f
  | _ :: _ =>
      let index := Qfloor (random * inject_Z (Z.of_nat (length options)))%Q in
      let next :=
        if (0 <=? index)%Z then nth_error options (Z.to_nat index) else None in
      match next with
      | Some next => set_gen_theme next f
      | None => set_gen_theme "" f
      end
  end.

(** The [click] handler of [gen-theme-random]. *)
Definition on_theme_random (random : Q) (f : Form) : Form :=
  syncGeneratorCustomThemeVisibility (pickRandomGeneratorTheme random f).

(** The [change] handler of [gen-theme], after the select took its new
    value. *)
Definition on_theme_change (value : string) (f : Form) : Form :=
  syncGeneratorCustomThemeVisibility
    (syncGeneratorFieldOptionsByKind
       (syncGeneratorHideOptionsByKind
          (syncGeneratorControlVisibility (set_gen_theme value f)))).

(** *** Start of the page *)

(** The calls [initGeneratorPage] ends with, on the form and the saved
    palette ([generatorDefaultPalette]). *)
Definition initGeneratorPage (f : Form) (saved : option palette)
  : Form * option palette :=
  let saved :=
    match saved with
    | Some p => Some p
    | None => Some (generatorPaletteFromInputs (gen_colors f))
    end in
  let f := syncGeneratorControlVisibility f in
  let f := syncGeneratorHideOptionsByKind f in
  let f := syncGeneratorFieldOptionsByKind f in
  let f := syncGeneratorCustomThemeVisibility f in
  let f := syncGeneratorHideField f in
  let f := syncGeneratorFieldsField f in
  (f, saved).

(** *** The events of the page

    What the listeners registered by [initGeneratorPage] do when the
    user acts on the form.  Every listener but the one on the import
    field ends by asking for a new preview.  A disabled control takes
    no input; only the boxes of the two multi-selects are guarded by
    that here, so the events say more than a user can do. *)

(** The controls whose only listener is the one asking for a new
    preview, with the value the user leaves in them. *)
Inductive edit :=
| EditOwner (value : string)
| EditRepo (value : string)
| EditLocale (value : string)
| EditTitle (value : string)
| EditWidth (value : string)
| EditLangs (value : string)
| EditAnimate (checked : bool)
| EditAnimation (value : string)
| EditDuration (value : string)
| EditCacheSeconds (value : string)
| EditIncludeReport (checked : bool)
| EditColor (key value : string).

Definition apply_edit (change : edit) (f : Form) : Form :=
  match change with
  | EditOwner value => set_gen_owner value f
  | EditRepo value => set_gen_repo value f
  | EditLocale value => set_gen_locale value f
  | EditTitle value => set_gen_title value f
  | EditWidth value => set_gen_width value f
  | EditLangs value => set_gen_langs value f
  | EditAnimate checked => set_gen_animate checked f
  | EditAnimation value => set_gen_animation value f
  | EditDuration value => set_gen_duration value f
  | EditCacheSeconds value => set_gen_cache_seconds value f
  | EditIncludeReport checked => set_gen_include_report checked f
  | EditColor key value => set_gen_colors (set_input key value (gen_colors f)) f
  end.

(** The three palette buttons end by handing a palette to
    [applyGeneratorPalette]. *)
Definition on_palette_button (p : palette) (f : Form) : Form :=
  set_gen_colors (applyGeneratorPalette p (gen_colors f)) f.

Inductive event :=
| ImportTyped (text : string)       (* input in gen-repo-url *)
| ImportClicked                     (* click on gen-import-repo, or Enter *)
| KindChanged (value : string)
| FormatChanged (value : string)
| ThemeChanged (value : string)
| ThemeRandomClicked (random : Q)   (* with the value Math.random() gives *)
| HideOptionClicked (index : nat)
| FieldOptionClicked (index : nat)
| HideSelectAll
| HideClear
| FieldsSelectAll
| FieldsClear
| ControlEdited (change : edit)     (* input in a control with no other listener *)
| PaletteButtonClicked (p : palette).
                                    (* preset, randomize or reset: the palette
                                       the button hands to applyGeneratorPalette *)

Section Events.

Variable show : Q -> string.
Variable newURL : string -> option URL.

Definition on_form (g : Form -> Form) (page : Page) : Page :=
  mkPage (g (form page)) (gen_repo_url page) (gen_import_error page) true.

Definition handle (e : event) (page : Page) : Page :=
  match e with
  | ImportTyped text => mkPage (form page) text "" (preview_requested page)
  | ImportClicked =>
      match applyRepoImport show newURL page with
      | Returned page' => page'
      | Thrown => page
      end
  | KindChanged value => on_form (on_kind_change value) page
  | FormatChanged value => on_form (on_format_change value) page
  | ThemeChanged value => on_form (on_theme_change value) page
  | ThemeRandomClicked random => on_form (on_theme_random random) page
  | HideOptionClicked index =>
      if clickable index (hide_options (form page))
      then on_form (on_hide_option_change index) page else page
  | FieldOptionClicked index =>
      if clickable index (field_options (form page))
      then on_form (on_field_option_change index) page else page
  | HideSelectAll => on_form (setGeneratorHideSelection true) page
  | HideClear => on_form (setGeneratorHideSelection false) page
  | FieldsSelectAll => on_form (setGeneratorFieldSelection true) page
  | FieldsClear => on_form (setGeneratorFieldSelection false) page
  | ControlEdited change => on_form (apply_edit change) page
  | PaletteButtonClicked p => on_form (on_palette_button p) page
  end.

(** The page after a sequence of events. *)
Definition run (events : list event) (page : Page) : Page :=
  fold_left (fun p e => handle e p) events page.

End Events.

(** *** The preview panel *)

(** The nodes [refreshGeneratorPreview] writes. *)
Record Preview := mkPreview {
  gen_url : string;              (* value of gen-url *)
  gen_md : string;               (* value of gen-md *)
  image_src : option string;     (* src of gen-preview-image, None when absent *)
  json_text : string;            (* text of gen-preview-json *)
  svg_hidden : bool;             (* gen-svg-wrap has class hidden *)
  json_hidden : bool;            (* gen-preview-json has class hidden *)
  open_href : option string;     (* href of gen-open-url *)
  open_disabled : bool;          (* gen-open-url is aria-disabled *)
  copy_url_disabled : bool;
  copy_md_disabled : bool;
  fetched : option string        (* the reference this call hands to fetch *)
}.

Section Refresh.

Variable show : Q -> string.

(** [window.location.origin] *)
Variable origin : string.

(** [refreshGeneratorPreview()] up to its first [await]. *)
Definition refreshGeneratorPreview (f : Form) (p : Preview) : Preview :=
  let format := current_format f in
  let path := buildGeneratorPath show f in
  if negb (truthy path) then
    mkPreview "" "" None "" false true (Some "#") true true true None
  else
    let absolute := origin ++ path in
    if format =? "svg" then
      mkPreview absolute ("![Repo Inspector Card](" ++ absolute ++ ")")
                (Some absolute) (json_text p) false true (Some absolute) false
                false false None
    else
      mkPreview absolute "" (image_src p) (json_text p) true false (Some absolute)
                false false true (Some absolute).

End Refresh.

End Controls.

(* ===================================================================== *)
(** ** The static generator page ([buildApiUrl])                         *)
(* ===================================================================== *)

Module StaticGenerator.
Import JsString JsNumber Url Palette Generator.

Local Open Scope string_scope.

(** [raw.replace(/\/$/, "")] *)
Fixpoint strip_trailing_slash (s : string) : string :=
  match s with
  | EmptyString => EmptyString
  | String c EmptyString => if Ascii.eqb c "/" then EmptyString else s
  | String c r => String c (strip_trailing_slash r)
  end.

Definition normalizeApiBase (raw : string) : string :=
  let value := trim raw in
  if negb (truthy value) then "" else strip_trailing_slash value.

Section ApiUrl.

Variable show : Q -> string.

(** [API_BASE], the result of [getApiBase()]. *)
Variable API_BASE : string.

(** The parameters [buildApiUrl] sets, in order. *)
Definition apiParams (f : Form) : list (string * string) :=
  let format := current_format f in
  let kind := current_kind f in
  let params : list (string * string) := [] in
  let params := set "owner" (trim (gen_owner f)) params in
  let params := set "repo" (trim (gen_repo f)) params in
  let params := set "kind" kind params in
  let params := set "format" format params in
  if format =? "svg" then
    let params := set "theme" (current_theme f) params in
    let params := set "locale" (or_else (gen_locale f) "en") params in
    let params :=
      set "card_width" (bounded show 640 1400 (number_or (gen_width f) 760)) params in
    let params := set "animate" (if gen_animate f then "true" else "false") params in
    let params := set "animation" (or_else (gen_animation f) "all") params in
    let params :=
      set "duration" (bounded show 350 7000 (number_or (gen_duration f) 1400)) params in
    let params :=
      set "cache_seconds"
          (bounded show 0 86400 (number_or (gen_cache_seconds f) 21600)) params in
    let params :=
      set_if (kind =? "repo") "langs_count"
             (bounded show 1 10 (number_or (gen_langs f) 4)) params in
    let title := trim (gen_title f) in
    let hide := trim (gen_hide f) in
    let params := set_if (truthy title) "title" title params in
    let params := set_if (truthy hide) "hide" hide params in
    if current_theme f =? "custom" then
      fold_left (fun ps kv => set (fst kv) (snd kv) ps)
                (generatorCustomThemeParams (gen_colors f)) params
    else params
  else if kind =? "repo" then
    set "langs_count" (bounded show 1 30 (number_or (gen_langs f) 4)) params
  else
    let params := set "locale" (or_else (gen_locale f) "en") params in
    set_if (gen_include_report f) "include_report" "true" params.

Definition buildApiUrl (f : Form) : string :=
  if negb (truthy API_BASE) || negb (truthy (trim (gen_owner f)))
     || negb (truthy (trim (gen_repo f)))
  then ""
  else API_BASE ++ "/api?" ++ serialize (apiParams f).

End ApiUrl.

End StaticGenerator.

(* ===================================================================== *)
(** ** The report page: the list of API references ([apiRows])          *)
(* ===================================================================== *)

Module ReportPage.
Import JsString Url.

Local Open Scope string_scope.

(** The rows of the list, each with the key of its label (the script
    looks the label up with [t(lang, key)]) and its path. *)
Definition apiRows (owner repo jobId lang : string) : list (string * string) :=
  let base := "" in
  let ownerEnc := encodeURIComponent owner in
  let repoEnc := encodeURIComponent repo in
  [ ("apiLabelReportJson",
     base ++ "/api/report/" ++ jobId ++ ".json?lang=" ++ encodeURIComponent lang);
    ("apiLabelReportMarkdown",
     base ++ "/api/report/" ++ jobId ++ ".md?lang=" ++ encodeURIComponent lang);
    ("apiLabelReportText",
     base ++ "/api/report/" ++ jobId ++ ".txt?lang=" ++ encodeURIComponent lang);
    ("apiLabelHistory",
     base ++ "/api/repos/" ++ ownerEnc ++ "/" ++ repoEnc ++ "/history");
    ("apiLabelLatest",
     base ++ "/api/repos/" ++ ownerEnc ++ "/" ++ repoEnc ++ "/latest");
    ("apiLabelStatsJson",
     base ++ "/api/stats/repo/" ++ ownerEnc ++ "/" ++ repoEnc ++ ".json?langs_count=8");
    ("apiLabelStatsSvg",
     base ++ "/api/stats/repo/" ++ ownerEnc ++ "/" ++ repoEnc
       ++ ".svg?theme=ocean&langs_count=5&animate=true&animation=all");
    ("apiLabelQualityJson",
     base ++ "/api/stats/quality/" ++ ownerEnc ++ "/" ++ repoEnc ++ ".json");
    ("apiLabelQualitySvg",
     base ++ "/api/stats/quality/" ++ ownerEnc ++ "/" ++ repoEnc
       ++ ".svg?theme=ocean&animate=true&animation=ring");
    ("apiLabelHealth", base ++ "/health");
    ("apiLabelMetrics", base ++ "/metrics") ].

(** The path of the row with the label [key]. *)
Definition row_path (key : string) (rows : list (string * string)) : option string :=
  get key rows.

End ReportPage.

(* ===================================================================== *)
(** ** Trend chart: the labels of the x axis                             *)
(* ===================================================================== *)

Module ChartLabels.
Import Chart.

(** The indices of the points [renderTrendChart] writes a label for. *)
Definition xLabels (n : nat) : list nat := filter (label_shown n) (seq 0 n).

End ChartLabels.

(* ===================================================================== *)
(** ** Delayed calls ([debounce])                                        *)
(* ===================================================================== *)

Module Debounce.

Section Closure.

(** The arguments of a call of the debounced function. *)
Variable A : Type.

Variable timeoutMs : Z.

(** The closure [debounce(fn, timeoutMs)] returns, with the part of the
    host it acts on: the clock, the timers it has set and that have not
    run yet, and the calls of [fn] made so far. *)
Record state := mkState {
  clock : Z;                              (* the current time, in ms *)
  pending : list (positive * Z * A);      (* timers: id, time due, arguments *)
  next_id : positive;                     (* the id the next timer gets *)
  timer : option positive;                (* the variable timer; None is null *)
  runs : list A                           (* the calls of fn, oldest first *)
}.

Definition initial : state := mkState 0 [] 1 None [].

Definition due_by (t : Z) (x : positive * Z * A) : bool := (snd (fst x) <=? t)%Z.

(** [window.clearTimeout(id)] *)
Definition clearTimeout (id : positive) (timers : list (positive * Z * A)) :=
  filter (fun x => negb (Pos.eqb (fst (fst x)) id)) timers.

(** Time passes until [t]: the timers due by then run, in the order in
    which they were set. *)
Definition advance (t : Z) (s : state) : state :=
  let t := Z.max t (clock s) in
  mkState t (filter (fun x => negb (due_by t x)) (pending s)) (next_id s) (timer s)
          (runs s ++ map snd (filter (due_by t) (pending s))).

(** The debounced function is called with [args]: a timer id is a
    positive number, so [if (timer)] holds as soon as one was set. *)
Definition call (args : A) (s : state) : state :=
  let timers :=
    match timer s with
    | Some id => clearTimeout id (pending s)
    | None => pending s
    end in
  mkState (clock s)
          (timers ++ [(next_id s, (clock s + timeoutMs)%Z, args)])
          (Pos.succ (next_id s)) (Some (next_id s)) (runs s).

(** A sequence of calls, each at its time. *)
Definition play (calls : list (Z * A)) (s : state) : state :=
  fold_left (fun s c => call (snd c) (advance (fst c) s)) calls s.

End Closure.

Arguments clock {A} s.
Arguments pending {A} s.
Arguments next_id {A} s.
Arguments timer {A} s.
Arguments runs {A} s.
Arguments initial {A}.
Arguments advance {A} t s.
Arguments call {A} timeoutMs args s.
Arguments play {A} timeoutMs calls s.

End Debounce.

(* ===================================================================== *)
(** ** Properties of the trend chart                                     *)
(* ===================================================================== *)

Module ChartFacts.
Import Chart.

Local Open Scope Q_scope.
Local Open Scope string_scope.


Lemma point_y_closed_form (score : Q) :
  point_y score == 300 - 32 - (score * (300 - 2 * 32)) / 100.
Proof. unfold point_y, height, padY, min, max. field. Qed.

Lemma point_y_40 : point_y 40 == 1736 # 10.
Proof. reflexivity. Qed.

Lemma point_y_decreasing (a b : Q) : a < b -> point_y b < point_y a.
Proof.
  intros Hab.
  assert (Ha : point_y a == 268 - (59 # 25) * a)
    by (unfold point_y, height, padY, min, max; field).
  assert (Hb : point_y b == 268 - (59 # 25) * b)
    by (unfold point_y, height, padY, min, max; field).
  rewrite Ha, Hb.
  apply Qplus_lt_r. apply Qopp_lt_compat.
  apply Qmult_lt_l; [reflexivity | exact Hab].
Qed.

Lemma map_points_py n i history :
  map py (map_points n i history) = map (fun s => point_y (score_total s)) history.
Proof.
  revert i; induction history as [|it tl IH]; intros i; simpl; [reflexivity|].
  now rewrite IH.
Qed.

Lemma map_points_length n i history :
  length (map_points n i history) = length history.
Proof.
  revert i; induction history as [|it tl IH]; intros i; simpl; [reflexivity|].
  now rewrite IH.
Qed.

Lemma point_x_first n : point_x n 0 == 42.
Proof.
  unfold point_x, padX, width, x_divisor.
  assert (H : ~ inject_Z (Z.max (Z.of_nat n - 1) 1) == 0).
  { unfold Qeq, inject_Z; simpl. lia. }
  simpl inject_Z at 1. field. exact H.
Qed.

(** C7.  For a history of at least two samples the chart is drawn (no
    fallback); sample number [i] gets the y coordinate
    [300 - 32 - score_total * (300 - 2*32) / 100]; that map sends 40 to
    173.6 and is strictly decreasing in the score; and the line path is
    ["M x0 y0"], with [(x0, y0)] the first sample's coordinates
    ([x0 = 42]), followed by the curve segments. *)
Theorem trend_chart_geometry (show : Q -> string) (history : list HistorySample)
    (Hlen : (2 <= length history)%nat) :
  exists d p0 rest,
    renderTrendChart show history = Drawn d
    /\ points d = p0 :: rest
    /\ length (points d) = length history
    /\ map py (points d) = map (fun s => point_y (score_total s)) history
    /\ (forall s, point_y s == 300 - 32 - (s * (300 - 2 * 32)) / 100)
    /\ point_y 40 == 1736 # 10
    /\ (forall a b, a < b -> point_y b < point_y a)
    /\ px p0 == 42
    /\ py p0 == point_y (score_total (item p0))
    /\ Some (item p0) = hd_error history
    /\ linePath d
       = "M " ++ show (px p0) ++ " " ++ show (py p0) ++ smooth_segments show p0 rest.
Proof.
  destruct history as [|s0 tl]; [simpl in Hlen; lia|].
  unfold renderTrendChart.
  destruct (Nat.ltb_spec (length (s0 :: tl)) 2) as [Hlt|_]; [lia|].
  eexists; exists (mkPoint (point_x (length (s0 :: tl)) 0) (point_y (score_total s0)) s0).
  exists (map_points (length (s0 :: tl)) 1 tl).
  split; [reflexivity|]. cbn [points linePath].
  repeat split.
  - unfold chart_points. apply map_points_length.
  - unfold chart_points. apply map_points_py.
  - apply point_y_closed_form.
  - apply point_y_decreasing.
  - apply point_x_first.
Qed.

Definition sample_history : list HistorySample :=
  [mkSample 40 None 0; mkSample 70 None 30; mkSample 55 None (-15)].

Lemma trend_chart_geometry_witness :
  (2 <= length sample_history)%nat /\
  exists d p0 rest,
    renderTrendChart (fun _ => "n") sample_history = Drawn d
    /\ points d = p0 :: rest
    /\ length (points d) = length sample_history
    /\ map py (points d) = map (fun s => point_y (score_total s)) sample_history
    /\ (forall s, point_y s == 300 - 32 - (s * (300 - 2 * 32)) / 100)
    /\ point_y 40 == 1736 # 10
    /\ (forall a b, a < b -> point_y b < point_y a)
    /\ px p0 == 42
    /\ py p0 == point_y (score_total (item p0))
    /\ Some (item p0) = hd_error sample_history
    /\ linePath d
       = "M " ++ (fun _ => "n") (px p0) ++ " " ++ (fun _ => "n") (py p0)
         ++ smooth_segments (fun _ => "n") p0 rest.
Proof.
  split; [simpl; lia|].
  apply (trend_chart_geometry (fun _ => "n") sample_history). simpl; lia.
Defined.

End ChartFacts.

(* ===================================================================== *)
(** ** Properties of the score dial                                      *)
(* ===================================================================== *)

Module DialFacts.
Import JsNumber Dial.

Local Open Scope Q_scope.

Lemma Qle_bool_not (a b : Q) : Qle_bool a b = false -> b < a.
Proof.
  intros H. destruct (Qlt_le_dec b a) as [Hlt|Hge]; [exact Hlt|].
  apply Qle_bool_iff in Hge. congruence.
Qed.

(** The target is the raw target clamped to 0 .. 100, and 0 when the raw
    target is not a finite number. *)
Lemma target_of_clamps (scoreTarget : option string) :
  (isFinite (rawTarget scoreTarget) = false -> target_of scoreTarget = 0)
  /\ (forall q, rawTarget scoreTarget = Fin q ->
        (q <= 0 -> target_of scoreTarget = 0)
        /\ (100 <= q -> target_of scoreTarget = 100)
        /\ (0 <= q <= 100 -> target_of scoreTarget == q)).
Proof.
  unfold target_of. split.
  - intros H. now rewrite H.
  - intros q Hq. rewrite Hq. cbn [isFinite math_min].
    destruct (Qle_bool 100 q) eqn:Hhi; cbn [math_max].
    + apply Qle_bool_iff in Hhi. change (Qle_bool 100 0) with false. cbv iota.
      split; [intros H; lra|]. split; [reflexivity|]. intros H; lra.
    + apply Qle_bool_not in Hhi. destruct (Qle_bool q 0) eqn:Hlo.
      * apply Qle_bool_iff in Hlo.
        split; [reflexivity|]. split; [intros H; lra|]. intros H; lra.
      * apply Qle_bool_not in Hlo.
        split; [intros H; lra|]. split; [intros H; lra|]. reflexivity.
Qed.

Lemma target_of_range (scoreTarget : option string) :
  0 <= target_of scoreTarget <= 100.
Proof.
  destruct (target_of_clamps scoreTarget) as [Hnot Hfin].
  destruct (rawTarget scoreTarget) as [| | |q] eqn:Hraw;
    try (rewrite (Hnot eq_refl); lra).
  destruct (Hfin q eq_refl) as (Hlo & Hhi & Hmid).
  destruct (Qlt_le_dec q 0) as [H0|H0].
  - rewrite Hlo by lra. lra.
  - destruct (Qlt_le_dec 100 q) as [H1|H1].
    + rewrite Hhi by lra. lra.
    + rewrite Hmid by lra. lra.
Qed.

Lemma easing_cubic (p : Q) : easing p == 1 - (1 - p) * (1 - p) * (1 - p).
Proof. unfold easing. simpl. ring. Qed.

Lemma easing_one : easing 1 == 1.
Proof. reflexivity. Qed.

(** The window is over exactly from [start + 1200] on. *)
Lemma window_over (start now : Q) :
  Qle_bool 1 ((now - start) / durationMs) = true <-> start + 1200 <= now.
Proof.
  rewrite Qle_bool_iff. unfold durationMs. split; intros H.
  - apply Qle_shift_div_r in H; [|reflexivity].
    apply Qplus_le_l with (z := - start).
    setoid_replace (start + 1200 + - start) with (1 * 1200) by ring.
    exact H.
  - apply Qle_shift_div_l; [reflexivity|].
    apply Qplus_le_l with (z := start).
    setoid_replace (1 * 1200 + start) with (start + 1200) by ring.
    setoid_replace (now - start + start) with now by ring.
    exact H.
Qed.

Lemma unfinished_progress (start now : Q) :
  unfinished (progress_at start now) = negb (Qle_bool 1 ((now - start) / durationMs)).
Proof.
  unfold unfinished, progress_at.
  destruct (Qle_bool ((now - start) / durationMs) 1) eqn:Hle; [reflexivity|].
  cbn. symmetry. apply negb_false_iff. apply Qle_bool_iff.
  destruct (Qlt_le_dec ((now - start) / durationMs) 1) as [Hlt|Hge]; [|exact Hge].
  apply Qlt_le_weak in Hlt. apply Qle_bool_iff in Hlt. congruence.
Qed.

Lemma unfinished_inside (start now : Q) :
  now < start + 1200 -> unfinished (progress_at start now) = true.
Proof.
  intros Hnow. rewrite unfinished_progress. apply negb_true_iff.
  destruct (Qle_bool 1 ((now - start) / durationMs)) eqn:Hover; [|reflexivity].
  apply window_over in Hover. lra.
Qed.

Lemma finished_outside (start now : Q) :
  start + 1200 <= now -> unfinished (progress_at start now) = false.
Proof.
  intros Hnow. rewrite unfinished_progress. apply negb_false_iff.
  now apply window_over.
Qed.

Lemma progress_before_end (start now : Q) :
  unfinished (progress_at start now) = true ->
  progress_at start now = (now - start) / durationMs.
Proof.
  unfold unfinished, progress_at.
  destruct (Qle_bool ((now - start) / durationMs) 1); [reflexivity|].
  cbn. discriminate.
Qed.

Lemma run_cons step d now tl :
  run step d (now :: tl) = run step (on_frame step d now) tl.
Proof. reflexivity. Qed.

Lemma run_idle step d ts : pending d = false -> run step d ts = d.
Proof.
  intros Hp. induction ts as [|now tl IH]; [reflexivity|].
  rewrite run_cons. unfold on_frame. now rewrite Hp.
Qed.

Lemma frames_run_idle step d ts : pending d = false -> frames_run step d ts = 0%nat.
Proof.
  intros Hp. induction ts as [|now tl IH]; cbn; [reflexivity|]. now rewrite Hp.
Qed.

(** *** One callback per frame until the window is over *)

Section Count.

Variable step : dial -> Q -> dial.

Hypothesis step_pending :
  forall d now, pending (step d now) = unfinished (progress_at (start d) now).
Hypothesis step_start : forall d now, start (step d now) = start d.

Lemma frames_counted (d : dial) (before after : list Q) (now : Q) :
  pending d = true ->
  (forall n, In n before -> n < start d + 1200) ->
  start d + 1200 <= now ->
  frames_run step d (before ++ now :: after) = S (length before).
Proof.
  revert d. induction before as [|b before IH]; intros d Hp Hin Hnow.
  - cbn [app frames_run length]. rewrite Hp. f_equal.
    apply frames_run_idle. rewrite step_pending. now apply finished_outside.
  - cbn [app frames_run length]. rewrite Hp. f_equal. apply IH.
    + rewrite step_pending. apply unfinished_inside. apply Hin. now left.
    + intros n Hn. rewrite step_start. apply Hin. now right.
    + now rewrite step_start.
Qed.

End Count.

Lemma frame_pending (d : dial) (now : Q) :
  pending (frame d now) = unfinished (progress_at (start d) now).
Proof. unfold frame. now destruct (unfinished _). Qed.

Lemma frame_start (d : dial) (now : Q) : start (frame d now) = start d.
Proof. unfold frame. now destruct (unfinished _). Qed.

(** Inside the window both variants write the eased value and ask for
    another frame. *)
Lemma frame_inside (d : dial) (now : Q) :
  now < start d + 1200 ->
  let p := (now - start d) / 1200 in
  let shown :=
    mkDial (Fixed2 (target d * (1 - (1 - p) ^ 3)))
           (math_round (target d * (1 - (1 - p) ^ 3))) (start d) (target d) true in
  frame d now = shown /\ frame_web d now = shown.
Proof.
  intros Hnow p shown. pose proof (unfinished_inside _ _ Hnow) as Hu.
  unfold frame, frame_web. rewrite Hu, (progress_before_end _ _ Hu). split; reflexivity.
Qed.

(** Once a frame at or after the end of the window has run, the dial of
    the report page shows the target itself and nothing is waiting. *)
Lemma run_pins (d : dial) (ts : list Q) :
  pending d = true ->
  (exists now, In now ts /\ start d + 1200 <= now) ->
  run frame d ts
  = mkDial (Plain (target d)) (math_round (target d)) (start d) (target d) false.
Proof.
  revert d. induction ts as [|now tl IH]; intros d Hp [n [Hin Hn]]; [destruct Hin|].
  rewrite run_cons. unfold on_frame. rewrite Hp.
  unfold frame. rewrite unfinished_progress.
  destruct (Qle_bool 1 ((now - start d) / durationMs)) eqn:Hover; cbn [negb].
  - apply run_idle. reflexivity.
  - destruct Hin as [->|Hin].
    + apply window_over in Hn. congruence.
    + rewrite IH; [reflexivity|reflexivity|].
      exists n; split; assumption.
Qed.

Lemma math_round_comp (a b : Q) : a == b -> math_round a = math_round b.
Proof. intros H. unfold math_round. now rewrite H. Qed.

(** The same for the report viewer's variant, whose last frame writes
    the two-decimal rendering of [target * f(1)]. *)
Lemma run_web_ends (d : dial) (ts : list Q) :
  pending d = true ->
  (exists now, In now ts /\ start d + 1200 <= now) ->
  exists v, v == target d
    /\ run frame_web d ts
       = mkDial (Fixed2 v) (math_round (target d)) (start d) (target d) false.
Proof.
  revert d. induction ts as [|now tl IH]; intros d Hp [n [Hin Hn]]; [destruct Hin|].
  rewrite run_cons. unfold on_frame. rewrite Hp.
  unfold frame_web. rewrite unfinished_progress.
  destruct (Qle_bool 1 ((now - start d) / durationMs)) eqn:Hover; cbn [negb].
  - assert (Hone : progress_at (start d) now == 1).
    { unfold progress_at.
      destruct (Qle_bool ((now - start d) / durationMs) 1) eqn:Hle; [|reflexivity].
      apply Qle_bool_iff in Hle, Hover. now apply Qle_antisym. }
    assert (Hv : target d * easing (progress_at (start d) now) == target d).
    { rewrite easing_cubic, Hone. ring. }
    exists (target d * easing (progress_at (start d) now)). split; [exact Hv|].
    rewrite run_idle by reflexivity. f_equal. now apply math_round_comp.
  - destruct Hin as [->|Hin].
    + apply window_over in Hn. congruence.
    + apply (IH (mkDial _ _ (start d) (target d) true)); [reflexivity|].
      exists n; split; assumption.
Qed.

(** The two-decimal rendering of a number is the number itself exactly
    when the number has at most two decimals. *)
Lemma two_decimals (v t : Q) :
  v == t ->
  css_number (Fixed2 v) == inject_Z (Qfloor (t * 100 + (1 # 2))) / 100
  /\ (css_number (Fixed2 v) == t <-> inject_Z (Qfloor (t * 100)) == t * 100).
Proof.
  intros Hv. unfold css_number.
  assert (Hfl : Qfloor (v * 100 + (1 # 2)) = Qfloor (t * 100 + (1 # 2))).
  { apply Qfloor_comp. now rewrite Hv. }
  rewrite Hfl. split; [reflexivity|]. split; intros H.
  - set (z := Qfloor (t * 100 + (1 # 2))) in *.
    assert (Ht : t * 100 == inject_Z z).
    { rewrite <- H. field. }
    rewrite (Qfloor_comp _ _ Ht), Qfloor_Z. now symmetry.
  - set (z := Qfloor (t * 100)) in *.
    assert (Hz : Qfloor (t * 100 + (1 # 2)) = z).
    { assert (Heq : t * 100 + (1 # 2) == inject_Z z + (1 # 2)) by (now rewrite H).
      rewrite (Qfloor_comp _ _ Heq).
      apply Z.le_antisymm.
      - assert (Hlt : inject_Z (Qfloor (inject_Z z + (1 # 2))) < inject_Z (z + 1)).
        { eapply Qle_lt_trans; [apply Qfloor_le|].
          rewrite inject_Z_plus. apply Qplus_lt_r. reflexivity. }
        rewrite <- Zlt_Qlt in Hlt. lia.
      - rewrite <- (Qfloor_Z z) at 1. apply Qfloor_resp_le.
        rewrite <- (Qplus_0_r (inject_Z z)) at 1. apply Qplus_le_r. discriminate. }
    rewrite Hz, H. field.
Qed.

(** C8 (the report viewer departs from the claim).  The target is the
    raw target clamped to 0 .. 100, and 0 when the raw target is not a
    finite number.  Under reduced motion the final value is written at
    once and no frame is ever run.  Otherwise the dial starts at 0 with
    one frame requested; in both scripts a frame inside the 1200 ms
    window shows [target * (1 - (1 - p)^3)] for
    [p = (now - start) / 1200] and requests another, and the first
    frame at or after [start + 1200] is the last one run.  After it the
    dial of the report page shows the clamped target itself,
    interpolated as it is.  The report viewer ([web/app.js]) has no such
    last write: its dial is left on the two-decimal rendering of the
    target, which is the target only when that has at most two
    decimals; for a target of 87.456 it ends on 87.46. *)
Theorem score_dial_animation (scoreTarget : option string) (now0 : Q) :
  let t := target_of scoreTarget in
  let begun := animateScoreDial scoreTarget false now0 in
  ((isFinite (rawTarget scoreTarget) = false -> t = 0)
   /\ (forall q, rawTarget scoreTarget = Fin q ->
         (q <= 0 -> t = 0) /\ (100 <= q -> t = 100) /\ (0 <= q <= 100 -> t == q))
   /\ 0 <= t <= 100)
  /\ (animateScoreDial scoreTarget true now0
      = mkDial (Plain t) (math_round t) now0 t false
      /\ forall step ts,
           run step (animateScoreDial scoreTarget true now0) ts
           = animateScoreDial scoreTarget true now0
           /\ frames_run step (animateScoreDial scoreTarget true now0) ts = 0%nat)
  /\ begun = mkDial (Plain 0) 0 now0 t true
  /\ (forall d now,
        start d = now0 -> target d = t -> now < now0 + 1200 ->
        let p := (now - now0) / 1200 in
        let shown :=
          mkDial (Fixed2 (t * (1 - (1 - p) ^ 3))) (math_round (t * (1 - (1 - p) ^ 3)))
                 now0 t true in
        frame d now = shown /\ frame_web d now = shown)
  /\ (forall before now after,
        (forall n, In n before -> n < now0 + 1200) -> now0 + 1200 <= now ->
        frames_run frame begun (before ++ now :: after) = S (length before)
        /\ frames_run frame_web begun (before ++ now :: after) = S (length before))
  /\ (forall ts,
        (exists now, In now ts /\ now0 + 1200 <= now) ->
        run frame begun ts = mkDial (Plain t) (math_round t) now0 t false
        /\ exists v,
             v == t
             /\ run frame_web begun ts = mkDial (Fixed2 v) (math_round t) now0 t false
             /\ css_number (Fixed2 v) == inject_Z (Qfloor (t * 100 + (1 # 2))) / 100
             /\ (css_number (Fixed2 v) == t <-> inject_Z (Qfloor (t * 100)) == t * 100))
  /\ (let ts := [16; 600; 1210] in
      let here := run frame (animateScoreDial (Some "87.456"%string) false 0) ts in
      let there := run frame_web (animateScoreDial (Some "87.456"%string) false 0) ts in
      target here == 87456 # 1000 /\ target there == 87456 # 1000
      /\ score here = Plain (target here)
      /\ css_number (score there) == 8746 # 100
      /\ ~ css_number (score there) == target there).
Proof.
  intros t begun.
  split; [|split; [|split; [|split; [|split; [|split]]]]].
  - destruct (target_of_clamps scoreTarget) as [Hnot Hfin].
    split; [exact Hnot|]. split; [exact Hfin|]. apply target_of_range.
  - split; [reflexivity|]. intros step ts. split.
    + apply run_idle. reflexivity.
    + apply frames_run_idle. reflexivity.
  - reflexivity.
  - intros d now Hs Ht Hnow p shown.
    pose proof (frame_inside d now) as H. rewrite Hs, Ht in H. exact (H Hnow).
  - intros before now after Hin Hnow. split.
    + apply (frames_counted frame frame_pending frame_start begun);
        [reflexivity|exact Hin|exact Hnow].
    + apply (frames_counted frame_web (fun _ _ => eq_refl) (fun _ _ => eq_refl) begun);
        [reflexivity|exact Hin|exact Hnow].
  - intros ts Hex. split.
    + apply (run_pins begun ts); [reflexivity|exact Hex].
    + destruct (run_web_ends begun ts) as [v [Hv Hrun]]; [reflexivity|exact Hex|].
      change (target begun) with t in Hv, Hrun.
      change (start begun) with now0 in Hrun.
      exists v. split; [exact Hv|]. split; [exact Hrun|]. now apply two_decimals.
  - cbv zeta. split; [vm_compute; reflexivity|]. split; [vm_compute; reflexivity|].
    split; [vm_compute; reflexivity|]. split; [vm_compute; reflexivity|].
    vm_compute. discriminate.
Qed.

Lemma score_dial_animation_witness :
  run frame (animateScoreDial (Some "87"%string) false 0) [16; 600; 1210; 1300]
  = mkDial (Plain 87) 87 0 87 false
  /\ frames_run frame (animateScoreDial (Some "87"%string) false 0) [16; 600; 1210; 1300]
     = 3%nat.
Proof.
  destruct (score_dial_animation (Some "87"%string) 0)
    as (_ & _ & _ & _ & Hcount & Hrun & _).
  split.
  - apply (Hrun [16; 600; 1210; 1300]).
    exists 1210. split; [simpl; auto|discriminate].
  - apply (Hcount [16; 600] 1210 [1300]); [|discriminate].
    intros n [<-|[<-|[]]]; reflexivity.
Defined.

(** A text beyond the range of the doubles is not a finite number: the
    dial falls back to 0. *)
Lemma overflowing_target :
  rawTarget (Some "1e400"%string) = PosInf /\ target_of (Some "1e400"%string) = 0.
Proof. split; vm_compute; reflexivity. Qed.

End DialFacts.
(* ===================================================================== *)
(** ** Properties of the palette subsystem                               *)
(* ===================================================================== *)

Module PaletteFacts.
Import JsString Palette.

Local Open Scope string_scope.

(** *** Characters *)

Lemma all_chars_impl (p q : ascii -> bool) (s : string) :
  (forall c, p c = true -> q c = true) ->
  all_chars p s = true -> all_chars q s = true.
Proof.
  intros Hpq. induction s as [|c r IH]; cbn; [reflexivity|].
  intros H. apply andb_true_iff in H as [Hc Hr].
  apply andb_true_iff. split; auto.
Qed.

Lemma all_chars_map (p : ascii -> bool) (f : ascii -> ascii) (s : string) :
  all_chars p (map_chars f s) = all_chars (fun c => p (f c)) s.
Proof. induction s as [|c r IH]; cbn; [reflexivity|]. now rewrite IH. Qed.

Lemma map_chars_length (f : ascii -> ascii) (s : string) :
  String.length (map_chars f s) = String.length s.
Proof. induction s as [|c r IH]; cbn; [reflexivity|]. now rewrite IH. Qed.

Lemma map_chars_id_on (p : ascii -> bool) (f : ascii -> ascii) (s : string) :
  (forall c, p c = true -> f c = c) ->
  all_chars p s = true -> map_chars f s = s.
Proof.
  intros Hf. induction s as [|c r IH]; cbn; [reflexivity|].
  intros H. apply andb_true_iff in H as [Hc Hr]. now rewrite (Hf c Hc), IH.
Qed.

(** Facts about single characters are settled by running through the
    256 of them. *)
Lemma forall_ascii (P : ascii -> bool) :
  forallb P (map ascii_of_nat (seq 0 256)) = true -> forall c, P c = true.
Proof.
  intros H c. rewrite forallb_forall in H. apply H.
  rewrite <- (ascii_nat_embedding c). apply in_map. apply in_seq.
  pose proof (nat_ascii_bounded c). lia.
Qed.

Definition not_space (c : ascii) : bool := negb (is_space c).

Definition is_upper_hex (c : ascii) : bool := is_hex c && negb (is_lower c).

Lemma upper_hex_spec :
  forall c, implb (is_hex c) (is_upper_hex (upper_char c)) = true.
Proof. apply forall_ascii. vm_compute. reflexivity. Qed.

Lemma upper_hex_fixed :
  forall c, implb (is_upper_hex c) (Ascii.eqb (upper_char c) c) = true.
Proof. apply forall_ascii. vm_compute. reflexivity. Qed.

Lemma upper_hex_is_hex :
  forall c, implb (is_upper_hex c) (is_hex c && not_space c) = true.
Proof. apply forall_ascii. vm_compute. reflexivity. Qed.

Lemma implb_elim (a b : bool) : implb a b = true -> a = true -> b = true.
Proof. destruct a, b; cbn; congruence. Qed.

(** *** Trimming *)

Lemma trim_end_no_space (s : string) :
  all_chars not_space s = true -> trim_end s = s.
Proof.
  induction s as [|c r IH]; cbn; [reflexivity|].
  intros H. apply andb_true_iff in H as [Hc Hr]. rewrite (IH Hr).
  unfold not_space in Hc. apply negb_true_iff in Hc. rewrite Hc.
  destruct r; reflexivity.
Qed.

Lemma trim_no_space (s : string) :
  all_chars not_space s = true -> trim s = s.
Proof.
  intros H. unfold trim.
  assert (Hs : trim_start s = s).
  { destruct s as [|c r]; [reflexivity|]. cbn in *.
    apply andb_true_iff in H as [Hc _].
    unfold not_space in Hc. apply negb_true_iff in Hc. now rewrite Hc. }
  rewrite Hs. now apply trim_end_no_space.
Qed.

(** *** Normalized colours *)

(** A colour in the form [normalizeHexColor] produces: [#] and six
    upper-case hexadecimal digits. *)
Definition normalized (w : string) : bool :=
  match w with
  | String "#" ds => all_chars is_upper_hex ds && (String.length ds =? 6)%nat
  | _ => false
  end.

Lemma normalized_fixed (w : string) :
  normalized w = true -> normalizeHexColor w = Some w.
Proof.
  unfold normalized. destruct w as [|h ds]; [discriminate|].
  destruct (Ascii.eqb_spec h "#") as [->|Hne].
  2:{ destruct h as [[] [] [] [] [] [] [] []]; try discriminate. congruence. }
  intros H. apply andb_true_iff in H as [Hall Hlen].
  assert (Hns : all_chars not_space (String "#" ds) = true).
  { cbn. eapply all_chars_impl; [|exact Hall].
    intros c Hc. pose proof (implb_elim _ _ (upper_hex_is_hex c) Hc) as H.
    now apply andb_true_iff in H as [_ H]. }
  unfold normalizeHexColor. rewrite (trim_no_space _ Hns).
  assert (Hre : HEX_COLOR_RE (String "#" ds) = true).
  { cbn. apply andb_true_iff. split.
    - eapply all_chars_impl; [|exact Hall].
      intros c Hc. pose proof (implb_elim _ _ (upper_hex_is_hex c) Hc) as H.
      now apply andb_true_iff in H as [H _].
    - rewrite Hlen. apply orb_true_r. }
  rewrite Hre. cbn [negb].
  assert (Hup : toUpperCase (String "#" ds) = String "#" ds).
  { unfold toUpperCase. cbn. f_equal.
    apply (map_chars_id_on is_upper_hex); [|exact Hall].
    intros c Hc. pose proof (implb_elim _ _ (upper_hex_fixed c) Hc) as H.
    now apply Ascii.eqb_eq in H. }
  apply Nat.eqb_eq in Hlen.
  destruct ds as [|a [|b [|c [|d r]]]]; try discriminate Hlen.
  now rewrite Hup.
Qed.

Lemma normalizeHexColor_normalized (v w : string) :
  normalizeHexColor v = Some w -> normalized w = true.
Proof.
  unfold normalizeHexColor.
  destruct (HEX_COLOR_RE (trim v)) eqn:Hre; [|discriminate]. cbn [negb].
  unfold HEX_COLOR_RE in Hre.
  destruct (trim v) as [|h ds]; [discriminate|].
  destruct (Ascii.eqb_spec h "#") as [->|Hne].
  2:{ destruct h as [[] [] [] [] [] [] [] []]; try discriminate. congruence. }
  apply andb_true_iff in Hre as [Hall Hlen].
  assert (Hds : all_chars is_upper_hex (map_chars upper_char ds) = true).
  { rewrite all_chars_map. eapply all_chars_impl; [|exact Hall].
    intros c Hc. exact (implb_elim _ _ (upper_hex_spec c) Hc). }
  apply orb_true_iff in Hlen as [Hlen|Hlen]; apply Nat.eqb_eq in Hlen.
  - destruct ds as [|r [|g [|b [|x t]]]]; try discriminate Hlen.
    intros [= <-]. cbn in Hall, Hds |- *.
    repeat match goal with
           | H : _ && _ = true |- _ => apply andb_true_iff in H as [? H]
           end.
    change (upper_char "#") with "#"%char. cbn match.
    rewrite H, H0, H1. reflexivity.
  - destruct ds as [|a [|b [|c [|d t]]]]; try discriminate Hlen.
    intros [= <-].
    change (normalized
              (String "#" (map_chars upper_char
                             (String a (String b (String c (String d t))))))
            = true).
    unfold normalized. rewrite Hds, map_chars_length, Hlen. reflexivity.
Qed.

Lemma normalizeHexColor_idem (v w : string) :
  normalizeHexColor v = Some w -> normalizeHexColor w = Some w.
Proof. intros H. apply normalized_fixed. eapply normalizeHexColor_normalized; eauto. Qed.

Lemma normalizeHexColor_empty : normalizeHexColor "" = None.
Proof. reflexivity. Qed.

(** *** Inputs and palettes as association lists *)

Lemma includes_In (xs : list string) (x : string) :
  includes xs x = true <-> In x xs.
Proof.
  unfold includes. rewrite existsb_exists. split.
  - intros [y [Hy He]]. apply String.eqb_eq in He. now subst.
  - intros H. exists x. split; [exact H|apply String.eqb_refl].
Qed.

Lemma lookup_set_input (k k' v : string) (ins : color_inputs) :
  lookup k (set_input k' v ins)
  = if k' =? k then option_map (fun _ => v) (lookup k ins) else lookup k ins.
Proof.
  induction ins as [|[k0 old] tl IH]; cbn.
  - now destruct (k' =? k).
  - destruct (String.eqb_spec k0 k') as [->|Hne]; cbn.
    + destruct (String.eqb_spec k' k) as [->|Hk]; reflexivity.
    + destruct (String.eqb_spec k0 k) as [->|Hk].
      * destruct (String.eqb_spec k' k) as [->|_]; [congruence|reflexivity].
      * exact IH.
Qed.

(** The value an input holds after [applyGeneratorPalette] went through
    the keys [keys]. *)
Definition applied (keys : list string) (p : palette) (k old : string) : string :=
  if includes keys k then
    match normalizeHexColor (palette_entry k p) with
    | Some v => v
    | None => old
    end
  else old.

Definition apply_step (p : palette) (ins : color_inputs) (key : string) : color_inputs :=
  match normalizeHexColor (palette_entry key p) with
  | Some value => set_input key value ins
  | None => ins
  end.

Lemma lookup_apply_keys (keys : list string) (p : palette) (k : string)
    (ins : color_inputs) :
  lookup k (fold_left (apply_step p) keys ins)
  = option_map (applied keys p k) (lookup k ins).
Proof.
  revert ins. induction keys as [|key tl IH]; intros ins; cbn [fold_left].
  - now destruct (lookup k ins).
  - rewrite IH. unfold apply_step, applied. cbn [includes existsb].
    fold (includes tl k).
    destruct (String.eqb_spec k key) as [->|Hne]; cbn [orb].
    + destruct (normalizeHexColor (palette_entry key p)) as [v|] eqn:Hn.
      * rewrite lookup_set_input, String.eqb_refl.
        destruct (lookup key ins); cbn; [|reflexivity].
        now destruct (includes tl key).
      * destruct (lookup key ins); cbn; [|reflexivity].
        now destruct (includes tl key).
    + destruct (normalizeHexColor (palette_entry key p)) as [v|] eqn:Hn;
        [|reflexivity].
      rewrite lookup_set_input.
      destruct (String.eqb_spec key k) as [->|_]; [congruence|reflexivity].
Qed.

Lemma lookup_applyGeneratorPalette (p : palette) (k : string) (ins : color_inputs) :
  lookup k (applyGeneratorPalette p ins)
  = option_map (applied GENERATOR_THEME_KEYS p k) (lookup k ins).
Proof. apply (lookup_apply_keys GENERATOR_THEME_KEYS). Qed.

Definition collect_step (ins : color_inputs) (key : string) : palette :=
  match normalizeHexColor (input_value key ins) with
  | Some value => [(key, value)]
  | None => []
  end.

Lemma lookup_collect (keys : list string) (ins : color_inputs) (k : string) :
  lookup k (flat_map (collect_step ins) keys)
  = if includes keys k then normalizeHexColor (input_value k ins) else None.
Proof.
  induction keys as [|key tl IH]; [reflexivity|].
  assert (Hinc : includes (key :: tl) k = (k =? key) || includes tl k) by reflexivity.
  rewrite Hinc. clear Hinc.
  assert (Hfm : flat_map (collect_step ins) (key :: tl)
                = (collect_step ins key ++ flat_map (collect_step ins) tl)%list)
    by reflexivity.
  rewrite Hfm. clear Hfm. unfold collect_step at 1.
  destruct (normalizeHexColor (input_value key ins)) as [v|] eqn:Hn; simpl.
  - destruct (String.eqb_spec key k) as [->|Hne].
    + rewrite String.eqb_refl. simpl. now rewrite Hn.
    + destruct (String.eqb_spec k key) as [->|_]; [congruence|exact IH].
  - destruct (String.eqb_spec k key) as [->|_]; simpl; [|exact IH].
    rewrite IH, Hn. now destruct (includes tl key).
Qed.

Lemma lookup_palette_of_inputs (ins : color_inputs) (k : string) :
  In k GENERATOR_THEME_KEYS ->
  lookup k (generatorPaletteFromInputs ins) = normalizeHexColor (input_value k ins).
Proof.
  intros Hk. unfold generatorPaletteFromInputs.
  change (lookup k (flat_map (collect_step ins) GENERATOR_THEME_KEYS)
          = normalizeHexColor (input_value k ins)).
  rewrite lookup_collect. apply includes_In in Hk. now rewrite Hk.
Qed.

Lemma in_palette_of_inputs (ins : color_inputs) (k v : string) :
  In (k, v) (generatorPaletteFromInputs ins) ->
  In k GENERATOR_THEME_KEYS /\ normalizeHexColor (input_value k ins) = Some v.
Proof.
  unfold generatorPaletteFromInputs. intros H. apply in_flat_map in H as [key [Hkey H]].
  destruct (normalizeHexColor (input_value key ins)) as [w|] eqn:Hn; [|destruct H].
  destruct H as [[= -> ->]|[]]. split; assumption.
Qed.

Lemma palette_of_inputs_ext (a b : color_inputs) :
  (forall k, In k GENERATOR_THEME_KEYS ->
             normalizeHexColor (input_value k a) = normalizeHexColor (input_value k b)) ->
  generatorPaletteFromInputs a = generatorPaletteFromInputs b.
Proof.
  unfold generatorPaletteFromInputs.
  induction GENERATOR_THEME_KEYS as [|key tl IH]; intros H; cbn [flat_map];
    [reflexivity|].
  rewrite (H key (or_introl eq_refl)). f_equal. apply IH.
  intros k Hk. apply H. now right.
Qed.

Definition valid_at (ins : color_inputs) (key : string) : bool :=
  match normalizeHexColor (input_value key ins) with
  | Some _ => true
  | None => false
  end.

Lemma palette_keys (ins : color_inputs) :
  map fst (generatorPaletteFromInputs ins) = filter (valid_at ins) GENERATOR_THEME_KEYS.
Proof.
  unfold generatorPaletteFromInputs, valid_at.
  induction GENERATOR_THEME_KEYS as [|key tl IH]; [reflexivity|].
  cbn [flat_map filter]. rewrite map_app, IH.
  now destruct (normalizeHexColor (input_value key ins)).
Qed.

Lemma theme_keys_nodup : NoDup GENERATOR_THEME_KEYS.
Proof.
  unfold GENERATOR_THEME_KEYS.
  repeat (constructor; [cbn [In]; intros H;
                        repeat (destruct H as [H|H]; [discriminate H|]); exact H|]).
  constructor.
Qed.

Lemma palette_keys_nodup (ins : color_inputs) :
  NoDup (map fst (generatorPaletteFromInputs ins)).
Proof. rewrite palette_keys. apply NoDup_filter, theme_keys_nodup. Qed.

Lemma palette_keys_in (ins : color_inputs) (k : string) :
  In k (map fst (generatorPaletteFromInputs ins)) -> In k GENERATOR_THEME_KEYS.
Proof. rewrite palette_keys. intros H. now apply filter_In in H. Qed.

(** *** Sessions *)

Lemma perform_default (s : session) (a : action) :
  generatorDefaultPalette (perform s a) = generatorDefaultPalette s.
Proof. destruct a; reflexivity. Qed.

Lemma perform_all_default (s : session) (acts : list action) :
  generatorDefaultPalette (perform_all s acts) = generatorDefaultPalette s.
Proof.
  revert s. induction acts as [|a tl IH]; intros s; [reflexivity|].
  unfold perform_all in *. cbn [fold_left]. now rewrite IH, perform_default.
Qed.

Definition present (k : string) (ins : color_inputs) : bool :=
  match lookup k ins with Some _ => true | None => false end.

Lemma present_apply (p : palette) (k : string) (ins : color_inputs) :
  present k (applyGeneratorPalette p ins) = present k ins.
Proof.
  unfold present. rewrite lookup_applyGeneratorPalette. now destruct (lookup k ins).
Qed.

Lemma present_perform_all (s : session) (acts : list action) (k : string) :
  present k (inputs (perform_all s acts)) = present k (inputs s).
Proof.
  revert s. induction acts as [|a tl IH]; intros s; [reflexivity|].
  unfold perform_all in *. cbn [fold_left]. rewrite IH.
  destruct a; unfold perform, randomizeGeneratorPalette, applyGeneratorPresetPalette;
    cbn [inputs]; apply present_apply.
Qed.

Lemma valid_input_present (ins : color_inputs) (k v : string) :
  normalizeHexColor (input_value k ins) = Some v -> present k ins = true.
Proof.
  unfold input_value, present. destruct (lookup k ins); [reflexivity|].
  rewrite normalizeHexColor_empty. discriminate.
Qed.

(** What [applyGeneratorPalette] leaves in an input the page has, when
    the palette holds a normalized colour for it. *)
Lemma input_after_apply (p : palette) (ins : color_inputs) (k v : string) :
  In k GENERATOR_THEME_KEYS -> present k ins = true ->
  lookup k p = Some v -> normalized v = true ->
  input_value k (applyGeneratorPalette p ins) = v.
Proof.
  intros Hk Hp Hl Hv. unfold input_value, present in *.
  rewrite lookup_applyGeneratorPalette.
  destruct (lookup k ins) as [old|]; [|discriminate]. cbn.
  unfold applied, palette_entry. apply includes_In in Hk. rewrite Hk, Hl.
  now rewrite (normalized_fixed v Hv).
Qed.

Lemma input_untouched (p : palette) (ins : color_inputs) (k : string) :
  normalizeHexColor (palette_entry k p) = None ->
  input_value k (applyGeneratorPalette p ins) = input_value k ins.
Proof.
  intros Hn. unfold input_value. rewrite lookup_applyGeneratorPalette.
  destruct (lookup k ins) as [old|]; [|reflexivity]. cbn.
  unfold applied. rewrite Hn. now destruct (includes GENERATOR_THEME_KEYS k).
Qed.

(** Applying to the inputs the palette read from them changes no colour. *)
Lemma apply_own_palette (ins : color_inputs) :
  generatorPaletteFromInputs
    (applyGeneratorPalette (generatorPaletteFromInputs ins) ins)
  = generatorPaletteFromInputs ins.
Proof.
  apply palette_of_inputs_ext. intros k Hk.
  pose proof (lookup_palette_of_inputs ins k Hk) as Hl.
  destruct (normalizeHexColor (input_value k ins)) as [w|] eqn:Hn.
  - rewrite (input_after_apply _ ins k w Hk (valid_input_present _ _ _ Hn) Hl
               (normalizeHexColor_normalized _ _ Hn)).
    eapply normalizeHexColor_idem; eassumption.
  - rewrite input_untouched; [exact Hn|].
    unfold palette_entry. now rewrite Hl.
Qed.

(** Every colour input holds a valid colour. *)
Definition all_valid (ins : color_inputs) : bool :=
  forallb (fun key => match normalizeHexColor (input_value key ins) with
                      | Some _ => true
                      | None => false
                      end)
          GENERATOR_THEME_KEYS.

(** C9, as the script has it.  The first [captureDefault] memoizes the
    valid colours present at that moment and changes no input; it is a
    no-op from then on; a [resetToDefault] after any sequence of
    [randomize] and [applyPreset] puts every memoized colour back, and
    gives back exactly the memoized palette when all sixteen inputs were
    valid at the capture.  With nothing captured, [resetToDefault]
    itself captures the palette then present and leaves it as it is. *)
Theorem capture_then_reset (s : session) (acts : list action)
    (Hfresh : generatorDefaultPalette s = None) :
  let memo := generatorPaletteFromInputs (inputs s) in
  let s1 := captureGeneratorDefaultPalette s in
  let s2 := perform_all s1 acts in
  let s3 := resetGeneratorPalette s2 in
  let u := perform_all s acts in
  let r := resetGeneratorPalette u in
  (generatorDefaultPalette s1 = Some memo /\ inputs s1 = inputs s)
  /\ captureGeneratorDefaultPalette s1 = s1
  /\ captureGeneratorDefaultPalette s2 = s2
  /\ generatorDefaultPalette s3 = Some memo
  /\ (forall key value, In (key, value) memo -> input_value key (inputs s3) = value)
  /\ (all_valid (inputs s) = true -> generatorPaletteFromInputs (inputs s3) = memo)
  /\ generatorDefaultPalette r = Some (generatorPaletteFromInputs (inputs u))
  /\ generatorPaletteFromInputs (inputs r) = generatorPaletteFromInputs (inputs u).
Proof.
  intros memo s1 s2 s3 u r.
  assert (H1 : generatorDefaultPalette s1 = Some memo).
  { unfold s1, captureGeneratorDefaultPalette. now rewrite Hfresh. }
  assert (Hi1 : inputs s1 = inputs s).
  { unfold s1, captureGeneratorDefaultPalette. now rewrite Hfresh. }
  assert (H2 : generatorDefaultPalette s2 = Some memo).
  { unfold s2. now rewrite perform_all_default. }
  assert (Hc2 : captureGeneratorDefaultPalette s2 = s2).
  { unfold captureGeneratorDefaultPalette. now rewrite H2. }
  assert (Hi3 : inputs s3 = applyGeneratorPalette memo (inputs s2)).
  { unfold s3, resetGeneratorPalette. rewrite Hc2, H2. reflexivity. }
  assert (Hback : forall key value, In (key, value) memo ->
                                    input_value key (inputs s3) = value).
  { intros key value Hin. apply in_palette_of_inputs in Hin as [Hk Hn].
    rewrite Hi3. apply input_after_apply.
    - exact Hk.
    - unfold s2. rewrite present_perform_all, Hi1.
      eapply valid_input_present; eassumption.
    - unfold memo. now rewrite lookup_palette_of_inputs.
    - eapply normalizeHexColor_normalized; eassumption. }
  assert (Hu : generatorDefaultPalette u = None).
  { unfold u. now rewrite perform_all_default. }
  repeat split.
  - exact H1.
  - exact Hi1.
  - unfold captureGeneratorDefaultPalette. now rewrite H1.
  - exact Hc2.
  - unfold s3, resetGeneratorPalette. rewrite Hc2. exact H2.
  - exact Hback.
  - intros Hall. unfold memo. apply palette_of_inputs_ext. intros k Hk.
    unfold all_valid in Hall. rewrite forallb_forall in Hall. specialize (Hall k Hk).
    destruct (normalizeHexColor (input_value k (inputs s))) as [w|] eqn:Hn;
      [|discriminate].
    assert (Hin : In (k, w) memo).
    { unfold memo, generatorPaletteFromInputs. apply in_flat_map.
      exists k. split; [exact Hk|]. rewrite Hn. now left. }
    rewrite (Hback k w Hin). eapply normalizeHexColor_idem; eassumption.
  - unfold r, resetGeneratorPalette, captureGeneratorDefaultPalette.
    now rewrite Hu.
  - unfold r, resetGeneratorPalette, captureGeneratorDefaultPalette.
    rewrite Hu. cbn [inputs generatorDefaultPalette]. apply apply_own_palette.
Qed.

Definition fresh_session : session := mkSession initial_inputs None "ocean".

Definition some_actions : list action :=
  [Randomize (fun i => (N.of_nat i * 65793 + 4660)%N); ApplyPreset "neon";
   Randomize (fun i => (16777214 - N.of_nat i)%N)].

Lemma capture_then_reset_witness :
  generatorDefaultPalette fresh_session = None
  /\ generatorPaletteFromInputs
       (inputs (perform_all (captureGeneratorDefaultPalette fresh_session) some_actions))
     <> ocean
  /\ generatorPaletteFromInputs
       (inputs (resetGeneratorPalette
                  (perform_all (captureGeneratorDefaultPalette fresh_session)
                               some_actions)))
     = ocean.
Proof.
  split; [reflexivity|]. split; [vm_compute; discriminate|].
  destruct (capture_then_reset fresh_session some_actions eq_refl)
    as (_ & _ & _ & _ & _ & Hall & _).
  exact (Hall eq_refl).
Defined.

(** With no default captured, a reset after [applyPreset("ember")] keeps
    the ember palette: the fallback to the first preset is not taken. *)
Lemma reset_without_capture_not_ocean :
  let u := perform_all fresh_session [ApplyPreset "ember"] in
  generatorDefaultPalette u = None
  /\ generatorPaletteFromInputs (inputs (resetGeneratorPalette u)) = ember
  /\ generatorPaletteFromInputs (inputs (resetGeneratorPalette u)) <> ocean.
Proof.
  cbv zeta. split; [reflexivity|]. split; [vm_compute; reflexivity|].
  vm_compute. discriminate.
Qed.

End PaletteFacts.

(* ===================================================================== *)
(** ** Properties of the builtins                                        *)
(* ===================================================================== *)

Module UrlFacts.
Import JsString Url.

Local Open Scope string_scope.

Lemma get_app (k : string) (a b : list (string * string)) :
  get k (a ++ b)%list = match get k a with Some v => Some v | None => get k b end.
Proof.
  induction a as [|[k0 v0] tl IH]; [reflexivity|].
  cbn [app get]. destruct (k0 =? k); [reflexivity|exact IH].
Qed.

Lemma set_fresh (k v : string) (ps : list (string * string)) :
  get k ps = None -> set k v ps = (ps ++ [(k, v)])%list.
Proof.
  induction ps as [|[k0 v0] tl IH]; [reflexivity|].
  cbn [get set app]. destruct (k0 =? k); [discriminate|].
  intros H. now rewrite IH.
Qed.

Lemma get_not_in (k : string) (ps : list (string * string)) :
  ~ In k (map fst ps) -> get k ps = None.
Proof.
  induction ps as [|[k0 v0] tl IH]; [reflexivity|].
  cbn [map fst In get]. intros H.
  destruct (String.eqb_spec k0 k) as [->|Hne]; [tauto|].
  apply IH. tauto.
Qed.

(** Setting, one after the other, pairs whose names are new and distinct
    appends them. *)
Lemma fold_set_append (kvs ps : list (string * string)) :
  NoDup (map fst kvs) ->
  (forall k, In k (map fst kvs) -> get k ps = None) ->
  fold_left (fun acc kv => set (fst kv) (snd kv) acc) kvs ps = (ps ++ kvs)%list.
Proof.
  revert ps. induction kvs as [|[k v] tl IH]; intros ps Hnd Hfresh.
  - now rewrite app_nil_r.
  - cbn [fold_left fst snd]. cbn [map fst] in Hnd, Hfresh.
    inversion Hnd as [|? ? Hk Htl]; subst.
    rewrite set_fresh by (apply Hfresh; now left).
    rewrite IH.
    + now rewrite <- app_assoc.
    + exact Htl.
    + intros k' Hk'. rewrite get_app, (Hfresh k') by now right.
      cbn [get]. destruct (String.eqb_spec k k') as [->|_]; [contradiction|reflexivity].
Qed.

End UrlFacts.

(* ===================================================================== *)
(** ** Properties of the export codec                                    *)
(* ===================================================================== *)

Module ExportFacts.
Import JsString JsNumber Url Palette Generator UrlFacts PaletteFacts.

Local Open Scope string_scope.

Definition opt_pair (cond : bool) (k v : string) : list (string * string) :=
  if cond then [(k, v)] else [].

Section ExportParams.

Variable show : Q -> string.

(** The parameters of an SVG card, written out. *)
Definition svg_head (f : Form) : list (string * string) :=
  ([ ("theme", current_theme f);
     ("locale", or_else (gen_locale f) "en");
     ("card_width", bounded show 640 1400 (number_or (gen_width f) 760)) ]
   ++ opt_pair (truthy (trim (gen_title f))) "title" (trim (gen_title f))
   ++ opt_pair (truthy (trim (gen_hide f))) "hide" (trim (gen_hide f))
   ++ [ ("animate", if gen_animate f then "true" else "false");
        ("animation", or_else (gen_animation f) "all");
        ("duration", bounded show 350 7000 (number_or (gen_duration f) 1400));
        ("cache_seconds",
         bounded show 0 86400 (number_or (gen_cache_seconds f) 21600)) ]
   ++ opt_pair (current_kind f =? "repo") "langs_count"
        (bounded show 1 10 (number_or (gen_langs f) 4)))%list.

Definition svg_params (f : Form) : list (string * string) :=
  (svg_head f
   ++ (if current_theme f =? "custom"
       then generatorCustomThemeParams (gen_colors f) else []))%list.

(** The parameters of a JSON document, written out. *)
Definition json_params (f : Form) : list (string * string) :=
  if current_kind f =? "repo" then
    ([ ("langs_count", bounded show 1 30 (number_or (gen_langs f) 4)) ]
     ++ opt_pair (truthy (trim (gen_fields f))) "fields" (trim (gen_fields f)))%list
  else
    ([ ("locale", or_else (gen_locale f) "en") ]
     ++ opt_pair (gen_include_report f) "include_report" "true"
     ++ opt_pair (truthy (trim (gen_fields f))) "fields" (trim (gen_fields f)))%list.

Lemma svg_head_no_color (f : Form) (k : string) :
  In k GENERATOR_THEME_KEYS -> get k (svg_head f) = None.
Proof.
  intros Hk. unfold svg_head, opt_pair.
  generalize (bounded show 640 1400 (number_or (gen_width f) 760)).
  generalize (bounded show 350 7000 (number_or (gen_duration f) 1400)).
  generalize (bounded show 0 86400 (number_or (gen_cache_seconds f) 21600)).
  generalize (bounded show 1 10 (number_or (gen_langs f) 4)).
  generalize (current_theme f) (or_else (gen_locale f) "en") (trim (gen_title f))
             (trim (gen_hide f)) (or_else (gen_animation f) "all").
  intros th lo ti hi an la ca du wi.
  generalize (if gen_animate f then "true" else "false"). intros anim.
  destruct (truthy ti), (truthy hi), (current_kind f =? "repo");
    unfold GENERATOR_THEME_KEYS in Hk; cbn [In] in Hk;
    repeat (destruct Hk as [<-|Hk]; [reflexivity|]); destruct Hk.
Qed.

Lemma generatorParams_svg (f : Form) :
  current_format f = "svg" -> generatorParams show f = svg_params f.
Proof.
  intros Hfmt. unfold generatorParams, svg_params. rewrite Hfmt.
  change ("svg" =? "svg") with true. cbv iota.
  assert (Hhead :
    set_if (current_kind f =? "repo") "langs_count"
      (bounded show 1 10 (number_or (gen_langs f) 4))
      (set "cache_seconds" (bounded show 0 86400 (number_or (gen_cache_seconds f) 21600))
        (set "duration" (bounded show 350 7000 (number_or (gen_duration f) 1400))
          (set "animation" (or_else (gen_animation f) "all")
            (set "animate" (if gen_animate f then "true" else "false")
              (set_if (truthy (trim (gen_hide f))) "hide" (trim (gen_hide f))
                (set_if (truthy (trim (gen_title f))) "title" (trim (gen_title f))
                  (set "card_width" (bounded show 640 1400 (number_or (gen_width f) 760))
                    (set "locale" (or_else (gen_locale f) "en")
                      (set "theme" (current_theme f) []))))))))) = svg_head f).
  { unfold svg_head, opt_pair, set_if.
    generalize (bounded show 640 1400 (number_or (gen_width f) 760)).
    generalize (bounded show 350 7000 (number_or (gen_duration f) 1400)).
    generalize (bounded show 0 86400 (number_or (gen_cache_seconds f) 21600)).
    generalize (bounded show 1 10 (number_or (gen_langs f) 4)).
    generalize (current_theme f) (or_else (gen_locale f) "en") (trim (gen_title f))
               (trim (gen_hide f)) (or_else (gen_animation f) "all").
    intros th lo ti hi an la ca du wi.
    generalize (if gen_animate f then "true" else "false"). intros anim.
    destruct (truthy ti), (truthy hi), (current_kind f =? "repo"); reflexivity. }
  cbv zeta. rewrite Hhead.
  destruct (current_theme f =? "custom"); [|now rewrite app_nil_r].
  apply fold_set_append.
  - apply (palette_keys_nodup (gen_colors f)).
  - intros k Hk. apply svg_head_no_color.
    exact (palette_keys_in (gen_colors f) k Hk).
Qed.

Lemma generatorParams_json (f : Form) :
  (current_format f =? "svg") = false -> generatorParams show f = json_params f.
Proof.
  intros Hfmt. unfold generatorParams, json_params. rewrite Hfmt. cbv iota zeta.
  unfold set_if, opt_pair.
  generalize (bounded show 1 30 (number_or (gen_langs f) 4)).
  generalize (or_else (gen_locale f) "en") (trim (gen_fields f)).
  intros lo fi la.
  destruct (current_kind f =? "repo"), (truthy fi), (gen_include_report f); reflexivity.
Qed.

(** The value exported under [card_width] by an SVG form whose width
    control holds [w]. *)
Definition exported_width (w : string) (f : Form) : option string :=
  get "card_width" (generatorParams show (set_gen_format "svg" (set_gen_width w f))).

Lemma exported_width_eq (w : string) (f : Form) :
  exported_width w f = Some (bounded show 640 1400 (number_or w 760)).
Proof.
  unfold exported_width. rewrite generatorParams_svg by reflexivity.
  unfold svg_params, svg_head. cbn [app get].
  change ("theme" =? "card_width") with false.
  change ("locale" =? "card_width") with false.
  change ("card_width" =? "card_width") with true.
  reflexivity.
Qed.

(** Whatever the import receives as a width, the form gets a number
    between 640 and 1400. *)
Lemma clampNumber_in_range (value : string) (lo hi fallback : Q) :
  (lo <= hi)%Q -> (lo <= fallback <= hi)%Q ->
  exists q, clampNumber value (Fin lo) (Fin hi) (Fin fallback) = Fin q
            /\ (lo <= q <= hi)%Q.
Proof.
  intros Hlh Hfb. unfold clampNumber.
  destruct (of_string value) as [| | |q]; cbn [isFinite negb];
    try (exists fallback; split; [reflexivity|exact Hfb]).
  cbn [math_min]. destruct (Qle_bool hi q) eqn:Hhi; cbn [math_max].
  - destruct (Qle_bool hi lo) eqn:Hl.
    + exists lo. split; [reflexivity|]. split; [apply Qle_refl|exact Hlh].
    + exists hi. split; [reflexivity|]. split; [exact Hlh|apply Qle_refl].
  - assert (Hq : (q <= hi)%Q).
    { destruct (Qlt_le_dec hi q) as [Hlt|Hge]; [|exact Hge].
      apply Qlt_le_weak, Qle_bool_iff in Hlt. congruence. }
    destruct (Qle_bool q lo) eqn:Hlo.
    + exists lo. split; [reflexivity|]. split; [apply Qle_refl|exact Hlh].
    + exists q. split; [reflexivity|]. split; [|exact Hq].
      destruct (Qlt_le_dec q lo) as [Hlt|Hge]; [|exact Hge].
      apply Qlt_le_weak, Qle_bool_iff in Hlt. congruence.
Qed.

(** C3 (the code departs from the claim on the export path).  On the
    import path [clampNumber] sends the width inputs -5, 99999 and abc to
    640, 1400 and the default 760.  The export path sends -5 and 99999
    to 640 and 1400 as well, and an empty control to 760, but a width
    control holding abc is exported as [card_width=NaN]. *)
Theorem width_clamp_paths (f : Form) :
  clampNumber "-5" (Fin 640) (Fin 1400) (Fin 760) = Fin 640
  /\ clampNumber "99999" (Fin 640) (Fin 1400) (Fin 760) = Fin 1400
  /\ clampNumber "abc" (Fin 640) (Fin 1400) (Fin 760) = Fin 760
  /\ exported_width "-5" f = Some "640"
  /\ exported_width "99999" f = Some "1400"
  /\ exported_width "" f = Some "760"
  /\ exported_width "abc" f = Some "NaN".
Proof.
  rewrite !exported_width_eq.
  repeat split; vm_compute; reflexivity.
Qed.

End ExportParams.

End ExportFacts.

(* ===================================================================== *)
(** ** Hide flags under a change of kind or format                       *)
(* ===================================================================== *)

Module HideFacts.
Import JsString JsNumber Url Palette Generator UrlFacts PaletteFacts ExportFacts.

Local Open Scope string_scope.

(** Whether a hide flag may be selected under a kind and a format. *)
Definition permitted (kind format : string) (o : option_box) : bool :=
  (format =? "svg") && includes (allowed_kinds o) kind.

(** What [syncGeneratorHideOptionsByKind] makes of one box. *)
Definition hide_synced (kind format : string) (o : option_box) : option_box :=
  mkOption (opt_value o) (opt_kinds o)
           (if negb (permitted kind format o) then false else opt_checked o)
           (negb (permitted kind format o)).

Lemma hide_options_sync (f : Form) :
  hide_options (syncGeneratorHideOptionsByKind f)
  = map (hide_synced (current_kind f) (current_format f)) (hide_options f).
Proof. reflexivity. Qed.

Lemma gen_hide_sync (f : Form) :
  gen_hide (syncGeneratorHideOptionsByKind f)
  = join "," (selectedGeneratorHideFlags (syncGeneratorHideOptionsByKind f)).
Proof. reflexivity. Qed.

Lemma on_kind_change_hide (value : string) (f : Form) :
  hide_options (on_kind_change value f)
  = hide_options (syncGeneratorHideOptionsByKind (set_gen_kind value f))
  /\ gen_hide (on_kind_change value f)
     = gen_hide (syncGeneratorHideOptionsByKind (set_gen_kind value f))
  /\ current_kind (on_kind_change value f) = or_else value "repo"
  /\ current_format (on_kind_change value f) = current_format f.
Proof. repeat split. Qed.

Lemma on_format_change_hide (value : string) (f : Form) :
  hide_options (on_format_change value f)
  = hide_options (syncGeneratorHideOptionsByKind (set_gen_format value f))
  /\ gen_hide (on_format_change value f)
     = gen_hide (syncGeneratorHideOptionsByKind (set_gen_format value f))
  /\ current_kind (on_format_change value f) = current_kind f
  /\ current_format (on_format_change value f) = or_else value "svg".
Proof. repeat split. Qed.

Lemma in_selected_values (options : list option_box) (v : string) :
  In v (selected_values options) ->
  exists o, In o options /\ trim (opt_value o) = v
            /\ opt_checked o = true /\ opt_disabled o = false.
Proof.
  unfold selected_values, filter_truthy. intros H.
  apply filter_In in H as [H _]. apply in_map_iff in H as [o [Hv Ho]].
  apply filter_In in Ho as [Ho Hc]. apply andb_true_iff in Hc as [Hc Hd].
  exists o. repeat split; auto. now apply negb_true_iff in Hd.
Qed.

Lemma not_a_color (k : string) (ins : color_inputs) :
  ~ In k GENERATOR_THEME_KEYS -> get k (generatorCustomThemeParams ins) = None.
Proof.
  intros Hk. apply get_not_in. intros H. apply Hk.
  exact (palette_keys_in ins k H).
Qed.

Section Hide.

Variable show : Q -> string.

Lemma exported_hide (f : Form) :
  get "hide" (generatorParams show f)
  = if (current_format f =? "svg") && truthy (trim (gen_hide f))
    then Some (trim (gen_hide f)) else None.
Proof.
  destruct (String.eqb_spec (current_format f) "svg") as [Hfmt|Hfmt].
  - rewrite generatorParams_svg by exact Hfmt. unfold svg_params.
    rewrite get_app.
    assert (Hhead : get "hide" (svg_head show f)
                    = if truthy (trim (gen_hide f)) then Some (trim (gen_hide f))
                      else None).
    { unfold svg_head, opt_pair.
      generalize (bounded show 640 1400 (number_or (gen_width f) 760)).
      generalize (bounded show 350 7000 (number_or (gen_duration f) 1400)).
      generalize (bounded show 0 86400 (number_or (gen_cache_seconds f) 21600)).
      generalize (bounded show 1 10 (number_or (gen_langs f) 4)).
      generalize (current_theme f) (or_else (gen_locale f) "en") (trim (gen_title f))
                 (trim (gen_hide f)) (or_else (gen_animation f) "all").
      intros th lo ti hi an la ca du wi.
      generalize (if gen_animate f then "true" else "false"). intros anim.
      destruct (truthy ti), (truthy hi), (current_kind f =? "repo"); reflexivity. }
    rewrite Hhead. cbn [andb].
    destruct (truthy (trim (gen_hide f))); [reflexivity|].
    destruct (current_theme f =? "custom"); [|reflexivity].
    apply not_a_color. unfold GENERATOR_THEME_KEYS. cbn [In].
    intros H. repeat (destruct H as [H|H]; [discriminate H|]). exact H.
  - apply String.eqb_neq in Hfmt. rewrite generatorParams_json by exact Hfmt.
    cbn [andb]. unfold json_params, opt_pair.
    generalize (bounded show 1 30 (number_or (gen_langs f) 4)).
    generalize (or_else (gen_locale f) "en") (trim (gen_fields f)).
    intros lo fi la.
    destruct (current_kind f =? "repo"), (truthy fi), (gen_include_report f);
      reflexivity.
Qed.

(** The state of the hide flags of [f'] with respect to the boxes of
    [f] it came from: every box keeps its value and its kinds, is
    enabled exactly when it is permitted for the kind and format of
    [f'], and is checked exactly when it was checked and is permitted;
    the hidden field lists the selected boxes, all of them permitted;
    and the export carries that list, for an SVG card, and no hide
    parameter otherwise. *)
Definition hide_flags_settled (f f' : Form) : Prop :=
  let ok := permitted (current_kind f') (current_format f') in
  Forall2 (fun o o' =>
             opt_value o' = opt_value o /\ opt_kinds o' = opt_kinds o
             /\ opt_disabled o' = negb (ok o)
             /\ opt_checked o' = opt_checked o && ok o)
          (hide_options f) (hide_options f')
  /\ gen_hide f' = join "," (selectedGeneratorHideFlags f')
  /\ (forall v, In v (selectedGeneratorHideFlags f') ->
        exists o, In o (hide_options f) /\ trim (opt_value o) = v
                  /\ opt_checked o = true /\ ok o = true)
  /\ get "hide" (generatorParams show f')
     = if (current_format f' =? "svg") && truthy (trim (gen_hide f'))
       then Some (trim (gen_hide f')) else None.

Lemma settled_after_sync (f f' : Form) :
  hide_options f' = map (hide_synced (current_kind f') (current_format f')) (hide_options f) ->
  gen_hide f' = join "," (selectedGeneratorHideFlags f') ->
  hide_flags_settled f f'.
Proof.
  intros Hopts Hhide. unfold hide_flags_settled. repeat split.
  - rewrite Hopts. clear Hopts Hhide.
    induction (hide_options f) as [|o tl IH]; cbn [map]; constructor; [|exact IH].
    unfold hide_synced. cbn [opt_value opt_kinds opt_disabled opt_checked].
    repeat split.
    destruct (permitted (current_kind f') (current_format f') o), (opt_checked o);
      reflexivity.
  - exact Hhide.
  - intros v Hv. unfold selectedGeneratorHideFlags in Hv. rewrite Hopts in Hv.
    apply in_selected_values in Hv as [o' [Ho' [Hval [Hc Hd]]]].
    apply in_map_iff in Ho' as [o [<- Ho]].
    unfold hide_synced in Hval, Hc, Hd.
    cbn [opt_value opt_checked opt_disabled] in Hval, Hc, Hd.
    apply negb_false_iff in Hd. rewrite Hd in Hc. cbn [negb] in Hc.
    exists o. repeat split; assumption.
  - apply exported_hide.
Qed.

(** C4.  After the [change] handler of the kind select, and after that
    of the format select, whatever the form held and whatever the new
    value: a hide flag not permitted for the new pair is disabled and
    unchecked, the permitted ones keep their state, the hidden field
    holds exactly the selected permitted flags, and the export carries
    that list and nothing else under [hide]. *)
Theorem hide_flags_follow_kind_and_format (f : Form) (value : string) :
  hide_flags_settled f (on_kind_change value f)
  /\ hide_flags_settled f (on_format_change value f).
Proof.
  split; apply settled_after_sync; reflexivity.
Qed.

End Hide.

(** The fourteen hide flags, with kinds in the manner of the page: the
    repository metrics for [repo], the report blocks for [quality]. *)
Definition sample_hide_options (checked : list string) : list option_box :=
  map (fun vk => mkOption (fst vk) (snd vk) (includes checked (fst vk)) false)
      [ ("description", Some "repo"); ("languages", Some "repo");
        ("meta", Some "repo,quality"); ("stars", Some "repo");
        ("forks", Some "repo"); ("issues", Some "repo");
        ("watchers", Some "repo"); ("status", Some "quality");
        ("lines", Some "quality"); ("stacks", Some "quality");
        ("commit", Some "quality"); ("categories", Some "quality");
        ("ring", Some "quality"); ("footer", None) ].

Definition sample_form (checked : list string) : Form :=
  mkForm "acme" "widgets" "repo" "svg" "ocean" "en" "" (join "," checked) "760" "4"
         true "all" "1400" "21600" false ""
         (sample_hide_options checked) [] ocean
         ["ocean"; "light"; "midnight"; "custom"]
         (mkDisabled false false true false true true).

(** The scenario of the specification: stars and forks hidden on a
    repository card, then the kind is switched to quality. *)
Lemma hide_flags_follow_kind_and_format_witness :
  hide_flags_settled (fun _ => "") (sample_form ["stars"; "forks"])
                     (on_kind_change "quality" (sample_form ["stars"; "forks"]))
  /\ selectedGeneratorHideFlags (sample_form ["stars"; "forks"]) = ["stars"; "forks"]
  /\ selectedGeneratorHideFlags
       (on_kind_change "quality" (sample_form ["stars"; "forks"])) = []
  /\ selectedGeneratorHideFlags
       (on_kind_change "quality" (sample_form ["stars"; "meta"; "footer"]))
     = ["meta"; "footer"].
Proof.
  split.
  - apply (hide_flags_follow_kind_and_format (fun _ => "")
             (sample_form ["stars"; "forks"]) "quality").
  - repeat split; vm_compute; reflexivity.
Defined.

End HideFacts.

(* ===================================================================== *)
(** ** Splitting and joining                                             *)
(* ===================================================================== *)

Module StringFacts.
Import JsString PaletteFacts.

Local Open Scope string_scope.

Lemma append_nil_r (s : string) : s ++ "" = s.
Proof. induction s as [|c r IH]; cbn; [reflexivity|]. now rewrite IH. Qed.

Lemma all_chars_app (p : ascii -> bool) (a b : string) :
  all_chars p (a ++ b) = all_chars p a && all_chars p b.
Proof.
  induction a as [|c r IH]; cbn; [reflexivity|]. now rewrite IH, andb_assoc.
Qed.

Lemma join_cons (sep x : string) (xs : list string) :
  join sep (x :: xs) = match xs with [] => x | _ => x ++ sep ++ join sep xs end.
Proof. reflexivity. Qed.

Lemma all_chars_join (p : ascii -> bool) (sep : string) (xs : list string) :
  all_chars p sep = true ->
  Forall (fun x => all_chars p x = true) xs ->
  all_chars p (join sep xs) = true.
Proof.
  intros Hsep H. induction H as [|x tl Hx Htl IH]; [reflexivity|].
  rewrite join_cons. destruct tl as [|y tl']; [exact Hx|].
  rewrite !all_chars_app, Hx, Hsep. exact IH.
Qed.

Definition no_sep (sep : ascii) (c : ascii) : bool := negb (Ascii.eqb c sep).

Lemma split_no_sep (sep : ascii) (x : string) :
  all_chars (no_sep sep) x = true -> split sep x = [x].
Proof.
  induction x as [|c r IH]; cbn; [reflexivity|].
  intros H. apply andb_true_iff in H as [Hc Hr].
  unfold no_sep in Hc. apply negb_true_iff in Hc. rewrite Hc, (IH Hr). reflexivity.
Qed.

Lemma split_app (sep : ascii) (x rest : string) :
  all_chars (no_sep sep) x = true ->
  split sep (x ++ String sep rest) = x :: split sep rest.
Proof.
  induction x as [|c r IH]; cbn.
  - now rewrite Ascii.eqb_refl.
  - intros H. apply andb_true_iff in H as [Hc Hr].
    unfold no_sep in Hc. apply negb_true_iff in Hc. rewrite Hc, (IH Hr). reflexivity.
Qed.

(** Splitting at the separator what was joined with it gives the list
    back, when no element holds the separator. *)
Lemma split_join (sep : ascii) (xs : list string) :
  xs <> [] ->
  Forall (fun x => all_chars (no_sep sep) x = true) xs ->
  split sep (join (String sep "") xs) = xs.
Proof.
  intros Hne H. induction H as [|x tl Hx Htl IH]; [congruence|].
  rewrite join_cons. destruct tl as [|y tl'].
  - now apply split_no_sep.
  - change (x ++ String sep "" ++ join (String sep "") (y :: tl'))
      with (x ++ String sep (join (String sep "") (y :: tl'))).
    rewrite split_app by exact Hx. f_equal. apply IH. discriminate.
Qed.

Lemma join_empty (sep : string) (xs : list string) :
  join sep xs = "" -> xs = [] \/ exists tl, xs = "" :: tl.
Proof.
  destruct xs as [|x tl]; [now left|].
  rewrite join_cons. intros H. right. destruct tl as [|y tl'].
  - subst x. now exists [].
  - destruct x; [now exists (y :: tl')|discriminate].
Qed.

End StringFacts.

(* ===================================================================== *)
(** ** The three states of the field flags                               *)
(* ===================================================================== *)

Module FieldFacts.
Import JsString JsNumber Url Palette Generator.
Import UrlFacts PaletteFacts ExportFacts StringFacts.

Local Open Scope string_scope.

(** A flag name as the page has them: not empty, and without white
    space, comma or upper-case letter. *)
Definition clean_char (c : ascii) : bool :=
  negb (is_space c) && negb (Ascii.eqb c ",") && negb (is_upper c).

Definition clean (v : string) : bool := truthy v && all_chars clean_char v.

(** A clean name that is not one of the two words for the empty
    selection. *)
Definition plain_flag (v : string) : bool :=
  clean v && negb (v =? "none") && negb (v =? "__none__").

Definition enabled (o : option_box) : bool := negb (opt_disabled o).

Definition enabled_values (options : list option_box) : list string :=
  map opt_value (filter enabled options).

Definition total_for (kind : string) : nat :=
  if kind =? "quality" then length GENERATOR_JSON_FIELDS_quality
  else length GENERATOR_JSON_FIELDS_repo.

(** The enabled boxes of [f] are the vocabulary of its kind: plain,
    distinct names, as many as the table has. *)
Definition vocabulary_ok (f : Form) : Prop :=
  forallb plain_flag (enabled_values (field_options f)) = true
  /\ NoDup (enabled_values (field_options f))
  /\ length (enabled_values (field_options f)) = total_for (current_kind f).

(** What of a box does not change when it is checked or unchecked. *)
Definition skeleton (o : option_box) : string * bool := (opt_value o, opt_disabled o).

(** The value [syncGeneratorFieldsField] writes. *)
Definition fields_value (total : nat) (selected : list string) : string :=
  match selected with
  | [] => "__none__"
  | _ => if (total <=? length selected)%nat then "" else join "," selected
  end.

Lemma gen_fields_sync (f : Form) :
  gen_fields (syncGeneratorFieldsField f)
  = fields_value (total_for (current_kind f)) (selectedGeneratorFieldFlags f).
Proof. reflexivity. Qed.

Lemma gen_fields_sync_after (rawValue : string) (g : Form) :
  gen_fields (applyGeneratorFieldFlags rawValue g)
  = fields_value (total_for (current_kind (applyGeneratorFieldFlags rawValue g)))
                 (selectedGeneratorFieldFlags (applyGeneratorFieldFlags rawValue g)).
Proof. reflexivity. Qed.

(** *** Clean names *)

Lemma clean_char_spec :
  forall c, implb (clean_char c)
                  (not_space c && no_sep "," c && Ascii.eqb (lower_char c) c) = true.
Proof. apply forall_ascii. vm_compute. reflexivity. Qed.

Lemma clean_parts (v : string) :
  clean v = true ->
  truthy v = true /\ trim v = v /\ toLowerCase v = v
  /\ all_chars (no_sep ",") v = true /\ all_chars not_space v = true.
Proof.
  unfold clean. intros H. apply andb_true_iff in H as [Ht Hall].
  assert (Hc : forall c, clean_char c = true ->
                         not_space c = true /\ no_sep "," c = true /\ lower_char c = c).
  { intros c Hc. pose proof (implb_elim _ _ (clean_char_spec c) Hc) as H.
    apply andb_true_iff in H as [H H3]. apply andb_true_iff in H as [H1 H2].
    apply Ascii.eqb_eq in H3. auto. }
  assert (Hns : all_chars not_space v = true).
  { eapply all_chars_impl; [|exact Hall]. intros c Hcc. now apply Hc. }
  repeat split.
  - exact Ht.
  - now apply trim_no_space.
  - apply (map_chars_id_on clean_char); [|exact Hall]. intros c Hcc. now apply Hc.
  - eapply all_chars_impl; [|exact Hall]. intros c Hcc. now apply Hc.
  - exact Hns.
Qed.

Lemma plain_flag_clean (v : string) : plain_flag v = true -> clean v = true.
Proof.
  unfold plain_flag. intros H. apply andb_true_iff in H as [H _].
  now apply andb_true_iff in H as [H _].
Qed.

Lemma flag_tokens_join (sel : list string) :
  sel <> [] -> forallb clean sel = true -> flag_tokens (join "," sel) = sel.
Proof.
  intros Hne Hall. rewrite forallb_forall in Hall. unfold flag_tokens.
  rewrite (split_join "," sel Hne).
  2:{ apply Forall_forall. intros x Hx. now apply clean_parts, Hall. }
  clear Hne. induction sel as [|x tl IH]; [reflexivity|].
  destruct (clean_parts x (Hall x (or_introl eq_refl))) as (Ht & Htr & Hlo & _).
  cbn [map]. rewrite Htr, Hlo. unfold filter_truthy in *. cbn [filter]. rewrite Ht.
  f_equal. apply IH. intros y Hy. apply Hall. now right.
Qed.

(** *** Selections *)

Lemma selected_values_clean (options : list option_box) :
  forallb clean (enabled_values options) = true ->
  selected_values options
  = map opt_value (filter (fun o => opt_checked o && enabled o) options).
Proof.
  unfold selected_values, enabled_values, filter_truthy, enabled.
  induction options as [|o tl IH]; [reflexivity|].
  cbn [filter]. destruct (opt_disabled o) eqn:Hd; cbn [negb].
  - rewrite andb_false_r. exact IH.
  - cbn [map forallb]. intros H. apply andb_true_iff in H as [Ho Htl].
    rewrite andb_true_r. destruct (opt_checked o); [|now apply IH].
    cbn [map filter]. destruct (clean_parts _ Ho) as (Ht & Htr & _).
    rewrite Htr, Ht. f_equal. now apply IH.
Qed.

Lemma filter_length_eq {A : Type} (p : A -> bool) (l : list A) :
  length (filter p l) = length l -> filter p l = l.
Proof.
  induction l as [|a tl IH]; [reflexivity|]. cbn [filter].
  destruct (p a); cbn [length]; intros H.
  - f_equal. apply IH. lia.
  - pose proof (filter_length_le p tl). lia.
Qed.

(** Among boxes with distinct values, selecting the boxes whose value
    is the value of a box satisfying [p] selects the boxes satisfying
    [p]. *)
Lemma filter_by_value (p : option_box -> bool) (l : list option_box) :
  NoDup (map opt_value l) ->
  filter (fun o => includes (map opt_value (filter p l)) (opt_value o)) l
  = filter p l.
Proof.
  induction l as [|a tl IH]; [reflexivity|].
  cbn [map]. intros Hnd. inversion Hnd as [|? ? Hna Htl]; subst.
  assert (Hfresh : forall q, includes (map opt_value (filter q tl)) (opt_value a) = false).
  { intros q. destruct (includes _ _) eqn:Hin; [|reflexivity].
    apply includes_In in Hin. exfalso. apply Hna.
    apply in_map_iff in Hin as [o [Hv Ho]]. apply filter_In in Ho as [Ho _].
    apply in_map_iff. now exists o. }
  cbn [filter]. destruct (p a) eqn:Hpa.
  - cbn [map includes existsb]. rewrite String.eqb_refl. cbn [orb]. f_equal.
    transitivity (filter (fun o => includes (map opt_value (filter p tl)) (opt_value o)) tl);
      [|exact (IH Htl)].
    apply filter_ext_in. intros o Ho. cbn [includes existsb].
    destruct (String.eqb_spec (opt_value o) (opt_value a)) as [He|_]; [|reflexivity].
    exfalso. apply Hna. rewrite <- He. now apply in_map.
  - rewrite Hfresh. exact (IH Htl).
Qed.

Lemma filter_skeleton (P : string * bool -> bool) (l l' : list option_box) :
  map skeleton l = map skeleton l' ->
  map opt_value (filter (fun o => P (skeleton o)) l)
  = map opt_value (filter (fun o => P (skeleton o)) l').
Proof.
  revert l'. induction l as [|a tl IH]; intros [|b tl'] H; try discriminate H;
    [reflexivity|].
  cbn [map] in H.
  assert (Hab : skeleton a = skeleton b) by congruence.
  assert (Htl : map skeleton tl = map skeleton tl') by congruence.
  clear H. cbn [filter]. rewrite Hab.
  destruct (P (skeleton b)); cbn [map]; [|now apply IH].
  f_equal; [|now apply IH].
  unfold skeleton in Hab. congruence.
Qed.

(** The boxes [applyGeneratorFieldFlags] leaves checked among the
    enabled ones: those whose value passes [test]. *)
Definition reselect (test : string -> bool) (options : list option_box) : list string :=
  map opt_value (filter (fun o => negb (snd (skeleton o)) && test (fst (skeleton o))) options).

Definition field_test (rawValue : string) (value : string) : bool :=
  let tokens := flag_tokens rawValue in
  match tokens with
  | [] => true
  | _ => negb (includes tokens "__none__" || includes tokens "none")
         && includes tokens (toLowerCase (trim value))
  end.

Lemma field_options_after_apply (rawValue : string) (g : Form) :
  field_options (applyGeneratorFieldFlags rawValue g)
  = map (fun node =>
           mkOption (opt_value node) (opt_kinds node)
                    (if opt_disabled node then opt_checked node
                     else field_test rawValue (opt_value node))
                    (opt_disabled node))
        (field_options g).
Proof.
  unfold applyGeneratorFieldFlags, field_test.
  change (field_options (syncGeneratorFieldsField ?x)) with (field_options x).
  cbn [field_options set_field_options].
  apply map_ext. intros node. destruct (flag_tokens rawValue); reflexivity.
Qed.

Lemma enabled_values_map (upd : option_box -> option_box) (l : list option_box) :
  (forall o, opt_value (upd o) = opt_value o /\ opt_disabled (upd o) = opt_disabled o) ->
  enabled_values (map upd l) = enabled_values l.
Proof.
  intros Hupd. unfold enabled_values.
  induction l as [|o tl IH]; [reflexivity|].
  destruct (Hupd o) as [Hv Hd]. cbn [map filter].
  assert (Hen : enabled (upd o) = enabled o) by (unfold enabled; now rewrite Hd).
  rewrite Hen. destruct (enabled o); cbn [map]; [|exact IH].
  now rewrite Hv, IH.
Qed.

Lemma enabled_values_after_apply (rawValue : string) (g : Form) :
  enabled_values (field_options (applyGeneratorFieldFlags rawValue g))
  = enabled_values (field_options g).
Proof.
  rewrite field_options_after_apply. apply enabled_values_map.
  intros o. split; reflexivity.
Qed.

Lemma selected_after_apply (rawValue : string) (g : Form) :
  forallb clean (enabled_values (field_options g)) = true ->
  selectedGeneratorFieldFlags (applyGeneratorFieldFlags rawValue g)
  = reselect (field_test rawValue) (field_options g).
Proof.
  intros Hclean. unfold selectedGeneratorFieldFlags.
  rewrite selected_values_clean by (now rewrite enabled_values_after_apply).
  rewrite field_options_after_apply. unfold reselect, skeleton, enabled.
  clear Hclean. induction (field_options g) as [|o tl IH]; [reflexivity|].
  cbn [map filter opt_checked opt_disabled opt_value fst snd].
  destruct (opt_disabled o); cbn [negb andb].
  - rewrite andb_false_r. exact IH.
  - rewrite andb_true_r. destruct (field_test rawValue (opt_value o)); cbn [map];
      [f_equal|]; exact IH.
Qed.

Lemma reselect_ext (t t' : string -> bool) (options : list option_box) :
  (forall v, In v (enabled_values options) -> t v = t' v) ->
  reselect t options = reselect t' options.
Proof.
  intros H. unfold reselect. f_equal. apply filter_ext_in. intros o Ho.
  unfold skeleton. cbn [fst snd]. destruct (opt_disabled o) eqn:Hd; [reflexivity|].
  cbn [negb andb]. apply H. unfold enabled_values. apply in_map.
  apply filter_In. split; [exact Ho|]. unfold enabled. now rewrite Hd.
Qed.

Lemma filter_andb {A : Type} (c e : A -> bool) (l : list A) :
  filter (fun o => c o && e o) l = filter c (filter e l).
Proof.
  induction l as [|a tl IH]; [reflexivity|]. cbn [filter].
  destruct (e a); cbn [filter]; [|now rewrite andb_false_r].
  rewrite andb_true_r. destruct (c a); now rewrite IH.
Qed.

Lemma enabled_values_skeleton (l l' : list option_box) :
  map skeleton l = map skeleton l' -> enabled_values l = enabled_values l'.
Proof.
  intros H. unfold enabled_values, enabled.
  exact (filter_skeleton (fun sk => negb (snd sk)) l l' H).
Qed.

Lemma reselect_none (options : list option_box) :
  reselect (fun _ => false) options = [].
Proof.
  unfold reselect. induction options as [|o tl IH]; [reflexivity|].
  cbn [filter]. now rewrite andb_false_r.
Qed.

Lemma reselect_all (options : list option_box) :
  reselect (fun _ => true) options = enabled_values options.
Proof.
  unfold reselect, enabled_values, enabled, skeleton. f_equal.
  apply filter_ext. intros o. cbn [fst snd]. now rewrite andb_true_r.
Qed.

Lemma total_for_positive (kind : string) : (0 < total_for kind)%nat.
Proof. unfold total_for. destruct (kind =? "quality"); cbn; lia. Qed.

Section Fields.

Variable show : Q -> string.

Lemma exported_fields (f : Form) :
  (current_format f =? "svg") = false ->
  get "fields" (generatorParams show f)
  = if truthy (trim (gen_fields f)) then Some (trim (gen_fields f)) else None.
Proof.
  intros Hfmt. rewrite generatorParams_json by exact Hfmt.
  unfold json_params, opt_pair.
  generalize (bounded show 1 30 (number_or (gen_langs f) 4)).
  generalize (or_else (gen_locale f) "en") (trim (gen_fields f)).
  intros lo fi la.
  destruct (current_kind f =? "repo"), (truthy fi), (gen_include_report f);
    reflexivity.
Qed.

(** The value of the hidden field for each of the three kinds of
    selection, what the export makes of it, and what reading it back
    into a form with the same boxes gives. *)
Lemma fields_value_states (f : Form) (Hvoc : vocabulary_ok f) :
  let every := enabled_values (field_options f) in
  let sel := selectedGeneratorFieldFlags f in
  let v := gen_fields (syncGeneratorFieldsField f) in
  (sel = every -> v = "")
  /\ (sel = [] -> v = "__none__")
  /\ (sel <> [] -> sel <> every ->
      v = join "," sel /\ v <> "" /\ v <> "__none__")
  /\ ((current_format f =? "svg") = false ->
      get "fields" (generatorParams show (syncGeneratorFieldsField f))
      = if truthy v then Some v else None)
  /\ (forall g,
        map skeleton (field_options g) = map skeleton (field_options f) ->
        current_kind g = current_kind f ->
        selectedGeneratorFieldFlags (applyGeneratorFieldFlags v g) = sel
        /\ gen_fields (applyGeneratorFieldFlags v g) = v).
Proof.
  destruct Hvoc as (Hplain & Hnd & Hlen).
  intros every sel v.
  assert (Hclean : forallb clean every = true).
  { rewrite forallb_forall in *. intros x Hx. apply plain_flag_clean. now apply Hplain. }
  set (L := filter enabled (field_options f)).
  assert (Hevery : every = map opt_value L) by reflexivity.
  assert (Hsel : sel = map opt_value (filter opt_checked L)).
  { unfold sel, selectedGeneratorFieldFlags. rewrite selected_values_clean by exact Hclean.
    unfold L. now rewrite filter_andb. }
  assert (Hv0 : gen_fields (syncGeneratorFieldsField f) = v) by reflexivity.
  assert (Hev0 : enabled_values (field_options f) = every) by reflexivity.
  assert (Hv : v = fields_value (total_for (current_kind f)) sel) by reflexivity.
  change (forallb plain_flag every = true) in Hplain.
  change (NoDup every) in Hnd.
  change (length every = total_for (current_kind f)) in Hlen.
  clearbody every sel v.
  assert (Hsub : forall x, In x sel -> In x every).
  { intros x Hx. rewrite Hsel in Hx. rewrite Hevery.
    apply in_map_iff in Hx as [o [Hov Ho]]. apply filter_In in Ho as [Ho _].
    apply in_map_iff. now exists o. }
  assert (Hselclean : forallb clean sel = true).
  { rewrite forallb_forall in *. intros x Hx. apply Hclean. now apply Hsub. }
  assert (Hle : (length sel <= length every)%nat).
  { rewrite Hsel, Hevery, !length_map. apply filter_length_le. }
  assert (Hfull : length sel = length every -> sel = every).
  { rewrite Hsel, Hevery, !length_map. intros H.
    now rewrite (filter_length_eq _ _ H). }
  assert (Hpos := total_for_positive (current_kind f)).
  assert (Hfullv : sel = every -> v = "").
  { intros He. rewrite Hv. unfold fields_value.
    destruct sel as [|x tl] eqn:Es.
    - rewrite <- He in Hlen. cbn in Hlen. lia.
    - rewrite He, Hlen, Nat.leb_refl. reflexivity. }
  assert (Hpart : sel <> [] -> sel <> every ->
                  v = join "," sel /\ v <> "" /\ v <> "__none__").
  { intros Hne Hnf.
    assert (Hlt : (length sel < total_for (current_kind f))%nat).
    { rewrite <- Hlen. destruct (Nat.eq_dec (length sel) (length every)) as [He|He];
        [now apply Hfull in He|lia]. }
    assert (Hj : v = join "," sel).
    { rewrite Hv. unfold fields_value. destruct sel as [|x tl] eqn:Es; [congruence|].
      apply Nat.leb_gt in Hlt. now rewrite Hlt. }
    split; [exact Hj|]. rewrite Hj. split.
    - intros He. apply join_empty in He as [He|[tl He]]; [congruence|].
      rewrite forallb_forall in Hselclean.
      assert (Hc : clean "" = true) by (apply Hselclean; rewrite He; now left).
      discriminate Hc.
    - intros He.
      assert (Hs : split "," (join "," sel) = sel).
      { apply split_join; [exact Hne|]. apply Forall_forall. intros x Hx.
        rewrite forallb_forall in Hselclean. now apply clean_parts, Hselclean. }
      rewrite He in Hs. cbn in Hs.
      assert (Hin : In "__none__" every) by (apply Hsub; rewrite <- Hs; now left).
      rewrite forallb_forall in Hplain. specialize (Hplain _ Hin). discriminate Hplain. }
  assert (Htrim : trim v = v).
  { rewrite Hv. unfold fields_value. destruct sel as [|x tl] eqn:Es; [reflexivity|].
    destruct (total_for (current_kind f) <=? length (x :: tl))%nat; [reflexivity|].
    apply trim_no_space. apply all_chars_join; [reflexivity|].
    apply Forall_forall. intros y Hy. rewrite forallb_forall in Hselclean.
    now apply clean_parts, Hselclean. }
  split; [exact Hfullv|]. split; [intros He; rewrite Hv, He; reflexivity|].
  split; [exact Hpart|]. split.
  - intros Hfmt. rewrite exported_fields by exact Hfmt.
    rewrite Hv0. now rewrite Htrim.
  - intros g Hsk Hkind.
    assert (Hgclean : forallb clean (enabled_values (field_options g)) = true).
    { now rewrite (enabled_values_skeleton _ _ Hsk), Hev0. }
    assert (Hsel' : selectedGeneratorFieldFlags (applyGeneratorFieldFlags v g) = sel).
    { rewrite selected_after_apply by exact Hgclean.
      unfold reselect.
      rewrite (filter_skeleton
                 (fun sk => negb (snd sk) && field_test v (fst sk)) _ _ Hsk).
      fold (reselect (field_test v) (field_options f)).
      destruct sel as [|x tl] eqn:Es.
      - assert (Hvn : v = "__none__") by (rewrite Hv; reflexivity).
        rewrite Hvn. rewrite (reselect_ext _ (fun _ => false)); [apply reselect_none|].
        reflexivity.
      - destruct (list_eq_dec string_dec (x :: tl) every) as [He|He].
        + rewrite (Hfullv He), He.
          rewrite (reselect_ext _ (fun _ => true));
            [rewrite <- Hev0; apply reselect_all|]. reflexivity.
        + destruct (Hpart ltac:(discriminate) He) as (Hj & _ & _).
          rewrite Hj.
          rewrite (reselect_ext _ (fun value => includes (x :: tl) value)).
          * unfold reselect, skeleton. cbn [fst snd].
            rewrite (filter_ext _ (fun o => includes (x :: tl) (opt_value o) && enabled o)).
            2:{ intros o. unfold enabled. apply andb_comm. }
            rewrite filter_andb. fold L. rewrite Hsel.
            rewrite filter_by_value; [reflexivity|]. now rewrite <- Hevery.
          * intros value Hval. rewrite Hev0 in Hval. unfold field_test.
            rewrite flag_tokens_join by (try discriminate; exact Hselclean).
            assert (Hno : forall w, plain_flag w = false ->
                                    includes (x :: tl) w = false).
            { intros w Hw. destruct (includes (x :: tl) w) eqn:Hin; [|reflexivity].
              apply includes_In, Hsub in Hin. rewrite forallb_forall in Hplain.
              rewrite (Hplain _ Hin) in Hw. discriminate. }
            rewrite (Hno "__none__" eq_refl), (Hno "none" eq_refl). cbn [orb negb andb].
            rewrite forallb_forall in Hclean.
            destruct (clean_parts _ (Hclean _ Hval)) as (_ & Htr & Hlo & _).
            now rewrite Htr, Hlo. }
    split; [exact Hsel'|].
    rewrite gen_fields_sync_after. rewrite Hsel'.
    change (current_kind (applyGeneratorFieldFlags v g)) with (current_kind g).
    now rewrite Hkind.
Qed.

(** C6.  For a form whose enabled field boxes are the vocabulary of its
    kind, the hidden field tells three states apart: every flag selected
    is the empty string, which the export leaves out; no flag selected
    is the word [__none__]; any other selection is the comma-joined list
    of its flags, which is neither of the two.  Reading the value back
    into any form with the same boxes selects the same flags again and
    writes the same value: in particular [__none__] comes back as the
    empty selection and not as all. *)
Theorem field_flags_three_states (f : Form) (Hvoc : vocabulary_ok f) :
  let every := enabled_values (field_options f) in
  let sel := selectedGeneratorFieldFlags f in
  let v := gen_fields (syncGeneratorFieldsField f) in
  (sel = every -> v = "")
  /\ (sel = [] -> v = "__none__")
  /\ (sel <> [] -> sel <> every ->
      v = join "," sel /\ v <> "" /\ v <> "__none__")
  /\ ((current_format f =? "svg") = false ->
      get "fields" (generatorParams show (syncGeneratorFieldsField f))
      = if truthy v then Some v else None)
  /\ (forall g,
        map skeleton (field_options g) = map skeleton (field_options f) ->
        current_kind g = current_kind f ->
        selectedGeneratorFieldFlags (applyGeneratorFieldFlags v g) = sel
        /\ gen_fields (applyGeneratorFieldFlags v g) = v).
Proof. exact (fields_value_states f Hvoc). Qed.

End Fields.

Fixpoint distinct (xs : list string) : bool :=
  match xs with
  | [] => true
  | x :: tl => negb (includes tl x) && distinct tl
  end.

Lemma distinct_NoDup (xs : list string) : distinct xs = true -> NoDup xs.
Proof.
  induction xs as [|x tl IH]; [constructor|].
  cbn [distinct]. intros H. apply andb_true_iff in H as [Hx Htl].
  constructor; [|now apply IH].
  intros Hin. apply includes_In in Hin. rewrite Hin in Hx. discriminate.
Qed.

(** The field boxes of the page, each with the kind it belongs to. *)
Definition sample_field_options (checked : list string) : list option_box :=
  (map (fun v => mkOption v (Some "repo") (includes checked v) false)
       GENERATOR_JSON_FIELDS_repo
   ++ map (fun v => mkOption v (Some "quality") (includes checked v) false)
          GENERATOR_JSON_FIELDS_quality)%list.

(** A JSON form for a repository, after the boxes were synchronized. *)
Definition sample_json_form (checked : list string) : Form :=
  syncGeneratorFieldOptionsByKind
    (mkForm "acme" "widgets" "repo" "json" "ocean" "en" "" "" "760" "4"
            true "all" "1400" "21600" false ""
            [] (sample_field_options checked) ocean
            ["ocean"; "light"; "midnight"; "custom"]
            (mkDisabled true true true false false true)).

Lemma sample_vocabulary_ok :
  vocabulary_ok (sample_json_form ["stars"; "forks"]).
Proof.
  unfold vocabulary_ok. split; [|split].
  - vm_compute. reflexivity.
  - apply distinct_NoDup. vm_compute. reflexivity.
  - vm_compute. reflexivity.
Qed.

Lemma field_flags_three_states_witness :
  vocabulary_ok (sample_json_form ["stars"; "forks"])
  /\ gen_fields (sample_json_form ["stars"; "forks"]) = "stars,forks"
  /\ gen_fields (sample_json_form []) = "__none__"
  /\ gen_fields (sample_json_form GENERATOR_JSON_FIELDS_repo) = ""
  /\ selectedGeneratorFieldFlags
       (applyGeneratorFieldFlags
          (gen_fields (syncGeneratorFieldsField (sample_json_form ["stars"; "forks"])))
          (sample_json_form GENERATOR_JSON_FIELDS_repo))
     = selectedGeneratorFieldFlags (sample_json_form ["stars"; "forks"]).
Proof.
  split; [apply sample_vocabulary_ok|].
  split; [vm_compute; reflexivity|].
  split; [vm_compute; reflexivity|].
  split; [vm_compute; reflexivity|].
  destruct (field_flags_three_states (fun _ => "") (sample_json_form ["stars"; "forks"])
              sample_vocabulary_ok)
    as (_ & _ & _ & _ & Hback).
  apply (Hback (sample_json_form GENERATOR_JSON_FIELDS_repo)); vm_compute; reflexivity.
Defined.

End FieldFacts.

(* ===================================================================== *)
(** ** Properties of the import codec                                    *)
(* ===================================================================== *)

Module ImportFacts.
Import JsString JsNumber Url Palette Generator.
Import UrlFacts PaletteFacts StringFacts.

Local Open Scope string_scope.

Definition coerce_kind (kind : string) : string :=
  if kind =? "quality" then "quality" else "repo".

Definition coerce_format (format : string) : string :=
  if format =? "json" then "json" else "svg".

(** The record both API shapes end in, once owner, repository, kind and
    format are read. *)
Definition api_record (params : list (string * string))
    (owner repo kind format : string) : Parsed :=
  mkParsed owner repo (Some (coerce_kind kind)) (Some (coerce_format format))
    (get "theme" params) (get "locale" params) (get "title" params)
    (get "hide" params) (get "card_width" params) (get "langs_count" params)
    (get "animate" params) (get "animation" params) (get "duration" params)
    (get "cache_seconds" params) (get "include_report" params)
    (get "fields" params) (Some (colors_of_params params)).

(** A reference is request-shaped when it carries a non-empty [owner]
    and a non-empty [repo] parameter. *)
Definition request_shaped (url : URL) : bool :=
  opt_truthy (get "owner" (searchParams url))
  && opt_truthy (get "repo" (searchParams url)).

(** The request-shaped reading: everything comes from the query. *)
Definition request_reading (params : list (string * string)) : option Parsed :=
  let owner := trim (opt_or (get "owner" params) "") in
  let repo := strip_git (trim (opt_or (get "repo" params) "")) in
  if truthy owner && truthy repo then
    Some (api_record params owner repo
            (toLowerCase (trim (opt_or (get "kind" params) "repo")))
            (toLowerCase (trim (opt_or (get "format" params) "svg"))))
  else None.

(** The path-shaped reading: kind, owner, repository and format come
    from the path, the rest from the query. *)
Definition path_reading (url : URL) : outcome (option Parsed) :=
  match stats_match (pathname url) with
  | None => Returned None
  | Some (k, o, r, e) =>
      match decodeURIComponent o, decodeURIComponent r with
      | Some owner, Some repo =>
          if truthy owner && truthy (strip_git repo) then
            Returned (Some (api_record (searchParams url) owner (strip_git repo)
                                       (toLowerCase k) (toLowerCase e)))
          else Returned None
      | _, _ => Thrown
      end
  end.

(** The reading of the two later shapes, the GitHub URL before the
    shorthand. *)
Definition later_reading (input : string) : option Parsed :=
  match github_match input with
  | Some (owner, repo) =>
      if truthy owner && truthy (strip_git repo)
      then Some (owner_repo_only owner (strip_git repo)) else None
  | None =>
      match short_match input with
      | Some (owner, repo) =>
          if truthy owner && truthy (strip_git repo)
          then Some (owner_repo_only owner (strip_git repo)) else None
      | None => None
      end
  end.

Lemma negb_truthy_or (a b : string) :
  negb (truthy a) || negb (truthy b) = negb (truthy a && truthy b).
Proof. now destruct (truthy a), (truthy b). Qed.

Section Shapes.

Variable newURL : string -> option URL.

(** How [parseGeneratorApiImport] reads a reference the host parses. *)
Lemma api_import_of_url (value : string) (url : URL) :
  truthy (extractGeneratorImportUrl value) = true ->
  newURL (extractGeneratorImportUrl value) = Some url ->
  parseGeneratorApiImport newURL value
  = if request_shaped url then Returned (request_reading (searchParams url))
    else path_reading url.
Proof.
  intros Hin Hurl. unfold parseGeneratorApiImport. rewrite Hin, Hurl. cbn [negb].
  cbv zeta. unfold request_shaped.
  destruct (opt_truthy (get "owner" (searchParams url))
            && opt_truthy (get "repo" (searchParams url))).
  - unfold request_reading. rewrite negb_truthy_or.
    destruct (truthy _ && truthy _); reflexivity.
  - unfold path_reading. destruct (stats_match (pathname url)) as [[[[k o] r] e]|];
      [|reflexivity].
    destruct (decodeURIComponent o) as [owner|]; [|reflexivity].
    destruct (decodeURIComponent r) as [repo|]; [|reflexivity].
    rewrite negb_truthy_or. destruct (truthy _ && truthy _); reflexivity.
Qed.

Lemma api_import_no_url (value : string) :
  truthy (extractGeneratorImportUrl value) = false
  \/ newURL (extractGeneratorImportUrl value) = None ->
  parseGeneratorApiImport newURL value = Returned None.
Proof.
  unfold parseGeneratorApiImport. intros [H|H]; rewrite H; [reflexivity|].
  now destruct (negb _).
Qed.

(** How [parseGeneratorImport] goes on from the API import. *)
Lemma import_of_api (value : string) :
  parseGeneratorImport newURL value
  = match parseGeneratorApiImport newURL value with
    | Thrown => Thrown
    | Returned (Some p) => Returned (Some p)
    | Returned None =>
        Returned (if truthy (extractGeneratorImportUrl value)
                  then later_reading (extractGeneratorImportUrl value) else None)
    end.
Proof.
  unfold parseGeneratorImport, later_reading.
  destruct (parseGeneratorApiImport newURL value) as [[p|]|]; try reflexivity.
  destruct (truthy (extractGeneratorImportUrl value)); [|reflexivity]. cbn [negb].
  destruct (github_match _) as [[o r]|]; [reflexivity|].
  destruct (short_match _) as [[o r]|]; reflexivity.
Qed.

Lemma coerce_kind_cases (k : string) :
  coerce_kind k = "repo" \/ coerce_kind k = "quality".
Proof. unfold coerce_kind. destruct (k =? "quality"); auto. Qed.

Lemma coerce_format_cases (k : string) :
  coerce_format k = "svg" \/ coerce_format k = "json".
Proof. unfold coerce_format. destruct (k =? "json"); auto. Qed.

Lemma stats_match_kind (path k o r e : string) :
  stats_match path = Some (k, o, r, e) ->
  (toLowerCase k = "repo" \/ toLowerCase k = "quality")
  /\ (toLowerCase e = "svg" \/ toLowerCase e = "json").
Proof.
  unfold stats_match.
  destruct (drop_prefix true "/api/stats/" path) as [r0|]; [|discriminate].
  destruct (span (not_char "/") r0) as [kind r1].
  destruct (eqb_ci kind "repo" || eqb_ci kind "quality") eqn:Hk; [|discriminate].
  destruct (drop_prefix false "/" r1) as [r2|]; [|discriminate].
  destruct (span (not_char "/") r2) as [owner r3].
  destruct (drop_prefix false "/" r3) as [r4|]; [|discriminate].
  destruct (span _ r4) as [repo r5].
  destruct (drop_prefix false "." r5) as [ext|]; [|discriminate].
  destruct (truthy owner && truthy repo && (eqb_ci ext "svg" || eqb_ci ext "json"))
    eqn:He; [|discriminate].
  intros [= <- <- <- <-].
  apply andb_true_iff in He as [_ He]. unfold eqb_ci in Hk, He.
  apply orb_true_iff in Hk, He. split.
  - destruct Hk as [H|H]; apply String.eqb_eq in H; auto.
  - destruct He as [H|H]; apply String.eqb_eq in H; auto.
Qed.

(** Whatever [kind] and [format] a request-shaped reference carries,
    the import succeeds as soon as owner and repository are not blank,
    with the kind [quality] when the value (trimmed, in lower case) is
    [quality] and [repo] otherwise, and the format [json] when it is
    [json] and [svg] otherwise.  In a path-shaped reference that the
    template matches the same coercion leaves kind and format as they
    are.  Every API import thus carries a recognized kind and format. *)
Lemma api_kind_and_format (value : string) :
  (forall url,
      truthy (extractGeneratorImportUrl value) = true ->
      newURL (extractGeneratorImportUrl value) = Some url ->
      request_shaped url = true ->
      truthy (trim (opt_or (get "owner" (searchParams url)) "")) = true ->
      truthy (strip_git (trim (opt_or (get "repo" (searchParams url)) ""))) = true ->
      exists p,
        parseGeneratorApiImport newURL value = Returned (Some p)
        /\ parseGeneratorImport newURL value = Returned (Some p)
        /\ kind p = Some (if toLowerCase (trim (opt_or (get "kind" (searchParams url)) "repo"))
                             =? "quality" then "quality" else "repo")
        /\ format p = Some (if toLowerCase (trim (opt_or (get "format" (searchParams url)) "svg"))
                               =? "json" then "json" else "svg"))
  /\ (forall url k o r e p,
        truthy (extractGeneratorImportUrl value) = true ->
        newURL (extractGeneratorImportUrl value) = Some url ->
        request_shaped url = false ->
        stats_match (pathname url) = Some (k, o, r, e) ->
        parseGeneratorApiImport newURL value = Returned (Some p) ->
        kind p = Some (toLowerCase k) /\ format p = Some (toLowerCase e))
  /\ (forall p,
        parseGeneratorApiImport newURL value = Returned (Some p) ->
        (kind p = Some "repo" \/ kind p = Some "quality")
        /\ (format p = Some "svg" \/ format p = Some "json")).
Proof.
  split; [|split].
  - intros url Hin Hurl Hreq Ho Hr.
    pose proof (api_import_of_url value url Hin Hurl) as Hapi.
    rewrite Hreq in Hapi. unfold request_reading in Hapi. rewrite Ho, Hr in Hapi.
    cbn [andb] in Hapi. eexists. split; [exact Hapi|].
    split; [rewrite import_of_api, Hapi; reflexivity|].
    split; reflexivity.
  - intros url k o r e p Hin Hurl Hreq Hm Hp.
    rewrite (api_import_of_url value url Hin Hurl), Hreq in Hp.
    unfold path_reading in Hp. rewrite Hm in Hp.
    destruct (decodeURIComponent o) as [owner|]; [|discriminate].
    destruct (decodeURIComponent r) as [repo|]; [|discriminate].
    destruct (truthy owner && truthy (strip_git repo)); [|discriminate].
    injection Hp as <-. cbn [kind format api_record].
    destruct (stats_match_kind _ _ _ _ _ Hm) as [[Hk|Hk] [He|He]];
      rewrite Hk, He; split; reflexivity.
  - intros p Hp.
    destruct (truthy (extractGeneratorImportUrl value)) eqn:Hin.
    2:{ rewrite api_import_no_url in Hp by now left. discriminate. }
    destruct (newURL (extractGeneratorImportUrl value)) as [url|] eqn:Hurl.
    2:{ rewrite api_import_no_url in Hp by now right. discriminate. }
    rewrite (api_import_of_url value url Hin Hurl) in Hp.
    assert (Hrec : forall params a b c d,
               (kind (api_record params a b c d) = Some "repo"
                \/ kind (api_record params a b c d) = Some "quality")
               /\ (format (api_record params a b c d) = Some "svg"
                   \/ format (api_record params a b c d) = Some "json")).
    { intros. cbn [kind format api_record].
      destruct (coerce_kind_cases c) as [-> | ->], (coerce_format_cases d) as [-> | ->];
        auto. }
    destruct (request_shaped url).
    + unfold request_reading in Hp. destruct (truthy _ && truthy _); [|discriminate].
      injection Hp as <-. apply Hrec.
    + unfold path_reading in Hp.
      destruct (stats_match (pathname url)) as [[[[k o] r] e]|]; [|discriminate].
      destruct (decodeURIComponent o) as [owner|]; [|discriminate].
      destruct (decodeURIComponent r) as [repo|]; [|discriminate].
      destruct (truthy owner && truthy (strip_git repo)); [|discriminate].
      injection Hp as <-. apply Hrec.
Qed.

End Shapes.

(** *** A GitHub URL is not a shorthand *)

Definition plain (c : ascii) : bool := not_char "/" c && negb (is_space c).

Lemma drop_prefix_ci_cons (a : ascii) (pre s r : string) :
  drop_prefix true (String a pre) s = Some r ->
  exists c s', s = String c s' /\ lower_char a = lower_char c
               /\ drop_prefix true pre s' = Some r.
Proof.
  destruct s as [|c s']; cbn [drop_prefix]; [discriminate|].
  destruct (Ascii.eqb_spec (lower_char a) (lower_char c)) as [He|_]; [|discriminate].
  intros H. now exists c, s'.
Qed.

Lemma scheme_letters_plain :
  forall c, implb (in_chars "htps:" (lower_char c)) (plain c) = true.
Proof. apply forall_ascii. vm_compute. reflexivity. Qed.

Lemma slash_only :
  forall c, implb (Ascii.eqb (lower_char "/") (lower_char c)) (Ascii.eqb c "/") = true.
Proof. apply forall_ascii. vm_compute. reflexivity. Qed.

Lemma plain_when (a c : ascii) :
  in_chars "htps:" (lower_char a) = true -> lower_char a = lower_char c -> plain c = true.
Proof.
  intros Ha He. rewrite He in Ha. exact (implb_elim _ _ (scheme_letters_plain c) Ha).
Qed.

Lemma slash_when (c : ascii) : lower_char "/" = lower_char c -> c = "/"%char.
Proof.
  intros He. apply Ascii.eqb_eq.
  apply (implb_elim _ _ (slash_only c)). now apply Ascii.eqb_eq.
Qed.

Lemma span_plain_cons (c : ascii) (s : string) :
  plain c = true ->
  span plain (String c s) = (String c (fst (span plain s)), snd (span plain s)).
Proof.
  intros Hc. cbn [span]. rewrite Hc. now destruct (span plain s).
Qed.

(** What follows the scheme in a GitHub URL: a colon and two slashes. *)
Lemma after_scheme (r1 r2 : string) :
  drop_prefix true "://github.com/" r1 = Some r2 ->
  exists c t, r1 = String c (String "/" (String "/" t)) /\ plain c = true.
Proof.
  intros H.
  apply drop_prefix_ci_cons in H as (c & s1 & -> & Hc & H).
  apply drop_prefix_ci_cons in H as (c2 & s2 & -> & Hc2 & H).
  apply drop_prefix_ci_cons in H as (c3 & s3 & -> & Hc3 & H).
  apply slash_when in Hc2, Hc3. subst c2 c3.
  exists c, s3. split; [reflexivity|]. now apply (plain_when ":").
Qed.

Lemma short_match_after_scheme (pre : string) (c : ascii) (t : string) :
  all_chars plain pre = true -> plain c = true ->
  short_match (pre ++ String c (String "/" (String "/" t))) = None.
Proof.
  intros Hpre Hc. unfold short_match. fold plain.
  assert (Hspan : forall pre, all_chars plain pre = true ->
            span plain (pre ++ String c (String "/" (String "/" t)))
            = (pre ++ String c "", String "/" (String "/" t))).
  { clear Hpre pre. induction pre as [|a pre IH]; intros Hall.
    - cbn [append]. rewrite span_plain_cons by exact Hc. reflexivity.
    - cbn [all_chars] in Hall. apply andb_true_iff in Hall as [Ha Hall].
      cbn [append]. rewrite span_plain_cons by exact Ha. now rewrite (IH Hall). }
  rewrite (Hspan pre Hpre). cbn [drop_prefix Ascii.eqb Bool.eqb]. cbv iota.
  cbn [span plain not_char Ascii.eqb Bool.eqb negb andb]. cbv iota.
  now rewrite andb_false_r.
Qed.

Lemma github_is_not_shorthand (input : string) (o r : string) :
  github_match input = Some (o, r) -> short_match input = None.
Proof.
  unfold github_match.
  destruct (drop_prefix true "http" input) as [r0|] eqn:H0; [|discriminate].
  apply drop_prefix_ci_cons in H0 as (c1 & s1 & -> & Hc1 & H0).
  apply drop_prefix_ci_cons in H0 as (c2 & s2 & -> & Hc2 & H0).
  apply drop_prefix_ci_cons in H0 as (c3 & s3 & -> & Hc3 & H0).
  apply drop_prefix_ci_cons in H0 as (c4 & s4 & -> & Hc4 & H0).
  cbn [drop_prefix] in H0. injection H0 as ->.
  apply (plain_when "h") in Hc1; [|reflexivity].
  apply (plain_when "t") in Hc2; [|reflexivity].
  apply (plain_when "t") in Hc3; [|reflexivity].
  apply (plain_when "p") in Hc4; [|reflexivity].
  destruct (drop_prefix true "s" r0) as [rs|] eqn:Hs.
  - apply drop_prefix_ci_cons in Hs as (c5 & s5 & -> & Hc5 & Hs).
    cbn [drop_prefix] in Hs. injection Hs as ->.
    apply (plain_when "s") in Hc5; [|reflexivity].
    destruct (drop_prefix true "://github.com/" rs) as [r2|] eqn:H2; [|discriminate].
    intros _. apply after_scheme in H2 as (c & t & -> & Hc).
    apply (short_match_after_scheme
             (String c1 (String c2 (String c3 (String c4 (String c5 ""))))) c t);
      [|exact Hc].
    cbn [all_chars]. now rewrite Hc1, Hc2, Hc3, Hc4, Hc5.
  - destruct (drop_prefix true "://github.com/" r0) as [r2|] eqn:H2; [|discriminate].
    intros _. apply after_scheme in H2 as (c & t & -> & Hc).
    apply (short_match_after_scheme
             (String c1 (String c2 (String c3 (String c4 "")))) c t);
      [|exact Hc].
    cbn [all_chars]. now rewrite Hc1, Hc2, Hc3, Hc4.
Qed.

Section Priority.

Variable newURL : string -> option URL.

(** C2, as the script has it.  The shapes are tried in the order
    request, path, GitHub URL, shorthand.  A request- or path-shaped
    reading that succeeds is the result whatever the later shapes would
    make of the text; a reference with both parameters is read from its
    query and the path template is not tried; a GitHub URL is never a
    shorthand.  But a request- or path-shaped reference whose owner or
    repository comes out empty is not refused: the text is then read as
    a GitHub URL or a shorthand. *)
Theorem import_shapes_in_priority_order (value : string) :
  let input := extractGeneratorImportUrl value in
  (forall p,
      parseGeneratorApiImport newURL value = Returned (Some p) ->
      parseGeneratorImport newURL value = Returned (Some p))
  /\ (forall url,
        truthy input = true -> newURL input = Some url ->
        parseGeneratorApiImport newURL value
        = if request_shaped url then Returned (request_reading (searchParams url))
          else path_reading url)
  /\ (parseGeneratorApiImport newURL value = Thrown ->
      parseGeneratorImport newURL value = Thrown)
  /\ (parseGeneratorApiImport newURL value = Returned None ->
      truthy input = true ->
      parseGeneratorImport newURL value = Returned (later_reading input))
  /\ (forall o r,
        github_match input = Some (o, r) ->
        short_match input = None
        /\ later_reading input
           = if truthy o && truthy (strip_git r)
             then Some (owner_repo_only o (strip_git r)) else None)
  /\ (github_match input = None ->
      later_reading input
      = match short_match input with
        | Some (o, r) =>
            if truthy o && truthy (strip_git r)
            then Some (owner_repo_only o (strip_git r)) else None
        | None => None
        end).
Proof.
  intros input. repeat split.
  - intros p Hp. now rewrite import_of_api, Hp.
  - intros url Hin Hurl. now apply api_import_of_url.
  - intros Hp. now rewrite import_of_api, Hp.
  - intros Hp Hin. rewrite import_of_api, Hp. fold input. now rewrite Hin.
  - eapply github_is_not_shorthand; eassumption.
  - unfold later_reading. now rewrite H.
  - intros Hg. unfold later_reading. now rewrite Hg.
Qed.

End Priority.

(** A reference that is a GitHub URL and carries the two parameters is
    read from its query. *)
Lemma import_shapes_in_priority_order_witness :
  exists p,
    parseGeneratorImport Url.parse "https://github.com/acme/widgets?owner=other&repo=thing"
    = Returned (Some p)
    /\ owner p = "other" /\ repo p = "thing"
    /\ github_match "https://github.com/acme/widgets?owner=other&repo=thing"
       = Some ("acme", "widgets").
Proof.
  destruct (import_shapes_in_priority_order Url.parse
              "https://github.com/acme/widgets?owner=other&repo=thing")
    as (Hfirst & _).
  eexists. split; [apply Hfirst; vm_compute; reflexivity|].
  repeat split.
Defined.

(** A reference that carries both parameters, with a repository that is
    nothing but [.git], is read as the shorthand [acme/widgets...]. *)
Lemma request_shaped_read_as_shorthand :
  exists url,
    Url.parse (extractGeneratorImportUrl "acme/widgets?owner=x&repo=.git") = Some url
    /\ get "owner" (searchParams url) = Some "x"
    /\ get "repo" (searchParams url) = Some ".git"
    /\ request_shaped url = true
    /\ parseGeneratorImport Url.parse "acme/widgets?owner=x&repo=.git"
       = Returned (Some (owner_repo_only "acme" "widgets?owner=x&repo=")).
Proof.
  eexists. split; [vm_compute; reflexivity|]. repeat split.
Qed.

Section Atomic.

Variable show : Q -> string.
Variable newURL : string -> option URL.

(** What the import button leaves behind, by outcome of the parse. *)
Lemma import_outcomes (page : Page) :
  match applyRepoImport show newURL page with
  | Thrown => parseGeneratorImport newURL (gen_repo_url page) = Thrown
  | Returned page' =>
      (parseGeneratorImport newURL (gen_repo_url page) = Returned None
       /\ form page' = form page
       /\ gen_import_error page' = invalidGeneratorRepoUrl
       /\ preview_requested page' = preview_requested page)
      \/ (exists parsed,
            parseGeneratorImport newURL (gen_repo_url page) = Returned (Some parsed)
            /\ gen_import_error page' = ""
            /\ preview_requested page' = true
            /\ hide_options (form page')
               = hide_options (applyGeneratorImportToForm show parsed (form page))
            /\ gen_kind (form page')
               = gen_kind (applyGeneratorImportToForm show parsed (form page)))
  end.
Proof.
  unfold applyRepoImport.
  destruct (parseGeneratorImport newURL (gen_repo_url page)) as [[parsed|]|].
  - right. exists parsed. repeat split.
    + cbv zeta. destruct (negb _ && _), (negb _ && _); reflexivity.
    + cbv zeta. destruct (negb _ && _), (negb _ && _); reflexivity.
  - left. repeat split.
  - reflexivity.
Qed.

End Atomic.

(** C5 (the code departs from the claim).  A parse that returns null
    leaves the form as it was and shows the message, and a parse that
    returns a record is applied as a whole; but a path-shaped reference
    with a malformed escape makes [decodeURIComponent] throw: the
    handler ends there, with no field changed and no message shown. *)
Theorem import_throws_on_malformed_escape (show : Q -> string) (page : Page) :
  let page := mkPage (form page) "https://host/api/stats/repo/%zz/x.svg"
                     (gen_import_error page) (preview_requested page) in
  stats_match "/api/stats/repo/%zz/x.svg" = Some ("repo", "%zz", "x", "svg")
  /\ decodeURIComponent "%zz" = None
  /\ parseGeneratorImport Url.parse (gen_repo_url page) = Thrown
  /\ applyRepoImport show Url.parse page = Thrown.
Proof.
  cbv zeta.
  assert (Hparse : parseGeneratorImport Url.parse "https://host/api/stats/repo/%zz/x.svg"
                   = Thrown) by (vm_compute; reflexivity).
  split; [vm_compute; reflexivity|]. split; [vm_compute; reflexivity|].
  split; [exact Hparse|].
  unfold applyRepoImport. cbn [gen_repo_url]. now rewrite Hparse.
Qed.

End ImportFacts.

(* ===================================================================== *)
(** ** Whole numbers through [Number], the clamps and [String]           *)
(* ===================================================================== *)

Module NumberFacts.
Import JsString JsNumber Generator PaletteFacts StringFacts.

Local Open Scope string_scope.



Lemma break_at_none (p : ascii -> bool) (s : string) :
  all_chars (fun c => negb (p c)) s = true -> break_at p s = (s, None).
Proof.
  induction s as [|c r IH]; [reflexivity|].
  cbn [all_chars break_at]. intros H. apply andb_true_iff in H as [Hc Hr].
  apply negb_true_iff in Hc. now rewrite Hc, (IH Hr).
Qed.











Section Whole.

Variable show : Q -> string.





End Whole.

End NumberFacts.
(* ===================================================================== *)
(** ** The text of an exported reference                                 *)
(* ===================================================================== *)

Module EncodeFacts.
Import JsString JsNumber Url Palette Generator.
Import UrlFacts PaletteFacts StringFacts.

Local Open Scope string_scope.

Definition ascii_char (c : ascii) : bool := (nat_of_ascii c <? 128)%nat.

(** What an encoder writes for one character. *)
Definition piece (keep : ascii -> bool) (c : ascii) : string :=
  if keep c then String c EmptyString else percent_byte c.

Lemma all_chars_true (s : string) : all_chars (fun _ => true) s = true.
Proof. induction s as [|c r IH]; [reflexivity|exact IH]. Qed.

Lemma all_chars_encode (keep p q : ascii -> bool) (s : string) :
  (forall c, p c = true -> all_chars q (piece keep c) = true) ->
  all_chars p s = true -> all_chars q (encode_with keep s) = true.
Proof.
  intros Hpiece. induction s as [|c r IH]; [reflexivity|].
  cbn [all_chars encode_with]. intros H. apply andb_true_iff in H as [Hc Hr].
  fold (piece keep c). now rewrite all_chars_app, (Hpiece c Hc), (IH Hr).
Qed.

Lemma truthy_encode (keep : ascii -> bool) (s : string) :
  truthy s = true -> truthy (encode_with keep s) = true.
Proof.
  destruct s as [|c r]; [discriminate|]. intros _. cbn [encode_with].
  unfold percent_byte. now destruct (keep c).
Qed.

(** *** [decodeURIComponent] after [encodeURIComponent] *)

Definition decodes (c : ascii) : bool :=
  if uri_unreserved c then negb (Ascii.eqb c "%")
  else match hex_pair (hex_char (nat_of_ascii c / 16))
                      (hex_char (nat_of_ascii c mod 16)) with
       | Some b => (b =? nat_of_ascii c)%nat && (b <? 128)%nat
       | None => false
       end.

Lemma ascii_decodes : forall c, implb (ascii_char c) (decodes c) = true.
Proof. apply forall_ascii. vm_compute. reflexivity. Qed.

Lemma decode_encode (s : string) :
  all_chars ascii_char s = true ->
  decodeURIComponent (encodeURIComponent s) = Some s.
Proof.
  unfold decodeURIComponent, encodeURIComponent.
  induction s as [|c r IH]; [reflexivity|].
  cbn [all_chars encode_with]. intros H. apply andb_true_iff in H as [Hc Hr].
  pose proof (implb_elim _ _ (ascii_decodes c) Hc) as Hd. unfold decodes in Hd.
  destruct (uri_unreserved c).
  - apply negb_true_iff in Hd. cbn [append decode_from]. now rewrite Hd, (IH Hr).
  - unfold percent_byte. cbn [append decode_from].
    change (Ascii.eqb "%" "%") with true. cbv iota.
    destruct (hex_pair _ _) as [b|]; [|discriminate Hd].
    apply andb_true_iff in Hd as [Hb Hlt]. apply Nat.eqb_eq in Hb.
    rewrite Hlt, (IH Hr). cbn [option_map]. subst b.
    now rewrite ascii_nat_embedding.
Qed.

(** *** Characters of an encoded text *)

(** The characters that stop none of the readers of the import: no white
    space, no bracket of a Markdown image, no angle bracket. *)
Definition url_safe (c : ascii) : bool :=
  not_space c && not_char "[" c && not_char "<" c && not_char ">" c.

Lemma uri_piece_safe :
  forall c, (all_chars url_safe (piece uri_unreserved c)
             && all_chars (not_char "/") (piece uri_unreserved c)
             && implb (not_char "." c)
                      (all_chars (not_char ".") (piece uri_unreserved c))) = true.
Proof. apply forall_ascii. vm_compute. reflexivity. Qed.

Lemma form_piece_safe :
  forall c, all_chars url_safe
              (if Ascii.eqb c " " then "+"
               else if form_keep c then String c EmptyString
               else percent_byte c) = true.
Proof. apply forall_ascii. vm_compute. reflexivity. Qed.

Lemma encode_safe (s : string) : all_chars url_safe (encodeURIComponent s) = true.
Proof.
  apply (all_chars_encode _ (fun _ => true)); [|apply all_chars_true].
  intros c _. pose proof (uri_piece_safe c) as H.
  apply andb_true_iff in H as [H _]. now apply andb_true_iff in H as [H _].
Qed.

Lemma encode_no_slash (s : string) :
  all_chars (not_char "/") (encodeURIComponent s) = true.
Proof.
  apply (all_chars_encode _ (fun _ => true)); [|apply all_chars_true].
  intros c _. pose proof (uri_piece_safe c) as H.
  apply andb_true_iff in H as [H _]. now apply andb_true_iff in H as [_ H].
Qed.

Lemma encode_no_dot (s : string) :
  all_chars (not_char ".") s = true ->
  all_chars (not_char ".") (encodeURIComponent s) = true.
Proof.
  apply all_chars_encode.
  intros c Hc. pose proof (uri_piece_safe c) as H.
  apply andb_true_iff in H as [_ H]. exact (implb_elim _ _ H Hc).
Qed.

Lemma all_chars_andb (p q : ascii -> bool) (s : string) :
  all_chars p s = true -> all_chars q s = true ->
  all_chars (fun c => p c && q c) s = true.
Proof.
  induction s as [|c r IH]; [reflexivity|]. cbn [all_chars]. intros Hp Hq.
  apply andb_true_iff in Hp as [Hp1 Hp2]. apply andb_true_iff in Hq as [Hq1 Hq2].
  now rewrite Hp1, Hq1, IH.
Qed.

Lemma form_encode_safe (s : string) : all_chars url_safe (form_encode s) = true.
Proof.
  induction s as [|c r IH]; [reflexivity|].
  cbn [form_encode]. now rewrite all_chars_app, form_piece_safe, IH.
Qed.

Lemma serialize_safe (params : list (string * string)) :
  all_chars url_safe (serialize params) = true.
Proof.
  unfold serialize. apply all_chars_join; [reflexivity|].
  apply Forall_forall. intros x Hx. apply in_map_iff in Hx as [[k v] [<- _]].
  cbn [fst snd]. rewrite !all_chars_app, !form_encode_safe. reflexivity.
Qed.

(** *** The readers on a safe text *)

Lemma search_none {A : Type} (m : string -> option A) (p : ascii -> bool) (s : string) :
  (forall t, all_chars p t = true -> m t = None) ->
  all_chars p s = true -> search m s = None.
Proof.
  intros Hm. induction s as [|c r IH]; intros Hs.
  - cbn [search]. now rewrite (Hm "" Hs).
  - cbn [search]. rewrite (Hm _ Hs). apply IH.
    cbn [all_chars] in Hs. now apply andb_true_iff in Hs as [_ Hs].
Qed.

Lemma no_image_here (t : string) :
  all_chars url_safe t = true -> drop_prefix false "![" t = None.
Proof.
  destruct t as [|a [|b r]]; [reflexivity| |]; cbn [drop_prefix all_chars].
  - intros _. now destruct (Ascii.eqb "!" a).
  - intros H. apply andb_true_iff in H as [_ H]. apply andb_true_iff in H as [Hb _].
    unfold url_safe in Hb. apply andb_true_iff in Hb as [Hb _].
    apply andb_true_iff in Hb as [Hb _]. apply andb_true_iff in Hb as [_ Hb].
    unfold not_char in Hb. apply negb_true_iff in Hb.
    rewrite (Ascii.eqb_sym "[" b), Hb. now destruct (Ascii.eqb "!" a).
Qed.

Lemma strip_trailing_gt_safe (s : string) :
  all_chars url_safe s = true -> strip_trailing_gt s = s.
Proof.
  induction s as [|c r IH]; [reflexivity|].
  cbn [all_chars strip_trailing_gt]. intros H. apply andb_true_iff in H as [Hc Hr].
  destruct r as [|c' r'].
  - unfold url_safe in Hc. apply andb_true_iff in Hc as [_ Hc].
    unfold not_char in Hc. apply negb_true_iff in Hc. now rewrite Hc.
  - now rewrite (IH Hr).
Qed.

Lemma safe_not_space (s : string) :
  all_chars url_safe s = true -> all_chars not_space s = true.
Proof.
  apply all_chars_impl. intros c Hc. unfold url_safe in Hc.
  apply andb_true_iff in Hc as [Hc _]. apply andb_true_iff in Hc as [Hc _].
  now apply andb_true_iff in Hc as [Hc _].
Qed.

(** A safe text is its own reference: nothing is unwrapped or trimmed. *)
Lemma extract_safe (s : string) :
  truthy s = true -> all_chars url_safe s = true ->
  extractGeneratorImportUrl s = s.
Proof.
  intros Hne Hs. unfold extractGeneratorImportUrl.
  rewrite (trim_no_space s (safe_not_space s Hs)), Hne. cbn [negb].
  rewrite (search_none mdAngle_here url_safe s); [|..|exact Hs].
  2:{ intros t Ht. unfold mdAngle_here. now rewrite no_image_here. }
  rewrite (search_none mdPlain_here url_safe s); [|..|exact Hs].
  2:{ intros t Ht. unfold mdPlain_here. now rewrite no_image_here. }
  assert (Hangle : strip_angle s = s).
  { unfold strip_angle. destruct s as [|c r]; [reflexivity|].
    assert (Hc : Ascii.eqb c "<" = false).
    { cbn [all_chars] in Hs. apply andb_true_iff in Hs as [Hc _].
      unfold url_safe in Hc. apply andb_true_iff in Hc as [Hc _].
      apply andb_true_iff in Hc as [_ Hc]. now apply negb_true_iff in Hc. }
    rewrite Hc. now apply strip_trailing_gt_safe. }
  rewrite Hangle. apply trim_no_space, safe_not_space, Hs.
Qed.

(** *** The path template on an exported path *)

Lemma drop_prefix_app (ci : bool) (pre s : string) :
  drop_prefix ci pre (pre ++ s) = Some s.
Proof.
  induction pre as [|a pre IH]; [reflexivity|].
  cbn [append drop_prefix]. rewrite !Ascii.eqb_refl. destruct ci; exact IH.
Qed.

Lemma drop_prefix_one (c : ascii) (s : string) :
  drop_prefix false (String c "") (String c s) = Some s.
Proof. cbn [drop_prefix]. now rewrite Ascii.eqb_refl. Qed.

Lemma span_stop (p : ascii -> bool) (a : string) (c : ascii) (b : string) :
  all_chars p a = true -> p c = false ->
  span p (a ++ String c b) = (a, String c b).
Proof.
  intros Ha Hc. induction a as [|x a IH].
  - cbn [append span]. now rewrite Hc.
  - cbn [all_chars] in Ha. apply andb_true_iff in Ha as [Hx Ha].
    cbn [append span]. now rewrite Hx, (IH Ha).
Qed.

Lemma stats_match_path (k o r e : string) :
  k = "repo" \/ k = "quality" -> e = "svg" \/ e = "json" ->
  truthy o = true -> truthy r = true ->
  all_chars (not_char "/") o = true ->
  all_chars (fun c => not_char "/" c && not_char "." c) r = true ->
  stats_match ("/api/stats/" ++ k ++ "/" ++ o ++ "/" ++ r ++ "." ++ e)
  = Some (k, o, r, e).
Proof.
  intros Hk He Ho Hr Hoc Hrc.
  assert (Hk1 : all_chars (not_char "/") k = true)
    by (destruct Hk as [-> | ->]; reflexivity).
  assert (Hk2 : eqb_ci k "repo" || eqb_ci k "quality" = true)
    by (destruct Hk as [-> | ->]; reflexivity).
  assert (He2 : eqb_ci e "svg" || eqb_ci e "json" = true)
    by (destruct He as [-> | ->]; reflexivity).
  unfold stats_match. rewrite drop_prefix_app.
  change ("/" ++ o ++ "/" ++ r ++ "." ++ e)
    with (String "/" (o ++ String "/" (r ++ String "." e))).
  rewrite (span_stop _ k "/" _ Hk1 eq_refl), Hk2, drop_prefix_one.
  rewrite (span_stop _ o "/" _ Hoc eq_refl), drop_prefix_one.
  rewrite (span_stop _ r "." _ Hrc eq_refl), drop_prefix_one.
  now rewrite Ho, Hr, He2.
Qed.

Lemma lower_not_dot :
  forall c, implb (not_char "." c) (negb (Ascii.eqb (lower_char c) ".")) = true.
Proof. apply forall_ascii. vm_compute. reflexivity. Qed.

(** A name without a dot does not end in [.git]. *)
Lemma strip_git_no_dot (s : string) :
  all_chars (not_char ".") s = true -> strip_git s = s.
Proof.
  induction s as [|c r IH]; [reflexivity|].
  cbn [all_chars strip_git]. intros H. apply andb_true_iff in H as [Hc Hr].
  pose proof (implb_elim _ _ (lower_not_dot c) Hc) as Hl.
  apply negb_true_iff in Hl.
  assert (Hci : eqb_ci (String c r) ".git" = false).
  { unfold eqb_ci. change (toLowerCase ".git") with ".git".
    unfold toLowerCase. cbn [map_chars String.eqb]. now rewrite Hl. }
  now rewrite Hci, (IH Hr).
Qed.

End EncodeFacts.
(* ===================================================================== *)
(** ** Kind and format of an imported reference                          *)
(* ===================================================================== *)

Module CoercionFacts.
Import JsString JsNumber Url Palette Generator.
Import UrlFacts PaletteFacts StringFacts ImportFacts EncodeFacts.

Local Open Scope string_scope.

(** The kinds and the formats the path template admits, in any case. *)
Definition recognized (k e : string) : bool :=
  (eqb_ci k "repo" || eqb_ci k "quality") && (eqb_ci e "svg" || eqb_ci e "json").

(** A path of the shape of the template. *)
Definition stats_path_of (k o r e : string) : string :=
  "/api/stats/" ++ k ++ "/" ++ o ++ "/" ++ r ++ "." ++ e.

(** The segments of such a path: no slash in kind and owner, neither a
    slash nor a dot in the repository. *)
Definition segments (k o r : string) : bool :=
  all_chars (not_char "/") k && all_chars (not_char "/") o
  && all_chars (fun c => not_char "/" c && not_char "." c) r.

Lemma segments_parts (k o r : string) :
  segments k o r = true ->
  all_chars (not_char "/") k = true /\ all_chars (not_char "/") o = true
  /\ all_chars (fun c => not_char "/" c && not_char "." c) r = true.
Proof.
  unfold segments. intros H. apply andb_true_iff in H as [H Hr].
  apply andb_true_iff in H as [Hk Ho]. auto.
Qed.

(** The template matches a path with a kind and a format it admits. *)
Lemma stats_match_recognized (k o r e : string) :
  segments k o r = true -> truthy o = true -> truthy r = true ->
  recognized k e = true ->
  stats_match (stats_path_of k o r e) = Some (k, o, r, e).
Proof.
  intros Hs Ho Hr Hrec. destruct (segments_parts _ _ _ Hs) as (Hk1 & Hoc & Hrc).
  apply andb_true_iff in Hrec as [Hk2 He2].
  unfold stats_match, stats_path_of. rewrite drop_prefix_app.
  change ("/" ++ o ++ "/" ++ r ++ "." ++ e)
    with (String "/" (o ++ String "/" (r ++ String "." e))).
  rewrite (span_stop _ k "/" _ Hk1 eq_refl), Hk2, drop_prefix_one.
  rewrite (span_stop _ o "/" _ Hoc eq_refl), drop_prefix_one.
  rewrite (span_stop _ r "." _ Hrc eq_refl), drop_prefix_one.
  now rewrite Ho, Hr, He2.
Qed.

(** And no path with another kind or another format. *)
Lemma stats_match_unrecognized (k o r e : string) :
  segments k o r = true -> recognized k e = false ->
  stats_match (stats_path_of k o r e) = None.
Proof.
  intros Hs Hrec. destruct (segments_parts _ _ _ Hs) as (Hk1 & Hoc & Hrc).
  unfold stats_match, stats_path_of. rewrite drop_prefix_app.
  change ("/" ++ o ++ "/" ++ r ++ "." ++ e)
    with (String "/" (o ++ String "/" (r ++ String "." e))).
  rewrite (span_stop _ k "/" _ Hk1 eq_refl).
  unfold recognized in Hrec.
  destruct (eqb_ci k "repo" || eqb_ci k "quality"); [|reflexivity].
  cbn [andb] in Hrec. rewrite drop_prefix_one.
  rewrite (span_stop _ o "/" _ Hoc eq_refl), drop_prefix_one.
  rewrite (span_stop _ r "." _ Hrc eq_refl), drop_prefix_one.
  rewrite Hrec. now rewrite andb_false_r.
Qed.

(** A text that starts with a slash is neither a GitHub URL nor a
    shorthand. *)
Lemma later_reading_rooted (rest : string) : later_reading (String "/" rest) = None.
Proof.
  unfold later_reading.
  change (github_match (String "/" rest)) with (@None (string * string)).
  cbv iota. unfold short_match. cbn [span]. change (not_char "/" "/") with false.
  cbn [andb]. cbv iota. rewrite drop_prefix_one.
  now destruct (span _ rest).
Qed.

Lemma lower_recognized (k e : string) :
  recognized k e = true ->
  (toLowerCase k = "repo" \/ toLowerCase k = "quality")
  /\ (toLowerCase e = "svg" \/ toLowerCase e = "json").
Proof.
  unfold recognized, eqb_ci. intros H. apply andb_true_iff in H as [Hk He].
  apply orb_true_iff in Hk, He. split.
  - destruct Hk as [H|H]; apply String.eqb_eq in H; auto.
  - destruct He as [H|H]; apply String.eqb_eq in H; auto.
Qed.

Lemma decoded_truthy (s d : string) :
  decodeURIComponent s = Some d -> truthy d = true -> truthy s = true.
Proof.
  destruct s; [|reflexivity]. intros [= <-]. discriminate.
Qed.

Section Coercion.

Variable newURL : string -> option URL.

(** C10 (as amended).  In a request-shaped reference any [kind] and
    [format] are coerced: the import succeeds as soon as owner and
    repository are not blank, with the kind [quality] when the value
    (trimmed, in lower case) is [quality] and [repo] otherwise, and the
    format [json] when it is [json] and [svg] otherwise.  A path-shaped
    reference is not coerced.  When its kind is one of the two kinds and
    its format one of the two formats, in any case, they are read as
    they are, in lower case.  With any other kind or format the path
    does not match the template: the reference is not read as one to
    the API, the text goes on to the two later shapes, and when it
    starts with a slash the import fails.  Every API import that is
    read thus carries a recognized kind and format. *)
Theorem kind_and_format_coercion (value : string) :
  let input := extractGeneratorImportUrl value in
  (forall url,
      truthy input = true -> newURL input = Some url -> request_shaped url = true ->
      truthy (trim (opt_or (get "owner" (searchParams url)) "")) = true ->
      truthy (strip_git (trim (opt_or (get "repo" (searchParams url)) ""))) = true ->
      exists p,
        parseGeneratorApiImport newURL value = Returned (Some p)
        /\ parseGeneratorImport newURL value = Returned (Some p)
        /\ kind p = Some (if toLowerCase (trim (opt_or (get "kind" (searchParams url)) "repo"))
                             =? "quality" then "quality" else "repo")
        /\ format p = Some (if toLowerCase (trim (opt_or (get "format" (searchParams url)) "svg"))
                               =? "json" then "json" else "svg"))
  /\ (forall url k o r e owner repo,
        truthy input = true -> newURL input = Some url -> request_shaped url = false ->
        pathname url = stats_path_of k o r e -> segments k o r = true ->
        recognized k e = true ->
        decodeURIComponent o = Some owner -> decodeURIComponent r = Some repo ->
        truthy owner = true -> truthy (strip_git repo) = true ->
        exists p,
          parseGeneratorApiImport newURL value = Returned (Some p)
          /\ parseGeneratorImport newURL value = Returned (Some p)
          /\ kind p = Some (toLowerCase k) /\ format p = Some (toLowerCase e)
          /\ (toLowerCase k = "repo" \/ toLowerCase k = "quality")
          /\ (toLowerCase e = "svg" \/ toLowerCase e = "json"))
  /\ (forall url k o r e,
        truthy input = true -> newURL input = Some url -> request_shaped url = false ->
        pathname url = stats_path_of k o r e -> segments k o r = true ->
        recognized k e = false ->
        parseGeneratorApiImport newURL value = Returned None
        /\ parseGeneratorImport newURL value = Returned (later_reading input)
        /\ (forall rest,
              input = String "/" rest ->
              parseGeneratorImport newURL value = Returned None))
  /\ (forall p,
        parseGeneratorApiImport newURL value = Returned (Some p) ->
        (kind p = Some "repo" \/ kind p = Some "quality")
        /\ (format p = Some "svg" \/ format p = Some "json")).
Proof.
  intros input.
  destruct (api_kind_and_format newURL value) as (Hreq & _ & Hall).
  split; [exact Hreq|]. split; [|split; [|exact Hall]].
  - intros url k o r e owner repo Hin Hurl Hshape Hpath Hseg Hrec Hdo Hdr Ho Hr.
    assert (Hapi : parseGeneratorApiImport newURL value
                   = Returned (Some (api_record (searchParams url) owner (strip_git repo)
                                                (toLowerCase k) (toLowerCase e)))).
    { rewrite (api_import_of_url newURL value url Hin Hurl), Hshape.
      unfold path_reading. rewrite Hpath, stats_match_recognized; try assumption.
      - now rewrite Hdo, Hdr, Ho, Hr.
      - exact (decoded_truthy _ _ Hdo Ho).
      - apply (decoded_truthy _ _ Hdr). destruct repo; [discriminate Hr|reflexivity]. }
    eexists. split; [exact Hapi|].
    split; [now rewrite import_of_api, Hapi|].
    destruct (lower_recognized k e Hrec) as [Hk He].
    cbn [kind format api_record].
    split; [destruct Hk as [-> | ->]; reflexivity|].
    split; [destruct He as [-> | ->]; reflexivity|].
    split; assumption.
  - intros url k o r e Hin Hurl Hshape Hpath Hseg Hrec.
    assert (Hapi : parseGeneratorApiImport newURL value = Returned None).
    { rewrite (api_import_of_url newURL value url Hin Hurl), Hshape.
      unfold path_reading. now rewrite Hpath, stats_match_unrecognized. }
    assert (Himp : parseGeneratorImport newURL value = Returned (later_reading input)).
    { rewrite import_of_api, Hapi. fold input. now rewrite Hin. }
    split; [exact Hapi|]. split; [exact Himp|].
    intros rest Hrest. rewrite Himp, Hrest. now rewrite later_reading_rooted.
Qed.

End Coercion.

(** [kind=banana] imports as [kind=repo], and an unknown format as svg,
    when the reference is request-shaped. *)
Lemma kind_and_format_coercion_witness :
  exists p,
    parseGeneratorImport Url.parse
      "https://host/api?owner=acme&repo=widgets&kind=banana&format=exe"
    = Returned (Some p)
    /\ owner p = "acme" /\ repo p = "widgets"
    /\ kind p = Some "repo" /\ format p = Some "svg".
Proof.
  destruct (kind_and_format_coercion Url.parse
              "https://host/api?owner=acme&repo=widgets&kind=banana&format=exe")
    as [Hreq _].
  destruct (Hreq (mkURL "/api" [("owner", "acme"); ("repo", "widgets");
                                ("kind", "banana"); ("format", "exe")]))
    as [p (Hapi & Himp & Hk & Hf)]; try (vm_compute; reflexivity).
  exists p. split; [exact Himp|].
  assert (Hp : Returned (Some p)
               = parseGeneratorApiImport Url.parse
                   "https://host/api?owner=acme&repo=widgets&kind=banana&format=exe")
    by (symmetry; exact Hapi).
  vm_compute in Hp. injection Hp as ->. repeat split.
Defined.

(** C10 as stated fails on a path-shaped reference: the kind [banana]
    is not coerced to [repo], nor the format [exe] to [svg]; the path
    does not match the template, no later shape reads the text, and the
    import button leaves the message of a reference that is not
    valid. *)
Lemma unrecognized_path_kind_refused :
  stats_match "/api/stats/banana/acme/widgets.svg" = None
  /\ parseGeneratorApiImport Url.parse "/api/stats/banana/acme/widgets.svg"
     = Returned None
  /\ parseGeneratorImport Url.parse "/api/stats/banana/acme/widgets.svg"
     = Returned None
  /\ parseGeneratorImport Url.parse "https://host/api/stats/banana/acme/widgets.svg"
     = Returned None
  /\ parseGeneratorImport Url.parse "/api/stats/repo/acme/widgets.exe" = Returned None
  /\ (forall show form,
        applyRepoImport show Url.parse
          (mkPage form "/api/stats/banana/acme/widgets.svg" "" false)
        = Returned (mkPage form "/api/stats/banana/acme/widgets.svg"
                           invalidGeneratorRepoUrl false)).
Proof.
  assert (Hparse : parseGeneratorImport Url.parse "/api/stats/banana/acme/widgets.svg"
                   = Returned None) by (vm_compute; reflexivity).
  split; [vm_compute; reflexivity|]. split; [vm_compute; reflexivity|].
  split; [exact Hparse|]. split; [vm_compute; reflexivity|].
  split; [vm_compute; reflexivity|].
  intros show form. unfold applyRepoImport. cbn [gen_repo_url]. now rewrite Hparse.
Qed.

End CoercionFacts.
(* ===================================================================== *)
(** ** What an import writes into each control                           *)
(* ===================================================================== *)

Module ApplyFacts.
Import JsString JsNumber Url Palette Generator.
Import UrlFacts PaletteFacts StringFacts ExportFacts HideFacts FieldFacts ImportFacts.

Local Open Scope string_scope.

(** Whether a field flag may be selected under a kind and a format. *)
Definition field_permitted (kind format : string) (o : option_box) : bool :=
  (format =? "json") && includes (allowed_kinds o) kind.

(** What [syncGeneratorFieldOptionsByKind] makes of one box. *)
Definition field_synced (kind format : string) (o : option_box) : option_box :=
  mkOption (opt_value o) (opt_kinds o) (opt_checked o)
           (negb (field_permitted kind format o)).

(** What [applyGeneratorHideFlags] makes of one box. *)
Definition hide_read (rawValue : string) (node : option_box) : option_box :=
  mkOption (opt_value node) (opt_kinds node)
           (if opt_disabled node then false
            else includes (flag_tokens rawValue) (toLowerCase (trim (opt_value node))))
           (opt_disabled node).

Section Steps.

Variable show : Q -> string.

(** Kind and format, and the availability that follows from them. *)
Definition kinds (p : Parsed) (f : Form) : Form :=
  syncGeneratorFieldOptionsByKind
    (syncGeneratorHideOptionsByKind
       (syncGeneratorControlVisibility
          (import_format p (import_kind p (import_repo p (import_owner p f)))))).

(** The plain controls. *)
Definition controls (p : Parsed) (f : Form) : Form :=
  import_include_report p
    (import_cache_seconds show p (import_duration show p (import_animation p
      (import_animate p (import_langs show p (import_width show p
        (import_title p (import_locale p (import_theme p f))))))))).

(** The two groups of check boxes. *)
Definition boxes (p : Parsed) (f : Form) : Form :=
  applyGeneratorFieldFlags (or_empty (fields p))
    (applyGeneratorHideFlags (or_empty (hide p)) f).

(** The palette, and whether its editor shows. *)
Definition finish (p : Parsed) (f : Form) : Form :=
  syncGeneratorCustomThemeVisibility (import_colors p f).

Lemma apply_steps (p : Parsed) (g : Form) :
  applyGeneratorImportToForm show p g
  = finish p (boxes p (controls p (kinds p g))).
Proof.
  unfold finish, boxes, controls, kinds, applyGeneratorImportToForm.
  reflexivity.
Qed.

End Steps.

Ltac branch :=
  repeat match goal with
         | |- context [if ?b then _ else _] => destruct b
         | |- context [match ?o with Some _ => _ | None => _ end] => destruct o
         end.

Ltac head_of t :=
  lazymatch t with
  | ?f _ => head_of f
  | _ => t
  end.

(** A statement that does not write the control read. *)
Ltac skip_step :=
  lazymatch goal with
  | |- ?pi (?s ?p ?f) = _ =>
      let E := fresh "E" in
      let h := head_of s in
      assert (E : forall x, pi (s p x) = pi x)
        by (intros x; first [reflexivity | unfold h; branch; reflexivity]);
      rewrite (E f); clear E
  | |- ?pi (?s ?f) = _ =>
      let E := fresh "E" in
      assert (E : forall x, pi (s x) = pi x) by (intros x; reflexivity);
      rewrite (E f); clear E
  end.

Ltac own_step :=
  lazymatch goal with
  | |- ?pi (?s ?p ?f) = _ => let h := head_of s in unfold h
  end.

(** Down to the statement that writes the control, or to [kinds]. *)
Ltac to_step :=
  rewrite apply_steps; unfold finish, boxes, controls; repeat skip_step.

Lemma field_options_sync (f : Form) :
  field_options (syncGeneratorFieldOptionsByKind f)
  = map (field_synced (current_kind f) (current_format f)) (field_options f).
Proof. reflexivity. Qed.

Lemma hide_options_read (rawValue : string) (f : Form) :
  hide_options (applyGeneratorHideFlags rawValue f)
  = map (hide_read rawValue) (hide_options f).
Proof. reflexivity. Qed.

Lemma gen_hide_read (rawValue : string) (f : Form) :
  gen_hide (applyGeneratorHideFlags rawValue f)
  = join "," (selectedGeneratorHideFlags (applyGeneratorHideFlags rawValue f)).
Proof. reflexivity. Qed.

Section Written.

Variable show : Q -> string.


(** *** Owner, repository, kind and format *)

Lemma written_owner (p : Parsed) (g : Form) :
  gen_owner (applyGeneratorImportToForm show p g) = if truthy (owner p) then owner p else gen_owner g.
Proof.
  to_step. unfold ApplyFacts.kinds. repeat skip_step. own_step.
  now destruct (truthy (owner p)).
Qed.

Lemma written_repo (p : Parsed) (g : Form) :
  gen_repo (applyGeneratorImportToForm show p g) = if truthy (repo p) then repo p else gen_repo g.
Proof.
  to_step. unfold ApplyFacts.kinds. repeat skip_step. own_step.
  destruct (truthy (repo p)); repeat skip_step; reflexivity.
Qed.

Lemma kinds_kind (p : Parsed) (g : Form) :
  gen_kind (kinds p g)
  = match kind p with
    | Some k => if truthy k then coerce_kind k else gen_kind g
    | None => gen_kind g
    end.
Proof.
  unfold ApplyFacts.kinds. repeat skip_step. own_step.
  destruct (kind p) as [k|]; [destruct (truthy k)|]; repeat skip_step; reflexivity.
Qed.

Lemma kinds_format (p : Parsed) (g : Form) :
  gen_format (kinds p g)
  = match format p with
    | Some k => if truthy k then coerce_format k else gen_format g
    | None => gen_format g
    end.
Proof.
  unfold ApplyFacts.kinds. repeat skip_step. own_step.
  destruct (format p) as [k|]; [destruct (truthy k)|]; repeat skip_step; reflexivity.
Qed.

Lemma written_kind (p : Parsed) (g : Form) :
  gen_kind (applyGeneratorImportToForm show p g) = gen_kind (kinds p g).
Proof. to_step. reflexivity. Qed.

Lemma written_format (p : Parsed) (g : Form) :
  gen_format (applyGeneratorImportToForm show p g) = gen_format (kinds p g).
Proof. to_step. reflexivity. Qed.

(** *** The boxes after kind and format *)

Lemma kinds_hide_options (p : Parsed) (g : Form) :
  hide_options (kinds p g)
  = map (hide_synced (current_kind (kinds p g)) (current_format (kinds p g)))
        (hide_options g).
Proof.
  unfold current_kind, current_format, ApplyFacts.kinds.
  set (X := syncGeneratorControlVisibility _).
  change (gen_kind (syncGeneratorFieldOptionsByKind (syncGeneratorHideOptionsByKind X)))
    with (gen_kind X).
  change (gen_format (syncGeneratorFieldOptionsByKind (syncGeneratorHideOptionsByKind X)))
    with (gen_format X).
  skip_step. rewrite hide_options_sync. unfold current_kind, current_format.
  f_equal. subst X. repeat skip_step. reflexivity.
Qed.

Lemma kinds_field_options (p : Parsed) (g : Form) :
  field_options (kinds p g)
  = map (field_synced (current_kind (kinds p g)) (current_format (kinds p g)))
        (field_options g).
Proof.
  unfold current_kind, current_format, ApplyFacts.kinds.
  set (X := syncGeneratorHideOptionsByKind _).
  change (gen_kind (syncGeneratorFieldOptionsByKind X)) with (gen_kind X).
  change (gen_format (syncGeneratorFieldOptionsByKind X)) with (gen_format X).
  rewrite field_options_sync. unfold current_kind, current_format.
  f_equal. subst X. repeat skip_step. reflexivity.
Qed.

Lemma kinds_theme_options (p : Parsed) (g : Form) :
  theme_options (kinds p g) = theme_options g.
Proof. unfold ApplyFacts.kinds. repeat skip_step. reflexivity. Qed.

(** *** The plain controls *)

Ltac through_kinds := unfold ApplyFacts.kinds; repeat skip_step; reflexivity.

Lemma written_theme (p : Parsed) (g : Form) :
  gen_theme (applyGeneratorImportToForm show p g)
  = if opt_truthy (theme p) then
      if includes (theme_options g) (toLowerCase (trim (opt_or (theme p) "")))
      then toLowerCase (trim (opt_or (theme p) "")) else gen_theme g
    else gen_theme g.
Proof.
  to_step. own_step. cbv zeta. rewrite kinds_theme_options.
  assert (E : gen_theme (kinds p g) = gen_theme g) by through_kinds.
  destruct (opt_truthy (theme p)); [|exact E].
  destruct (includes _ _); [reflexivity|exact E].
Qed.

Lemma written_locale (p : Parsed) (g : Form) :
  gen_locale (applyGeneratorImportToForm show p g)
  = if opt_truthy (locale p) then
      if (toLowerCase (trim (opt_or (locale p) "")) =? "en")
         || (toLowerCase (trim (opt_or (locale p) "")) =? "ru")
      then toLowerCase (trim (opt_or (locale p) "")) else gen_locale g
    else gen_locale g.
Proof.
  to_step. own_step. cbv zeta.
  destruct (opt_truthy (locale p)); [destruct (_ || _)|];
    repeat skip_step; try reflexivity; through_kinds.
Qed.

Lemma written_title (p : Parsed) (g : Form) :
  gen_title (applyGeneratorImportToForm show p g) = or_empty (title p).
Proof. to_step. reflexivity. Qed.

Lemma written_width (p : Parsed) (g : Form) :
  gen_width (applyGeneratorImportToForm show p g)
  = match width p with
    | Some w => clamped show w 640 1400 760
    | None => gen_width g
    end.
Proof.
  to_step. own_step.
  destruct (width p); repeat skip_step; try reflexivity; through_kinds.
Qed.

Lemma written_langs (p : Parsed) (g : Form) :
  gen_langs (applyGeneratorImportToForm show p g)
  = match langs p with
    | Some l => clamped show l 1 30 4
    | None => gen_langs g
    end.
Proof.
  to_step. own_step.
  destruct (langs p); repeat skip_step; try reflexivity; through_kinds.
Qed.

Lemma written_animate (p : Parsed) (g : Form) :
  gen_animate (applyGeneratorImportToForm show p g)
  = match animate p with
    | Some a => parseBooleanValue (Some a) true
    | None => gen_animate g
    end.
Proof.
  to_step. own_step.
  destruct (animate p); repeat skip_step; try reflexivity; through_kinds.
Qed.

Lemma written_animation (p : Parsed) (g : Form) :
  gen_animation (applyGeneratorImportToForm show p g)
  = if opt_truthy (animation p) then
      if includes ["all"; "soft"; "bars"; "ring"; "none"]
                  (toLowerCase (trim (opt_or (animation p) "")))
      then toLowerCase (trim (opt_or (animation p) "")) else gen_animation g
    else gen_animation g.
Proof.
  to_step. own_step. cbv zeta.
  destruct (opt_truthy (animation p)); [destruct (includes _ _)|];
    repeat skip_step; try reflexivity; through_kinds.
Qed.

Lemma written_duration (p : Parsed) (g : Form) :
  gen_duration (applyGeneratorImportToForm show p g)
  = match duration p with
    | Some d => clamped show d 350 7000 1400
    | None => gen_duration g
    end.
Proof.
  to_step. own_step.
  destruct (duration p); repeat skip_step; try reflexivity; through_kinds.
Qed.

Lemma written_cache_seconds (p : Parsed) (g : Form) :
  gen_cache_seconds (applyGeneratorImportToForm show p g)
  = match cacheSeconds p with
    | Some c => clamped show c 0 86400 21600
    | None => gen_cache_seconds g
    end.
Proof.
  to_step. own_step.
  destruct (cacheSeconds p); repeat skip_step; try reflexivity; through_kinds.
Qed.

Lemma written_include_report (p : Parsed) (g : Form) :
  gen_include_report (applyGeneratorImportToForm show p g) = parseBooleanValue (includeReport p) false.
Proof. to_step. reflexivity. Qed.

Lemma written_colors (p : Parsed) (g : Form) :
  gen_colors (applyGeneratorImportToForm show p g)
  = match colors p with
    | Some pl => applyGeneratorPalette pl (gen_colors g)
    | None => gen_colors g
    end.
Proof.
  rewrite apply_steps. unfold finish. skip_step. own_step.
  assert (E : gen_colors (boxes p (controls show p (kinds p g))) = gen_colors g).
  { unfold boxes, controls. repeat skip_step. through_kinds. }
  destruct (colors p); [|exact E].
  change (gen_colors (set_gen_colors ?v ?f)) with v. now rewrite E.
Qed.

(** *** The check boxes *)

(** The form the hide flags are read into, and the one the field flags
    are read into. *)
Definition before_hide (p : Parsed) (g : Form) : Form := controls show p (kinds p g).

Definition before_fields (p : Parsed) (g : Form) : Form :=
  applyGeneratorHideFlags (or_empty (hide p)) (before_hide p g).

Lemma before_hide_options (p : Parsed) (g : Form) :
  hide_options (before_hide p g) = hide_options (kinds p g).
Proof. unfold before_hide, controls. repeat skip_step. reflexivity. Qed.

Lemma before_fields_options (p : Parsed) (g : Form) :
  field_options (before_fields p g) = field_options (kinds p g).
Proof. unfold before_fields, before_hide, controls. repeat skip_step. reflexivity. Qed.

Lemma before_fields_kind (p : Parsed) (g : Form) :
  gen_kind (before_fields p g) = gen_kind (kinds p g).
Proof. unfold before_fields, before_hide, controls. repeat skip_step. reflexivity. Qed.

Lemma written_hide_options (p : Parsed) (g : Form) :
  hide_options (applyGeneratorImportToForm show p g)
  = hide_options (applyGeneratorHideFlags (or_empty (hide p)) (before_hide p g)).
Proof. to_step. reflexivity. Qed.

Lemma written_hide (p : Parsed) (g : Form) :
  gen_hide (applyGeneratorImportToForm show p g)
  = gen_hide (applyGeneratorHideFlags (or_empty (hide p)) (before_hide p g)).
Proof. to_step. reflexivity. Qed.

Lemma written_field_options (p : Parsed) (g : Form) :
  field_options (applyGeneratorImportToForm show p g)
  = field_options (applyGeneratorFieldFlags (or_empty (fields p)) (before_fields p g)).
Proof. to_step. reflexivity. Qed.

Lemma written_fields (p : Parsed) (g : Form) :
  gen_fields (applyGeneratorImportToForm show p g)
  = gen_fields (applyGeneratorFieldFlags (or_empty (fields p)) (before_fields p g)).
Proof. to_step. reflexivity. Qed.

(** *** Availability *)

(** The availability an import leaves is the one the resolver gives for
    the kind, format and theme it leaves. *)
Lemma written_disabled (p : Parsed) (g : Form) :
  disabled (applyGeneratorImportToForm show p g)
  = disabled (syncGeneratorCustomThemeVisibility
                (syncGeneratorControlVisibility (applyGeneratorImportToForm show p g))).
Proof.
  rewrite apply_steps. unfold finish. set (B := import_colors p _).
  set (F := import_format p (import_kind p (import_repo p (import_owner p g)))).
  assert (Hd : disabled B = disabled (syncGeneratorControlVisibility F)).
  { subst B F. unfold boxes, controls, ApplyFacts.kinds. repeat skip_step. reflexivity. }
  assert (Hk : gen_kind B = gen_kind F).
  { subst B F. unfold boxes, controls, ApplyFacts.kinds. repeat skip_step. reflexivity. }
  assert (Hf : gen_format B = gen_format F).
  { subst B F. unfold boxes, controls, ApplyFacts.kinds. repeat skip_step. reflexivity. }
  clearbody B F.
  unfold syncGeneratorCustomThemeVisibility, syncGeneratorControlVisibility,
    current_theme, current_format, current_kind in *.
  cbn [disabled set_disabled gen_kind gen_format gen_theme d_svg_only d_theme_random
       d_include_report d_langs d_fields d_custom_palette] in *.
  rewrite Hd, Hk, Hf.
  cbn [d_svg_only d_theme_random d_include_report d_langs d_fields d_custom_palette].
  reflexivity.
Qed.

End Written.

End ApplyFacts.
(* ===================================================================== *)
(** ** Export, then import                                               *)
(* ===================================================================== *)

Module RoundTripFacts.
Import JsString JsNumber Url Palette Generator.
Import UrlFacts PaletteFacts StringFacts ExportFacts HideFacts FieldFacts ImportFacts.
Import NumberFacts EncodeFacts ApplyFacts.

Local Open Scope string_scope.

(** *** The cards the codec carries unchanged *)

(** An owner or a repository: ASCII, not empty, nothing to trim. *)
Definition name_ok (s : string) : bool :=
  truthy s && all_chars ascii_char s && (trim s =? s).

(** A box is enabled exactly when [ok] permits it. *)
Definition box_settled (ok : option_box -> bool) (o : option_box) : bool :=
  Bool.eqb (opt_disabled o) (negb (ok o)).







(** The availability the resolver gives for the kind, format and theme
    of [c]. *)
Definition resolved (c : Form) : Disabled :=
  disabled (syncGeneratorCustomThemeVisibility (syncGeneratorControlVisibility c)).


(** *** Kind and format *)



Lemma or_else_truthy (s d : string) : truthy s = true -> or_else s d = s.
Proof. unfold or_else. now intros ->. Qed.

Lemma truthy_false (s : string) : truthy s = false -> s = "".
Proof. unfold truthy. intros H. apply negb_false_iff in H. now apply String.eqb_eq. Qed.

Lemma name_ok_parts (s : string) :
  name_ok s = true ->
  truthy s = true /\ all_chars ascii_char s = true /\ trim s = s.
Proof.
  unfold name_ok. intros H. apply andb_true_iff in H as [H Ht].
  apply andb_true_iff in H as [Hn Ha]. apply String.eqb_eq in Ht. auto.
Qed.

(** *** The parameters of an export *)

Lemma not_color (k : string) :
  includes GENERATOR_THEME_KEYS k = false -> ~ In k GENERATOR_THEME_KEYS.
Proof. intros H Hin. apply includes_In in Hin. congruence. Qed.

(** *** Boxes *)





Lemma selected_enabled (L : list option_box) (v : string) :
  forallb clean (enabled_values L) = true ->
  In v (selected_values L) -> In v (enabled_values L).
Proof.
  intros Hc. rewrite (selected_values_clean L Hc). unfold enabled_values.
  intros H. apply in_map_iff in H as [o [Hv Ho]]. apply filter_In in Ho as [Ho Hb].
  apply andb_true_iff in Hb as [_ Hb]. apply in_map_iff. exists o. split; [exact Hv|].
  now apply filter_In.
Qed.

Lemma selected_clean (L : list option_box) :
  forallb clean (enabled_values L) = true ->
  forallb clean (selected_values L) = true.
Proof.
  intros Hc. apply forallb_forall. intros v Hv.
  rewrite forallb_forall in Hc. apply Hc. apply selected_enabled; [|exact Hv].
  now apply forallb_forall.
Qed.










(** *** Availability *)


(** *** Colours *)




Section Carried.

Variable show : Q -> string.

Lemma svg_params_head (c : Form) (k : string) :
  includes GENERATOR_THEME_KEYS k = false ->
  get k (svg_params show c) = get k (svg_head show c).
Proof.
  intros Hk. unfold svg_params. rewrite get_app.
  destruct (get k (svg_head show c)); [reflexivity|].
  destruct (current_theme c =? "custom"); [|reflexivity].
  apply not_a_color, not_color, Hk.
Qed.

(** What an SVG export carries under each name. *)
Lemma svg_gets (c : Form) :
  current_format c = "svg" ->
  let ps := generatorParams show c in
  get "owner" ps = None
  /\ get "theme" ps = Some (current_theme c)
  /\ get "locale" ps = Some (or_else (gen_locale c) "en")
  /\ get "title" ps
     = (if truthy (trim (gen_title c)) then Some (trim (gen_title c)) else None)
  /\ get "card_width" ps = Some (bounded show 640 1400 (number_or (gen_width c) 760))
  /\ get "langs_count" ps
     = (if current_kind c =? "repo"
        then Some (bounded show 1 10 (number_or (gen_langs c) 4)) else None)
  /\ get "animate" ps = Some (if gen_animate c then "true" else "false")
  /\ get "animation" ps = Some (or_else (gen_animation c) "all")
  /\ get "duration" ps = Some (bounded show 350 7000 (number_or (gen_duration c) 1400))
  /\ get "cache_seconds" ps
     = Some (bounded show 0 86400 (number_or (gen_cache_seconds c) 21600))
  /\ get "include_report" ps = None
  /\ get "fields" ps = None.
Proof.
  intros Hfmt ps. subst ps. rewrite generatorParams_svg by exact Hfmt.
  rewrite !svg_params_head by reflexivity.
  unfold svg_head, opt_pair.
  generalize (bounded show 640 1400 (number_or (gen_width c) 760)).
  generalize (bounded show 350 7000 (number_or (gen_duration c) 1400)).
  generalize (bounded show 0 86400 (number_or (gen_cache_seconds c) 21600)).
  generalize (bounded show 1 10 (number_or (gen_langs c) 4)).
  generalize (current_theme c) (or_else (gen_locale c) "en") (trim (gen_title c))
             (trim (gen_hide c)) (or_else (gen_animation c) "all").
  intros th lo ti hi an la ca du wi.
  generalize (if gen_animate c then "true" else "false"). intros anim.
  destruct (truthy ti), (truthy hi), (current_kind c =? "repo");
    repeat (split; [reflexivity|]); reflexivity.
Qed.

(** What a JSON export carries under each name. *)
Lemma json_gets (c : Form) :
  (current_format c =? "svg") = false ->
  let ps := generatorParams show c in
  get "owner" ps = None
  /\ get "theme" ps = None
  /\ get "title" ps = None
  /\ get "hide" ps = None
  /\ get "card_width" ps = None
  /\ get "animate" ps = None
  /\ get "animation" ps = None
  /\ get "duration" ps = None
  /\ get "cache_seconds" ps = None
  /\ get "locale" ps
     = (if current_kind c =? "repo" then None else Some (or_else (gen_locale c) "en"))
  /\ get "langs_count" ps
     = (if current_kind c =? "repo"
        then Some (bounded show 1 30 (number_or (gen_langs c) 4)) else None)
  /\ get "include_report" ps
     = (if current_kind c =? "repo" then None
        else if gen_include_report c then Some "true" else None)
  /\ forall k, In k GENERATOR_THEME_KEYS -> get k ps = None.
Proof.
  intros Hfmt ps. subst ps. rewrite generatorParams_json by exact Hfmt.
  unfold json_params, opt_pair.
  generalize (bounded show 1 30 (number_or (gen_langs c) 4)).
  generalize (or_else (gen_locale c) "en") (trim (gen_fields c)).
  intros lo fi la.
  destruct (current_kind c =? "repo"), (truthy fi), (gen_include_report c);
    repeat (split; [reflexivity|]);
    intros k Hk; unfold GENERATOR_THEME_KEYS in Hk; cbn [In] in Hk;
    repeat (destruct Hk as [<-|Hk]; [reflexivity|]); destruct Hk.
Qed.

(** *** The export is read back as a path-shaped reference *)

Variable newURL : string -> option URL.

(** The record the export of [c] is read as. *)
Definition reading (c : Form) : Parsed :=
  api_record (generatorParams show c) (gen_owner c) (gen_repo c)
             (gen_kind c) (gen_format c).

Lemma current_kind_eq (c : Form) :
  gen_kind c = "repo" \/ gen_kind c = "quality" -> current_kind c = gen_kind c.
Proof. unfold current_kind. intros [-> | ->]; reflexivity. Qed.

Lemma current_format_eq (c : Form) :
  gen_format c = "svg" \/ gen_format c = "json" -> current_format c = gen_format c.
Proof. unfold current_format. intros [-> | ->]; reflexivity. Qed.

Lemma no_owner_param (c : Form) :
  gen_format c = "svg" \/ gen_format c = "json" ->
  get "owner" (generatorParams show c) = None.
Proof.
  intros Hf. pose proof (current_format_eq c Hf) as He. destruct Hf as [Hf|Hf].
  - assert (H : current_format c = "svg") by congruence.
    now destruct (svg_gets c H) as [H0 _].
  - assert (H : (current_format c =? "svg") = false) by now rewrite He, Hf.
    now destruct (json_gets c H) as [H0 _].
Qed.

Lemma pathname_safe (c : Form) :
  gen_kind c = "repo" \/ gen_kind c = "quality" ->
  gen_format c = "svg" \/ gen_format c = "json" ->
  all_chars url_safe (generatorPathname c) = true.
Proof.
  intros Hk Hf. unfold generatorPathname.
  rewrite (current_kind_eq c Hk), (current_format_eq c Hf).
  rewrite !all_chars_app, !encode_safe.
  destruct Hk as [-> | ->], Hf as [-> | ->]; reflexivity.
Qed.

Lemma export_text (c : Form) :
  gen_kind c = "repo" \/ gen_kind c = "quality" ->
  gen_format c = "svg" \/ gen_format c = "json" ->
  name_ok (gen_owner c) = true -> name_ok (gen_repo c) = true ->
  truthy (buildGeneratorPath show c) = true
  /\ all_chars url_safe (buildGeneratorPath show c) = true.
Proof.
  intros Hk Hf Ho Hr.
  destruct (name_ok_parts _ Ho) as (Hot & _ & Hotr).
  destruct (name_ok_parts _ Hr) as (Hrt & _ & Hrtr).
  pose proof (pathname_safe c Hk Hf) as Hp.
  assert (Hpt : forall rest, truthy (generatorPathname c ++ rest) = true) by reflexivity.
  unfold buildGeneratorPath. rewrite Hotr, Hrtr, Hot, Hrt. cbn [negb orb]. cbv zeta.
  destruct (truthy (serialize (generatorParams show c))).
  - split; [apply Hpt|]. rewrite !all_chars_app, Hp, serialize_safe. reflexivity.
  - split; [|exact Hp]. rewrite <- (append_nil_r (generatorPathname c)). apply Hpt.
Qed.

Lemma lower_kind (c : Form) :
  gen_kind c = "repo" \/ gen_kind c = "quality" -> toLowerCase (gen_kind c) = gen_kind c.
Proof. intros [-> | ->]; reflexivity. Qed.

Lemma lower_format (c : Form) :
  gen_format c = "svg" \/ gen_format c = "json" ->
  toLowerCase (gen_format c) = gen_format c.
Proof. intros [-> | ->]; reflexivity. Qed.

Lemma export_parses (c : Form) :
  gen_kind c = "repo" \/ gen_kind c = "quality" ->
  gen_format c = "svg" \/ gen_format c = "json" ->
  name_ok (gen_owner c) = true -> name_ok (gen_repo c) = true ->
  all_chars (not_char ".") (gen_repo c) = true ->
  newURL (buildGeneratorPath show c)
  = Some (mkURL (generatorPathname c) (generatorParams show c)) ->
  parseGeneratorImport newURL (buildGeneratorPath show c) = Returned (Some (reading c)).
Proof.
  intros Hk Hf Ho Hr Hdot Hurl.
  destruct (export_text c Hk Hf Ho Hr) as [Hne Hsafe].
  pose proof (extract_safe _ Hne Hsafe) as Hex.
  destruct (name_ok_parts _ Ho) as (Hot & Hoa & Hotr).
  destruct (name_ok_parts _ Hr) as (Hrt & Hra & Hrtr).
  assert (Hapi : parseGeneratorApiImport newURL (buildGeneratorPath show c)
                 = Returned (Some (reading c))).
  { rewrite (api_import_of_url newURL _ (mkURL (generatorPathname c)
                                              (generatorParams show c)))
      by (rewrite Hex; assumption).
    unfold request_shaped. cbn [searchParams].
    rewrite (no_owner_param c Hf). cbn [opt_truthy andb].
    unfold path_reading. cbn [pathname searchParams].
    unfold generatorPathname.
    rewrite (current_kind_eq c Hk), (current_format_eq c Hf), Hotr, Hrtr.
    rewrite stats_match_path; try assumption.
    - rewrite !decode_encode by assumption.
      rewrite (strip_git_no_dot _ Hdot), Hot, Hrt. cbn [andb].
      unfold reading. now rewrite (lower_kind c Hk), (lower_format c Hf).
    - now apply truthy_encode.
    - now apply truthy_encode.
    - apply encode_no_slash.
    - apply all_chars_andb; [apply encode_no_slash|now apply encode_no_dot]. }
  rewrite import_of_api, Hapi. reflexivity.
Qed.

(** *** The reference and the plain controls *)






(** *** The check boxes *)




(** *** The custom palette *)




End Carried.

(** *** Examples *)

(** A repository card with a custom palette, two hidden blocks and a
    title. *)
Definition sample_svg_card : Form :=
  on_format_change "svg"
    (on_kind_change "repo"
       (mkForm "acme" "widgets" "repo" "svg" "custom" "ru" "My card" "" "900" "6"
               false "bars" "2000" "3600" false ""
               (sample_hide_options ["stars"; "footer"]) (sample_field_options [])
               ember ["ocean"; "light"; "midnight"; "custom"]
               (mkDisabled false false true false true false))).


(** Another state of the same page, which the import overwrites. *)
Definition other_state : Form :=
  on_format_change "json"
    (on_kind_change "repo"
       (mkForm "someone" "something" "repo" "json" "midnight" "en" "old" "" "640" "9"
               true "soft" "500" "60" false ""
               (sample_hide_options ["meta"])
               (sample_field_options ["stars"; "forks"])
               neon ["ocean"; "light"; "midnight"; "custom"]
               (mkDisabled true true true false false true))).

(** The card of the counterexample: the title has a space on each side. *)
Definition padded_title_card : Form :=
  set_gen_title " My card " sample_svg_card.

(** A repository whose name has a dot. *)
Definition dotted_repo_card : Form :=
  set_gen_repo "next.js" (set_gen_owner "vercel" sample_svg_card).


(** Outside that state the export normalizes what it carries.  On a card
    whose title is padded with spaces, an SVG card, so that the title is
    one of its enabled controls, the export trims the title, and the
    record read back from the exported reference carries the trimmed
    one. *)
Lemma padded_title_not_carried :
  exists p,
    current_format padded_title_card = "svg"
    /\ gen_title padded_title_card = " My card "
    /\ buildGeneratorPath (fun _ => "") padded_title_card
       = "/api/stats/repo/acme/widgets.svg?theme=custom&locale=ru&card_width=900&title=My+card&hide=stars%2Cfooter&animate=false&animation=bars&duration=2000&cache_seconds=3600&langs_count=6&bg_start=%232E120C&bg_end=%23431A12&border=%238C3E2A&panel=%2335160F&overlay=%232C130D&chip_bg=%234C2117&chip_text=%23FFD6B7&text=%23FFEDE1&muted=%23E5B79A&accent=%23FF6A3D&accent_2=%23FFB347&accent_soft=%236B2A1D&track=%236A2F22&pass=%2358D68D&warn=%23FFC14A&fail=%23FF6E6E"
    /\ parseGeneratorImport Url.parse
         (buildGeneratorPath (fun _ => "") padded_title_card) = Returned (Some p)
    /\ title p = Some "My card"
    /\ gen_title (applyGeneratorImportToForm (fun _ => "") p padded_title_card)
       = "My card".
Proof.
  eexists. split; [reflexivity|]. split; [reflexivity|].
  split; [vm_compute; reflexivity|].
  split; [vm_compute; reflexivity|].
  split; vm_compute; reflexivity.
Qed.

End RoundTripFacts.
(* ===================================================================== *)
(** ** The reference parser on an exported reference                     *)
(* ===================================================================== *)

Module ParserFacts.
Import JsString JsNumber Url Palette Generator.
Import UrlFacts PaletteFacts StringFacts ExportFacts NumberFacts EncodeFacts.
Import RoundTripFacts.

Local Open Scope string_scope.

(** *** The query string *)

(** What [form_encode] writes for one character. *)
Definition form_piece (c : ascii) : string :=
  if Ascii.eqb c " " then "+"
  else if form_keep c then String c EmptyString
  else percent_byte c.

Definition form_decodes (c : ascii) : bool :=
  if Ascii.eqb c " " then true
  else if form_keep c then negb (Ascii.eqb c "+") && negb (Ascii.eqb c "%")
  else match hex_pair (hex_char (nat_of_ascii c / 16))
                      (hex_char (nat_of_ascii c mod 16)) with
       | Some b => (b =? nat_of_ascii c)%nat
       | None => false
       end.

Lemma all_form_decodes : forall c, form_decodes c = true.
Proof. apply forall_ascii. vm_compute. reflexivity. Qed.

Lemma form_decode_encode (s : string) : form_decode (form_encode s) = s.
Proof.
  induction s as [|c r IH]; [reflexivity|].
  cbn [form_encode]. pose proof (all_form_decodes c) as H. unfold form_decodes in H.
  destruct (Ascii.eqb_spec c " ") as [->|Hsp].
  - cbn [append form_decode]. change (Ascii.eqb "+" "+") with true. cbv iota.
    now rewrite IH.
  - destruct (form_keep c).
    + apply andb_true_iff in H as [H1 H2].
      apply negb_true_iff in H1. apply negb_true_iff in H2.
      cbn [append form_decode]. now rewrite H1, H2, IH.
    + unfold percent_byte. cbn [append form_decode].
      change (Ascii.eqb "%" "+") with false. change (Ascii.eqb "%" "%") with true.
      cbv iota. destruct (hex_pair _ _) as [b|]; [|discriminate H].
      apply Nat.eqb_eq in H. subst b. now rewrite ascii_nat_embedding, IH.
Qed.

(** The characters between which a query string is cut. *)
Definition query_char (c : ascii) : bool :=
  no_sep "&" c && negb (Ascii.eqb "=" c).

Lemma form_piece_chars : forall c, all_chars query_char (form_piece c) = true.
Proof. apply forall_ascii. vm_compute. reflexivity. Qed.

Lemma form_encode_chars (s : string) : all_chars query_char (form_encode s) = true.
Proof.
  induction s as [|c r IH]; [reflexivity|].
  cbn [form_encode]. fold (form_piece c). now rewrite all_chars_app, form_piece_chars, IH.
Qed.

Lemma break_at_stop (p : ascii -> bool) (a : string) (c : ascii) (b : string) :
  all_chars (fun x => negb (p x)) a = true -> p c = true ->
  break_at p (a ++ String c b) = (a, Some b).
Proof.
  intros Ha Hc. induction a as [|x a IH].
  - cbn [append break_at]. now rewrite Hc.
  - cbn [all_chars] in Ha. apply andb_true_iff in Ha as [Hx Ha].
    apply negb_true_iff in Hx. cbn [append break_at]. now rewrite Hx, (IH Ha).
Qed.

Lemma parse_pair_piece (k v : string) :
  parse_pair (form_encode k ++ "=" ++ form_encode v) = (k, v).
Proof.
  unfold parse_pair. change ("=" ++ form_encode v) with (String "=" (form_encode v)).
  rewrite break_at_stop; [now rewrite !form_decode_encode| |reflexivity].
  eapply all_chars_impl; [|apply form_encode_chars].
  intros c Hc. unfold query_char in Hc. now apply andb_true_iff in Hc as [_ Hc].
Qed.

(** [new URLSearchParams(params.toString())] has the entries of
    [params]. *)
Lemma query_round_trip (ps : list (string * string)) :
  parse_query (serialize ps) = ps.
Proof.
  unfold parse_query, serialize.
  destruct ps as [|kv tl]; [reflexivity|].
  rewrite split_join.
  - unfold filter_truthy.
    induction (kv :: tl) as [|[k v] l IH]; [reflexivity|].
    cbn [map fst snd filter].
    assert (Ht : truthy (form_encode k ++ "=" ++ form_encode v) = true).
    { change ("=" ++ form_encode v) with (String "=" (form_encode v)).
      now destruct (form_encode k). }
    rewrite Ht. cbn [map]. now rewrite parse_pair_piece, IH.
  - discriminate.
  - apply Forall_forall. intros x Hx. apply in_map_iff in Hx as [[k v] [<- _]].
    cbn [fst snd]. rewrite !all_chars_app.
    assert (H : forall s, all_chars (no_sep "&") (form_encode s) = true).
    { intros s. eapply all_chars_impl; [|apply form_encode_chars].
      intros c Hc. unfold query_char in Hc. now apply andb_true_iff in Hc as [Hc _]. }
    now rewrite !H.
Qed.

Lemma serialize_empty (ps : list (string * string)) :
  truthy (serialize ps) = false -> ps = [].
Proof.
  intros H. apply truthy_false in H.
  pose proof (query_round_trip ps) as Hq. rewrite H in Hq. now symmetry.
Qed.

(** *** The path *)

(** A segment the parser resolves instead of keeping. *)
Definition dot_segment (seg : string) : bool :=
  is_single_dot seg || is_double_dot seg.

(** The characters the parser leaves where they are. *)
Definition ref_safe (c : ascii) : bool :=
  negb (is_c0_or_space c) && negb (is_tab_or_newline c) && negb (Ascii.eqb "#" c).

Definition path_safe (c : ascii) : bool :=
  ref_safe c && negb (Ascii.eqb "?" c) && negb (Ascii.eqb c "\")
  && path_keep c.

Lemma uri_piece_path_safe :
  forall c, all_chars path_safe (piece uri_unreserved c) = true.
Proof. apply forall_ascii. vm_compute. reflexivity. Qed.

Lemma form_piece_ref_safe : forall c, all_chars ref_safe (form_piece c) = true.
Proof. apply forall_ascii. vm_compute. reflexivity. Qed.

Lemma encode_path_safe (s : string) :
  all_chars path_safe (encodeURIComponent s) = true.
Proof.
  apply (all_chars_encode _ (fun _ => true)); [|apply all_chars_true].
  intros c _. apply uri_piece_path_safe.
Qed.

Lemma form_encode_ref_safe (s : string) : all_chars ref_safe (form_encode s) = true.
Proof.
  induction s as [|c r IH]; [reflexivity|].
  cbn [form_encode]. fold (form_piece c).
  now rewrite all_chars_app, form_piece_ref_safe, IH.
Qed.

Lemma serialize_ref_safe (params : list (string * string)) :
  all_chars ref_safe (serialize params) = true.
Proof.
  unfold serialize. apply all_chars_join; [reflexivity|].
  apply Forall_forall. intros x Hx. apply in_map_iff in Hx as [[k v] [<- _]].
  cbn [fst snd]. rewrite !all_chars_app, !form_encode_ref_safe. reflexivity.
Qed.

Lemma drop_while_id (p : ascii -> bool) (s : string) :
  all_chars (fun c => negb (p c)) s = true -> drop_while p s = s.
Proof.
  destruct s as [|c r]; [reflexivity|]. cbn [all_chars drop_while].
  intros H. apply andb_true_iff in H as [Hc _]. apply negb_true_iff in Hc.
  now rewrite Hc.
Qed.

Lemma drop_while_end_id (p : ascii -> bool) (s : string) :
  all_chars (fun c => negb (p c)) s = true -> drop_while_end p s = s.
Proof.
  induction s as [|c r IH]; [reflexivity|]. cbn [all_chars drop_while_end].
  intros H. apply andb_true_iff in H as [Hc Hr]. apply negb_true_iff in Hc.
  rewrite (IH Hr), Hc. now destruct r.
Qed.

Lemma filter_chars_id (p : ascii -> bool) (s : string) :
  all_chars p s = true -> filter_chars p s = s.
Proof.
  induction s as [|c r IH]; [reflexivity|]. cbn [all_chars filter_chars].
  intros H. apply andb_true_iff in H as [Hc Hr]. now rewrite Hc, (IH Hr).
Qed.

Lemma encode_with_id (keep : ascii -> bool) (s : string) :
  all_chars keep s = true -> encode_with keep s = s.
Proof.
  induction s as [|c r IH]; [reflexivity|]. cbn [all_chars encode_with].
  intros H. apply andb_true_iff in H as [Hc Hr]. now rewrite Hc, (IH Hr).
Qed.

Lemma walk_keep (stack : list string) (seg : string) (tl : list string) :
  dot_segment seg = false -> all_chars path_keep seg = true ->
  walk stack (seg :: tl) = walk (seg :: stack) tl.
Proof.
  unfold dot_segment. intros Hd Hk. apply orb_false_iff in Hd as [Hs Hdd].
  cbn [walk]. now rewrite Hs, Hdd, (encode_with_id _ _ Hk).
Qed.

(** A dot segment is made of the characters of an escaped or plain
    dot. *)
Lemma dot_segment_chars (seg : string) :
  dot_segment seg = true -> all_chars (in_chars ".%2e") (toLowerCase seg) = true.
Proof.
  unfold dot_segment, is_single_dot, is_double_dot. intros H.
  apply orb_true_iff in H as [H|H]; apply includes_In in H; cbn [In] in H;
    repeat (destruct H as [<-|H]; [reflexivity|]); destruct H.
Qed.

Lemma path_safe_parts (s : string) :
  all_chars path_safe s = true ->
  all_chars ref_safe s = true
  /\ all_chars (fun c => negb (Ascii.eqb "?" c)) s = true
  /\ all_chars (fun c => negb (Ascii.eqb c "\")) s = true
  /\ all_chars path_keep s = true.
Proof.
  intros H.
  assert (Hc : forall c, path_safe c = true ->
                 ref_safe c = true /\ negb (Ascii.eqb "?" c) = true
                 /\ negb (Ascii.eqb c "\") = true /\ path_keep c = true).
  { intros c Hc. unfold path_safe in Hc.
    apply andb_true_iff in Hc as [Hc H4]. apply andb_true_iff in Hc as [Hc H3].
    apply andb_true_iff in Hc as [H1 H2]. auto. }
  repeat split; (eapply all_chars_impl; [|exact H]); intros c Hx; now apply Hc.
Qed.

Lemma ref_safe_parts (s : string) :
  all_chars ref_safe s = true ->
  all_chars (fun c => negb (is_c0_or_space c)) s = true
  /\ all_chars (fun c => negb (is_tab_or_newline c)) s = true
  /\ all_chars (fun c => negb (Ascii.eqb "#" c)) s = true.
Proof.
  intros H.
  assert (Hc : forall c, ref_safe c = true ->
                 negb (is_c0_or_space c) = true /\ negb (is_tab_or_newline c) = true
                 /\ negb (Ascii.eqb "#" c) = true).
  { intros c Hc. unfold ref_safe in Hc.
    apply andb_true_iff in Hc as [Hc H3]. apply andb_true_iff in Hc as [H1 H2]. auto. }
  repeat split; (eapply all_chars_impl; [|exact H]); intros c Hx; now apply Hc.
Qed.

(** The last segment of an exported path ends in the format, which no
    dot segment does. *)
Lemma file_not_dot_segment (name format : string) :
  format = "svg" \/ format = "json" -> dot_segment (name ++ "." ++ format) = false.
Proof.
  intros Hf. destruct (dot_segment (name ++ "." ++ format)) eqn:E; [|reflexivity].
  apply dot_segment_chars in E. unfold toLowerCase in E.
  assert (Happ : forall a b, map_chars lower_char (a ++ b)
                             = map_chars lower_char a ++ map_chars lower_char b).
  { intros a b. induction a as [|x a IH]; [reflexivity|]. cbn. now rewrite IH. }
  rewrite !Happ, !all_chars_app in E.
  destruct Hf as [-> | ->]; cbn in E; rewrite !andb_false_r in E; discriminate E.
Qed.

Section Reference.

Variable show : Q -> string.

Lemma normalize_exported_path (c : Form) :
  gen_kind c = "repo" \/ gen_kind c = "quality" ->
  gen_format c = "svg" \/ gen_format c = "json" ->
  dot_segment (encodeURIComponent (trim (gen_owner c))) = false ->
  normalize_path (generatorPathname c) = generatorPathname c.
Proof.
  intros Hk Hf Hdot. unfold generatorPathname.
  rewrite (current_kind_eq c Hk), (current_format_eq c Hf).
  set (o := encodeURIComponent (trim (gen_owner c))) in *.
  set (r := encodeURIComponent (trim (gen_repo c))).
  assert (Ho : all_chars path_safe o = true) by apply encode_path_safe.
  assert (Hr : all_chars path_safe r = true) by apply encode_path_safe.
  assert (Hos : all_chars (no_sep "/") o = true) by apply encode_no_slash.
  assert (Hrs : all_chars (no_sep "/") r = true) by apply encode_no_slash.
  clearbody o r.
  assert (Hkc : all_chars path_safe (gen_kind c) = true
                /\ all_chars (no_sep "/") (gen_kind c) = true
                /\ dot_segment (gen_kind c) = false)
    by (destruct Hk as [-> | ->]; repeat split).
  assert (Hfc : all_chars path_safe (gen_format c) = true
                /\ all_chars (no_sep "/") (gen_format c) = true)
    by (destruct Hf as [-> | ->]; repeat split).
  destruct Hkc as (Hk1 & Hk2 & Hk3). destruct Hfc as (Hf1 & Hf2).
  destruct (path_safe_parts _ Ho) as (_ & _ & Ho3 & Ho4).
  destruct (path_safe_parts _ Hr) as (_ & _ & Hr3 & Hr4).
  destruct (path_safe_parts _ Hk1) as (_ & _ & Hk4 & Hk5).
  destruct (path_safe_parts _ Hf1) as (_ & _ & Hf3 & Hf4).
  unfold normalize_path.
  rewrite (map_chars_id_on (fun x => negb (Ascii.eqb x "\"))).
  2:{ intros x Hx. apply negb_true_iff in Hx. now rewrite Hx. }
  2:{ rewrite !all_chars_app, Hk4, Ho3, Hr3, Hf3. reflexivity. }
  cbv zeta.
  change ("/api/stats/" ++ gen_kind c ++ "/" ++ o ++ "/" ++ r ++ "." ++ gen_format c)
    with (String "/" ("api" ++ String "/" ("stats" ++ String "/"
            (gen_kind c ++ String "/" (o ++ String "/" (r ++ "." ++ gen_format c)))))).
  cbv iota.
  rewrite !split_app by (assumption || reflexivity).
  rewrite split_no_sep by (rewrite !all_chars_app, Hrs, Hf2; reflexivity).
  rewrite !walk_keep;
    try assumption; try reflexivity;
    try (rewrite !all_chars_app, Hr4, Hf4; reflexivity);
    try (now apply file_not_dot_segment).
Qed.

Lemma pathname_path_safe (c : Form) :
  gen_kind c = "repo" \/ gen_kind c = "quality" ->
  gen_format c = "svg" \/ gen_format c = "json" ->
  all_chars path_safe (generatorPathname c) = true.
Proof.
  intros Hk Hf. unfold generatorPathname.
  rewrite (current_kind_eq c Hk), (current_format_eq c Hf).
  rewrite !all_chars_app, !encode_path_safe.
  destruct Hk as [-> | ->], Hf as [-> | ->]; reflexivity.
Qed.

(** How the reference parser reads a path-absolute reference made of
    characters it leaves alone. *)
Lemma parse_path_absolute (path : string) (query : option string) :
  all_chars path_safe path = true ->
  all_chars ref_safe (match query with Some q => q | None => "" end) = true ->
  (exists rest, path = String "/" (String "a" rest)) ->
  Url.parse (match query with Some q => path ++ String "?" q | None => path end)
  = Some (mkURL (normalize_path path)
                (match query with Some q => parse_query q | None => [] end)).
Proof.
  intros Hp Hq [rest Hrest].
  destruct (path_safe_parts _ Hp) as (Hp1 & Hp2 & _ & _).
  set (input := match query with Some q => path ++ String "?" q | None => path end).
  assert (Hin : all_chars ref_safe input = true).
  { subst input. destruct query as [q|]; [|exact Hp1].
    rewrite all_chars_app. cbn [all_chars]. now rewrite Hp1, Hq. }
  destruct (ref_safe_parts _ Hin) as (Hi1 & Hi2 & Hi3).
  assert (Hcut : break_at (Ascii.eqb "?") input = (path, query)).
  { subst input. destruct query as [q|].
    - now apply break_at_stop.
    - now apply break_at_none. }
  unfold parse.
  rewrite (drop_while_id _ _ Hi1), (drop_while_end_id _ _ Hi1),
    (filter_chars_id _ _ Hi2), (break_at_none _ _ Hi3), Hcut.
  clearbody input. subst path. reflexivity.
Qed.

(** The reference parser reads the export of a card as the path and the
    parameters it was built from, unless the owner is a dot segment,
    which the parser resolves. *)
Lemma reference_parser_reads_export (c : Form) :
  gen_kind c = "repo" \/ gen_kind c = "quality" ->
  gen_format c = "svg" \/ gen_format c = "json" ->
  name_ok (gen_owner c) = true -> name_ok (gen_repo c) = true ->
  dot_segment (encodeURIComponent (gen_owner c)) = false ->
  Url.parse (buildGeneratorPath show c)
  = Some (mkURL (generatorPathname c) (generatorParams show c)).
Proof.
  intros Hk Hf Ho Hr Hdot.
  destruct (name_ok_parts _ Ho) as (Hot & _ & Hotr).
  destruct (name_ok_parts _ Hr) as (Hrt & _ & Hrtr).
  assert (Hnorm : normalize_path (generatorPathname c) = generatorPathname c)
    by (apply normalize_exported_path; try assumption; now rewrite Hotr).
  assert (Hhead : exists rest, generatorPathname c = String "/" (String "a" rest))
    by (eexists; reflexivity).
  pose proof (pathname_path_safe c Hk Hf) as Hp.
  unfold buildGeneratorPath. rewrite Hotr, Hrtr, Hot, Hrt. cbn [negb orb]. cbv zeta.
  destruct (truthy (serialize (generatorParams show c))) eqn:Hqs.
  - change (generatorPathname c ++ "?" ++ serialize (generatorParams show c))
      with (match Some (serialize (generatorParams show c)) with
            | Some q => generatorPathname c ++ String "?" q
            | None => generatorPathname c
            end).
    rewrite parse_path_absolute; [|exact Hp|apply serialize_ref_safe|exact Hhead].
    now rewrite Hnorm, query_round_trip.
  - change (generatorPathname c)
      with (match @None string with
            | Some q => generatorPathname c ++ String "?" q
            | None => generatorPathname c
            end) at 1.
    rewrite parse_path_absolute; [|exact Hp|reflexivity|exact Hhead].
    now rewrite Hnorm, (serialize_empty _ Hqs).
Qed.

End Reference.

End ParserFacts.
(* ===================================================================== *)
(** ** [escapeHtml]                                                      *)
(* ===================================================================== *)

Module HtmlFacts.
Import JsString Html PaletteFacts StringFacts.

Local Open Scope string_scope.

(** The entity that stands for one character. *)
Definition entity (c : ascii) : string :=
  if Ascii.eqb c "&" then "&amp;"
  else if Ascii.eqb c "<" then "&lt;"
  else if Ascii.eqb c ">" then "&gt;"
  else if Ascii.eqb c double_quote then "&quot;"
  else if Ascii.eqb c "'" then "&#039;"
  else String c "".

(** Every character replaced by its entity, in one pass. *)
Fixpoint entities (s : string) : string :=
  match s with
  | EmptyString => EmptyString
  | String c r => entity c ++ entities r
  end.

(** The characters that end a text node or an attribute value. *)
Definition is_markup (c : ascii) : bool :=
  Ascii.eqb c "<" || Ascii.eqb c ">" || Ascii.eqb c double_quote || Ascii.eqb c "'".

Lemma append_assoc (a b c : string) : (a ++ b) ++ c = a ++ (b ++ c).
Proof. induction a as [|x a IH]; [reflexivity|]. cbn [append]. now rewrite IH. Qed.

Lemma replaceAll_app (c : ascii) (t a b : string) :
  replaceAll c t (a ++ b) = replaceAll c t a ++ replaceAll c t b.
Proof.
  induction a as [|x a IH]; [reflexivity|].
  cbn [append replaceAll]. rewrite IH. destruct (Ascii.eqb x c).
  - now rewrite append_assoc.
  - reflexivity.
Qed.

Lemma escapeHtml_app (a b : string) :
  escapeHtml (a ++ b) = escapeHtml a ++ escapeHtml b.
Proof. unfold escapeHtml. now rewrite !replaceAll_app. Qed.

Lemma escape_one :
  forall c, (escapeHtml (String c "") =? entity c) = true.
Proof. apply forall_ascii. vm_compute. reflexivity. Qed.

Lemma entity_plain :
  forall c, all_chars (fun x => negb (is_markup x)) (entity c) = true.
Proof. apply forall_ascii. vm_compute. reflexivity. Qed.

Lemma escapeHtml_entities (s : string) : escapeHtml s = entities s.
Proof.
  induction s as [|c r IH]; [reflexivity|].
  change (String c r) with (String c "" ++ r).
  rewrite escapeHtml_app, IH. cbn [entities append].
  f_equal. apply String.eqb_eq, escape_one.
Qed.

(** The entities form a prefix code: what follows one of them cannot
    make it read as another. *)
Lemma entity_prefix (c d : ascii) (u v : string) :
  entity c ++ u = entity d ++ v -> c = d /\ u = v.
Proof.
  unfold entity, double_quote. intros H.
  destruct (Ascii.eqb_spec c "&") as [->|c1];
    [|destruct (Ascii.eqb_spec c "<") as [->|c2];
      [|destruct (Ascii.eqb_spec c ">") as [->|c3];
        [|destruct (Ascii.eqb_spec c (ascii_of_nat 34)) as [->|c4];
          [|destruct (Ascii.eqb_spec c "'") as [->|c5]]]]];
  (destruct (Ascii.eqb_spec d "&") as [->|d1];
    [|destruct (Ascii.eqb_spec d "<") as [->|d2];
      [|destruct (Ascii.eqb_spec d ">") as [->|d3];
        [|destruct (Ascii.eqb_spec d (ascii_of_nat 34)) as [->|d4];
          [|destruct (Ascii.eqb_spec d "'") as [->|d5]]]]]);
  cbn [append] in H; try discriminate H;
  try (injection H as H; split; [reflexivity|assumption]);
  try (injection H as H1 H2; split; congruence).
Qed.

Lemma entity_cons (c : ascii) : exists x w, entity c = String x w.
Proof.
  unfold entity.
  repeat match goal with
         | |- context [if ?b then _ else _] => destruct b
         end; eexists; eexists; reflexivity.
Qed.

(** X1.  [escapeHtml] replaces every character by its entity and nothing
    else: the five passes, run in the order of the source, amount to one
    pass over the text (the ampersand that a later pass writes is not
    escaped again), and the result holds no angle bracket, double quote
    or apostrophe. *)
Theorem escapeHtml_entity_by_entity (s : string) :
  escapeHtml s = entities s
  /\ all_chars (fun c => negb (is_markup c)) (escapeHtml s) = true.
Proof.
  split; [apply escapeHtml_entities|].
  rewrite escapeHtml_entities.
  induction s as [|c r IH]; [reflexivity|].
  cbn [entities]. now rewrite all_chars_app, entity_plain, IH.
Qed.

(** X2.  [escapeHtml] loses nothing: two texts with the same escaped
    form are the same text. *)
Theorem escapeHtml_injective (a b : string) :
  escapeHtml a = escapeHtml b -> a = b.
Proof.
  rewrite !escapeHtml_entities. revert b.
  induction a as [|c r IH]; intros [|d t] H.
  - reflexivity.
  - exfalso. cbn [entities] in H.
    destruct (entity_cons d) as (x & w & Hn). rewrite Hn in H. discriminate H.
  - exfalso. cbn [entities] in H.
    destruct (entity_cons c) as (x & w & Hn). rewrite Hn in H. discriminate H.
  - cbn [entities] in H. apply entity_prefix in H as [-> H].
    f_equal. now apply IH.
Qed.

Lemma escapeHtml_injective_witness : "<b>&amp;" = "<b>&amp;".
Proof. apply (escapeHtml_injective "<b>&amp;" "<b>&amp;"). reflexivity. Defined.

End HtmlFacts.
(* ===================================================================== *)
(** ** The export of a repository with a dot in its name                 *)
(* ===================================================================== *)

Module DottedFacts.
Import JsString JsNumber Url Palette Generator.
Import UrlFacts PaletteFacts StringFacts ExportFacts ImportFacts EncodeFacts.
Import RoundTripFacts CoercionFacts.

Local Open Scope string_scope.

(** The text up to the first dot. *)
Lemma first_dot (s : string) :
  all_chars (not_char ".") s = false ->
  exists a b, s = a ++ String "." b /\ all_chars (not_char ".") a = true.
Proof.
  induction s as [|c r IH]; [discriminate|]. cbn [all_chars].
  destruct (not_char "." c) eqn:Hc; cbn [andb].
  - intros Hr. destruct (IH Hr) as (a & b & -> & Ha).
    exists (String c a), b. split; [reflexivity|]. cbn [all_chars]. now rewrite Hc.
  - intros _. exists "", r. split; [|reflexivity].
    unfold not_char in Hc. apply negb_false_iff, Ascii.eqb_eq in Hc. now subst c.
Qed.

Lemma lower_keeps_dot :
  forall c, implb (not_char "." (lower_char c)) (not_char "." c) = true.
Proof. apply forall_ascii. vm_compute. reflexivity. Qed.

(** A text with a dot is none of the formats, whatever its case. *)
Lemma dotted_not_format (ext target : string) :
  all_chars (not_char ".") ext = false ->
  all_chars (not_char ".") (toLowerCase target) = true ->
  eqb_ci ext target = false.
Proof.
  intros Hext Htarget. unfold eqb_ci.
  destruct (String.eqb_spec (toLowerCase ext) (toLowerCase target)) as [E|]; [|reflexivity].
  rewrite <- E in Htarget. exfalso.
  assert (H : all_chars (not_char ".") ext = true); [|congruence].
  clear - Htarget. unfold toLowerCase in Htarget.
  induction ext as [|c r IH]; [reflexivity|].
  cbn [map_chars all_chars] in *. apply andb_true_iff in Htarget as [Hc Hr].
  now rewrite (implb_elim _ _ (lower_keeps_dot c) Hc), (IH Hr).
Qed.

(** [encodeURIComponent] keeps a dot. *)
Lemma encode_keeps_dot (s : string) :
  all_chars (not_char ".") s = false ->
  all_chars (not_char ".") (encodeURIComponent s) = false.
Proof.
  unfold encodeURIComponent. induction s as [|c r IH]; [discriminate|].
  cbn [all_chars encode_with]. rewrite all_chars_app.
  destruct (not_char "." c) eqn:Hc; cbn [andb].
  - intros Hr. rewrite (IH Hr). apply andb_false_r.
  - intros _. unfold not_char in Hc. apply negb_false_iff, Ascii.eqb_eq in Hc.
    subst c. reflexivity.
Qed.

(** The path template takes the repository up to its first dot and wants
    the format right after it: a path whose repository segment has a
    dot of its own does not match. *)
Lemma stats_match_dotted (k o r e : string) :
  all_chars (not_char "/") k = true -> all_chars (not_char "/") o = true ->
  all_chars (not_char "/") r = true ->
  all_chars (not_char ".") r = false ->
  stats_match (stats_path_of k o r e) = None.
Proof.
  intros Hk Ho Hr Hdot. destruct (first_dot r Hdot) as (a & b & -> & Ha).
  rewrite all_chars_app in Hr. apply andb_true_iff in Hr as [Hra _].
  unfold stats_match, stats_path_of. rewrite drop_prefix_app.
  change ("/" ++ o ++ "/" ++ (a ++ String "." b) ++ "." ++ e)
    with (String "/" (o ++ String "/" ((a ++ String "." b) ++ String "." e))).
  rewrite (span_stop _ k "/" _ Hk eq_refl).
  destruct (eqb_ci k "repo" || eqb_ci k "quality"); [|reflexivity].
  rewrite drop_prefix_one, (span_stop _ o "/" _ Ho eq_refl), drop_prefix_one.
  replace ((a ++ String "." b) ++ String "." e)
    with (a ++ String "." (b ++ String "." e))
    by (now rewrite HtmlFacts.append_assoc).
  rewrite (span_stop _ a "." _ (all_chars_andb _ _ _ Hra Ha) eq_refl), drop_prefix_one.
  assert (Hext : all_chars (not_char ".") (b ++ String "." e) = false).
  { rewrite all_chars_app. cbn [all_chars]. change (not_char "." ".") with false.
    cbn [andb]. apply andb_false_r. }
  rewrite (dotted_not_format _ "svg" Hext eq_refl),
    (dotted_not_format _ "json" Hext eq_refl).
  now rewrite andb_false_r.
Qed.

Section Dotted.

Variable show : Q -> string.
Variable newURL : string -> option URL.

(** C1 (the code departs from the claim).  The reference exported for a
    card whose repository has a dot in its name, such as [next.js], is
    not imported: whenever the host reads the exported reference as the
    path and the parameters it was built from, the path does not match
    the template of the import, which takes the repository as a run of
    characters without a dot, and no other shape reads the text.  The
    parse returns null and the import button leaves the form as it was,
    with the message of a reference that is not valid. *)
Theorem dotted_repository_not_read_back (c : Form) :
  gen_kind c = "repo" \/ gen_kind c = "quality" ->
  gen_format c = "svg" \/ gen_format c = "json" ->
  name_ok (gen_owner c) = true -> name_ok (gen_repo c) = true ->
  all_chars (not_char ".") (gen_repo c) = false ->
  newURL (buildGeneratorPath show c)
  = Some (mkURL (generatorPathname c) (generatorParams show c)) ->
  generatorPathname c
  = stats_path_of (gen_kind c) (encodeURIComponent (gen_owner c))
                  (encodeURIComponent (gen_repo c)) (gen_format c)
  /\ stats_match (generatorPathname c) = None
  /\ parseGeneratorApiImport newURL (buildGeneratorPath show c) = Returned None
  /\ parseGeneratorImport newURL (buildGeneratorPath show c) = Returned None
  /\ (forall page,
        gen_repo_url page = buildGeneratorPath show c ->
        applyRepoImport show newURL page
        = Returned (mkPage (form page) (gen_repo_url page) invalidGeneratorRepoUrl
                           (preview_requested page))).
Proof.
  intros Hk Hf Ho Hr Hdot Hurl.
  destruct (export_text show c Hk Hf Ho Hr) as [Hne Hsafe].
  pose proof (extract_safe _ Hne Hsafe) as Hex.
  destruct (name_ok_parts _ Ho) as (Hot & Hoa & Hotr).
  destruct (name_ok_parts _ Hr) as (Hrt & Hra & Hrtr).
  assert (Hpath : generatorPathname c
                  = stats_path_of (gen_kind c) (encodeURIComponent (gen_owner c))
                      (encodeURIComponent (gen_repo c)) (gen_format c)).
  { unfold generatorPathname, stats_path_of.
    now rewrite (current_kind_eq c Hk), (current_format_eq c Hf), Hotr, Hrtr. }
  assert (Hmatch : stats_match (generatorPathname c) = None).
  { rewrite Hpath. apply stats_match_dotted.
    - destruct Hk as [-> | ->]; reflexivity.
    - apply encode_no_slash.
    - apply encode_no_slash.
    - now apply encode_keeps_dot. }
  assert (Hapi : parseGeneratorApiImport newURL (buildGeneratorPath show c)
                 = Returned None).
  { rewrite (api_import_of_url newURL _ (mkURL (generatorPathname c)
                                              (generatorParams show c)))
      by (rewrite Hex; assumption).
    unfold request_shaped. cbn [searchParams].
    rewrite (no_owner_param show c Hf). cbn [opt_truthy andb].
    unfold path_reading. cbn [pathname]. now rewrite Hmatch. }
  assert (Himp : parseGeneratorImport newURL (buildGeneratorPath show c)
                 = Returned None).
  { rewrite import_of_api, Hapi, Hex, Hne.
    assert (Hrooted : exists rest, buildGeneratorPath show c = String "/" rest).
    { unfold buildGeneratorPath. rewrite Hotr, Hrtr, Hot, Hrt. cbn [negb orb]. cbv zeta.
      destruct (truthy (serialize (generatorParams show c))); eexists; reflexivity. }
    destruct Hrooted as [rest ->]. now rewrite later_reading_rooted. }
  split; [exact Hpath|]. split; [exact Hmatch|]. split; [exact Hapi|].
  split; [exact Himp|].
  intros page Hpage. unfold applyRepoImport. now rewrite Hpage, Himp.
Qed.

End Dotted.

(** The card of [vercel/next.js]. *)
Lemma dotted_repository_not_read_back_witness :
  gen_owner dotted_repo_card = "vercel" /\ gen_repo dotted_repo_card = "next.js"
  /\ buildGeneratorPath (fun _ => "") dotted_repo_card
     = "/api/stats/repo/vercel/next.js.svg?theme=custom&locale=ru&card_width=900&title=My+card&hide=stars%2Cfooter&animate=false&animation=bars&duration=2000&cache_seconds=3600&langs_count=6&bg_start=%232E120C&bg_end=%23431A12&border=%238C3E2A&panel=%2335160F&overlay=%232C130D&chip_bg=%234C2117&chip_text=%23FFD6B7&text=%23FFEDE1&muted=%23E5B79A&accent=%23FF6A3D&accent_2=%23FFB347&accent_soft=%236B2A1D&track=%236A2F22&pass=%2358D68D&warn=%23FFC14A&fail=%23FF6E6E"
  /\ stats_match "/api/stats/repo/vercel/next.js.svg" = None
  /\ parseGeneratorImport Url.parse (buildGeneratorPath (fun _ => "") dotted_repo_card)
     = Returned None.
Proof.
  destruct (dotted_repository_not_read_back (fun _ => "") Url.parse dotted_repo_card)
    as (_ & Hmatch & _ & Himp & _);
    [left; reflexivity|left; reflexivity|reflexivity|reflexivity|reflexivity
    |vm_compute; reflexivity|].
  split; [reflexivity|]. split; [reflexivity|].
  split; [vm_compute; reflexivity|]. split; [exact Hmatch|exact Himp].
Defined.

End DottedFacts.
(* ===================================================================== *)
(** ** Colours: normal form, random colours, presets                     *)
(* ===================================================================== *)

Module ColorFacts.
Import JsString Palette PaletteFacts StringFacts.

Local Open Scope string_scope.

(** *** Changing the case of a colour *)

(** What [toLowerCase] and [toUpperCase] keep of a character. *)
Definition case_only (f : ascii -> ascii) : Prop :=
  forall c, is_space (f c) = is_space c
            /\ Ascii.eqb (f c) "#" = Ascii.eqb c "#"
            /\ is_hex (f c) = is_hex c
            /\ upper_char (f c) = upper_char c.

Lemma case_only_check (f : ascii -> ascii) :
  (forall c, (Bool.eqb (is_space (f c)) (is_space c)
              && Bool.eqb (Ascii.eqb (f c) "#") (Ascii.eqb c "#")
              && Bool.eqb (is_hex (f c)) (is_hex c)
              && Ascii.eqb (upper_char (f c)) (upper_char c)) = true) ->
  case_only f.
Proof.
  intros H c. specialize (H c).
  repeat (apply andb_true_iff in H as [H ?]).
  repeat match goal with
         | Hb : Bool.eqb _ _ = true |- _ => apply Bool.eqb_prop in Hb
         | Hb : Ascii.eqb _ _ = true |- _ => apply Ascii.eqb_eq in Hb
         end.
  auto.
Qed.

Lemma lower_case_only : case_only lower_char.
Proof. apply case_only_check, forall_ascii. vm_compute. reflexivity. Qed.

Lemma upper_case_only : case_only upper_char.
Proof. apply case_only_check, forall_ascii. vm_compute. reflexivity. Qed.

Section Case.

Variable f : ascii -> ascii.
Hypothesis Hf : case_only f.

Lemma trim_start_map (s : string) :
  trim_start (map_chars f s) = map_chars f (trim_start s).
Proof.
  induction s as [|c r IH]; [reflexivity|].
  cbn [map_chars trim_start]. destruct (Hf c) as (-> & _).
  destruct (is_space c); [exact IH|reflexivity].
Qed.

Lemma trim_end_map (s : string) :
  trim_end (map_chars f s) = map_chars f (trim_end s).
Proof.
  induction s as [|c r IH]; [reflexivity|].
  cbn [map_chars trim_end]. rewrite IH. destruct (Hf c) as (-> & _).
  destruct (trim_end r); cbn [map_chars]; [|reflexivity].
  destruct (is_space c); reflexivity.
Qed.

Lemma trim_map (s : string) : trim (map_chars f s) = map_chars f (trim s).
Proof. unfold trim. now rewrite trim_start_map, trim_end_map. Qed.

Lemma upper_map (s : string) : toUpperCase (map_chars f s) = toUpperCase s.
Proof.
  unfold toUpperCase. induction s as [|c r IH]; [reflexivity|].
  cbn [map_chars]. destruct (Hf c) as (_ & _ & _ & ->). now rewrite IH.
Qed.

Lemma hex_map (s : string) : all_chars is_hex (map_chars f s) = all_chars is_hex s.
Proof.
  rewrite all_chars_map. induction s as [|c r IH]; [reflexivity|].
  cbn [all_chars]. destruct (Hf c) as (_ & _ & -> & _). now rewrite IH.
Qed.

Lemma HEX_COLOR_RE_map (s : string) :
  HEX_COLOR_RE (map_chars f s) = HEX_COLOR_RE s.
Proof.
  destruct s as [|h ds]; [reflexivity|].
  cbn [map_chars]. destruct (Hf h) as (_ & Hh & _).
  unfold HEX_COLOR_RE.
  destruct (Ascii.eqb_spec h "#") as [->|Hne].
  - apply Ascii.eqb_eq in Hh. rewrite Hh, hex_map, map_chars_length. reflexivity.
  - apply Ascii.eqb_neq in Hh.
    destruct (f h) as [[] [] [] [] [] [] [] []]; try reflexivity;
      try (exfalso; apply Hh; reflexivity);
    destruct h as [[] [] [] [] [] [] [] []]; try reflexivity;
      exfalso; apply Hne; reflexivity.
Qed.

Lemma normalizeHexColor_map (v : string) :
  normalizeHexColor (map_chars f v) = normalizeHexColor v.
Proof.
  assert (U : forall c, upper_char (f c) = upper_char c).
  { intros c. now destruct (Hf c) as (_ & _ & _ & ?). }
  unfold normalizeHexColor. rewrite trim_map, HEX_COLOR_RE_map.
  destruct (HEX_COLOR_RE (trim v)); [|reflexivity]. cbn [negb].
  pose proof upper_map as E. unfold toUpperCase in E |- *.
  destruct (trim v) as [|h [|r [|g [|b [|x t]]]]];
    cbn [map_chars]; rewrite ?U, ?E; reflexivity.
Qed.

End Case.

Lemma normalized_length (w : string) : normalized w = true -> String.length w = 7%nat.
Proof.
  unfold normalized. destruct w as [|h ds]; [discriminate|].
  destruct (Ascii.eqb_spec h "#") as [->|Hne].
  - intros H. apply andb_true_iff in H as [_ H]. apply Nat.eqb_eq in H.
    cbn [String.length]. now rewrite H.
  - destruct h as [[] [] [] [] [] [] [] []]; try discriminate. congruence.
Qed.

(** X3.  A colour that [normalizeHexColor] accepts comes out in one
    form, [#] and six upper-case hexadecimal digits; normalizing that
    form again gives it back, and the case the colour was written in
    makes no difference. *)
Theorem normalized_colour_canonical (v w : string) :
  normalizeHexColor v = Some w ->
  normalized w = true
  /\ String.length w = 7%nat
  /\ normalizeHexColor w = Some w
  /\ normalizeHexColor (toLowerCase v) = Some w
  /\ normalizeHexColor (toUpperCase v) = Some w.
Proof.
  intros H. pose proof (normalizeHexColor_normalized _ _ H) as Hn.
  repeat split.
  - exact Hn.
  - now apply normalized_length.
  - now apply normalized_fixed.
  - unfold toLowerCase. now rewrite (normalizeHexColor_map _ lower_case_only).
  - unfold toUpperCase. now rewrite (normalizeHexColor_map _ upper_case_only).
Qed.

Lemma normalized_colour_canonical_witness :
  normalized "#1A2B3C" = true
  /\ String.length "#1A2B3C" = 7%nat
  /\ normalizeHexColor "#1A2B3C" = Some "#1A2B3C"
  /\ normalizeHexColor (toLowerCase " #1a2B3c ") = Some "#1A2B3C"
  /\ normalizeHexColor (toUpperCase " #1a2B3c ") = Some "#1A2B3C".
Proof. apply (normalized_colour_canonical " #1a2B3c " "#1A2B3C"). reflexivity. Defined.

(** A colour written with three digits, and with each digit twice. *)
Definition short_colour (r g b : ascii) : string :=
  String "#" (String r (String g (String b ""))).

Definition doubled_colour (r g b : ascii) : string :=
  String "#" (String r (String r (String g (String g (String b (String b "")))))).

(** X4.  The three-digit form of a colour is read as the six-digit form
    with every digit doubled. *)
Theorem short_colour_doubled (r g b : ascii) :
  is_hex r = true -> is_hex g = true -> is_hex b = true ->
  normalizeHexColor (short_colour r g b) = Some (toUpperCase (doubled_colour r g b))
  /\ normalizeHexColor (doubled_colour r g b) = normalizeHexColor (short_colour r g b).
Proof.
  intros Hr Hg Hb.
  assert (Hs : forall c, is_hex c = true -> is_space c = false).
  { intros c Hc.
    assert (H : forall x, implb (is_hex x) (negb (is_space x)) = true)
      by (apply forall_ascii; vm_compute; reflexivity).
    apply negb_true_iff. exact (implb_elim _ _ (H c) Hc). }
  assert (H3 : trim (short_colour r g b) = short_colour r g b).
  { apply trim_no_space. unfold short_colour. cbn [all_chars]. unfold not_space.
    rewrite (Hs r Hr), (Hs g Hg), (Hs b Hb). reflexivity. }
  assert (H6 : trim (doubled_colour r g b) = doubled_colour r g b).
  { apply trim_no_space. unfold doubled_colour. cbn [all_chars]. unfold not_space.
    rewrite (Hs r Hr), (Hs g Hg), (Hs b Hb). reflexivity. }
  unfold normalizeHexColor. rewrite H3, H6.
  unfold short_colour, doubled_colour, HEX_COLOR_RE. cbn [all_chars String.length].
  change (Ascii.eqb "#" "#") with true. cbv iota.
  rewrite Hr, Hg, Hb. cbn [andb Nat.eqb orb negb].
  split; reflexivity.
Qed.

Lemma short_colour_doubled_witness :
  normalizeHexColor "#a0f" = Some "#AA00FF"
  /\ normalizeHexColor "#aa00ff" = normalizeHexColor "#a0f".
Proof. apply (short_colour_doubled "a" "0" "f"); reflexivity. Defined.

(** *** Random colours *)

(** The value of a hexadecimal digit and of a run of them. *)
Definition nibble (c : ascii) : N :=
  if is_digit c then N.of_nat (nat_of_ascii c) - 48
  else if is_hex c then N.of_nat (nat_of_ascii (lower_char c)) - 87
  else 0.

Fixpoint hex_number (s : string) : N :=
  match s with
  | EmptyString => 0
  | String c r => nibble c * 16 ^ N.of_nat (String.length r) + hex_number r
  end.

Lemma below_16 (P : N -> bool) :
  forallb (fun i => P (N.of_nat i)) (seq 0 16) = true ->
  forall k, (k < 16)%N -> P k = true.
Proof.
  intros H k Hk. rewrite forallb_forall in H.
  replace k with (N.of_nat (N.to_nat k)) by lia. apply H. apply in_seq. lia.
Qed.

Lemma hex_digit_spec (k : N) :
  (k < 16)%N -> is_hex (hex_digit k) = true /\ nibble (hex_digit k) = k.
Proof.
  intros Hk.
  assert (H : (is_hex (hex_digit k) && (nibble (hex_digit k) =? k)%N) = true).
  { revert k Hk. apply below_16. vm_compute. reflexivity. }
  apply andb_true_iff in H as [H1 H2]. apply N.eqb_eq in H2. auto.
Qed.

Lemma hex_digits_hex (fuel : nat) (n : N) (acc : string) :
  all_chars is_hex acc = true -> all_chars is_hex (hex_digits fuel n acc) = true.
Proof.
  revert n acc. induction fuel as [|f IH]; intros n acc Hacc; [exact Hacc|].
  cbn [hex_digits].
  assert (Hd : all_chars is_hex (String (hex_digit (n mod 16)) acc) = true).
  { cbn [all_chars]. rewrite Hacc.
    destruct (hex_digit_spec (n mod 16)) as [-> _]; [|reflexivity].
    apply N.mod_lt. discriminate. }
  destruct (n / 16 =? 0)%N; [exact Hd|]. now apply IH.
Qed.

Lemma hex_digits_length (fuel : nat) (n : N) (acc : string) (k : nat) :
  (n < 16 ^ N.of_nat k)%N -> (1 <= k)%nat ->
  (String.length (hex_digits fuel n acc) <= k + String.length acc)%nat.
Proof.
  revert n acc k. induction fuel as [|f IH]; intros n acc k Hn Hk; [cbn; lia|].
  cbn [hex_digits]. destruct (N.eqb_spec (n / 16) 0) as [Hz|Hz].
  - cbn [String.length]. lia.
  - assert (Hk2 : (2 <= k)%nat).
    { destruct k as [|[|k]]; [lia| |lia]. exfalso. apply Hz.
      apply N.div_small. exact Hn. }
    specialize (IH (n / 16)%N (String (hex_digit (n mod 16)) acc) (k - 1)%nat).
    cbn [String.length] in IH. 
    assert (Hlt : (n / 16 < 16 ^ N.of_nat (k - 1))%N).
    { apply N.Div0.div_lt_upper_bound.
      replace (16 * 16 ^ N.of_nat (k - 1))%N with (16 ^ N.of_nat k)%N; [exact Hn|].
      replace (N.of_nat k) with (N.succ (N.of_nat (k - 1))) by lia.
      now rewrite N.pow_succ_r'. }
    specialize (IH Hlt). lia.
Qed.

Lemma hex_digits_value (fuel : nat) (n : N) (acc : string) :
  (n < 16 ^ N.of_nat fuel)%N ->
  hex_number (hex_digits fuel n acc)
  = (n * 16 ^ N.of_nat (String.length acc) + hex_number acc)%N.
Proof.
  revert n acc. induction fuel as [|f IH]; intros n acc Hn.
  - cbn [hex_digits]. change (16 ^ N.of_nat 0)%N with 1%N in Hn.
    assert (n = 0%N) by lia. subst n. reflexivity.
  - cbn [hex_digits].
    assert (Hm : (n mod 16 < 16)%N) by (apply N.mod_lt; discriminate).
    destruct (hex_digit_spec _ Hm) as [_ Hv].
    pose proof (N.div_mod n 16) as Hdm.
    destruct (N.eqb_spec (n / 16) 0) as [Hz|Hz].
    + cbn [hex_number]. rewrite Hv. rewrite Hz in Hdm. 
      replace (n mod 16)%N with n by lia. reflexivity.
    + rewrite IH.
      * cbn [hex_number String.length]. rewrite Hv.
        replace (N.of_nat (S (String.length acc)))
          with (N.succ (N.of_nat (String.length acc))) by lia.
        rewrite N.pow_succ_r'.
        set (p := (16 ^ N.of_nat (String.length acc))%N).
        assert (Hn16 : n = (16 * (n / 16) + n mod 16)%N) by (apply Hdm; discriminate).
        rewrite Hn16 at 3. lia.
      * apply N.Div0.div_lt_upper_bound.
        replace (N.of_nat (S f)) with (N.succ (N.of_nat f)) in Hn by lia.
        now rewrite N.pow_succ_r' in Hn.
Qed.

Lemma toString16_fuel (value : N) :
  (value < 16 ^ N.of_nat (S (N.to_nat (N.log2 value))))%N.
Proof.
  replace (N.of_nat (S (N.to_nat (N.log2 value)))) with (N.succ (N.log2 value)) by lia.
  apply N.lt_le_trans with (2 ^ N.succ (N.log2 value))%N.
  - destruct value as [|p]; [reflexivity|]. apply N.log2_spec. reflexivity.
  - apply N.pow_le_mono_l. lia.
Qed.

Lemma length_app (a b : string) :
  String.length (a ++ b) = (String.length a + String.length b)%nat.
Proof. induction a as [|c a IH]; [reflexivity|]. cbn. now rewrite IH. Qed.

Lemma repeat_char_length (c : ascii) (n : nat) : String.length (repeat_char c n) = n.
Proof. induction n as [|n IH]; [reflexivity|]. cbn. now rewrite IH. Qed.

Lemma hex_number_zeros (n : nat) (s : string) :
  hex_number (repeat_char "0" n ++ s) = hex_number s.
Proof.
  induction n as [|n IH]; [reflexivity|].
  cbn [repeat_char append hex_number]. rewrite IH.
  change (nibble "0") with 0%N. lia.
Qed.

Lemma upper_nibble :
  forall c, implb (is_hex c) (nibble (upper_char c) =? nibble c)%N = true.
Proof. apply forall_ascii. vm_compute. reflexivity. Qed.

Lemma hex_number_upper (s : string) :
  all_chars is_hex s = true -> hex_number (toUpperCase s) = hex_number s.
Proof.
  unfold toUpperCase. induction s as [|c r IH]; [reflexivity|].
  cbn [all_chars map_chars hex_number]. intros H.
  apply andb_true_iff in H as [Hc Hr]. rewrite (IH Hr), map_chars_length.
  pose proof (implb_elim _ _ (upper_nibble c) Hc) as E. apply N.eqb_eq in E.
  now rewrite E.
Qed.

(** The six digits of a random colour. *)
Definition random_digits (value : N) : string := padStart0 6 (toString16 value).

Lemma random_digits_spec (value : N) :
  (value < 16 ^ 6)%N ->
  all_chars is_hex (random_digits value) = true
  /\ String.length (random_digits value) = 6%nat
  /\ hex_number (random_digits value) = value.
Proof.
  intros Hv. unfold random_digits, padStart0, toString16.
  set (fuel := S (N.to_nat (N.log2 value))).
  pose proof (hex_digits_hex fuel value "" eq_refl) as Hh.
  pose proof (hex_digits_length fuel value "" 6 Hv ltac:(lia)) as Hl.
  pose proof (hex_digits_value fuel value "" (toString16_fuel value)) as Hn.
  cbn [String.length hex_number] in Hl, Hn.
  set (d := hex_digits fuel value "") in *.
  split; [|split].
  - rewrite all_chars_app, Hh, andb_true_r.
    generalize (6 - String.length d)%nat. intros n.
    induction n as [|n IH]; [reflexivity|]. cbn [repeat_char all_chars]. now rewrite IH.
  - rewrite length_app, repeat_char_length. lia.
  - rewrite hex_number_zeros, Hn. change (16 ^ N.of_nat 0)%N with 1%N. lia.
Qed.

Lemma randomHexColor_number (value : N) :
  (value < 16 ^ 6)%N ->
  normalized (randomHexColor value) = true
  /\ (forall digits, randomHexColor value = String "#" digits ->
                     hex_number digits = value).
Proof.
  intros Hv. destruct (random_digits_spec value Hv) as (Hh & Hl & Hn).
  unfold randomHexColor. fold (random_digits value). split.
  - unfold normalized. change (Ascii.eqb "#" "#") with true.
    unfold toUpperCase. rewrite map_chars_length, Hl, all_chars_map.
    rewrite andb_true_r. eapply all_chars_impl; [|exact Hh].
    intros c Hc. exact (implb_elim _ _ (upper_hex_spec c) Hc).
  - intros digits [= <-]. now rewrite hex_number_upper.
Qed.

(** X5.  A random colour is a valid colour in normal form, it is never
    white, and different draws give different colours. *)
Theorem random_colour_valid (value : N) :
  (value < 16777215)%N ->
  normalizeHexColor (randomHexColor value) = Some (randomHexColor value)
  /\ randomHexColor value <> "#FFFFFF"
  /\ (forall other, (other < 16777215)%N ->
                    randomHexColor other = randomHexColor value -> other = value).
Proof.
  intros Hv.
  assert (Hv6 : (value < 16 ^ 6)%N) by (change (16 ^ 6)%N with 16777216%N; lia).
  destruct (randomHexColor_number value Hv6) as [Hn Hd].
  split; [now apply normalized_fixed|]. split.
  - intros E. specialize (Hd _ E). vm_compute in Hd. subst value. discriminate Hv.
  - intros other Ho E.
    assert (Ho6 : (other < 16 ^ 6)%N) by (change (16 ^ 6)%N with 16777216%N; lia).
    destruct (randomHexColor_number other Ho6) as [_ Hd'].
    unfold randomHexColor in E, Hd, Hd'.
    rewrite <- (Hd _ eq_refl), <- (Hd' _ eq_refl). now injection E as ->.
Qed.

Lemma random_colour_valid_witness :
  normalizeHexColor (randomHexColor 703710) = Some (randomHexColor 703710)
  /\ randomHexColor 703710 <> "#FFFFFF"
  /\ (forall other, (other < 16777215)%N ->
                    randomHexColor other = randomHexColor 703710 -> other = 703710%N).
Proof. apply (random_colour_valid 703710). reflexivity. Defined.

(** *** Palettes that fill every input *)

(** A palette with a colour in normal form for each of the sixteen keys,
    in the order of the keys. *)
Definition full_palette (p : palette) : bool :=
  (if list_eq_dec string_dec (map fst p) GENERATOR_THEME_KEYS then true else false)
  && forallb (fun kv => normalized (snd kv)) p.

(** Every colour input is on the page. *)
Definition all_present (ins : color_inputs) : bool :=
  forallb (fun k => present k ins) GENERATOR_THEME_KEYS.

Definition entry_of (p : palette) (k : string) : palette :=
  match lookup k p with
  | Some v => [(k, v)]
  | None => []
  end.

Lemma flat_map_ext_keys {A B : Type} (f g : A -> list B) (l : list A) :
  (forall a, In a l -> f a = g a) -> flat_map f l = flat_map g l.
Proof.
  induction l as [|a l IH]; intros H; [reflexivity|].
  cbn [flat_map]. rewrite (H a (or_introl eq_refl)), IH; [reflexivity|].
  intros b Hb. apply H. now right.
Qed.

Lemma entries_of_keys (p : palette) :
  NoDup (map fst p) -> flat_map (entry_of p) (map fst p) = p.
Proof.
  induction p as [|[k v] tl IH]; intros Hnd; [reflexivity|].
  cbn [map fst] in Hnd. apply NoDup_cons_iff in Hnd as [Hk Hnd].
  cbn [map fst flat_map]. unfold entry_of at 1. cbn [lookup].
  rewrite String.eqb_refl. cbn [app]. f_equal.
  transitivity (flat_map (entry_of tl) (map fst tl)); [|exact (IH Hnd)].
  apply flat_map_ext_keys.
  intros a Ha. unfold entry_of. cbn [lookup].
  destruct (String.eqb_spec k a) as [->|Hne]; [contradiction|reflexivity].
Qed.

Lemma lookup_in (p : palette) (k v : string) :
  lookup k p = Some v -> In (k, v) p.
Proof.
  induction p as [|[k' v'] tl IH]; [discriminate|].
  cbn [lookup]. destruct (String.eqb_spec k' k) as [->|Hne].
  - intros [= ->]. now left.
  - intros H. right. now apply IH.
Qed.

(** Applying a full palette to a page with all its inputs leaves the
    inputs holding that palette. *)
Lemma apply_full_palette (p : palette) (ins : color_inputs) :
  full_palette p = true -> all_present ins = true ->
  generatorPaletteFromInputs (applyGeneratorPalette p ins) = p.
Proof.
  unfold full_palette, all_present. intros Hp Hins.
  apply andb_true_iff in Hp as [Hk Hn].
  destruct (list_eq_dec string_dec (map fst p) GENERATOR_THEME_KEYS) as [Hkeys|];
    [clear Hk|discriminate].
  rewrite forallb_forall in Hn, Hins.
  assert (Hnd : NoDup (map fst p)) by (rewrite Hkeys; apply theme_keys_nodup).
  transitivity (flat_map (entry_of p) (map fst p)); [|exact (entries_of_keys p Hnd)].
  rewrite Hkeys. unfold generatorPaletteFromInputs. apply flat_map_ext_keys.
  intros k Hk. unfold entry_of.
  destruct (lookup k p) as [v|] eqn:Hl.
  - pose proof (Hn _ (lookup_in _ _ _ Hl)) as Hv. cbn [snd] in Hv.
    rewrite (input_after_apply p ins k v Hk (Hins k Hk) Hl Hv).
    now rewrite (normalized_fixed v Hv).
  - exfalso. rewrite <- Hkeys in Hk. apply in_map_iff in Hk as [[k' v] [Hf Hin]].
    cbn [fst] in Hf. subst k'.
    clear - Hl Hin. induction p as [|[a b] tl IH]; [contradiction|].
    cbn [lookup] in Hl. destruct (String.eqb_spec a k) as [->|Hne]; [discriminate|].
    destruct Hin as [[= -> _]|Hin]; [now apply Hne|]. now apply IH.
Qed.

Lemma random_palette_full (draw : nat -> N) :
  (forall i, (i < 16)%nat -> (draw i < 16777215)%N) ->
  full_palette (randomGeneratorPalette draw) = true.
Proof.
  intros Hd. unfold full_palette. apply andb_true_iff. split; [reflexivity|].
  apply forallb_forall. intros [k v] Hin. cbn [snd].
  unfold randomGeneratorPalette in Hin. apply in_map_iff in Hin as [[i key] [E Hin]].
  injection E as -> <-. apply in_combine_l in Hin. apply in_seq in Hin.
  assert (Hi : (i < 16)%nat) by (cbn in Hin; lia).
  apply randomHexColor_number. specialize (Hd i Hi).
  change (16 ^ 6)%N with 16777216%N. lia.
Qed.

(** X6.  [randomizeGeneratorPalette] draws sixteen colours, one for each
    key and each in normal form, and leaves every colour input of the
    page holding the colour drawn for it. *)
Theorem randomized_palette_read_back (draw : nat -> N) (s : session) :
  all_present (inputs s) = true ->
  (forall i, (i < 16)%nat -> (draw i < 16777215)%N) ->
  map fst (randomGeneratorPalette draw) = GENERATOR_THEME_KEYS
  /\ forallb (fun kv => normalized (snd kv)) (randomGeneratorPalette draw) = true
  /\ generatorPaletteFromInputs (inputs (randomizeGeneratorPalette draw s))
     = randomGeneratorPalette draw.
Proof.
  intros Hins Hd. pose proof (random_palette_full draw Hd) as Hf.
  split; [reflexivity|]. split.
  - unfold full_palette in Hf. now apply andb_true_iff in Hf as [_ Hf].
  - unfold randomizeGeneratorPalette. cbn [inputs]. now apply apply_full_palette.
Qed.

Lemma randomized_palette_read_back_witness :
  let draw := fun i => (N.of_nat i * 65793 + 4660)%N in
  map fst (randomGeneratorPalette draw) = GENERATOR_THEME_KEYS
  /\ forallb (fun kv => normalized (snd kv)) (randomGeneratorPalette draw) = true
  /\ generatorPaletteFromInputs (inputs (randomizeGeneratorPalette draw fresh_session))
     = randomGeneratorPalette draw.
Proof.
  intros draw. apply (randomized_palette_read_back draw fresh_session).
  - reflexivity.
  - intros i Hi. unfold draw. lia.
Defined.

Lemma presets_full : forallb (fun kp => full_palette (snd kp)) GENERATOR_THEME_PRESETS = true.
Proof. vm_compute. reflexivity. Qed.

Lemma preset_in (name : string) (table : list (string * palette)) (p : palette) :
  preset name table = Some p -> In (name, p) table.
Proof.
  induction table as [|[k q] tl IH]; [discriminate|].
  cbn [preset]. destruct (String.eqb_spec k name) as [->|Hne].
  - intros [= ->]. now left.
  - intros H. right. now apply IH.
Qed.

(** X7.  When the preset select names one of the presets, in any case
    and with blanks around the name, [applyGeneratorPresetPalette]
    leaves every colour input of the page holding that preset's colour
    for its key. *)
Theorem preset_palette_applied (s : session) (p : palette) :
  all_present (inputs s) = true ->
  preset (toLowerCase (trim (theme_preset s))) GENERATOR_THEME_PRESETS = Some p ->
  selectedGeneratorPresetId s = toLowerCase (trim (theme_preset s))
  /\ generatorPaletteFromInputs (inputs (applyGeneratorPresetPalette s)) = p.
Proof.
  intros Hins Hp.
  assert (Hid : selectedGeneratorPresetId s = toLowerCase (trim (theme_preset s))).
  { unfold selectedGeneratorPresetId, in_presets. now rewrite Hp. }
  split; [exact Hid|].
  unfold applyGeneratorPresetPalette. rewrite Hid, Hp. cbn [inputs].
  apply apply_full_palette; [|exact Hins].
  pose proof presets_full as Hall. rewrite forallb_forall in Hall.
  exact (Hall _ (preset_in _ _ _ Hp)).
Qed.

Lemma preset_palette_applied_witness :
  selectedGeneratorPresetId (mkSession initial_inputs None " Neon ") = "neon"
  /\ generatorPaletteFromInputs
       (inputs (applyGeneratorPresetPalette (mkSession initial_inputs None " Neon ")))
     = neon.
Proof.
  apply (preset_palette_applied (mkSession initial_inputs None " Neon ") neon);
    reflexivity.
Defined.

(** A name the table only inherits is kept as the preset id, and
    applies nothing: the colour inputs stay as they are. *)
Lemma inherited_preset_applies_nothing (ins : color_inputs) (saved : option palette) :
  selectedGeneratorPresetId (mkSession ins saved "constructor") = "constructor"
  /\ applyGeneratorPresetPalette (mkSession ins saved "constructor")
     = mkSession ins saved "constructor".
Proof. split; reflexivity. Qed.

End ColorFacts.
(* ===================================================================== *)
(** ** Numbers the import writes                                         *)
(* ===================================================================== *)

Module BoundsFacts.
Import JsString JsNumber Generator ExportFacts ApplyFacts.

Local Open Scope string_scope.

Lemma Qle_bool_false (a b : Q) : Qle_bool a b = false -> (b <= a)%Q.
Proof.
  intros H. destruct (Qlt_le_dec a b) as [Hlt|Hge]; [|exact Hge].
  apply Qlt_le_weak, Qle_bool_iff in Hlt. congruence.
Qed.

(** X8.  [clampNumber] always returns a finite number between its
    bounds: the number the text reads as when that lies between them,
    the nearer bound when it lies outside, and the fallback when the
    text is not a finite number (no number at all, an infinity, or a
    decimal beyond the range of the doubles). *)
Theorem clamp_number_within_bounds (value : string) (lo hi fallback : Q) :
  (lo <= hi)%Q -> (lo <= fallback <= hi)%Q ->
  exists q,
    clampNumber value (Fin lo) (Fin hi) (Fin fallback) = Fin q
    /\ (lo <= q <= hi)%Q
    /\ (isFinite (of_string value) = false -> q = fallback)
    /\ (forall x, of_string value = Fin x ->
          ((x <= lo)%Q -> (q == lo)%Q)
          /\ ((hi <= x)%Q -> (q == hi)%Q)
          /\ ((lo <= x <= hi)%Q -> (q == x)%Q)).
Proof.
  intros Hlh Hfb. unfold clampNumber.
  destruct (of_string value) as [| | |x] eqn:Hv; cbn [isFinite negb];
    try (exists fallback; repeat split; try reflexivity; try apply Hfb;
         intros; discriminate).
  assert (Hord : forall a b : Q, (a <= b)%Q -> (b <= a)%Q -> (a == b)%Q)
    by (intros; now apply Qle_antisym).
  assert (Htr : forall a b c : Q, (a <= b)%Q -> (b <= c)%Q -> (a <= c)%Q)
    by (intros a b c; apply Qle_trans).
  cbn [math_min]. destruct (Qle_bool hi x) eqn:Hhi; cbn [math_max].
  - apply Qle_bool_iff in Hhi.
    destruct (Qle_bool hi lo) eqn:Hl.
    + apply Qle_bool_iff in Hl.
      exists lo. split; [reflexivity|]. split; [split; [apply Qle_refl|exact Hlh]|].
      split; [discriminate|]. intros y [= <-]. split; [|split].
      * reflexivity.
      * intros _. now apply Hord.
      * intros [H1 H2]. apply Hord; [exact H1|]. now apply (Htr x hi lo).
    + exists hi. split; [reflexivity|]. split; [split; [exact Hlh|apply Qle_refl]|].
      split; [discriminate|]. intros y [= <-]. split; [|split].
      * intros H1. apply Hord; [now apply (Htr hi x lo)|exact Hlh].
      * reflexivity.
      * intros [H1 H2]. now apply Hord.
  - apply Qle_bool_false in Hhi.
    destruct (Qle_bool x lo) eqn:Hlo.
    + apply Qle_bool_iff in Hlo.
      exists lo. split; [reflexivity|]. split; [split; [apply Qle_refl|exact Hlh]|].
      split; [discriminate|]. intros y [= <-]. split; [|split].
      * reflexivity.
      * intros H1. apply Hord; [exact Hlh|]. now apply (Htr hi x lo).
      * intros [H1 H2]. now apply Hord.
    + apply Qle_bool_false in Hlo.
      exists x. split; [reflexivity|]. split; [split; assumption|].
      split; [discriminate|]. intros y [= <-]. split; [|split].
      * intros H1. now apply Hord.
      * intros H1. now apply Hord.
      * reflexivity.
Qed.

Lemma clamp_number_within_bounds_witness :
  exists q,
    clampNumber "99999" (Fin 640) (Fin 1400) (Fin 760) = Fin q
    /\ (640 <= q <= 1400)%Q
    /\ (isFinite (of_string "99999") = false -> q = 760%Q)
    /\ (forall x, of_string "99999" = Fin x ->
          ((x <= 640)%Q -> (q == 640)%Q)
          /\ ((1400 <= x)%Q -> (q == 1400)%Q)
          /\ ((640 <= x <= 1400)%Q -> (q == x)%Q)).
Proof.
  apply (clamp_number_within_bounds "99999" 640 1400 760).
  - vm_compute. discriminate.
  - split; vm_compute; discriminate.
Defined.

(** A decimal beyond the range of the doubles reads as an infinity, so
    that the clamp gives the fallback and not the upper bound; the
    largest powers of ten within the range are clamped. *)
Lemma overflowing_text_falls_back :
  of_string "1e400" = PosInf
  /\ of_string "-1e400" = NegInf
  /\ clampNumber "1e400" (Fin 640) (Fin 1400) (Fin 760) = Fin 760
  /\ clampNumber "-1e400" (Fin 640) (Fin 1400) (Fin 760) = Fin 760
  /\ clampNumber "1e308" (Fin 640) (Fin 1400) (Fin 760) = Fin 1400
  /\ clampNumber "-1e308" (Fin 640) (Fin 1400) (Fin 760) = Fin 640.
Proof. repeat split; vm_compute; reflexivity. Qed.

Section Written.

Variable show : Q -> string.

(** The text of a number between [lo] and [hi]. *)
Definition within (lo hi : Q) (text : string) : Prop :=
  exists q, text = to_string show (Fin q) /\ (lo <= q <= hi)%Q.

Lemma clamped_within (value : string) (lo hi fallback : Q) :
  (lo <= hi)%Q -> (lo <= fallback <= hi)%Q ->
  within lo hi (clamped show value lo hi fallback).
Proof.
  intros Hlh Hfb. destruct (clampNumber_in_range value lo hi fallback Hlh Hfb)
    as (q & Hq & Hr).
  exists q. split; [|exact Hr]. unfold clamped. now rewrite Hq.
Qed.

(** X9.  Whatever a reference carries as width, language count, duration
    or cache time, the import writes into each of these controls a number
    within the bounds of that control, and leaves alone the controls
    whose parameter the reference does not carry. *)
Theorem import_numbers_within_bounds (p : Parsed) (g : Form) :
  let r := applyGeneratorImportToForm show p g in
  match width p with
  | Some _ => within 640 1400 (gen_width r)
  | None => gen_width r = gen_width g
  end
  /\ match langs p with
     | Some _ => within 1 30 (gen_langs r)
     | None => gen_langs r = gen_langs g
     end
  /\ match duration p with
     | Some _ => within 350 7000 (gen_duration r)
     | None => gen_duration r = gen_duration g
     end
  /\ match cacheSeconds p with
     | Some _ => within 0 86400 (gen_cache_seconds r)
     | None => gen_cache_seconds r = gen_cache_seconds g
     end.
Proof.
  intros r. unfold r.
  rewrite written_width, written_langs, written_duration, written_cache_seconds.
  repeat split.
  - destruct (width p); [|reflexivity].
    apply clamped_within; [|split]; vm_compute; discriminate.
  - destruct (langs p); [|reflexivity].
    apply clamped_within; [|split]; vm_compute; discriminate.
  - destruct (duration p); [|reflexivity].
    apply clamped_within; [|split]; vm_compute; discriminate.
  - destruct (cacheSeconds p); [|reflexivity].
    apply clamped_within; [|split]; vm_compute; discriminate.
Qed.

End Written.

End BoundsFacts.
(* ===================================================================== *)
(** ** What the import reads and what it writes                          *)
(* ===================================================================== *)

Module ReferenceFacts.
Import JsString JsNumber Url Palette Generator.
Import UrlFacts PaletteFacts StringFacts ExportFacts HideFacts FieldFacts ImportFacts.
Import NumberFacts EncodeFacts ApplyFacts RoundTripFacts ParserFacts.

Local Open Scope string_scope.

(** *** A blank import field *)

Lemma extract_blank (value : string) :
  trim value = "" -> extractGeneratorImportUrl value = "".
Proof. unfold extractGeneratorImportUrl. now intros ->. Qed.

(** X10.  A blank import field is refused without asking the URL parser
    anything: the parse returns null whatever [new URL] would do, the
    form stays as it is and the error line gets its message. *)
Theorem blank_import_refused (show : Q -> string) (newURL : string -> option URL)
    (page : Page) :
  trim (gen_repo_url page) = "" ->
  parseGeneratorImport newURL (gen_repo_url page) = Returned None
  /\ applyRepoImport show newURL page
     = Returned (mkPage (form page) (gen_repo_url page) invalidGeneratorRepoUrl
                        (preview_requested page)).
Proof.
  intros Hb. pose proof (extract_blank _ Hb) as He.
  assert (Hp : parseGeneratorImport newURL (gen_repo_url page) = Returned None).
  { rewrite import_of_api, api_import_no_url by (left; now rewrite He).
    now rewrite He. }
  split; [exact Hp|]. unfold applyRepoImport. now rewrite Hp.
Qed.

Lemma blank_import_refused_witness :
  let page := mkPage (sample_form ["stars"]) "   " "" false in
  parseGeneratorImport Url.parse (gen_repo_url page) = Returned None
  /\ applyRepoImport (fun _ => "") Url.parse page
     = Returned (mkPage (form page) (gen_repo_url page) invalidGeneratorRepoUrl
                        (preview_requested page)).
Proof.
  intros page. apply (blank_import_refused (fun _ => "") Url.parse page). reflexivity.
Defined.

(** *** A reference that names a repository only *)

Section RepoOnly.

Variable show : Q -> string.

Lemma selected_none_read (options : list option_box) :
  selected_values (map (hide_read "") options) = [].
Proof.
  unfold selected_values.
  induction options as [|o tl IH]; [reflexivity|].
  cbn [map filter]. unfold hide_read at 1. cbn [opt_checked opt_disabled].
  change (flag_tokens "") with (@nil string). cbn [includes existsb].
  destruct (opt_disabled o); cbn [andb]; exact IH.
Qed.

(** X11.  Importing a GitHub URL or a shorthand, which give an owner and
    a repository and nothing else, writes these two and keeps kind,
    format, theme, locale, the numbers, the animation and the colours of
    the card; but it empties the title, unchecks the report box, clears
    every hide flag and selects every field that is enabled. *)
Theorem repo_only_import_effect (o r : string) (g : Form) :
  truthy o = true -> truthy r = true ->
  let f := applyGeneratorImportToForm show (owner_repo_only o r) g in
  (gen_owner f = o /\ gen_repo f = r)
  /\ (gen_kind f = gen_kind g /\ gen_format f = gen_format g
      /\ gen_theme f = gen_theme g /\ gen_locale f = gen_locale g
      /\ gen_width f = gen_width g /\ gen_langs f = gen_langs g
      /\ gen_animate f = gen_animate g /\ gen_animation f = gen_animation g
      /\ gen_duration f = gen_duration g
      /\ gen_cache_seconds f = gen_cache_seconds g
      /\ gen_colors f = gen_colors g)
  /\ (gen_title f = "" /\ gen_include_report f = false
      /\ selectedGeneratorHideFlags f = [] /\ gen_hide f = ""
      /\ forallb (fun box => opt_disabled box || opt_checked box) (field_options f)
         = true).
Proof.
  intros Ho Hr f. unfold f.
  rewrite written_owner, written_repo, written_kind, written_format, written_theme,
    written_locale, written_width, written_langs, written_animate, written_animation,
    written_duration, written_cache_seconds, written_colors, written_title,
    written_include_report, written_hide, written_field_options.
  rewrite kinds_kind, kinds_format.
  unfold selectedGeneratorHideFlags. rewrite written_hide_options.
  cbn [owner_repo_only owner repo kind format theme locale title hide width langs
       animate animation duration cacheSeconds includeReport fields colors
       opt_truthy or_empty parseBooleanValue].
  rewrite Ho, Hr.
  split; [split; reflexivity|]. split; [repeat split|].
  split; [reflexivity|]. split; [reflexivity|].
  rewrite gen_hide_read. unfold selectedGeneratorHideFlags.
  rewrite hide_options_read, selected_none_read.
  split; [reflexivity|]. split; [reflexivity|].
  rewrite field_options_after_apply.
  apply forallb_forall. intros box Hin. apply in_map_iff in Hin as [b [<- _]].
  cbn [opt_disabled opt_checked]. change (flag_tokens "") with (@nil string).
  cbn [negb]. destruct (opt_disabled b); reflexivity.
Qed.

End RepoOnly.

Lemma repo_only_import_effect_witness :
  let g := sample_form ["stars"; "forks"] in
  let f := applyGeneratorImportToForm (fun _ => "") (owner_repo_only "acme" "widgets") g in
  (gen_owner f = "acme" /\ gen_repo f = "widgets")
  /\ gen_theme f = gen_theme g
  /\ gen_title f = "" /\ gen_hide f = "" /\ gen_hide g = "stars,forks".
Proof.
  intros g f.
  destruct (repo_only_import_effect (fun _ => "") "acme" "widgets" g eq_refl eq_refl)
    as (Hname & (_ & _ & Htheme & _) & Htitle & _ & _ & Hhide & _).
  repeat split; try assumption; apply Hname.
Defined.

(** *** GitHub URLs and shorthands *)

(** A character of an owner or repository name as these two shapes take
    it: no blank, slash, question mark, hash, bracket or angle. *)
Definition name_char (c : ascii) : bool :=
  url_safe c && not_char "/" c && negb (in_chars "?#" c).

Definition repo_name (s : string) : bool := truthy s && all_chars name_char s.

(** The ways of writing the repository [o/r] that the last two shapes
    of the import take. *)
Definition repository_forms (o r : string) : list string :=
  [ "https://github.com/" ++ o ++ "/" ++ r;
    "http://github.com/" ++ o ++ "/" ++ r;
    o ++ "/" ++ r;
    "https://github.com/" ++ o ++ "/" ++ r ++ ".git";
    "http://github.com/" ++ o ++ "/" ++ r ++ ".git";
    o ++ "/" ++ r ++ ".git" ].

Lemma name_char_spec :
  forall c, implb (name_char c)
              (url_safe c && (not_char "/" c && negb (is_space c))
               && (negb (in_chars "/?#" c) && negb (is_space c))) = true.
Proof. apply forall_ascii. vm_compute. reflexivity. Qed.

Lemma span_all (p : ascii -> bool) (s : string) :
  all_chars p s = true -> span p s = (s, "").
Proof.
  induction s as [|c r IH]; [reflexivity|].
  cbn [all_chars span]. intros H. apply andb_true_iff in H as [-> Hr].
  now rewrite (IH Hr).
Qed.

Lemma eqb_length (a b : string) : (a =? b) = true -> String.length a = String.length b.
Proof. intros H. apply String.eqb_eq in H. now subst. Qed.

Lemma length_append (a b : string) :
  String.length (a ++ b) = (String.length a + String.length b)%nat.
Proof. induction a as [|c a IH]; [reflexivity|]. cbn. now rewrite IH. Qed.

(** One [.git] at the end is dropped, and no more than one. *)
Lemma strip_git_suffix (r : string) : strip_git (r ++ ".git") = r.
Proof.
  induction r as [|c r IH]; [reflexivity|].
  cbn [append strip_git]. rewrite IH.
  destruct (eqb_ci (String c (r ++ ".git")) ".git") eqn:E; [|reflexivity].
  exfalso. unfold eqb_ci in E. apply eqb_length in E.
  unfold toLowerCase in E. rewrite !map_chars_length in E.
  cbn [String.length] in E. rewrite length_append in E. cbn [String.length] in E. lia.
Qed.

Section Names.

Variables o r : string.
Hypothesis Ho : repo_name o = true.
Hypothesis Hr : repo_name r = true.

Lemma repo_name_parts (s : string) :
  repo_name s = true ->
  truthy s = true
  /\ all_chars url_safe s = true
  /\ all_chars (fun c => not_char "/" c && negb (is_space c)) s = true
  /\ all_chars (fun c => negb (in_chars "/?#" c) && negb (is_space c)) s = true.
Proof.
  unfold repo_name. intros H. apply andb_true_iff in H as [Ht Ha].
  split; [exact Ht|].
  repeat split; (eapply all_chars_impl; [|exact Ha]); intros c Hc;
    pose proof (implb_elim _ _ (name_char_spec c) Hc) as H;
    apply andb_true_iff in H as [H H3]; apply andb_true_iff in H as [H1 H2];
    assumption.
Qed.

Lemma github_match_after (x : string) :
  github_match ("https://github.com/" ++ x)
  = github_match ("http://github.com/" ++ x).
Proof. reflexivity. Qed.

Lemma github_match_names :
  github_match ("http://github.com/" ++ o ++ "/" ++ r) = Some (o, r).
Proof.
  destruct (repo_name_parts o Ho) as (Hot & _ & Ho1 & _).
  destruct (repo_name_parts r Hr) as (Hrt & _ & _ & Hr2).
  change (github_match ("http://github.com/" ++ o ++ "/" ++ r))
    with (let (owner, r3) :=
            span (fun c => not_char "/" c && negb (is_space c)) (o ++ String "/" r) in
          match drop_prefix false "/" r3 with
          | None => None
          | Some r4 =>
              let (repo, r5) :=
                span (fun c => negb (in_chars "/?#" c) && negb (is_space c)) r4 in
              let tail_ok :=
                match r5 with
                | EmptyString => true
                | String c rest =>
                    in_chars "/?#" c
                    && all_chars (fun x => negb (is_line_terminator x)) rest
                end in
              if truthy owner && truthy repo && tail_ok then Some (owner, repo)
              else None
          end).
  rewrite span_stop by (exact Ho1 || reflexivity).
  rewrite drop_prefix_one, (span_all _ _ Hr2), Hot, Hrt. reflexivity.
Qed.

Lemma short_match_names : short_match (o ++ "/" ++ r) = Some (o, r).
Proof.
  destruct (repo_name_parts o Ho) as (Hot & _ & Ho1 & _).
  destruct (repo_name_parts r Hr) as (Hrt & _ & Hr1 & _).
  unfold short_match. change (o ++ "/" ++ r) with (o ++ String "/" r).
  rewrite span_stop by (exact Ho1 || reflexivity).
  rewrite drop_prefix_one, (span_all _ _ Hr1), Hot, Hrt. reflexivity.
Qed.

Lemma later_reading_names (text : string) :
  text = "https://github.com/" ++ o ++ "/" ++ r
  \/ text = "http://github.com/" ++ o ++ "/" ++ r
  \/ text = o ++ "/" ++ r ->
  later_reading text
  = if truthy (strip_git r) then Some (owner_repo_only o (strip_git r)) else None.
Proof.
  destruct (repo_name_parts o Ho) as (Hot & _).
  unfold later_reading. intros [-> | [-> | ->]].
  - now rewrite github_match_after, github_match_names, Hot.
  - now rewrite github_match_names, Hot.
  - destruct (github_match (o ++ "/" ++ r)) as [[a b]|] eqn:Hg.
    + apply github_is_not_shorthand in Hg. rewrite short_match_names in Hg.
      discriminate Hg.
    + now rewrite short_match_names, Hot.
Qed.

Lemma names_text_safe (text : string) :
  text = "https://github.com/" ++ o ++ "/" ++ r
  \/ text = "http://github.com/" ++ o ++ "/" ++ r
  \/ text = o ++ "/" ++ r ->
  truthy text = true /\ all_chars url_safe text = true.
Proof.
  destruct (repo_name_parts o Ho) as (Hot & Hos & _).
  destruct (repo_name_parts r Hr) as (_ & Hrs & _).
  intros [-> | [-> | ->]]; (split; [|now rewrite !all_chars_app, Hos, Hrs]);
    try reflexivity.
  destruct o; [discriminate Hot|reflexivity].
Qed.

End Names.

Lemma repo_name_git (r : string) : repo_name r = true -> repo_name (r ++ ".git") = true.
Proof.
  unfold repo_name. intros H. apply andb_true_iff in H as [Ht Ha].
  rewrite all_chars_app, Ha. destruct r; [discriminate Ht|reflexivity].
Qed.

(** X12.  A GitHub URL, with [https] or [http], and the shorthand
    [owner/repo] are read as that owner and repository, with or without
    a [.git] after the repository, whenever the text is not read as a
    reference to the API. *)
Theorem repository_forms_read (newURL : string -> option URL) (o r text : string) :
  repo_name o = true -> repo_name r = true -> strip_git r = r ->
  In text (repository_forms o r) ->
  parseGeneratorApiImport newURL text = Returned None ->
  parseGeneratorImport newURL text = Returned (Some (owner_repo_only o r)).
Proof.
  intros Ho Hr Hs Hin Hapi.
  assert (Hrt : truthy r = true).
  { unfold repo_name in Hr. now apply andb_true_iff in Hr as [Hr _]. }
  assert (Hcase :
    (text = "https://github.com/" ++ o ++ "/" ++ r
     \/ text = "http://github.com/" ++ o ++ "/" ++ r
     \/ text = o ++ "/" ++ r)
    \/ (text = "https://github.com/" ++ o ++ "/" ++ (r ++ ".git")
        \/ text = "http://github.com/" ++ o ++ "/" ++ (r ++ ".git")
        \/ text = o ++ "/" ++ (r ++ ".git"))).
  { unfold repository_forms in Hin. cbn [In] in Hin.
    destruct Hin as [<-|[<-|[<-|[<-|[<-|[<-|[]]]]]]]; auto. }
  rewrite import_of_api, Hapi.
  destruct Hcase as [Hc|Hc].
  - destruct (names_text_safe o r Ho Hr text Hc) as [Ht Hsafe].
    rewrite (extract_safe _ Ht Hsafe), Ht.
    now rewrite (later_reading_names o r Ho Hr text Hc), Hs, Hrt.
  - pose proof (repo_name_git r Hr) as Hr'.
    destruct (names_text_safe o (r ++ ".git") Ho Hr' text Hc) as [Ht Hsafe].
    rewrite (extract_safe _ Ht Hsafe), Ht.
    now rewrite (later_reading_names o (r ++ ".git") Ho Hr' text Hc),
      strip_git_suffix, Hrt.
Qed.

Lemma repository_forms_read_witness :
  parseGeneratorImport Url.parse "https://github.com/vercel/next.js.git"
  = Returned (Some (owner_repo_only "vercel" "next.js"))
  /\ parseGeneratorImport Url.parse "vercel/next.js"
     = Returned (Some (owner_repo_only "vercel" "next.js")).
Proof.
  split.
  - apply (repository_forms_read Url.parse "vercel" "next.js");
      try reflexivity.
    cbn [repository_forms In]. do 3 right. left. reflexivity.
  - apply (repository_forms_read Url.parse "vercel" "next.js");
      try reflexivity.
    cbn [repository_forms In]. do 2 right. left. reflexivity.
Defined.

(** *** Markdown images *)

(** A character of the reference inside a Markdown image. *)
Definition embed_char (c : ascii) : bool := url_safe c && not_char ")" c.

Lemma embed_char_spec :
  forall c, implb (embed_char c)
              (url_safe c && not_space c && not_char "[" c && not_char "<" c
               && (negb (is_space c) && not_char ")" c)) = true.
Proof. apply forall_ascii. vm_compute. reflexivity. Qed.

Lemma import_of_extract (newURL : string -> option URL) (a b : string) :
  extractGeneratorImportUrl a = extractGeneratorImportUrl b ->
  parseGeneratorImport newURL a = parseGeneratorImport newURL b.
Proof.
  intros E. unfold parseGeneratorImport, parseGeneratorApiImport. now rewrite E.
Qed.

Lemma trim_end_last (s : string) (d : ascii) :
  is_space d = false -> trim_end (s ++ String d "") = s ++ String d "".
Proof.
  intros Hd. induction s as [|c s IH].
  - cbn [append trim_end]. now rewrite Hd.
  - cbn [append trim_end]. rewrite IH.
    destruct (s ++ String d "") eqn:E; [destruct s; discriminate E|reflexivity].
Qed.

(** A search that finds nothing in [a ++ b] before [b]. *)
Lemma search_skip {A : Type} (m : string -> option A) (p : ascii -> bool)
    (a b : string) :
  (forall y, all_chars p y = true -> y <> "" -> m (y ++ b) = None) ->
  all_chars p a = true ->
  search m (a ++ b) = search m b.
Proof.
  intros Hm. induction a as [|c a IH]; intros Ha; [reflexivity|].
  cbn [append]. 
  assert (H0 : m (String c (a ++ b)) = None).
  { apply (Hm (String c a) Ha). discriminate. }
  cbn [search]. rewrite H0.
  cbn [all_chars] in Ha. apply andb_true_iff in Ha as [_ Ha]. now apply IH.
Qed.

Section Embed.

Variables alt url : string.
Hypothesis Halt : all_chars (not_char "]") alt = true.
Hypothesis Hurl : truthy url = true.
Hypothesis Hchars : all_chars embed_char url = true.

Lemma url_parts :
  all_chars url_safe url = true
  /\ all_chars (not_char "[") url = true
  /\ all_chars (fun c => negb (is_space c) && not_char ")" c) url = true
  /\ exists u t, url = String u t /\ is_space u = false /\ Ascii.eqb u "<" = false.
Proof.
  assert (H : forall c, embed_char c = true ->
            url_safe c = true /\ not_space c = true /\ not_char "[" c = true
            /\ not_char "<" c = true
            /\ (negb (is_space c) && not_char ")" c) = true).
  { intros c Hc. pose proof (implb_elim _ _ (embed_char_spec c) Hc) as H.
    apply andb_true_iff in H as [H H5]. apply andb_true_iff in H as [H H4].
    apply andb_true_iff in H as [H H3]. apply andb_true_iff in H as [H1 H2]. auto. }
  repeat split; try (eapply all_chars_impl; [|exact Hchars]; intros c Hc;
                     now destruct (H c Hc) as (? & ? & ? & ? & ?)).
  destruct url as [|u t]; [discriminate Hurl|]. exists u, t.
  cbn [all_chars] in Hchars. apply andb_true_iff in Hchars as [Hu _].
  destruct (H u Hu) as (_ & Hs & _ & Hl & _).
  unfold not_space in Hs. unfold not_char in Hl.
  apply negb_true_iff in Hs, Hl. auto.
Qed.

(** What follows the alternative text. *)
Definition closing : string := "](" ++ url ++ ")".

Lemma span_alt (y : string) :
  all_chars (not_char "]") y = true -> span (not_char "]") (y ++ closing) = (y, closing).
Proof. intros Hy. unfold closing. now apply span_stop. Qed.

Lemma image_start (y r1 : string) :
  all_chars (not_char "]") y = true ->
  drop_prefix false "![" (y ++ closing) = Some r1 ->
  exists y', all_chars (not_char "]") y' = true /\ r1 = y' ++ closing.
Proof.
  intros Hy. destruct y as [|a [|b y']].
  - unfold closing. cbn [append drop_prefix Ascii.eqb Bool.eqb]. discriminate.
  - unfold closing. cbn [append drop_prefix].
    destruct (Ascii.eqb "!" a); [|discriminate].
    cbn [Ascii.eqb Bool.eqb]. discriminate.
  - cbn [append drop_prefix]. destruct (Ascii.eqb "!" a); [|discriminate].
    destruct (Ascii.eqb "[" b); [|discriminate]. intros [= <-].
    exists y'. split; [|reflexivity].
    cbn [all_chars] in Hy. apply andb_true_iff in Hy as [_ Hy].
    now apply andb_true_iff in Hy as [_ Hy].
Qed.

Lemma no_angle_before (y : string) :
  all_chars (not_char "]") y = true -> mdAngle_here (y ++ closing) = None.
Proof.
  intros Hy. destruct url_parts as (_ & _ & _ & u & t & Eu & Hs & Hl).
  unfold mdAngle_here.
  destruct (drop_prefix false "![" (y ++ closing)) as [r1|] eqn:E; [|reflexivity].
  apply image_start in E as (y' & Hy' & ->); [|exact Hy].
  rewrite (span_alt y' Hy'). cbn [snd]. unfold closing. rewrite Eu.
  change (drop_prefix false "](" ("](" ++ String u t ++ ")"))
    with (Some (String u (t ++ ")"))).
  cbv beta iota. cbn [drop_while]. rewrite Hs. cbn [drop_prefix]. now rewrite Ascii.eqb_sym, Hl.
Qed.

Lemma no_angle_after : search mdAngle_here closing = None.
Proof.
  destruct url_parts as (Hsafe & _).
  apply (search_none mdAngle_here url_safe).
  - intros t Ht. unfold mdAngle_here. now rewrite (no_image_here t Ht).
  - unfold closing. rewrite !all_chars_app, Hsafe. reflexivity.
Qed.

Lemma plain_image_here : mdPlain_here ("![" ++ alt ++ closing) = Some url.
Proof.
  destruct url_parts as (_ & _ & Hg & u & t & Eu & Hs & _).
  unfold mdPlain_here.
  change (drop_prefix false "![" ("![" ++ alt ++ closing)) with (Some (alt ++ closing)).
  cbv beta iota. rewrite (span_alt alt Halt). cbn [snd]. unfold closing.
  change (drop_prefix false "](" ("](" ++ url ++ ")")) with (Some (url ++ ")")).
  cbv beta iota.
  assert (Hd : drop_while is_space (url ++ ")") = url ++ ")").
  { rewrite Eu. cbn [append drop_while]. now rewrite Hs. }
  rewrite Hd. rewrite span_stop by (exact Hg || reflexivity).
  change (md_title ")") with (@None string).
  change (closes ")") with true. now rewrite Hurl.
Qed.

(** The image is unwrapped, and imported as the reference it holds. *)
Lemma image_unwrapped (newURL : string -> option URL) :
  extractGeneratorImportUrl ("![" ++ alt ++ "](" ++ url ++ ")") = url
  /\ parseGeneratorImport newURL ("![" ++ alt ++ "](" ++ url ++ ")")
     = parseGeneratorImport newURL url.
Proof.
  destruct url_parts as (Hsafe & _).
  assert (Hx : extractGeneratorImportUrl ("![" ++ alt ++ "](" ++ url ++ ")") = url).
  { unfold extractGeneratorImportUrl.
    assert (Htrim : trim ("![" ++ alt ++ "](" ++ url ++ ")")
                    = "![" ++ alt ++ "](" ++ url ++ ")").
    { unfold trim. change (trim_start ("![" ++ alt ++ "](" ++ url ++ ")"))
        with ("![" ++ alt ++ "](" ++ url ++ ")").
      replace ("![" ++ alt ++ "](" ++ url ++ ")")
        with (("![" ++ alt ++ "](" ++ url) ++ ")").
      - now apply trim_end_last.
      - now rewrite !HtmlFacts.append_assoc. }
    rewrite Htrim. change (truthy ("![" ++ alt ++ "](" ++ url ++ ")")) with true.
    cbn [negb].
    assert (Hangle : search mdAngle_here ("![" ++ alt ++ "](" ++ url ++ ")") = None).
    { change ("![" ++ alt ++ "](" ++ url ++ ")") with (("![" ++ alt) ++ closing).
      rewrite (search_skip mdAngle_here (not_char "]") ("![" ++ alt) closing).
      - apply no_angle_after.
      - intros y Hy _. now apply no_angle_before.
      - cbn [append all_chars]. now rewrite Halt. }
    rewrite Hangle.
    assert (Hplain : search mdPlain_here ("![" ++ alt ++ "](" ++ url ++ ")")
                     = Some url).
    { change ("![" ++ alt ++ "](" ++ url ++ ")") with ("![" ++ alt ++ closing).
      pose proof plain_image_here as Hp.
      change ("![" ++ alt ++ closing)
        with (String "!" (String "[" (alt ++ closing))) in Hp |- *.
      cbn [search]. now rewrite Hp. }
    rewrite Hplain. apply trim_no_space, safe_not_space, Hsafe. }
  split; [exact Hx|]. apply import_of_extract.
  rewrite Hx. symmetry. now apply extract_safe.
Qed.

(** X13.  A Markdown image, whatever its alternative text, is unwrapped
    to the reference between its parentheses, and importing the image
    gives what importing that reference gives. *)
Theorem markdown_image_unwrapped (newURL : string -> option URL) :
  extractGeneratorImportUrl ("![" ++ alt ++ "](" ++ url ++ ")") = url
  /\ parseGeneratorImport newURL ("![" ++ alt ++ "](" ++ url ++ ")")
     = parseGeneratorImport newURL url.
Proof. exact (image_unwrapped newURL). Qed.

End Embed.

Lemma markdown_image_unwrapped_witness :
  extractGeneratorImportUrl
    "![Repo Inspector Card](https://example.org/api/stats/repo/acme/widgets.svg?theme=ocean)"
  = "https://example.org/api/stats/repo/acme/widgets.svg?theme=ocean"
  /\ parseGeneratorImport Url.parse
       "![Repo Inspector Card](https://example.org/api/stats/repo/acme/widgets.svg?theme=ocean)"
     = parseGeneratorImport Url.parse
         "https://example.org/api/stats/repo/acme/widgets.svg?theme=ocean".
Proof.
  apply (markdown_image_unwrapped "Repo Inspector Card"
           "https://example.org/api/stats/repo/acme/widgets.svg?theme=ocean");
    reflexivity.
Defined.

(** *** The export under the parser of the URL standard *)

(** X14.  With [new URL] behaving as the URL standard describes, the
    reference exported for a card whose owner and repository are plain
    names (the repository without a dot, the owner not a dot segment)
    is parsed into the path and the parameters it was built from, and the
    import reads it as the path-shaped reference of that owner,
    repository, kind and format. *)
Theorem export_read_by_reference_parser (show : Q -> string) (c : Form) :
  gen_kind c = "repo" \/ gen_kind c = "quality" ->
  gen_format c = "svg" \/ gen_format c = "json" ->
  name_ok (gen_owner c) = true -> name_ok (gen_repo c) = true ->
  all_chars (not_char ".") (gen_repo c) = true ->
  dot_segment (encodeURIComponent (gen_owner c)) = false ->
  Url.parse (buildGeneratorPath show c)
  = Some (mkURL (generatorPathname c) (generatorParams show c))
  /\ parseGeneratorImport Url.parse (buildGeneratorPath show c)
     = Returned (Some (api_record (generatorParams show c) (gen_owner c) (gen_repo c)
                                  (gen_kind c) (gen_format c))).
Proof.
  intros Hk Hf Ho Hr Hdot Hseg.
  pose proof (reference_parser_reads_export show c Hk Hf Ho Hr Hseg) as Hp.
  split; [exact Hp|].
  exact (export_parses show Url.parse c Hk Hf Ho Hr Hdot Hp).
Qed.

Lemma export_read_by_reference_parser_witness :
  Url.parse (buildGeneratorPath (fun _ => "") sample_svg_card)
  = Some (mkURL (generatorPathname sample_svg_card)
                (generatorParams (fun _ => "") sample_svg_card))
  /\ parseGeneratorImport Url.parse (buildGeneratorPath (fun _ => "") sample_svg_card)
     = Returned (Some (api_record (generatorParams (fun _ => "") sample_svg_card)
                                  (gen_owner sample_svg_card) (gen_repo sample_svg_card)
                                  (gen_kind sample_svg_card)
                                  (gen_format sample_svg_card))).
Proof.
  apply (export_read_by_reference_parser (fun _ => "") sample_svg_card);
    first [reflexivity | left; reflexivity | right; reflexivity].
Defined.

End ReferenceFacts.
(* ===================================================================== *)
(** ** The two multi-selects: buttons, flags and the hidden fields       *)
(* ===================================================================== *)

Module FlagFacts.
Import JsString JsNumber Url Palette Generator Controls.
Import PaletteFacts StringFacts HideFacts FieldFacts ApplyFacts RoundTripFacts ColorFacts.

Local Open Scope string_scope.

(** *** The buttons and the import agree *)

Lemma filter_map {A B : Type} (p : B -> bool) (g : A -> B) (l : list A) :
  filter p (map g l) = map g (filter (fun x => p (g x)) l).
Proof.
  induction l as [|a l IH]; [reflexivity|].
  cbn [map filter]. destruct (p (g a)); cbn [map]; now rewrite IH.
Qed.

Lemma filter_false {A : Type} (p : A -> bool) (l : list A) :
  (forall a, p a = false) -> filter p l = [].
Proof.
  intros H. induction l as [|a l IH]; [reflexivity|].
  cbn [filter]. now rewrite H.
Qed.

Lemma selected_cleared (options : list option_box) :
  selected_values (map (select_box false) options) = [].
Proof.
  unfold selected_values. rewrite filter_map, filter_false; [reflexivity|].
  intros o. unfold select_box. cbn [opt_checked opt_disabled].
  destruct (opt_disabled o), (opt_checked o); reflexivity.
Qed.

Lemma selected_all (options : list option_box) :
  selected_values (map (select_box true) options)
  = filter_truthy (map trim (enabled_values options)).
Proof.
  unfold selected_values, enabled_values, enabled. rewrite filter_map.
  rewrite !map_map. cbn [select_box opt_value]. f_equal.
  rewrite (filter_ext _ (fun o => negb (opt_disabled o))); [reflexivity|].
  intros o. unfold select_box. cbn [opt_checked opt_disabled].
  destruct (opt_disabled o), (opt_checked o); reflexivity.
Qed.

(** X15.  The buttons of the field list do what the import does with no
    [fields] parameter and with [fields=__none__]: Select all selects
    every enabled field, Clear leaves the hidden field at [__none__].
    The buttons of the hide list leave the hidden field empty (Clear) or
    holding every enabled flag (Select all).  A disabled box is never
    touched. *)
Theorem selection_buttons (f : Form) :
  setGeneratorFieldSelection true f = applyGeneratorFieldFlags "" f
  /\ setGeneratorFieldSelection false f = applyGeneratorFieldFlags "__none__" f
  /\ gen_fields (setGeneratorFieldSelection false f) = "__none__"
  /\ selectedGeneratorFieldFlags (setGeneratorFieldSelection true f)
     = filter_truthy (map trim (enabled_values (field_options f)))
  /\ gen_hide (setGeneratorHideSelection false f) = ""
  /\ gen_hide (setGeneratorHideSelection true f)
     = join "," (filter_truthy (map trim (enabled_values (hide_options f))))
  /\ (forall checked,
        filter opt_disabled (hide_options (setGeneratorHideSelection checked f))
        = filter opt_disabled (hide_options f)
        /\ filter opt_disabled (field_options (setGeneratorFieldSelection checked f))
           = filter opt_disabled (field_options f)).
Proof.
  assert (Hdis : forall checked options,
            filter opt_disabled (map (select_box checked) options)
            = filter opt_disabled options).
  { intros checked options. induction options as [|o tl IH]; [reflexivity|].
    cbn [map filter]. unfold select_box at 1 2. cbn [opt_disabled].
    destruct (opt_disabled o) eqn:E; [|exact IH].
    rewrite IH. f_equal. destruct o. cbn in E |- *. now rewrite E. }
  split; [|split; [|split; [|split; [|split; [|split]]]]].
  - reflexivity.
  - reflexivity.
  - unfold setGeneratorFieldSelection. rewrite gen_fields_sync.
    unfold selectedGeneratorFieldFlags. cbn [field_options set_field_options].
    now rewrite selected_cleared.
  - unfold setGeneratorFieldSelection, selectedGeneratorFieldFlags.
    change (field_options (syncGeneratorFieldsField ?x)) with (field_options x).
    cbn [field_options set_field_options]. apply selected_all.
  - unfold setGeneratorHideSelection, syncGeneratorHideField, selectedGeneratorHideFlags.
    cbn [gen_hide set_gen_hide hide_options set_hide_options].
    now rewrite selected_cleared.
  - unfold setGeneratorHideSelection, syncGeneratorHideField, selectedGeneratorHideFlags.
    cbn [gen_hide set_gen_hide hide_options set_hide_options].
    now rewrite selected_all.
  - intros checked. split.
    + unfold setGeneratorHideSelection, syncGeneratorHideField.
      cbn [hide_options set_gen_hide set_hide_options]. apply Hdis.
    + unfold setGeneratorFieldSelection.
      change (field_options (syncGeneratorFieldsField ?x)) with (field_options x).
      cbn [field_options set_field_options]. apply Hdis.
Qed.

(** *** Reading the hidden hide field back *)

Lemma map_ext_In {A B : Type} (g h : A -> B) (l : list A) :
  (forall a, In a l -> g a = h a) -> map g l = map h l.
Proof.
  induction l as [|a l IH]; intros H; [reflexivity|].
  cbn [map]. rewrite (H a (or_introl eq_refl)), IH; [reflexivity|].
  intros b Hb. apply H. now right.
Qed.

Lemma NoDup_map_eq {A B : Type} (g : A -> B) (l : list A) (a b : A) :
  NoDup (map g l) -> In a l -> In b l -> g a = g b -> a = b.
Proof.
  induction l as [|x l IH]; intros Hnd Ha Hb E; [contradiction|].
  cbn [map] in Hnd. apply NoDup_cons_iff in Hnd as [Hx Hnd].
  destruct Ha as [->|Ha], Hb as [->|Hb].
  - reflexivity.
  - exfalso. apply Hx. rewrite E. now apply in_map.
  - exfalso. apply Hx. rewrite <- E. now apply in_map.
  - now apply IH.
Qed.

Lemma flag_tokens_selected (sel : list string) :
  forallb clean sel = true -> flag_tokens (join "," sel) = sel.
Proof.
  intros H. destruct sel as [|x tl]; [reflexivity|].
  apply flag_tokens_join; [discriminate|exact H].
Qed.

(** X16.  The hidden hide field can be read back: on a form whose
    enabled hide boxes have plain, distinct values and whose disabled
    boxes are unchecked, applying the flags that the boxes themselves
    give selects the boxes already selected and changes nothing else. *)
Theorem hide_field_read_back (f : Form) :
  forallb clean (enabled_values (hide_options f)) = true ->
  NoDup (enabled_values (hide_options f)) ->
  forallb (fun o => negb (opt_disabled o && opt_checked o)) (hide_options f) = true ->
  applyGeneratorHideFlags (join "," (selectedGeneratorHideFlags f)) f
  = syncGeneratorHideField f.
Proof.
  intros Hclean Hnd Hdis.
  assert (Hsel : selected_values (hide_options f)
                 = map opt_value (filter (fun o => opt_checked o && enabled o)
                                         (hide_options f))).
  { now apply selected_values_clean. }
  assert (Hsc : forallb clean (selected_values (hide_options f)) = true).
  { now apply selected_clean. }
  assert (Hopts : map (hide_read (join "," (selected_values (hide_options f))))
                      (hide_options f)
                  = hide_options f).
  { rewrite <- (map_id (hide_options f)) at 3. apply map_ext_In.
    intros o Ho. unfold hide_read. rewrite (flag_tokens_selected _ Hsc).
    rewrite forallb_forall in Hdis. specialize (Hdis o Ho).
    destruct o as [v k c d]. cbn [opt_value opt_kinds opt_checked opt_disabled] in *.
    destruct d; cbn [andb negb] in Hdis.
    - apply negb_true_iff in Hdis. now rewrite Hdis.
    - f_equal.
      assert (Hin : In (mkOption v k c false) (filter enabled (hide_options f))).
      { apply filter_In. split; [exact Ho|reflexivity]. }
      assert (Hv : clean v = true).
      { rewrite forallb_forall in Hclean. apply Hclean.
        unfold enabled_values. apply in_map_iff.
        exists (mkOption v k c false). split; [reflexivity|exact Hin]. }
      destruct (clean_parts v Hv) as (_ & -> & -> & _).
      destruct c.
      + apply includes_In. rewrite Hsel. apply in_map_iff.
        exists (mkOption v k true false). split; [reflexivity|].
        apply filter_In. split; [exact Ho|reflexivity].
      + destruct (includes (selected_values (hide_options f)) v) eqn:E; [|reflexivity].
        exfalso. apply includes_In in E. rewrite Hsel in E.
        apply in_map_iff in E as [o' [Hv' Ho']].
        apply filter_In in Ho' as [Ho' Hc']. apply andb_true_iff in Hc' as [Hc' He'].
        assert (Hin' : In o' (filter enabled (hide_options f))).
        { apply filter_In. split; assumption. }
        pose proof (NoDup_map_eq opt_value _ _ _ Hnd Hin' Hin Hv') as Eo.
        subst o'. discriminate Hc'. }
  unfold applyGeneratorHideFlags, selectedGeneratorHideFlags.
  fold (hide_read (join "," (selected_values (hide_options f)))).
  cbv zeta.
  change (map (fun node => mkOption (opt_value node) (opt_kinds node)
                 (if opt_disabled node then false
                  else includes (flag_tokens (join "," (selected_values (hide_options f))))
                                (toLowerCase (trim (opt_value node))))
                 (opt_disabled node)) (hide_options f))
    with (map (hide_read (join "," (selected_values (hide_options f)))) (hide_options f)).
  rewrite Hopts. destruct f. reflexivity.
Qed.

Lemma hide_field_read_back_witness :
  applyGeneratorHideFlags
    (join "," (selectedGeneratorHideFlags (sample_form ["stars"; "forks"])))
    (sample_form ["stars"; "forks"])
  = syncGeneratorHideField (sample_form ["stars"; "forks"]).
Proof.
  apply (hide_field_read_back (sample_form ["stars"; "forks"])).
  - reflexivity.
  - apply distinct_NoDup. reflexivity.
  - reflexivity.
Defined.

(** *** The case of a flag *)

Lemma upper_keeps_comma :
  forall c, Bool.eqb (Ascii.eqb (upper_char c) ",") (Ascii.eqb c ",")
            && Ascii.eqb (lower_char (upper_char c)) (lower_char c) = true.
Proof. apply forall_ascii. vm_compute. reflexivity. Qed.

Lemma split_upper (s : string) :
  split "," (toUpperCase s) = map toUpperCase (split "," s).
Proof.
  unfold toUpperCase. induction s as [|c r IH]; [reflexivity|].
  cbn [map_chars split]. rewrite IH.
  pose proof (upper_keeps_comma c) as H. apply andb_true_iff in H as [H _].
  apply Bool.eqb_prop in H. rewrite H.
  destruct (Ascii.eqb c ","); [reflexivity|].
  destruct (split "," r); reflexivity.
Qed.

Lemma lower_upper (s : string) : toLowerCase (toUpperCase s) = toLowerCase s.
Proof.
  unfold toLowerCase, toUpperCase. induction s as [|c r IH]; [reflexivity|].
  cbn [map_chars]. rewrite IH.
  pose proof (upper_keeps_comma c) as H. apply andb_true_iff in H as [_ H].
  apply Ascii.eqb_eq in H. now rewrite H.
Qed.

Lemma flag_tokens_upper (rawValue : string) :
  flag_tokens (toUpperCase rawValue) = flag_tokens rawValue.
Proof.
  unfold flag_tokens. rewrite split_upper, map_map. f_equal.
  apply map_ext. intros item. unfold toUpperCase at 1.
  rewrite (trim_map upper_char upper_case_only).
  apply lower_upper.
Qed.

(** X17.  The flags of an ASCII list are matched whatever their case: a
    hide or field list of ASCII text written in upper case selects what
    the list itself selects, [NONE] included.  The list is taken to be
    ASCII because the case mappings here are those of ASCII, which the
    host's are on such text only (it sends a sharp s to SS). *)
Theorem flags_ignore_case (rawValue : string) (f : Form) :
  all_chars EncodeFacts.ascii_char rawValue = true ->
  applyGeneratorHideFlags (toUpperCase rawValue) f = applyGeneratorHideFlags rawValue f
  /\ applyGeneratorFieldFlags (toUpperCase rawValue) f
     = applyGeneratorFieldFlags rawValue f.
Proof.
  intros _. unfold applyGeneratorHideFlags, applyGeneratorFieldFlags.
  now rewrite flag_tokens_upper.
Qed.

Lemma flags_ignore_case_witness :
  applyGeneratorHideFlags "STARS, FOOTER" RoundTripFacts.other_state
  = applyGeneratorHideFlags "Stars, Footer" RoundTripFacts.other_state
  /\ applyGeneratorFieldFlags "STARS, FOOTER" RoundTripFacts.other_state
     = applyGeneratorFieldFlags "Stars, Footer" RoundTripFacts.other_state.
Proof.
  apply (flags_ignore_case "Stars, Footer" RoundTripFacts.other_state).
  reflexivity.
Defined.

End FlagFacts.
(* ===================================================================== *)
(** ** The page keeps its form settled                                   *)
(* ===================================================================== *)

Module PageFacts.
Import JsString JsNumber Url Palette Generator Controls.
Import PaletteFacts StringFacts HideFacts FieldFacts ImportFacts ApplyFacts.
Import RoundTripFacts FlagFacts.

Local Open Scope string_scope.

(** No disabled box is checked. *)
Definition none_hidden_checked (options : list option_box) : bool :=
  forallb (fun o => negb (opt_disabled o && opt_checked o)) options.

(** The state the script keeps the form in: the availability flags are
    what the two visibility functions give for the kind, format and
    theme; a box is enabled exactly when the kind and format permit it;
    no disabled hide box is checked; and the two hidden fields say what
    the boxes say. *)
Definition settled (f : Form) : Prop :=
  disabled f = resolved f
  /\ forallb (box_settled (permitted (current_kind f) (current_format f)))
             (hide_options f) = true
  /\ none_hidden_checked (hide_options f) = true
  /\ forallb (box_settled (field_permitted (current_kind f) (current_format f)))
             (field_options f) = true
  /\ gen_hide f = join "," (selectedGeneratorHideFlags f)
  /\ gen_fields f
     = fields_value (total_for (current_kind f)) (selectedGeneratorFieldFlags f).

(** The three calls every [change] handler starts with. *)
Definition resync (f : Form) : Form :=
  syncGeneratorFieldOptionsByKind
    (syncGeneratorHideOptionsByKind (syncGeneratorControlVisibility f)).

Lemma bool_eqb_negb (b : bool) : Bool.eqb (negb b) (negb b) = true.
Proof. now destruct b. Qed.

Lemma hide_synced_settled (k fm : string) (l : list option_box) :
  forallb (box_settled (permitted k fm)) (map (hide_synced k fm) l) = true
  /\ none_hidden_checked (map (hide_synced k fm) l) = true.
Proof.
  unfold none_hidden_checked. rewrite !forallb_forall. split; intros o Ho;
    apply in_map_iff in Ho as [b [<- _]].
  - unfold box_settled, hide_synced, permitted, allowed_kinds.
    cbn [opt_disabled opt_kinds]. apply bool_eqb_negb.
  - unfold hide_synced. cbn [opt_disabled opt_checked].
    destruct (permitted k fm b), (opt_checked b); reflexivity.
Qed.

Lemma field_synced_settled (k fm : string) (l : list option_box) :
  forallb (box_settled (field_permitted k fm)) (map (field_synced k fm) l) = true.
Proof.
  rewrite forallb_forall. intros o Ho. apply in_map_iff in Ho as [b [<- _]].
  unfold box_settled, field_synced, field_permitted, allowed_kinds.
  cbn [opt_disabled opt_kinds]. apply bool_eqb_negb.
Qed.

(** An update of the boxes that keeps which are disabled and what they
    are for. *)
Definition keeps_boxes (upd : option_box -> option_box) : Prop :=
  forall o, opt_kinds (upd o) = opt_kinds o /\ opt_disabled (upd o) = opt_disabled o.

Lemma box_settled_kinds (k fm : string) (o o' : option_box) :
  opt_kinds o' = opt_kinds o -> opt_disabled o' = opt_disabled o ->
  box_settled (permitted k fm) o' = box_settled (permitted k fm) o
  /\ box_settled (field_permitted k fm) o' = box_settled (field_permitted k fm) o.
Proof.
  intros Hk Hd. unfold box_settled, permitted, field_permitted, allowed_kinds.
  now rewrite Hk, Hd.
Qed.

Lemma settled_map (k fm : string) (upd : option_box -> option_box)
    (l : list option_box) :
  keeps_boxes upd ->
  forallb (box_settled (permitted k fm)) (map upd l)
  = forallb (box_settled (permitted k fm)) l
  /\ forallb (box_settled (field_permitted k fm)) (map upd l)
     = forallb (box_settled (field_permitted k fm)) l.
Proof.
  intros Hu. induction l as [|o l [IH1 IH2]]; [split; reflexivity|].
  cbn [map forallb]. rewrite IH1, IH2. destruct (Hu o) as [Hk Hd].
  destruct (box_settled_kinds k fm o (upd o) Hk Hd) as [-> ->]. split; reflexivity.
Qed.

(** *** The change handlers *)

Lemma resync_parts (f : Form) :
  gen_kind (resync f) = gen_kind f /\ gen_format (resync f) = gen_format f
  /\ gen_theme (resync f) = gen_theme f
  /\ hide_options (resync f)
     = map (hide_synced (current_kind f) (current_format f)) (hide_options f)
  /\ field_options (resync f)
     = map (field_synced (current_kind f) (current_format f)) (field_options f)
  /\ gen_hide (resync f) = join "," (selectedGeneratorHideFlags (resync f))
  /\ gen_fields (resync f)
     = fields_value (total_for (current_kind f)) (selectedGeneratorFieldFlags (resync f))
  /\ disabled (resync f) = disabled (syncGeneratorControlVisibility f).
Proof. repeat split. Qed.

(** The flag of the custom palette is what theme and format ask for. *)
Definition custom_ok (f : Form) : Prop :=
  d_custom_palette (disabled f)
  = negb ((current_theme f =? "custom") && (current_format f =? "svg")).

Lemma settled_custom_ok (f : Form) : settled f -> custom_ok f.
Proof.
  intros [Hd _]. unfold custom_ok. rewrite Hd. reflexivity.
Qed.

Lemma resync_boxes (f : Form) :
  forallb (box_settled (permitted (current_kind f) (current_format f)))
          (hide_options (resync f)) = true
  /\ none_hidden_checked (hide_options (resync f)) = true
  /\ forallb (box_settled (field_permitted (current_kind f) (current_format f)))
             (field_options (resync f)) = true.
Proof.
  destruct (resync_parts f) as (_ & _ & _ & -> & -> & _).
  split; [apply hide_synced_settled|]. split; [apply hide_synced_settled|].
  apply field_synced_settled.
Qed.

Lemma resync_settled (f : Form) : custom_ok f -> settled (resync f).
Proof.
  intros Hc. destruct (resync_boxes f) as (H1 & H2 & H3).
  unfold settled. repeat split; try assumption.
  unfold custom_ok in Hc. unfold resolved.
  change (disabled (resync f)) with (disabled (syncGeneratorControlVisibility f)).
  unfold syncGeneratorCustomThemeVisibility, syncGeneratorControlVisibility.
  cbn [disabled set_disabled d_svg_only d_theme_random d_include_report d_langs d_fields
       d_custom_palette].
  change (current_theme (set_disabled ?d (resync f))) with (current_theme f).
  change (current_format (set_disabled ?d (resync f))) with (current_format f).
  change (current_kind (resync f)) with (current_kind f).
  change (current_format (resync f)) with (current_format f).
  now rewrite Hc.
Qed.

Lemma custom_sync_settled (f : Form) :
  settled (syncGeneratorCustomThemeVisibility (resync f)).
Proof.
  destruct (resync_boxes f) as (H1 & H2 & H3).
  unfold settled. repeat split; try assumption.
Qed.

(** *** Boxes and buttons *)

(** A change of the boxes of one list that keeps which are disabled, and
    of the hidden field of that list. *)
Lemma settled_hide_update (f : Form) (upd : list option_box) :
  settled f ->
  map opt_kinds upd = map opt_kinds (hide_options f) ->
  map opt_disabled upd = map opt_disabled (hide_options f) ->
  none_hidden_checked upd = true ->
  settled (syncGeneratorHideField (set_hide_options upd f)).
Proof.
  intros (Hd & Hh & Hn & Hf & Hgh & Hgf) Hk Hdis Hnone.
  unfold settled. repeat split; try assumption.
  change (forallb (box_settled (permitted (current_kind f) (current_format f))) upd
          = true).
  rewrite <- Hh. clear - Hk Hdis.
  revert upd Hk Hdis. induction (hide_options f) as [|o l IH]; intros [|u upd] Hk Hdis;
    try discriminate; [reflexivity|].
  cbn [map] in Hk, Hdis. injection Hk as Hk1 Hk. injection Hdis as Hd1 Hdis.
  cbn [forallb]. rewrite (IH upd Hk Hdis).
  now destruct (box_settled_kinds (current_kind f) (current_format f) o u Hk1 Hd1)
    as [-> _].
Qed.

Lemma settled_field_update (f : Form) (upd : list option_box) :
  settled f ->
  map opt_kinds upd = map opt_kinds (field_options f) ->
  map opt_disabled upd = map opt_disabled (field_options f) ->
  settled (syncGeneratorFieldsField (set_field_options upd f)).
Proof.
  intros (Hd & Hh & Hn & Hf & Hgh & Hgf) Hk Hdis.
  unfold settled. repeat split; try assumption.
  change (forallb (box_settled (field_permitted (current_kind f) (current_format f)))
                  upd = true).
  rewrite <- Hf. clear - Hk Hdis.
  revert upd Hk Hdis. induction (field_options f) as [|o l IH]; intros [|u upd] Hk Hdis;
    try discriminate; [reflexivity|].
  cbn [map] in Hk, Hdis. injection Hk as Hk1 Hk. injection Hdis as Hd1 Hdis.
  cbn [forallb]. rewrite (IH upd Hk Hdis).
  now destruct (box_settled_kinds (current_kind f) (current_format f) o u Hk1 Hd1)
    as [_ ->].
Qed.

Lemma select_box_keeps (checked : bool) (l : list option_box) :
  map opt_kinds (map (select_box checked) l) = map opt_kinds l
  /\ map opt_disabled (map (select_box checked) l) = map opt_disabled l
  /\ (none_hidden_checked l = true ->
      none_hidden_checked (map (select_box checked) l) = true).
Proof.
  rewrite !map_map. repeat split.
  unfold none_hidden_checked. rewrite !forallb_forall. intros H o Ho.
  apply in_map_iff in Ho as [b [<- Hb]]. specialize (H b Hb).
  unfold select_box. cbn [opt_disabled opt_checked].
  destruct (opt_disabled b); [exact H|reflexivity].
Qed.

Lemma toggle_box_keeps (index : nat) (l : list option_box) :
  map opt_kinds (toggle_box index l) = map opt_kinds l
  /\ map opt_disabled (toggle_box index l) = map opt_disabled l
  /\ (clickable index l = true -> none_hidden_checked l = true ->
      none_hidden_checked (toggle_box index l) = true).
Proof.
  revert index. induction l as [|o l IH]; intros index.
  - destruct index; repeat split.
  - destruct index as [|k].
    + cbn [toggle_box map]. repeat split.
      unfold clickable, none_hidden_checked. cbn [nth_error forallb opt_disabled].
      intros Hc H. apply negb_true_iff in Hc. rewrite Hc.
      apply andb_true_iff in H as [_ H]. exact H.
    + destruct (IH k) as (H1 & H2 & H3). cbn [toggle_box map].
      rewrite H1, H2. repeat split.
      unfold clickable, none_hidden_checked in *. cbn [nth_error forallb].
      intros Hc H. apply andb_true_iff in H as [Ho H]. rewrite Ho. now apply H3.
Qed.

(** *** The random theme *)

Lemma theme_settled (f : Form) (value : string) :
  settled f -> settled (syncGeneratorCustomThemeVisibility (set_gen_theme value f)).
Proof.
  intros (Hd & Hh & Hn & Hf & Hgh & Hgf).
  unfold settled. repeat split; try assumption.
  unfold resolved, syncGeneratorCustomThemeVisibility, syncGeneratorControlVisibility
    in Hd |- *.
  cbn [disabled set_disabled set_gen_theme d_svg_only d_theme_random d_include_report
       d_langs d_fields d_custom_palette] in Hd |- *.
  rewrite Hd. reflexivity.
Qed.

Lemma theme_random_settled (random : Q) (f : Form) :
  settled f -> settled (on_theme_random random f).
Proof.
  intros H. unfold on_theme_random, pickRandomGeneratorTheme.
  destruct (filter _ (theme_options f)) as [|x xs].
  - destruct H as (Hd & Hh & Hn & Hf & Hgh & Hgf).
    unfold settled. repeat split; try assumption.
    unfold resolved, syncGeneratorCustomThemeVisibility, syncGeneratorControlVisibility
      in Hd |- *.
    cbn [disabled set_disabled d_svg_only d_theme_random d_include_report
         d_langs d_fields d_custom_palette] in Hd |- *.
    rewrite Hd. reflexivity.
  - cbv zeta. destruct (if (0 <=? _)%Z then _ else _); now apply theme_settled.
Qed.

(** *** The import *)

Section Settled.

Variable show : Q -> string.
Variable newURL : string -> option URL.

Lemma hide_read_keeps (rawValue : string) (l : list option_box) :
  map opt_kinds (map (hide_read rawValue) l) = map opt_kinds l
  /\ map opt_disabled (map (hide_read rawValue) l) = map opt_disabled l
  /\ none_hidden_checked (map (hide_read rawValue) l) = true.
Proof.
  rewrite !map_map. repeat split.
  unfold none_hidden_checked. rewrite forallb_forall. intros o Ho.
  apply in_map_iff in Ho as [b [<- _]]. unfold hide_read.
  cbn [opt_disabled opt_checked]. destruct (opt_disabled b); reflexivity.
Qed.

Lemma field_read_keeps (rawValue : string) (g : Form) :
  map opt_kinds (field_options (applyGeneratorFieldFlags rawValue g))
  = map opt_kinds (field_options g)
  /\ map opt_disabled (field_options (applyGeneratorFieldFlags rawValue g))
     = map opt_disabled (field_options g).
Proof. rewrite field_options_after_apply, !map_map. split; reflexivity. Qed.

Lemma forallb_same_boxes (ok : string -> string -> option_box -> bool)
    (k fm : string) (l l' : list option_box) :
  (forall o o', opt_kinds o' = opt_kinds o -> opt_disabled o' = opt_disabled o ->
                box_settled (ok k fm) o' = box_settled (ok k fm) o) ->
  map opt_kinds l' = map opt_kinds l -> map opt_disabled l' = map opt_disabled l ->
  forallb (box_settled (ok k fm)) l' = forallb (box_settled (ok k fm)) l.
Proof.
  intros Hok. revert l'. induction l as [|o l IH]; intros [|u l'] Hk Hd;
    try discriminate; [reflexivity|].
  cbn [map] in Hk, Hd. injection Hk as Hk1 Hk. injection Hd as Hd1 Hd.
  cbn [forallb]. now rewrite (IH l' Hk Hd), (Hok o u Hk1 Hd1).
Qed.

Lemma import_settled (p : Parsed) (g : Form) :
  settled (applyGeneratorImportToForm show p g).
Proof.
  set (r := applyGeneratorImportToForm show p g).
  assert (Hk : current_kind r = current_kind (kinds p g)).
  { unfold current_kind, r. now rewrite written_kind. }
  assert (Hf : current_format r = current_format (kinds p g)).
  { unfold current_format, r. now rewrite written_format. }
  assert (Hho : hide_options r
                = map (hide_read (or_empty (hide p)))
                      (map (hide_synced (current_kind (kinds p g))
                                        (current_format (kinds p g)))
                           (hide_options g))).
  { unfold r. now rewrite written_hide_options, hide_options_read,
      before_hide_options, kinds_hide_options. }
  assert (Hfo : field_options r
                = field_options (applyGeneratorFieldFlags (or_empty (fields p))
                                                          (before_fields show p g))).
  { unfold r. now rewrite written_field_options. }
  unfold settled. split; [|split; [|split; [|split; [|split]]]].
  - unfold r. rewrite written_disabled at 1. reflexivity.
  - rewrite Hk, Hf, Hho.
    destruct (hide_read_keeps (or_empty (hide p))
                (map (hide_synced (current_kind (kinds p g))
                                  (current_format (kinds p g))) (hide_options g)))
      as (H1 & H2 & _).
    rewrite (forallb_same_boxes permitted _ _ _ _
               (fun o o' a b => proj1 (box_settled_kinds _ _ o o' a b)) H1 H2).
    apply hide_synced_settled.
  - rewrite Hho. apply hide_read_keeps.
  - rewrite Hk, Hf, Hfo.
    destruct (field_read_keeps (or_empty (fields p)) (before_fields show p g))
      as (H1 & H2).
    rewrite (forallb_same_boxes field_permitted _ _ _ _
               (fun o o' a b => proj2 (box_settled_kinds _ _ o o' a b)) H1 H2).
    rewrite before_fields_options, kinds_field_options.
    apply field_synced_settled.
  - unfold r. rewrite written_hide, gen_hide_read.
    unfold selectedGeneratorHideFlags. now rewrite written_hide_options.
  - unfold r at 1. rewrite written_fields, gen_fields_sync_after.
    unfold selectedGeneratorFieldFlags. rewrite Hfo. f_equal.
    rewrite Hk. unfold current_kind.
    change (gen_kind (applyGeneratorFieldFlags ?x ?y)) with (gen_kind y).
    now rewrite before_fields_kind.
Qed.

Lemma handle_settled (e : event) (page : Page) :
  settled (form page) -> settled (form (handle show newURL e page)).
Proof.
  intros H. destruct e; cbn [handle].
  - exact H.
  - unfold applyRepoImport.
    destruct (parseGeneratorImport newURL (gen_repo_url page)) as [[parsed|]|];
      [|exact H|exact H].
    cbn [form].
    pose proof (import_settled parsed (form page)) as Hi.
    set (f1 := applyGeneratorImportToForm show parsed (form page)) in *.
    assert (H2 : settled (if negb (truthy (gen_owner f1)) && truthy (owner parsed)
                          then set_gen_owner (owner parsed) f1 else f1)).
    { destruct (negb _ && _); exact Hi. }
    set (f2 := if negb (truthy (gen_owner f1)) && truthy (owner parsed)
               then set_gen_owner (owner parsed) f1 else f1) in *.
    destruct (negb (truthy (gen_repo f2)) && truthy (repo parsed)); exact H2.
  - cbn [on_form form]. apply (resync_settled (set_gen_kind value (form page))).
    exact (settled_custom_ok _ H).
  - cbn [on_form form]. apply (custom_sync_settled (set_gen_format value (form page))).
  - cbn [on_form form]. apply (custom_sync_settled (set_gen_theme value (form page))).
  - cbn [on_form form]. now apply theme_random_settled.
  - destruct (clickable index (hide_options (form page))) eqn:Hc; [|exact H].
    cbn [on_form form]. unfold on_hide_option_change. rewrite Hc.
    destruct (toggle_box_keeps index (hide_options (form page))) as (H1 & H2 & H3).
    apply settled_hide_update; try assumption. apply H3; [exact Hc|apply H].
  - destruct (clickable index (field_options (form page))) eqn:Hc; [|exact H].
    cbn [on_form form]. unfold on_field_option_change. rewrite Hc.
    destruct (toggle_box_keeps index (field_options (form page))) as (H1 & H2 & _).
    now apply settled_field_update.
  - cbn [on_form form]. unfold setGeneratorHideSelection.
    destruct (select_box_keeps true (hide_options (form page))) as (H1 & H2 & H3).
    apply settled_hide_update; try assumption. apply H3, H.
  - cbn [on_form form]. unfold setGeneratorHideSelection.
    destruct (select_box_keeps false (hide_options (form page))) as (H1 & H2 & H3).
    apply settled_hide_update; try assumption. apply H3, H.
  - cbn [on_form form]. unfold setGeneratorFieldSelection.
    destruct (select_box_keeps true (field_options (form page))) as (H1 & H2 & _).
    now apply settled_field_update.
  - cbn [on_form form]. unfold setGeneratorFieldSelection.
    destruct (select_box_keeps false (field_options (form page))) as (H1 & H2 & _).
    now apply settled_field_update.
  - cbn [on_form form]. destruct change; exact H.
  - cbn [on_form form]. exact H.
Qed.

Lemma init_settled (f : Form) (saved : option palette) :
  settled (fst (initGeneratorPage f saved)).
Proof.
  change (fst (initGeneratorPage f saved))
    with (syncGeneratorFieldsField
            (syncGeneratorHideField (syncGeneratorCustomThemeVisibility (resync f)))).
  exact (custom_sync_settled f).
Qed.

(** X18.  [initGeneratorPage] leaves the form settled, and every listener
    it registers on the form keeps it so: after the page has started,
    whatever the user edits, changes, clicks or imports, in any order,
    the availability flags are those of the current kind, format and
    theme, a box is enabled exactly when kind and format permit it, no
    disabled hide flag is checked, and the two hidden fields agree with
    the boxes. *)
Theorem page_stays_settled (f : Form) (saved : option palette)
    (text error : string) (requested : bool) (events : list event) :
  settled (fst (initGeneratorPage f saved))
  /\ settled (form (run show newURL events
                        (mkPage (fst (initGeneratorPage f saved)) text error
                                requested))).
Proof.
  split; [apply init_settled|].
  assert (H : forall page, settled (form page) ->
                           settled (form (run show newURL events page))).
  { unfold run. induction events as [|e es IH]; intros page Hp; [exact Hp|].
    cbn [fold_left]. apply IH. now apply handle_settled. }
  apply H. cbn [form]. apply init_settled.
Qed.

End Settled.

(** *** Settled forms are the fixed points of the start-up calls *)

Lemma Form_ext (a b : Form) :
  gen_owner a = gen_owner b -> gen_repo a = gen_repo b -> gen_kind a = gen_kind b ->
  gen_format a = gen_format b -> gen_theme a = gen_theme b ->
  gen_locale a = gen_locale b -> gen_title a = gen_title b ->
  gen_hide a = gen_hide b -> gen_width a = gen_width b -> gen_langs a = gen_langs b ->
  gen_animate a = gen_animate b -> gen_animation a = gen_animation b ->
  gen_duration a = gen_duration b -> gen_cache_seconds a = gen_cache_seconds b ->
  gen_include_report a = gen_include_report b -> gen_fields a = gen_fields b ->
  hide_options a = hide_options b -> field_options a = field_options b ->
  gen_colors a = gen_colors b -> theme_options a = theme_options b ->
  disabled a = disabled b ->
  a = b.
Proof.
  destruct a, b. cbn. intros. subst. reflexivity.
Qed.

Lemma hide_synced_fixed (k fm : string) (l : list option_box) :
  forallb (box_settled (permitted k fm)) l = true ->
  none_hidden_checked l = true ->
  map (hide_synced k fm) l = l.
Proof.
  unfold none_hidden_checked. intros Hs Hn.
  rewrite <- (map_id l) at 2. apply map_ext_In. intros o Ho.
  rewrite forallb_forall in Hs, Hn. specialize (Hs o Ho). specialize (Hn o Ho).
  unfold box_settled in Hs. apply Bool.eqb_prop in Hs.
  unfold hide_synced. rewrite <- Hs. destruct o as [v kk c d].
  cbn [opt_value opt_kinds opt_checked opt_disabled] in *.
  destruct d, c; try reflexivity. discriminate Hn.
Qed.

Lemma field_synced_fixed (k fm : string) (l : list option_box) :
  forallb (box_settled (field_permitted k fm)) l = true ->
  map (field_synced k fm) l = l.
Proof.
  intros Hs. rewrite <- (map_id l) at 2. apply map_ext_In. intros o Ho.
  rewrite forallb_forall in Hs. specialize (Hs o Ho).
  unfold box_settled in Hs. apply Bool.eqb_prop in Hs.
  unfold field_synced. rewrite <- Hs. now destruct o.
Qed.

(** X19.  The settled forms are exactly the forms that the calls at the
    end of [initGeneratorPage] leave as they are; so these calls, run a
    second time, change nothing. *)
Theorem settled_iff_start_fixed (f : Form) (saved : option palette) :
  (settled f <-> fst (initGeneratorPage f saved) = f)
  /\ fst (initGeneratorPage (fst (initGeneratorPage f saved)) saved)
     = fst (initGeneratorPage f saved).
Proof.
  assert (Hfix : forall g, settled g -> fst (initGeneratorPage g saved) = g).
  { intros g (Hd & Hh & Hn & Hf & Hgh & Hgf).
    assert (Eh : hide_options (fst (initGeneratorPage g saved)) = hide_options g)
      by (exact (hide_synced_fixed _ _ _ Hh Hn)).
    assert (Ef : field_options (fst (initGeneratorPage g saved)) = field_options g)
      by (exact (field_synced_fixed _ _ _ Hf)).
    apply Form_ext; try reflexivity; try assumption.
    - change (gen_hide (fst (initGeneratorPage g saved)))
        with (join "," (selected_values (hide_options (fst (initGeneratorPage g saved))))).
      now rewrite Eh, Hgh.
    - change (gen_fields (fst (initGeneratorPage g saved)))
        with (fields_value (total_for (current_kind g))
                (selected_values (field_options (fst (initGeneratorPage g saved))))).
      now rewrite Ef, Hgf.
    - symmetry. exact Hd. }
  split; [split|].
  - apply Hfix.
  - intros E. rewrite <- E. apply init_settled.
  - apply Hfix, init_settled.
Qed.

(** *** The random theme never is the custom one *)

Lemma floor_index (random : Q) (n : nat) :
  (0 <= random)%Q -> (random < 1)%Q -> (0 < n)%nat ->
  (0 <= Qfloor (random * inject_Z (Z.of_nat n)))%Z
  /\ (Z.to_nat (Qfloor (random * inject_Z (Z.of_nat n))) < n)%nat.
Proof.
  intros H0 H1 Hn.
  assert (Hpos : (0 < inject_Z (Z.of_nat n))%Q).
  { change 0%Q with (inject_Z 0). rewrite <- Zlt_Qlt. lia. }
  assert (Hlo : (0 <= random * inject_Z (Z.of_nat n))%Q).
  { apply Qmult_le_0_compat; [exact H0|now apply Qlt_le_weak]. }
  assert (Hhi : (random * inject_Z (Z.of_nat n) < inject_Z (Z.of_nat n))%Q).
  { rewrite <- (Qmult_1_l (inject_Z (Z.of_nat n))) at 2.
    now apply Qmult_lt_compat_r. }
  assert (Hf0 : (0 <= Qfloor (random * inject_Z (Z.of_nat n)))%Z).
  { change 0%Z with (Qfloor 0). now apply Qfloor_resp_le. }
  split; [exact Hf0|].
  assert (Hfn : (Qfloor (random * inject_Z (Z.of_nat n)) < Z.of_nat n)%Z).
  { rewrite Zlt_Qlt. eapply Qle_lt_trans; [apply Qfloor_le|exact Hhi]. }
  lia.
Qed.

(** X20.  The random theme button picks one of the themes the select
    offers, never the custom theme and never an empty value, and leaves
    the custom palette disabled; when the select offers no theme but the
    custom one, the theme stays as it is. *)
Theorem random_theme_never_custom (random : Q) (f : Form) :
  (0 <= random)%Q -> (random < 1)%Q ->
  let g := on_theme_random random f in
  let candidates :=
    filter (fun item => truthy item && negb (item =? "custom")) (theme_options f) in
  (candidates = [] -> gen_theme g = gen_theme f)
  /\ (candidates <> [] ->
      In (gen_theme g) (theme_options f)
      /\ gen_theme g <> "custom" /\ gen_theme g <> ""
      /\ d_custom_palette (disabled g) = true).
Proof.
  intros H0 H1 g candidates. unfold g, on_theme_random, pickRandomGeneratorTheme.
  fold candidates. destruct candidates as [|x xs] eqn:E.
  - split; [reflexivity|]. intros N. now contradiction N.
  - split; [discriminate|]. intros _. cbv zeta.
    destruct (floor_index random (length (x :: xs)) H0 H1) as [Hlo Hhi];
      [cbn; lia|].
    apply Z.leb_le in Hlo. rewrite Hlo.
    destruct (nth_error (x :: xs) _) as [next|] eqn:En.
    2:{ apply nth_error_None in En. lia. }
    apply nth_error_In in En. rewrite <- E in En. unfold candidates in En.
    apply filter_In in En as [Hin Hp]. apply andb_true_iff in Hp as [Ht Hc].
    apply negb_true_iff in Hc.
    change (gen_theme (syncGeneratorCustomThemeVisibility (set_gen_theme next f)))
      with next.
    split; [exact Hin|]. split; [|split].
    + intros ->. discriminate Hc.
    + intros ->. discriminate Ht.
    + unfold syncGeneratorCustomThemeVisibility.
      cbn [disabled set_disabled d_custom_palette].
      unfold current_theme. cbn [gen_theme set_gen_theme]. unfold or_else.
      rewrite Ht, Hc. reflexivity.
Qed.

Lemma random_theme_never_custom_witness :
  let f := sample_form [] in
  let g := on_theme_random (7 # 10) f in
  gen_theme g = "midnight" /\ d_custom_palette (disabled g) = true.
Proof.
  intros f g.
  destruct (random_theme_never_custom (7 # 10) f) as [_ H].
  - vm_compute. discriminate.
  - reflexivity.
  - split; [reflexivity|]. apply H. discriminate.
Defined.

End PageFacts.
(* ===================================================================== *)
(** ** The preview panel                                                 *)
(* ===================================================================== *)

Module PreviewFacts.
Import JsString JsNumber Url Palette Generator Controls.
Import PaletteFacts StringFacts ExportFacts EncodeFacts RoundTripFacts ParserFacts.
Import ReferenceFacts.

Local Open Scope string_scope.

Lemma truthy_app_r (a b : string) : truthy b = true -> truthy (a ++ b) = true.
Proof. intros H. destruct a; [exact H|reflexivity]. Qed.

Section Panel.

Variable show : Q -> string.
Variable origin : string.

(** X21.  After [refreshGeneratorPreview] the actions of the panel match
    what it shows: the link and the copy button of the reference are
    disabled exactly when there is no reference (owner or repository
    blank), the copy button of the Markdown exactly when there is no
    Markdown, and Markdown is offered for an SVG card only.  A JSON
    document is fetched from the reference shown, an SVG card is not
    fetched. *)
Theorem preview_actions_match_content (f : Form) (p : Preview) :
  let q := refreshGeneratorPreview show origin f p in
  let blank := negb (truthy (trim (gen_owner f))) || negb (truthy (trim (gen_repo f))) in
  gen_url q = (if blank then "" else origin ++ buildGeneratorPath show f)
  /\ truthy (gen_url q) = negb blank
  /\ open_disabled q = negb (truthy (gen_url q))
  /\ copy_url_disabled q = negb (truthy (gen_url q))
  /\ copy_md_disabled q = negb (truthy (gen_md q))
  /\ truthy (gen_md q) = negb blank && (current_format f =? "svg")
  /\ fetched q
     = (if negb blank && negb (current_format f =? "svg") then Some (gen_url q)
        else None).
Proof.
  intros q blank. unfold q, refreshGeneratorPreview.
  assert (Hpath : truthy (buildGeneratorPath show f) = negb blank).
  { unfold buildGeneratorPath. fold blank. destruct blank; [reflexivity|].
    cbv zeta. destruct (truthy (serialize (generatorParams show f))); reflexivity. }
  assert (Hblank : blank = true -> buildGeneratorPath show f = "").
  { intros E. unfold buildGeneratorPath. fold blank. now rewrite E. }
  rewrite Hpath. destruct blank; cbn [negb].
  - repeat split.
  - cbv zeta.
    assert (Ht : truthy (origin ++ buildGeneratorPath show f) = true)
      by (now apply truthy_app_r).
    destruct (current_format f =? "svg"); cbn [gen_url gen_md open_disabled
      copy_url_disabled copy_md_disabled fetched negb andb]; rewrite Ht;
      repeat split.
Qed.

(** A character of an origin or of a name that a Markdown image can
    hold. *)
Lemma uri_piece_embed :
  forall c, implb (not_char ")" c)
              (all_chars (not_char ")") (piece uri_unreserved c)) = true.
Proof. apply forall_ascii. vm_compute. reflexivity. Qed.

Lemma form_piece_embed : forall c, all_chars (not_char ")") (form_piece c) = true.
Proof. apply forall_ascii. vm_compute. reflexivity. Qed.

Lemma form_encode_embed (s : string) : all_chars (not_char ")") (form_encode s) = true.
Proof.
  induction s as [|c r IH]; [reflexivity|].
  cbn [form_encode]. fold (form_piece c). now rewrite all_chars_app, form_piece_embed, IH.
Qed.

Lemma serialize_embed (params : list (string * string)) :
  all_chars (not_char ")") (serialize params) = true.
Proof.
  unfold serialize. apply all_chars_join; [reflexivity|].
  apply Forall_forall. intros x Hx. apply in_map_iff in Hx as [[k v] [<- _]].
  cbn [fst snd]. rewrite !all_chars_app, !form_encode_embed. reflexivity.
Qed.

Lemma encode_embed (s : string) :
  all_chars (not_char ")") s = true ->
  all_chars (not_char ")") (encodeURIComponent s) = true.
Proof.
  apply all_chars_encode. intros c Hc. exact (implb_elim _ _ (uri_piece_embed c) Hc).
Qed.

(** X22.  The Markdown the panel offers for an SVG card can be pasted
    into the import field: it is unwrapped to the reference shown beside
    it and imported as that reference is, whatever [new URL] makes of
    it. *)
Theorem preview_markdown_imports (newURL : string -> option URL) (f : Form)
    (p : Preview) :
  gen_kind f = "repo" \/ gen_kind f = "quality" ->
  gen_format f = "svg" ->
  name_ok (gen_owner f) = true -> name_ok (gen_repo f) = true ->
  all_chars (not_char ")") (gen_owner f) = true ->
  all_chars (not_char ")") (gen_repo f) = true ->
  all_chars embed_char origin = true ->
  let q := refreshGeneratorPreview show origin f p in
  gen_md q = "![Repo Inspector Card](" ++ gen_url q ++ ")"
  /\ extractGeneratorImportUrl (gen_md q) = gen_url q
  /\ parseGeneratorImport newURL (gen_md q) = parseGeneratorImport newURL (gen_url q).
Proof.
  intros Hk Hf Ho Hr Hop Hrp Horigin q.
  assert (Hf' : gen_format f = "svg" \/ gen_format f = "json") by now left.
  destruct (export_text show f Hk Hf' Ho Hr) as [Ht Hsafe].
  destruct (name_ok_parts _ Ho) as (Hot & _ & Hotr).
  destruct (name_ok_parts _ Hr) as (Hrt & _ & Hrtr).
  assert (Hq : refreshGeneratorPreview show origin f p = mkPreview (origin ++ buildGeneratorPath show f)
                     ("![Repo Inspector Card](" ++ (origin ++ buildGeneratorPath show f)
                        ++ ")")
                     (Some (origin ++ buildGeneratorPath show f)) (json_text p) false
                     true (Some (origin ++ buildGeneratorPath show f)) false false
                     false None).
  { unfold refreshGeneratorPreview. rewrite Ht. cbn [negb]. cbv zeta.
    unfold current_format. now rewrite Hf. }
  unfold q. rewrite Hq. cbn [gen_md gen_url]. split; [reflexivity|].
  assert (Hparen : all_chars (not_char ")") (buildGeneratorPath show f) = true).
  { unfold buildGeneratorPath. rewrite Hotr, Hrtr, Hot, Hrt. cbn [negb orb]. cbv zeta.
    assert (Hp : all_chars (not_char ")") (generatorPathname f) = true).
    { unfold generatorPathname.
      rewrite (current_kind_eq f Hk), (current_format_eq f Hf'), Hotr, Hrtr.
      rewrite !all_chars_app, (encode_embed _ Hop), (encode_embed _ Hrp).
      rewrite Hf. destruct Hk as [-> | ->]; reflexivity. }
    destruct (truthy (serialize (generatorParams show f))); [|exact Hp].
    now rewrite !all_chars_app, Hp, serialize_embed. }
  assert (Hchars : all_chars embed_char (origin ++ buildGeneratorPath show f) = true).
  { rewrite all_chars_app, Horigin. cbn [andb].
    unfold embed_char. apply all_chars_andb; assumption. }
  exact (image_unwrapped "Repo Inspector Card"
           (origin ++ buildGeneratorPath show f) eq_refl
           (truthy_app_r origin _ Ht) Hchars newURL).
Qed.

End Panel.

Lemma preview_markdown_imports_witness :
  let q := refreshGeneratorPreview (fun _ => "") "https://example.org" sample_svg_card
             (mkPreview "" "" None "" false true None true true true None) in
  gen_md q = "![Repo Inspector Card](" ++ gen_url q ++ ")"
  /\ extractGeneratorImportUrl (gen_md q) = gen_url q
  /\ parseGeneratorImport Url.parse (gen_md q) = parseGeneratorImport Url.parse (gen_url q).
Proof.
  apply (preview_markdown_imports (fun _ => "") "https://example.org" Url.parse
           sample_svg_card);
    first [reflexivity | left; reflexivity].
Defined.

End PreviewFacts.
(* ===================================================================== *)
(** ** Trend chart: where the points and the labels go                   *)
(* ===================================================================== *)

Module TrendFacts.
Import Chart ChartLabels ChartFacts.

Local Open Scope Q_scope.

(** *** The points *)

Lemma nth_map_points (n i k : nat) (history : list HistorySample) :
  nth_error (map_points n i history) k
  = option_map (fun it => mkPoint (point_x n (i + k)) (point_y (score_total it)) it)
               (nth_error history k).
Proof.
  revert i k. induction history as [|it tl IH]; intros i k.
  - destruct k; reflexivity.
  - destruct k as [|k]; cbn [map_points nth_error option_map].
    + now rewrite Nat.add_0_r.
    + rewrite IH. now rewrite Nat.add_succ_comm.
Qed.

(** The distance between two neighbouring points. *)
Definition x_step (n : nat) : Q := (width - padX * 2) / x_divisor n.

Lemma x_divisor_positive (n : nat) : 0 < x_divisor n.
Proof.
  unfold x_divisor. change 0 with (inject_Z 0). rewrite <- Zlt_Qlt. lia.
Qed.

Lemma x_step_positive (n : nat) : 0 < x_step n.
Proof.
  unfold x_step. apply Qlt_shift_div_l; [apply x_divisor_positive|].
  rewrite Qmult_0_l. reflexivity.
Qed.

Lemma point_x_linear (n i : nat) :
  point_x n i == 42 + x_step n * inject_Z (Z.of_nat i).
Proof.
  unfold point_x, x_step, padX, width. field.
  intros H. pose proof (x_divisor_positive n) as Hp. rewrite H in Hp.
  discriminate Hp.
Qed.

Lemma x_step_span (n : nat) :
  (2 <= n)%nat -> x_step n * inject_Z (Z.of_nat (n - 1)) == 936.
Proof.
  intros Hn. unfold x_step, x_divisor, width, padX.
  replace (Z.max (Z.of_nat n - 1) 1) with (Z.of_nat (n - 1)) by lia.
  field. intros H.
  assert (Hp : 0 < inject_Z (Z.of_nat (n - 1))).
  { change 0 with (inject_Z 0). rewrite <- Zlt_Qlt. lia. }
  rewrite H in Hp. discriminate Hp.
Qed.

Lemma point_x_increasing (n i j : nat) : (i < j)%nat -> point_x n i < point_x n j.
Proof.
  intros Hij. rewrite !point_x_linear. apply Qplus_lt_r.
  apply Qmult_lt_l; [apply x_step_positive|]. rewrite <- Zlt_Qlt. lia.
Qed.

Lemma point_x_bounds (n i : nat) :
  (2 <= n)%nat -> (i <= n - 1)%nat -> 42 <= point_x n i <= 978.
Proof.
  intros Hn Hi. rewrite point_x_linear. split.
  - rewrite <- (Qplus_0_r 42) at 1. apply Qplus_le_r.
    apply Qmult_le_0_compat; [apply Qlt_le_weak, x_step_positive|].
    change 0 with (inject_Z 0). rewrite <- Zle_Qle. lia.
  - setoid_replace 978 with (42 + 936) by reflexivity. apply Qplus_le_r.
    rewrite <- (x_step_span n Hn).
    apply Qmult_le_l; [apply x_step_positive|]. rewrite <- Zle_Qle. lia.
Qed.

Lemma point_y_bounds (score : Q) :
  0 <= score <= 100 -> 32 <= point_y score <= 268.
Proof.
  intros [H0 H1].
  assert (E : point_y score == 268 - (59 # 25) * score)
    by (unfold point_y, height, padY, min, max; field).
  rewrite E. split.
  - setoid_replace 32 with (268 - (59 # 25) * 100) by reflexivity.
    apply Qplus_le_r, Qopp_le_compat.
    apply Qmult_le_l; [reflexivity|exact H1].
  - setoid_replace 268 with (268 - (59 # 25) * 0) at 2 by reflexivity.
    apply Qplus_le_r, Qopp_le_compat.
    apply Qmult_le_l; [reflexivity|exact H0].
Qed.

(** X23.  With every score between 0 and 100, all the points of the
    chart lie in the plot area, 42 to 978 across and 32 to 268 down; the
    points go from left to right in the order of the history, and the
    last one is on the right edge. *)
Theorem trend_points_in_plot (history : list HistorySample) :
  (2 <= length history)%nat ->
  (forall s, In s history -> 0 <= score_total s <= 100) ->
  let points := chart_points history in
  (forall p, In p points -> (42 <= px p <= 978) /\ (32 <= py p <= 268))
  /\ (forall i j p q, (i < j)%nat ->
        nth_error points i = Some p -> nth_error points j = Some q -> px p < px q)
  /\ (forall p, nth_error points (length history - 1) = Some p -> px p == 978).
Proof.
  intros Hn Hs points. unfold points, chart_points.
  assert (Hnth : forall k p, nth_error (map_points (length history) 0 history) k = Some p ->
            exists it, nth_error history k = Some it
                       /\ p = mkPoint (point_x (length history) k)
                                      (point_y (score_total it)) it).
  { intros k p Hp. rewrite nth_map_points in Hp.
    destruct (nth_error history k) as [it|]; [|discriminate Hp].
    exists it. split; [reflexivity|]. cbn [option_map] in Hp. now injection Hp as <-. }
  split; [|split].
  - intros p Hp. apply In_nth_error in Hp as [k Hk].
    destruct (Hnth k p Hk) as (it & Hit & ->). cbn [px py].
    assert (Hk' : (k < length history)%nat).
    { apply nth_error_Some. now rewrite Hit. }
    split.
    + apply point_x_bounds; [exact Hn|lia].
    + apply point_y_bounds, Hs. eapply nth_error_In; eassumption.
  - intros i j p q Hij Hp Hq.
    destruct (Hnth i p Hp) as (? & _ & ->). destruct (Hnth j q Hq) as (? & _ & ->).
    cbn [px]. now apply point_x_increasing.
  - intros p Hp. destruct (Hnth _ p Hp) as (? & _ & ->). cbn [px].
    rewrite point_x_linear, (x_step_span _ Hn). reflexivity.
Qed.

Lemma trend_points_in_plot_witness :
  let points := chart_points sample_history in
  (forall p, In p points -> (42 <= px p <= 978) /\ (32 <= py p <= 268))
  /\ (forall i j p q, (i < j)%nat ->
        nth_error points i = Some p -> nth_error points j = Some q -> px p < px q)
  /\ (forall p, nth_error points (length sample_history - 1) = Some p -> px p == 978).
Proof.
  apply (trend_points_in_plot sample_history).
  - cbn. lia.
  - intros s Hs. cbn in Hs.
    repeat (destruct Hs as [<-|Hs]; [split; vm_compute; discriminate|]).
    destruct Hs.
Defined.

(** *** The labels of the x axis *)

Local Close Scope Q_scope.

Lemma label_shown_spec (n i : nat) :
  label_shown n i = (i mod label_step n =? 0)%nat || (i =? n - 1)%nat.
Proof.
  unfold label_shown.
  destruct (i mod label_step n =? 0)%nat, (i =? n - 1)%nat; reflexivity.
Qed.

Lemma filter_orb_length {A : Type} (a b : A -> bool) (l : list A) :
  (length (filter (fun x => a x || b x) l)
   <= length (filter a l) + length (filter b l))%nat.
Proof.
  induction l as [|x l IH]; [cbn; lia|].
  cbn [filter]. destruct (a x), (b x); cbn [orb length]; lia.
Qed.

Lemma filter_none_in {A : Type} (p : A -> bool) (l : list A) :
  (forall a, In a l -> p a = false) -> filter p l = [].
Proof.
  induction l as [|x l IH]; intros H; [reflexivity|].
  cbn [filter]. rewrite (H x (or_introl eq_refl)). apply IH.
  intros a Ha. apply H. now right.
Qed.

Lemma filter_all_in {A : Type} (p : A -> bool) (l : list A) :
  (forall a, In a l -> p a = true) -> filter p l = l.
Proof.
  induction l as [|x l IH]; intros H; [reflexivity|].
  cbn [filter]. rewrite (H x (or_introl eq_refl)). f_equal. apply IH.
  intros a Ha. apply H. now right.
Qed.

Lemma filter_one (k n : nat) :
  (length (filter (fun i => (i =? k)%nat) (seq 0 n)) <= 1)%nat.
Proof.
  induction n as [|n IH]; [cbn; lia|].
  rewrite seq_S, filter_app, length_app. cbn [filter Nat.add].
  destruct (Nat.eqb_spec n k) as [->|Hne]; cbn [length]; [|lia].
  rewrite filter_none_in; [cbn; lia|].
  intros i Hi. apply in_seq in Hi. apply Nat.eqb_neq. lia.
Qed.

(** The multiples of [s] below [n]. *)
Lemma count_multiples (s n : nat) :
  (0 < s)%nat ->
  length (filter (fun i => (i mod s =? 0)%nat) (seq 0 n)) = ((n + s - 1) / s)%nat.
Proof.
  intros Hs. induction n as [|n IH].
  - cbn [seq filter length]. symmetry. apply Nat.div_small. lia.
  - rewrite seq_S, filter_app, length_app, IH. change (0 + n)%nat with n.
    cbn [filter].
    pose proof (Nat.div_mod_eq n s) as Hdm.
    pose proof (Nat.mod_upper_bound n s ltac:(lia)) as Hlt.
    set (q := (n / s)%nat) in *. set (r := (n mod s)%nat) in *.
    destruct (Nat.eqb_spec r 0) as [Hr|Hr]; cbn [length].
    + assert (E1 : ((n + s - 1) / s = q)%nat).
      { symmetry. apply (Nat.div_unique _ _ _ (s - 1)); [lia|nia]. }
      assert (E2 : ((S n + s - 1) / s = q + 1)%nat).
      { symmetry. apply (Nat.div_unique _ _ _ 0); [lia|nia]. }
      rewrite E1, E2. reflexivity.
    + assert (E1 : ((n + s - 1) / s = q + 1)%nat).
      { symmetry. apply (Nat.div_unique _ _ _ (r - 1)); [lia|nia]. }
      assert (E2 : ((S n + s - 1) / s = q + 1)%nat).
      { symmetry. apply (Nat.div_unique _ _ _ r); [lia|nia]. }
      rewrite E1, E2. lia.
Qed.

Lemma label_step_spec (n : nat) :
  (1 <= label_step n)%nat /\ (n <= 9 * label_step n)%nat
  /\ ((n <= 9)%nat -> label_step n = 1%nat).
Proof.
  unfold label_step.
  pose proof (Nat.div_mod_eq (n + 8) 9) as Hdm.
  pose proof (Nat.mod_upper_bound (n + 8) 9 ltac:(lia)) as Hlt.
  repeat split; lia.
Qed.

(** X24.  However long the history, the x axis carries at most ten
    labels; the first and the last point are always labelled, and with
    nine points or fewer every point is. *)
Theorem trend_labels_bounded (n : nat) :
  (2 <= n)%nat ->
  (length (xLabels n) <= 10)%nat
  /\ In 0%nat (xLabels n) /\ In (n - 1)%nat (xLabels n)
  /\ ((n <= 9)%nat -> xLabels n = seq 0 n).
Proof.
  intros Hn. destruct (label_step_spec n) as (H1 & H9 & Hsmall).
  unfold xLabels. split; [|split; [|split]].
  - rewrite (filter_ext _ _ (label_shown_spec n)).
    pose proof (filter_orb_length (fun i => (i mod label_step n =? 0)%nat)
                  (fun i => (i =? n - 1)%nat) (seq 0 n)) as Hle.
    pose proof (filter_one (n - 1) n) as Hone.
    rewrite count_multiples in Hle by lia.
    assert (Hdiv : ((n + label_step n - 1) / label_step n < 10)%nat).
    { apply Nat.Div0.div_lt_upper_bound. lia. }
    lia.
  - apply filter_In. split; [apply in_seq; lia|].
    rewrite label_shown_spec. rewrite Nat.Div0.mod_0_l. reflexivity.
  - apply filter_In. split; [apply in_seq; lia|].
    rewrite label_shown_spec, Nat.eqb_refl. apply orb_true_r.
  - intros H. apply filter_all_in. intros i _.
    rewrite label_shown_spec, (Hsmall H), Nat.mod_1_r. reflexivity.
Qed.

Lemma trend_labels_bounded_witness :
  (length (xLabels 40) <= 10)%nat
  /\ In 0%nat (xLabels 40) /\ In 39%nat (xLabels 40)
  /\ ((40 <= 9)%nat -> xLabels 40 = seq 0 40).
Proof. apply (trend_labels_bounded 40). lia. Defined.

End TrendFacts.
(* ===================================================================== *)
(** ** The reference of the static generator                             *)
(* ===================================================================== *)

Module StaticFacts.
Import JsString JsNumber Url Palette Generator StaticGenerator.
Import UrlFacts PaletteFacts StringFacts ExportFacts HideFacts ImportFacts EncodeFacts.
Import RoundTripFacts.

Local Open Scope string_scope.

(** *** Reading a parameter after a [set] *)

Lemma get_remove_all (k k' : string) (l : list (string * string)) :
  (k' =? k) = false -> get k (remove_all k' l) = get k l.
Proof.
  intros Hne. unfold remove_all. induction l as [|[k0 v0] tl IH]; [reflexivity|].
  cbn [filter fst get]. destruct (String.eqb_spec k0 k') as [->|H0]; cbn [negb].
  - now rewrite Hne.
  - cbn [get]. now rewrite IH.
Qed.

Lemma get_set (k k' v : string) (l : list (string * string)) :
  get k (set k' v l) = if k' =? k then Some v else get k l.
Proof.
  induction l as [|[k0 v0] tl IH]; [reflexivity|].
  cbn [set get]. destruct (String.eqb_spec k0 k') as [->|H0].
  - cbn [get]. destruct (k' =? k) eqn:E; [reflexivity|]. now apply get_remove_all.
  - cbn [get]. rewrite IH. destruct (String.eqb_spec k0 k) as [->|H1]; [|reflexivity].
    destruct (String.eqb_spec k' k) as [->|_]; [contradiction|reflexivity].
Qed.

Lemma get_fold_set (k : string) (kvs ps : list (string * string)) :
  ~ In k (map fst kvs) ->
  get k (fold_left (fun acc kv => set (fst kv) (snd kv) acc) kvs ps) = get k ps.
Proof.
  revert ps. induction kvs as [|[k0 v0] tl IH]; intros ps Hk; [reflexivity|].
  cbn [fold_left fst snd]. cbn [map fst In] in Hk.
  rewrite IH by tauto. rewrite get_set.
  destruct (String.eqb_spec k0 k) as [->|_]; [tauto|reflexivity].
Qed.

(** *** Trimming twice *)

Lemma trim_end_idem (s : string) : trim_end (trim_end s) = trim_end s.
Proof.
  induction s as [|c r IH]; [reflexivity|].
  cbn [trim_end]. destruct (trim_end r) as [|d t] eqn:E.
  - destruct (is_space c) eqn:Hc; [reflexivity|]. cbn [trim_end]. now rewrite Hc.
  - cbn [trim_end]. cbn [trim_end] in IH. rewrite IH. reflexivity.
Qed.

Lemma trim_end_head (c : ascii) (r : string) :
  is_space c = false -> exists t, trim_end (String c r) = String c t.
Proof.
  intros Hc. cbn [trim_end]. destruct (trim_end r); [rewrite Hc|]; eexists; reflexivity.
Qed.

Lemma trim_start_head (s : string) :
  trim_start s = "" \/ exists c r, trim_start s = String c r /\ is_space c = false.
Proof.
  induction s as [|c r IH]; [now left|].
  cbn [trim_start]. destruct (is_space c) eqn:Hc; [exact IH|].
  right. now exists c, r.
Qed.

Lemma trim_idem (s : string) : trim (trim s) = trim s.
Proof.
  unfold trim. destruct (trim_start_head s) as [E|(c & r & E & Hc)]; rewrite E.
  - reflexivity.
  - destruct (trim_end_head c r Hc) as [t Ht]. rewrite Ht.
    cbn [trim_start]. rewrite Hc. rewrite <- Ht. apply trim_end_idem.
Qed.

Lemma or_else_same (s d : string) : truthy d = true -> or_else (or_else s d) d = or_else s d.
Proof. unfold or_else. intros Hd. destruct (truthy s) eqn:E; now rewrite ?E, ?Hd. Qed.

Section Static.

Variable show : Q -> string.
Variable API_BASE : string.

Lemma api_gets (f : Form) :
  get "owner" (apiParams show f) = Some (trim (gen_owner f))
  /\ get "repo" (apiParams show f) = Some (trim (gen_repo f))
  /\ get "kind" (apiParams show f) = Some (current_kind f)
  /\ get "format" (apiParams show f) = Some (current_format f).
Proof.
  assert (Hnot : forall k, includes GENERATOR_THEME_KEYS k = false ->
            ~ In k (map fst (generatorCustomThemeParams (gen_colors f)))).
  { intros k Hk Hin. apply palette_keys_in in Hin. now apply (not_color k Hk). }
  unfold apiParams, set_if. cbv zeta.
  generalize (bounded show 640 1400 (number_or (gen_width f) 760)).
  generalize (bounded show 350 7000 (number_or (gen_duration f) 1400)).
  generalize (bounded show 0 86400 (number_or (gen_cache_seconds f) 21600)).
  generalize (bounded show 1 10 (number_or (gen_langs f) 4)).
  generalize (bounded show 1 30 (number_or (gen_langs f) 4)).
  generalize (or_else (gen_locale f) "en") (trim (gen_title f))
             (trim (gen_hide f)) (or_else (gen_animation f) "all")
             (trim (gen_owner f)) (trim (gen_repo f)).
  generalize (if gen_animate f then "true" else "false").
  generalize (current_kind f) (current_format f) (current_theme f).
  intros ki fo th an lo ti hi am ow re l30 l10 ca du wi.
  destruct (fo =? "svg"); [|destruct (ki =? "repo"); [|destruct (gen_include_report f)]];
    try (destruct (th =? "custom")); try (destruct (ki =? "repo"));
    try (destruct (truthy ti)); try (destruct (truthy hi));
    rewrite ?get_fold_set by (apply Hnot; reflexivity);
    repeat split; reflexivity.
Qed.

(** X25.  The reference the static generator builds carries the owner
    and the repository as parameters, so the import of the main page
    reads it as a request-shaped reference whatever its path is: owner
    and repository come back trimmed, a repository with dots in its name
    included, and one [.git] at the end of the repository is dropped. *)
Theorem static_reference_request_shaped (newURL : string -> option URL)
    (f : Form) (url : URL) :
  truthy API_BASE = true -> all_chars url_safe API_BASE = true ->
  truthy (trim (gen_owner f)) = true ->
  truthy (strip_git (trim (gen_repo f))) = true ->
  newURL (buildApiUrl show API_BASE f) = Some url ->
  searchParams url = apiParams show f ->
  parseGeneratorImport newURL (buildApiUrl show API_BASE f)
  = Returned (Some (api_record (apiParams show f) (trim (gen_owner f))
                               (strip_git (trim (gen_repo f)))
                               (toLowerCase (trim (current_kind f)))
                               (toLowerCase (trim (current_format f))))).
Proof.
  intros Hb Hbs Ho Hr Hurl Hps.
  assert (Hrt : truthy (trim (gen_repo f)) = true).
  { destruct (trim (gen_repo f)); [discriminate Hr|reflexivity]. }
  assert (Etext : buildApiUrl show API_BASE f
                  = API_BASE ++ "/api?" ++ serialize (apiParams show f)).
  { unfold buildApiUrl. now rewrite Hb, Ho, Hrt. }
  assert (Ht : truthy (buildApiUrl show API_BASE f) = true).
  { rewrite Etext. destruct API_BASE; [discriminate Hb|reflexivity]. }
  assert (Hsafe : all_chars url_safe (buildApiUrl show API_BASE f) = true).
  { rewrite Etext, !all_chars_app, Hbs, serialize_safe. reflexivity. }
  pose proof (extract_safe _ Ht Hsafe) as Hex.
  destruct (api_gets f) as (Gown & Grepo & Gkind & Gfmt).
  rewrite import_of_api.
  rewrite (api_import_of_url newURL _ url) by (rewrite Hex; assumption).
  unfold request_shaped, request_reading. rewrite Hps, Gown, Grepo, Gkind, Gfmt.
  cbn [opt_truthy opt_or]. rewrite Ho, Hrt. cbn [andb].
  rewrite (or_else_truthy _ "" Ho), (or_else_truthy _ "" Hrt), !trim_idem, Ho, Hr.
  cbn [andb].
  unfold current_kind, current_format.
  now rewrite !or_else_same by reflexivity.
Qed.

End Static.

Definition dotted_static_form : Form :=
  set_gen_repo " next.js.git " (set_gen_owner "vercel" sample_svg_card).

Lemma static_reference_request_shaped_witness :
  exists p,
    parseGeneratorImport Url.parse
      (buildApiUrl (fun _ => "") "https://example.org" dotted_static_form)
    = Returned (Some p)
    /\ owner p = "vercel" /\ repo p = "next.js"
    /\ kind p = Some "repo" /\ format p = Some "svg".
Proof.
  eexists. split.
  - apply (static_reference_request_shaped (fun _ => "") "https://example.org" Url.parse
             dotted_static_form
             (mkURL "/api" (apiParams (fun _ => "") dotted_static_form)));
      reflexivity.
  - repeat split.
Defined.

End StaticFacts.
(* ===================================================================== *)
(** ** Which calls a debounced function lets through                     *)
(* ===================================================================== *)

Module DebounceFacts.
Import Debounce.

Local Open Scope Z_scope.
Local Open Scope list_scope.

Section Runs.

Variable A : Type.
Variable timeoutMs : Z.

(** The calls that are let through when the calls [calls] are followed
    by a wait until [finish]: those with no other call before their
    delay is over. *)
Fixpoint let_through (calls : list (Z * A)) (finish : Z) : list A :=
  match calls with
  | [] => []
  | (t, a) :: rest =>
      let next := match rest with [] => finish | (t', _) :: _ => t' end in
      (if t + timeoutMs <=? next then [a] else []) ++ let_through rest finish
  end.

(** The times of the calls go up, from [start] to [finish]. *)
Fixpoint in_order (start : Z) (calls : list (Z * A)) (finish : Z) : Prop :=
  match calls with
  | [] => start <= finish
  | (t, _) :: rest => start <= t /\ in_order t rest finish
  end.

(** At any moment the closure has at most one timer waiting, the one
    its variable names. *)
Definition one_timer (s : state A) : Prop :=
  pending s = []
  \/ exists id due a, pending s = [(id, due, a)] /\ timer s = Some id.

Definition next_time (calls : list (Z * A)) (finish : Z) : Z :=
  match calls with [] => finish | (t, _) :: _ => t end.

Lemma call_after_advance (t : Z) (a : A) (s : state A) :
  one_timer s -> clock s <= t ->
  let s' := call timeoutMs a (advance t s) in
  pending s' = [(next_id s, t + timeoutMs, a)]
  /\ timer s' = Some (next_id s)
  /\ clock s' = t
  /\ runs s' = runs s ++ map snd (filter (due_by A t) (pending s)).
Proof.
  intros Hone Hclock s'. unfold s', call, advance.
  cbn [timer pending clock next_id runs].
  rewrite Z.max_l by exact Hclock.
  repeat split.
  destruct Hone as [E|(id & due & a0 & E & Et)]; rewrite E.
  - cbn [filter]. now destruct (timer s).
  - rewrite Et. cbn [filter]. destruct (due_by A t (id, due, a0)); cbn [negb].
    + reflexivity.
    + unfold clearTimeout. cbn [filter fst]. now rewrite Pos.eqb_refl.
Qed.

Lemma play_runs (calls : list (Z * A)) (finish : Z) (s : state A) :
  one_timer s -> in_order (clock s) calls finish ->
  runs (advance finish (play timeoutMs calls s))
  = runs s
    ++ map snd (filter (due_by A (next_time calls finish)) (pending s))
    ++ let_through calls finish.
Proof.
  revert s. induction calls as [|[t a] rest IH]; intros s Hone Hord.
  - cbn [play fold_left let_through next_time in_order] in *.
    unfold advance. cbn [runs]. rewrite Z.max_l by exact Hord.
    now rewrite app_nil_r.
  - cbn [in_order] in Hord. destruct Hord as [Ht Hord].
    destruct (call_after_advance t a s Hone Ht) as (Hp & Htimer & Hc & Hr).
    change (play timeoutMs ((t, a) :: rest) s)
      with (play timeoutMs rest (call timeoutMs a (advance t s))).
    rewrite IH.
    + rewrite Hr, Hp. cbn [next_time let_through filter map].
      unfold due_by at 2. cbn [fst snd].
      rewrite <- app_assoc. do 2 f_equal.
      destruct rest as [|[t' a'] rest']; cbn [next_time];
        destruct (_ <=? _); reflexivity.
    + right. do 3 eexists. split; [exact Hp|exact Htimer].
    + now rewrite Hc.
Qed.

(** X26.  A debounced function lets a call through exactly when no
    other call comes before its delay is over, and then with the
    arguments of that call; so a burst of calls, each less than the
    delay after the one before, runs the function once, with the
    arguments of the last call. *)
Theorem debounce_lets_settled_calls_through (calls : list (Z * A)) (finish : Z) :
  in_order 0 calls finish ->
  runs (advance finish (play timeoutMs calls initial)) = let_through calls finish.
Proof.
  intros Hord. rewrite play_runs; [reflexivity|now left|exact Hord].
Qed.

End Runs.

Lemma debounce_lets_settled_calls_through_witness :
  runs (advance 1000 (play 180 [(0, "a"); (100, "b"); (250, "c"); (600, "d")]%string
                           initial))
  = ["c"; "d"]%string.
Proof.
  apply (debounce_lets_settled_calls_through string 180
           [(0, "a"); (100, "b"); (250, "c"); (600, "d")]%string 1000).
  cbn. lia.
Defined.

End DebounceFacts.
(* ===================================================================== *)
(** ** The score dial counts up                                          *)
(* ===================================================================== *)

Module DialOrder.
Import JsNumber Dial DialFacts.

Local Open Scope Q_scope.

Lemma cube_le (a b : Q) : 0 <= a -> a <= b -> a * a * a <= b * b * b.
Proof.
  intros H0 Hab.
  assert (Hb : 0 <= b) by lra.
  apply Qmult_le_compat_nonneg; [split|split; assumption].
  - apply Qmult_le_0_compat; assumption.
  - apply Qmult_le_compat_nonneg; split; assumption.
Qed.

Lemma easing_order (p q : Q) :
  0 <= p -> p <= q -> q <= 1 -> 0 <= easing p /\ easing p <= easing q /\ easing q <= 1.
Proof.
  intros H0 Hpq H1.
  assert (Hcube : (1 - q) * (1 - q) * (1 - q) <= (1 - p) * (1 - p) * (1 - p))
    by (apply cube_le; lra).
  assert (Hcube1 : (1 - p) * (1 - p) * (1 - p) <= 1 * 1 * 1)
    by (apply cube_le; lra).
  assert (Hc0 : 0 <= (1 - q) * (1 - q) * (1 - q)).
  { apply Qmult_le_0_compat; [apply Qmult_le_0_compat|]; lra. }
  rewrite !easing_cubic.
  set (x := (1 - q) * (1 - q) * (1 - q)) in *.
  set (y := (1 - p) * (1 - p) * (1 - p)) in *.
  assert (E : 1 * 1 * 1 == 1) by reflexivity.
  repeat split; lra.
Qed.

Lemma Qle_bool_false_lt (x y : Q) : Qle_bool x y = false -> y < x.
Proof.
  intros H. destruct (Qlt_le_dec y x) as [Hlt|Hge]; [exact Hlt|].
  apply Qle_bool_iff in Hge. congruence.
Qed.

Lemma progress_order (start now1 now2 : Q) :
  start <= now1 -> now1 <= now2 ->
  0 <= progress_at start now1
  /\ progress_at start now1 <= progress_at start now2
  /\ progress_at start now2 <= 1.
Proof.
  intros H1 H12.
  assert (E : forall a, a / durationMs == a * (1 # 1200)) by (intros a; reflexivity).
  unfold progress_at.
  destruct (Qle_bool ((now1 - start) / durationMs) 1) eqn:E1;
    destruct (Qle_bool ((now2 - start) / durationMs) 1) eqn:E2;
    try apply Qle_bool_iff in E1; try apply Qle_bool_iff in E2;
    try apply Qle_bool_false_lt in E1; try apply Qle_bool_false_lt in E2;
    rewrite ?E in *; repeat split; lra.
Qed.

(** What a frame at [now] shows, as a number. *)
Definition shown (d : dial) (now : Q) : Q := target d * easing (progress_at (start d) now).

Lemma frame_number (d : dial) (now : Q) :
  scoreNumber (frame d now) = math_round (shown d now).
Proof.
  unfold frame, shown. rewrite unfinished_progress.
  destruct (Qle_bool 1 ((now - start d) / durationMs)) eqn:Hover; [|reflexivity].
  cbn [negb scoreNumber]. apply math_round_comp.
  assert (Hone : progress_at (start d) now == 1).
  { unfold progress_at.
    destruct (Qle_bool ((now - start d) / durationMs) 1) eqn:Hle; [|reflexivity].
    apply Qle_bool_iff in Hle, Hover. now apply Qle_antisym. }
  rewrite easing_cubic, Hone. ring.
Qed.

Lemma math_round_le (a b : Q) : a <= b -> (math_round a <= math_round b)%Z.
Proof. intros H. unfold math_round. apply Qfloor_resp_le. lra. Qed.

(** X27.  From the start of the animation on, the number on the dial
    only goes up: a later frame never shows less than an earlier one,
    and no frame shows less than 0 or more than the target. *)
Theorem dial_counts_up (d : dial) (now1 now2 : Q) :
  0 <= target d -> start d <= now1 -> now1 <= now2 ->
  (0 <= scoreNumber (frame d now1))%Z
  /\ (scoreNumber (frame d now1) <= scoreNumber (frame d now2))%Z
  /\ (scoreNumber (frame d now2) <= math_round (target d))%Z.
Proof.
  intros Ht H1 H12. rewrite !frame_number. unfold shown.
  destruct (progress_order (start d) now1 now2 H1 H12) as (Hp0 & Hp12 & Hp1).
  destruct (easing_order _ _ Hp0 Hp12 Hp1) as (He0 & He12 & He1).
  set (e1 := easing (progress_at (start d) now1)) in *.
  set (e2 := easing (progress_at (start d) now2)) in *.
  assert (H0 : 0 <= target d * e1) by (apply Qmult_le_0_compat; assumption).
  assert (Hm : target d * e1 <= target d * e2).
  { apply Qmult_le_compat_nonneg; split; try assumption; lra. }
  assert (Hu : target d * e2 <= target d).
  { rewrite <- (Qmult_1_r (target d)) at 2.
    apply Qmult_le_compat_nonneg; split; try assumption; lra. }
  split; [|split].
  - change 0%Z with (math_round 0). now apply math_round_le.
  - now apply math_round_le.
  - now apply math_round_le.
Qed.

Lemma dial_counts_up_witness :
  (0 <= scoreNumber (frame (animateScoreDial (Some "87") false 0) 300))%Z
  /\ (scoreNumber (frame (animateScoreDial (Some "87") false 0) 300)
      <= scoreNumber (frame (animateScoreDial (Some "87") false 0) 900))%Z
  /\ (scoreNumber (frame (animateScoreDial (Some "87") false 0) 900)
      <= math_round (target (animateScoreDial (Some "87") false 0)))%Z.
Proof.
  apply (dial_counts_up (animateScoreDial (Some "87") false 0) 300 900);
    vm_compute; discriminate.
Defined.

End DialOrder.
(* ===================================================================== *)
(** ** The references the report page lists                              *)
(* ===================================================================== *)

Module ReportFacts.
Import JsString JsNumber Url Palette Generator ReportPage.
Import UrlFacts PaletteFacts StringFacts ExportFacts ImportFacts EncodeFacts.
Import RoundTripFacts ParserFacts.

Local Open Scope string_scope.

(** A form that holds a reference and nothing else. *)
Definition card_of (owner repo kind format : string) : Form :=
  mkForm owner repo kind format "" "" "" "" "" "" false "" "" "" false "" [] [] [] []
         (mkDisabled false false false false false false).

(** The path of a stats reference. *)
Definition stats_path (kind owner repo format : string) : string :=
  "/api/stats/" ++ kind ++ "/" ++ encodeURIComponent owner ++ "/"
    ++ encodeURIComponent repo ++ "." ++ format.

Lemma stats_text (kind owner repo format rest : string) :
  stats_path kind owner repo format ++ rest
  = "/api/stats/" ++ kind ++ "/" ++ encodeURIComponent owner ++ "/"
      ++ encodeURIComponent repo ++ "." ++ format ++ rest.
Proof. unfold stats_path. now rewrite !HtmlFacts.append_assoc. Qed.

Section Rows.

Variables owner repo : string.
Hypothesis Ho : name_ok owner = true.
Hypothesis Hr : name_ok repo = true.
Hypothesis Hdot : all_chars (not_char ".") repo = true.
Hypothesis Hseg : dot_segment (encodeURIComponent owner) = false.

Lemma stats_path_card (kind format : string) :
  kind = "repo" \/ kind = "quality" -> format = "svg" \/ format = "json" ->
  generatorPathname (card_of owner repo kind format) = stats_path kind owner repo format.
Proof.
  intros Hk Hf. destruct (name_ok_parts _ Ho) as (_ & _ & Hot).
  destruct (name_ok_parts _ Hr) as (_ & _ & Hrt).
  unfold generatorPathname, stats_path.
  rewrite (current_kind_eq (card_of owner repo kind format) Hk),
    (current_format_eq (card_of owner repo kind format) Hf).
  cbn [card_of gen_owner gen_repo gen_kind gen_format]. now rewrite Hot, Hrt.
Qed.

(** How the import reads a stats reference with a given query. *)
Lemma stats_reference_read (kind format : string) (query : option string) :
  kind = "repo" \/ kind = "quality" -> format = "svg" \/ format = "json" ->
  all_chars ref_safe (match query with Some q => q | None => "" end) = true ->
  all_chars url_safe (match query with Some q => q | None => "" end) = true ->
  get "owner" (match query with Some q => parse_query q | None => [] end) = None ->
  parseGeneratorImport Url.parse
    (match query with
     | Some q => stats_path kind owner repo format ++ String "?" q
     | None => stats_path kind owner repo format
     end)
  = Returned (Some (api_record (match query with Some q => parse_query q | None => [] end)
                               owner repo kind format)).
Proof.
  intros Hk Hf Hq Hqs Hown.
  set (c := card_of owner repo kind format).
  pose proof (stats_path_card kind format Hk Hf) as Epath. fold c in Epath.
  destruct (name_ok_parts _ Ho) as (Hot & Hoa & Hotr).
  destruct (name_ok_parts _ Hr) as (Hrt & Hra & Hrtr).
  set (text := match query with
               | Some q => stats_path kind owner repo format ++ String "?" q
               | None => stats_path kind owner repo format
               end).
  assert (Hparse : Url.parse text
                   = Some (mkURL (stats_path kind owner repo format)
                                 (match query with
                                  | Some q => parse_query q
                                  | None => []
                                  end))).
  { unfold text. rewrite parse_path_absolute.
    - rewrite <- Epath, normalize_exported_path; try assumption; [reflexivity|].
      cbn [c card_of gen_owner]. now rewrite Hotr.
    - rewrite <- Epath. now apply pathname_path_safe.
    - exact Hq.
    - eexists. reflexivity. }
  assert (Hsafe : all_chars url_safe (stats_path kind owner repo format) = true).
  { rewrite <- Epath. now apply pathname_safe. }
  assert (Htext : truthy text = true /\ all_chars url_safe text = true).
  { unfold text. destruct query as [q|].
    - split; [reflexivity|]. rewrite all_chars_app, Hsafe. cbn [all_chars andb].
      exact Hqs.
    - split; [reflexivity|exact Hsafe]. }
  destruct Htext as [Ht Hts].
  pose proof (extract_safe _ Ht Hts) as Hex.
  rewrite import_of_api.
  rewrite (api_import_of_url Url.parse _ _ (eq_trans (f_equal truthy Hex) Ht)
             (eq_trans (f_equal Url.parse Hex) Hparse)).
  unfold request_shaped. cbn [searchParams]. rewrite Hown. cbn [opt_truthy andb].
  unfold path_reading. cbn [pathname searchParams]. unfold stats_path.
  rewrite stats_match_path; try assumption.
  - rewrite !decode_encode by assumption.
    rewrite (strip_git_no_dot _ Hdot), Hot, Hrt. cbn [andb].
    destruct Hk as [-> | ->], Hf as [-> | ->]; reflexivity.
  - now apply truthy_encode.
  - now apply truthy_encode.
  - apply encode_no_slash.
  - apply all_chars_andb; [apply encode_no_slash|now apply encode_no_dot].
Qed.

End Rows.

(** X28.  Each of the four stats references the report page lists for a
    repository can be pasted into the import field of the generator: with
    [new URL] behaving as the URL standard describes, it is read as the
    path-shaped reference of that owner and repository, with the kind,
    the format and the parameters of the row. *)
Theorem stats_rows_import (owner repo jobId lang : string) :
  name_ok owner = true -> name_ok repo = true ->
  all_chars (not_char ".") repo = true ->
  dot_segment (encodeURIComponent owner) = false ->
  let rows := apiRows owner repo jobId lang in
  let read key := option_map (parseGeneratorImport Url.parse) (row_path key rows) in
  read "apiLabelStatsJson"
  = Some (Returned (Some (api_record [("langs_count", "8")] owner repo "repo" "json")))
  /\ read "apiLabelStatsSvg"
     = Some (Returned (Some (api_record
               [("theme", "ocean"); ("langs_count", "5"); ("animate", "true");
                ("animation", "all")] owner repo "repo" "svg")))
  /\ read "apiLabelQualityJson"
     = Some (Returned (Some (api_record [] owner repo "quality" "json")))
  /\ read "apiLabelQualitySvg"
     = Some (Returned (Some (api_record
               [("theme", "ocean"); ("animate", "true"); ("animation", "ring")]
               owner repo "quality" "svg"))).
Proof.
  intros Ho Hr Hdot Hseg rows read. unfold read, rows, row_path, apiRows.
  cbv zeta. cbn [get String.eqb Ascii.eqb Bool.eqb option_map].
  repeat split; f_equal.
  - transitivity (parseGeneratorImport Url.parse
                    (stats_path "repo" owner repo "json" ++ "?langs_count=8")).
    + f_equal. rewrite stats_text. reflexivity.
    + exact (stats_reference_read owner repo Ho Hr Hdot Hseg "repo" "json"
               (Some "langs_count=8") (or_introl eq_refl) (or_intror eq_refl)
               eq_refl eq_refl eq_refl).
  - transitivity (parseGeneratorImport Url.parse
                    (stats_path "repo" owner repo "svg"
                       ++ "?theme=ocean&langs_count=5&animate=true&animation=all")).
    + f_equal. rewrite stats_text. reflexivity.
    + exact (stats_reference_read owner repo Ho Hr Hdot Hseg "repo" "svg"
               (Some "theme=ocean&langs_count=5&animate=true&animation=all")
               (or_introl eq_refl) (or_introl eq_refl) eq_refl eq_refl eq_refl).
  - exact (stats_reference_read owner repo Ho Hr Hdot Hseg "quality" "json" None
             (or_intror eq_refl) (or_intror eq_refl) eq_refl eq_refl eq_refl).
  - transitivity (parseGeneratorImport Url.parse
                    (stats_path "quality" owner repo "svg"
                       ++ "?theme=ocean&animate=true&animation=ring")).
    + f_equal. rewrite stats_text. reflexivity.
    + exact (stats_reference_read owner repo Ho Hr Hdot Hseg "quality" "svg"
               (Some "theme=ocean&animate=true&animation=ring")
               (or_intror eq_refl) (or_introl eq_refl) eq_refl eq_refl eq_refl).
Qed.

Lemma stats_rows_import_witness :
  option_map (parseGeneratorImport Url.parse)
    (row_path "apiLabelQualitySvg" (apiRows "acme" "widgets" "42" "en"))
  = Some (Returned (Some (api_record
            [("theme", "ocean"); ("animate", "true"); ("animation", "ring")]
            "acme" "widgets" "quality" "svg"))).
Proof.
  exact (proj2 (proj2 (proj2
    (stats_rows_import "acme" "widgets" "42" "en" eq_refl eq_refl eq_refl eq_refl)))).
Defined.

End ReportFacts.
